(* ===== verification/_CoqProject ===== *)
-Q . S2P
Prelude.v
Buffer.v
Hash.v
Dict.v
DictInv.v
DictTypes.v
DictRefine.v
DictScan.v
DictIter.v
DictIterSafe.v
DictSample.v
GpList.v
Module.v
Timer.v
TimerInv.v
TimerNext.v
LoopTime.v
CStr.v
DictStats.v
Conf.v
ConfInv.v
ConfFloat.v
Yaml.v
YamlInv.v
YamlDoc.v
Registry.v
Codec.v
Dispatch.v
Client.v
Ring.v
RingInv.v
Handler.v
Conn.v
ConnInv.v
ConnSafe.v
Loop.v
Wakeup.v
Pool.v
PoolInv.v
PoolSafe.v
PoolStop.v
Thread.v
ThreadInv.v
Atomic.v
SockAddr.v
Server.v
Ssl.v
SslServer.v
