(* ===== verification/Prelude.v ===== *)
(** * Verification of the gp base library (c-basic-component)

    The library (src/base/*.c, src/include/gp.h) is the base of a network
    server: containers (a byte buffer, an intrusive list, a hash table, a ring
    shared by threads), a hierarchical timer wheel, a configuration tree with
    its YAML loader, a codec for length-prefixed protobuf messages with a
    dispatcher and a blocking client, threads and a thread pool, and an epoll
    loop with reference-counted connections, plain or behind OpenSSL.  This
    development models those parts as functions and steps in Rocq, definition
    by definition as the C is written, and proves what makes each of them
    correct; where the code does not do what it means to, a theorem or an
    evaluated example says what it does.

    ** How the parts interact

    A server (gp_server.c) listens through an acceptor (gp_acceptor.c) at an
    address (gp_sock_address.c).  Its loop (gp_loop.c) runs the timer wheel
    (gp_timer.c), whose slots are intrusive lists (gp_list.c), and waits in
    the epoller (gp_epoller.c) until the next timer; the epoller maps
    descriptors to handlers (gp_handler.c).  A connection (gp_conn.c) owns a
    handler and two buffers (gp_buffer.c), is kept alive by references
    (gp_atomic of gp.h) from the server's dictionary and from queued tasks
    (gp_pending_task.c), and hands its input to the application.  The IPC
    server (gp_ipc_server.c) and the SSL server (gp_ssl_server.c) decode
    frames from the input buffer (gp_codec.c) and find the callback of a
    message by its name (gp_msg_dispatcher.c); both keep their names in the
    hash table (gp_dict.c, gp_hash.c).  At the other end the blocking client
    (gp_sync_client.c, gp_socketop.c) sends a frame and reads the reply.  The
    thread manager (gp_thread.c) carries the workers of the thread pool
    (gp_threadpool.c), whose tasks are on a list too.  The configuration tree
    (gp_conf.c) is filled by the loader (gp_conf_yaml_loader.c); modules
    (gp_module.c) are initialised from a list.

    ** Conventions

    [res] (this file) is the outcome of C code: a value, [Abort] or [Ub]
    (undefined behaviour: an access outside an object, a NULL or freed
    pointer, a signed overflow).  Machine integers are [Z] with the wrap-around
    written out ([u32], [s32], [u64]).  Allocation succeeds; the addresses
    that [malloc] gives are arguments where they matter.  What the kernel, the
    application or a foreign library answers is a parameter, with its
    documented laws as a class or as hypotheses.  A loop whose recursion is
    not structural has [fuel]; running out of it is [Ub], [None] or a flag
    [false], as each file says, and a theorem that the result is a value says
    that the fuel is enough.

    ** Files

    - Prelude: outcomes, fixed-width words, memory as lists of bytes, shared
      lemmas and tactics.
    - Buffer (gp_buffer.c): [gp_buffer] with reader and writer index, growth
      and [make_space], the integers in network order, [buffer_read_fd].
    - Hash (gp_hash.c): [siphash], [siphash_nocase].
    - Dict, DictInv, DictRefine, DictScan, DictTypes (gp_dict.c): the two
      tables and incremental rehashing; the representation invariant; all
      operations as those of a finite map; the cursor scan; the [dictType]s
      for strings and ints.  The class [DictTypeOk] is the contract between
      the table and its key types.
    - DictIter, DictIterSafe, DictSample (gp_dict.c): iterators, safe and with
      a fingerprint; random entries.
    - DictStats (gp_dict.c): the statistics, counted, rounded and printed.
    - GpList (gp_list.c): a memory of nodes and list heads, pointer by pointer,
      and the lists it represents.
    - Module (gp_module.c): the list of modules over that memory.
    - Timer, TimerInv (gp_timer.c): five levels of slots, cascading, expiry.
    - TimerNext (gp_timer.c): what [gp_next_timer] computes, and that the
      operations keep [next_timer] up to date.
    - LoopTime (gp_loop.c, [gp_time]): the loop's clock and timers, the rounds
      of [gp_loop_run] with the timeouts they wait for.
    - CStr (strlcpy and strlcat of gp_conf.c, the C library's string functions
      the sources use), Conf, ConfInv, ConfFloat (gp_conf.c): the tree of named
      nodes, its values as text, ints, booleans and floating-point numbers.
    - Yaml, YamlInv, YamlDoc (gp_conf_yaml_loader.c): from libyaml's events to
      the tree; what a load never does; what a document becomes.
    - Registry (the name tables of gp_codec.c, gp_msg_dispatcher.c): the class
      [NameTable], implemented by the hash table.
    - Codec (gp_codec.c): frames over the buffer; the class [Protobuf] is what
      is used of protobuf-c.
    - Dispatch ([on_message] of gp_ipc_server.c, [handle_ssl_msg] of
      gp_ssl_server.c): a frame per read event to the callback of its name.
    - Client (gp_socketop.c, gp_sync_client.c): blocking reads and writes, a
      request and its reply.
    - Ring, RingInv (gp_ringbuffer.c): each shared access of [gp_ring_push]
      and [gp_ring_pop] is a step; any number of threads interleave.
    - Handler (gp_handler.c, gp_epoller.c): event masks and epoll_ctl.
    - Conn, ConnInv, ConnSafe, Loop (gp_conn.c, gp_pending_task.c, gp_server.c,
      gp_loop.c): the connections, their tasks, and the loop as a reachability
      relation.
    - Wakeup (gp_loop.c, gp_epoller.c): the eventfd, [poller_poll], a whole
      round, and what a pass over the tasks leaves behind.
    - Pool, PoolInv, PoolSafe, PoolStop (gp_threadpool.c, the mutex and
      condition variable macros of gp.h): workers and clients as a step
      machine; [destroy_task_processor] drains the list and joins the workers.
    - Thread, ThreadInv (gp_thread.c): a managed thread and its clients as
      such a machine.
    - Atomic (gp_atomic of gp.h): the counter; testing it takes two steps.
    - SockAddr (gp_sock_address.c, address functions of gp_socketop.c,
      gp_system.c): socket addresses as bytes, the process's name.
    - Server (gp_acceptor.c, gp_server.c, gp_ipc_server.c): setting up a server
      and accepting a connection, with the system calls recorded.
    - Ssl (gp_ssl_server.c): the handlers of a connection behind OpenSSL.
    - SslServer (gp_ssl_server.c, gp_ipc_server.c): the server's context, key
      and certificate, over the class [SslContext]; the default callbacks.

    ** What is proved

    - Refinement: the buffer is a byte queue, the hash table a finite map, the
      pointer lists are lists, a connection's output is the stream of what was
      written to it, messages arrive in whatever pieces and are handled in
      order, at most one per read event, what SSL delivers is what the application takes.
    - Invariants and safety over all interleavings or all histories: pending
      reservations tile the ring; tasks and threads run once and nothing is
      freed before they end; a pool that is stopped has run every task and no
      thread uses it; a connection's count is the number of its
      references, and it is not used after it was freed; final values survive
      every set, prune and load; a scan misses nothing while the table is
      resized, a safe iteration nothing while the client changes it, the
      entry it saved as the next one apart.
    - Functional correctness of the wheel (who fires at which jiffy, when the
      next timer is due, how long the loop waits for it), of epoll's view of
      the handlers, of configuration names, of the modules' order, of the
      system calls that set up a server.
    - Round trips: frames, documents, requests and replies, socket addresses.
    - Termination and progress: scans, traversals, loads with circular
      includes, threads that wait for others in the ring, in the pool (short of
      [wait_task], which locks itself out), in its end and in the thread
      manager, tasks left by a pass that wake the loop, closed connections that
      are freed by the next pass.
    - Errors: what the code does where it is wrong (a failed write drops the
      output, a wait that never returns, slots of the ring that coincide,
      expired timers, a stopped timer that blocks the loop, tasks of timers
      that are slept over, counters that two threads see drop to zero,
      statistics printed behind their array, aliases and nested sequences in a configuration, SSL's end of stream, ...).

    ** Bounds

    Sizes are below 2^31 or 2^32 where the code computes in such a type, as
    the theorems state; the loop's clock is below 2^31 ms, after which
    [gp_run_timers] overflows; a hash table that is asked for has at most 2^59
    slots, since [calloc] cannot serve more; the loader's indices and depth are those of the
    code (INT_MAX, RECURSION_LIMIT); the number of files that can be open
    bounds the recursion through includes.

    ** Not modelled

    Of gp_dict.c: [timeInMilliseconds], whose values are an input of
    [dictRehashMilliseconds]; the optional [bucketfn] of [dictScan]; a negative
    [n] of [dictRehash].  Of gp_conf.c: what [strtod] and [strtof] make of
    a text, a parameter.  What is printed is modelled only where it goes to
    memory or shows memory that was not written.  Of gp.h: types
    without an operation (gp_io, the wait strategy), prototypes, the macros
    that only name a function.  Threads meet on the ring, the pool, the thread
    manager and the atomic counter; the connections are those of one loop in
    its own thread, since the list of tasks that other threads append to has
    no lock.  Atomic steps are sequentially consistent.  The unit tests below
    line 476 of gp_conf_yaml_loader.c are disabled.

    ** What could follow

    The whole loop as one machine, with LoopTime's clock in Wakeup's rounds, so
    that the callbacks of timers are the calls of the application; the
    callbacks of Dispatch and Ssl inside Loop's reachability relation; a pool
    whose workers are the managed threads of Thread. *)

From stdpp Require Export base numbers list gmap strings.
From stdpp Require Import options.
From Stdlib Require Export ZArith Lia.

Local Open Scope Z_scope.

(** ** Outcomes of C code

    [Ok a]: the call returns [a].  [Abort]: the call runs [abort()] or a
    failing [assert].  [Ub]: the call performs an access outside an object,
    dereferences a NULL or dangling pointer, or does something else the C
    standard leaves undefined. *)
Inductive res (A : Type) : Type :=
| Ok (a : A)
| Abort
| Ub.
Arguments Ok {A} a.
Arguments Abort {A}.
Arguments Ub {A}.

Definition res_bind {A B} (m : res A) (k : A -> res B) : res B :=
  match m with
  | Ok a => k a
  | Abort => Abort
  | Ub => Ub
  end.

Declare Scope res_scope.
Delimit Scope res_scope with res.
Notation "'let*' x ':=' m 'in' k" := (res_bind m (fun x => k))
  (at level 10, x pattern, m at level 100, k at level 200) : res_scope.
Open Scope res_scope.

Definition of_option {A} (o : option A) : res A :=
  match o with
  | Some a => Ok a
  | None => Ub
  end.

#[export] Instance res_eq_dec {A} `{EqDecision A} : EqDecision (res A).
Proof.
  intros [a| |] [b| |]; try (right; discriminate); try (left; reflexivity).
  destruct (decide (a = b)) as [->|]; [left; reflexivity|right; congruence].
Defined.

Lemma res_bind_ok {A B} (m : res A) (k : A -> res B) b :
  res_bind m k = Ok b <-> exists a, m = Ok a /\ k a = Ok b.
Proof. destruct m; simpl; naive_solver. Qed.

Lemma res_bind_assoc {A B C} (m : res A) (f : A -> res B) (g : B -> res C) :
  res_bind (res_bind m f) g = res_bind m (fun a => res_bind (f a) g).
Proof. by destruct m. Qed.

Lemma of_option_ok {A} (o : option A) a : of_option o = Ok a <-> o = Some a.
Proof. destruct o; naive_solver. Qed.

(** Splits every hypothesis [let* .. = Ok _] into its steps. *)
Ltac inv_res :=
  repeat match goal with
  | H : res_bind _ _ = Ok _ |- _ =>
      let a := fresh "a" in let Ha := fresh "Ha" in
      apply res_bind_ok in H as (a & Ha & H)
  | H : of_option _ = Ok _ |- _ => apply of_option_ok in H
  | H : Ok _ = Ok _ |- _ => injection H as H
  | H : Ub = Ok _ |- _ => discriminate H
  | H : Abort = Ok _ |- _ => discriminate H
  | p : (_ * _)%type |- _ => destruct p
  end; simplify_eq/=.

(** ** Machine integers: values as [Z], wrap-around written out *)
Definition u8 (z : Z) : Z := z mod 256.
Definition u16 (z : Z) : Z := z mod 65536.
Definition u32 (z : Z) : Z := z mod 4294967296.
Definition u64 (z : Z) : Z := z mod 18446744073709551616.
Definition s8 (z : Z) : Z := (z + 128) mod 256 - 128.
Definition s16 (z : Z) : Z := (z + 32768) mod 65536 - 32768.
Definition s32 (z : Z) : Z := (z + 2147483648) mod 4294967296 - 2147483648.
Definition s64 (z : Z) : Z :=
  (z + 9223372036854775808) mod 18446744073709551616 - 9223372036854775808.

(** [int] arithmetic that must not overflow. *)
Definition int_ok (z : Z) : res Z := if bool_decide (-2147483648 <= z < 2147483648) then Ok z else Ub.
Lemma int_ok_small z : -2147483648 <= z < 2147483648 -> int_ok z = Ok z.
Proof. intros H. unfold int_ok. by rewrite bool_decide_true. Qed.
(** [PTRDIFF_MAX], the largest object. *)
Definition max_object : Z := 9223372036854775807.

(** Linear arithmetic that understands the wraps. *)
Ltac wrap_lia :=
  unfold u8, u16, u32, u64, s8, s16, s32, s64 in *;
  Z.div_mod_to_equations; lia.

Lemma u8_small z : 0 <= z < 256 -> u8 z = z.
Proof. apply Z.mod_small. Qed.
Lemma u16_small z : 0 <= z < 65536 -> u16 z = z.
Proof. apply Z.mod_small. Qed.
Lemma u32_small z : 0 <= z < 4294967296 -> u32 z = z.
Proof. apply Z.mod_small. Qed.
Lemma u64_small z : 0 <= z < 18446744073709551616 -> u64 z = z.
Proof. apply Z.mod_small. Qed.
Lemma s32_small z : -2147483648 <= z < 2147483648 -> s32 z = z.
Proof. intros. wrap_lia. Qed.
Lemma s64_small z : -9223372036854775808 <= z < 9223372036854775808 -> s64 z = z.
Proof. intros. wrap_lia. Qed.

Lemma u8_range z : 0 <= u8 z < 256.
Proof. wrap_lia. Qed.
Lemma u32_range z : 0 <= u32 z < 4294967296.
Proof. wrap_lia. Qed.
Lemma u64_range z : 0 <= u64 z < 18446744073709551616.
Proof. wrap_lia. Qed.

Lemma s8_u8 z : s8 (u8 z) = s8 z.
Proof. wrap_lia. Qed.
Lemma s16_u16 z : s16 (u16 z) = s16 z.
Proof. wrap_lia. Qed.
Lemma s32_u32 z : s32 (u32 z) = s32 z.
Proof. wrap_lia. Qed.
Lemma s64_u64 z : s64 (u64 z) = s64 z.
Proof. wrap_lia. Qed.

Create HintDb wrap.
Create Rewrite HintDb wrap.
#[export] Hint Rewrite u8_small u16_small u32_small u64_small s32_small s64_small
  using lia : wrap.
#[export] Hint Resolve u8_range u32_range u64_range : wrap.
Ltac wsimp := autorewrite with wrap.

(** ** Bytes in memory *)
Definition is_byte (b : Z) : Prop := 0 <= b < 256.
#[export] Instance is_byte_dec b : Decision (is_byte b).
Proof. unfold is_byte. apply _. Defined.

(** The length of a C array as a [Z]. *)
Definition zlen {A} (l : list A) : Z := Z.of_nat (length l).

Lemma zlen_nonneg {A} (l : list A) : 0 <= zlen l.
Proof. unfold zlen. lia. Qed.
Lemma zlen_app {A} (l k : list A) : zlen (l ++ k) = zlen l + zlen k.
Proof. unfold zlen. rewrite length_app. lia. Qed.
Lemma zlen_nil {A} : zlen (@nil A) = 0.
Proof. done. Qed.
Lemma zlen_cons {A} (x : A) l : zlen (x :: l) = 1 + zlen l.
Proof. unfold zlen. simpl. lia. Qed.
#[export] Hint Resolve zlen_nonneg : wrap.

(** [malloc n]: the contents are indeterminate, [junk] is what happens to be
    there.  [calloc] zeroes.  [realloc] keeps the common prefix.  Allocation
    failure is not modelled (the code does not test for it). *)
Definition malloc (junk : nat -> Z) (n : Z) : list Z :=
  (fun i => u8 (junk i)) <$> seq 0 (Z.to_nat n).
Definition calloc (n : Z) : list Z := replicate (Z.to_nat n) 0.
Definition realloc (junk : nat -> Z) (m : list Z) (n : Z) : list Z :=
  take (Z.to_nat n) m ++ drop (length m) (malloc junk n).

Lemma zlen_malloc junk n : 0 <= n -> zlen (malloc junk n) = n.
Proof. intros. unfold zlen, malloc. rewrite length_fmap, length_seq. lia. Qed.
Lemma zlen_calloc n : 0 <= n -> zlen (calloc n) = n.
Proof. intros. unfold zlen, calloc. rewrite length_replicate. lia. Qed.
Lemma zlen_realloc junk m n : 0 <= n -> zlen (realloc junk m n) = n.
Proof.
  intros. unfold zlen, realloc, malloc.
  rewrite length_app, length_take, length_drop, length_fmap, length_seq. lia.
Qed.
Lemma realloc_prefix junk m n k :
  0 <= k <= n -> k <= zlen m -> take (Z.to_nat k) (realloc junk m n) = take (Z.to_nat k) m.
Proof.
  intros. unfold realloc, zlen in *.
  rewrite take_app_le by (rewrite length_take; lia).
  rewrite take_take. f_equal. lia.
Qed.

(** The [n] bytes at offset [off], if they lie inside the object. *)
Definition mem_read {A} (m : list A) (off n : Z) : option (list A) :=
  if bool_decide (0 <= off /\ 0 <= n /\ off + n <= zlen m)
  then Some (take (Z.to_nat n) (drop (Z.to_nat off) m))
  else None.

(** Overwrites the bytes from [off] with [bs], if they lie inside the object. *)
Definition mem_write {A} (m : list A) (off : Z) (bs : list A) : option (list A) :=
  if bool_decide (0 <= off /\ off + zlen bs <= zlen m)
  then Some (take (Z.to_nat off) m ++ bs ++ drop (Z.to_nat off + length bs) m)
  else None.

Lemma mem_read_some {A} (m : list A) off n :
  0 <= off -> 0 <= n -> off + n <= zlen m ->
  mem_read m off n = Some (take (Z.to_nat n) (drop (Z.to_nat off) m)).
Proof. intros. unfold mem_read. by rewrite bool_decide_true. Qed.
Lemma mem_read_inv {A} (m : list A) off n bs :
  mem_read m off n = Some bs ->
  0 <= off /\ 0 <= n /\ off + n <= zlen m /\
  bs = take (Z.to_nat n) (drop (Z.to_nat off) m).
Proof. unfold mem_read. case_bool_decide; naive_solver. Qed.
Lemma zlen_mem_read {A} (m : list A) off n bs : mem_read m off n = Some bs -> zlen bs = n.
Proof.
  intros (?&?&?&->)%mem_read_inv. unfold zlen in *. rewrite length_take, length_drop. lia.
Qed.
Lemma mem_write_some {A} (m : list A) off bs :
  0 <= off -> off + zlen bs <= zlen m ->
  mem_write m off bs = Some (take (Z.to_nat off) m ++ bs ++ drop (Z.to_nat off + length bs) m).
Proof. intros. unfold mem_write. by rewrite bool_decide_true. Qed.
Lemma mem_write_fits {A} (m : list A) off bs :
  0 <= off -> off + zlen bs <= zlen m -> exists m', mem_write m off bs = Some m'.
Proof. eauto using mem_write_some. Qed.
Lemma mem_write_inv {A} (m m' : list A) off bs :
  mem_write m off bs = Some m' ->
  0 <= off /\ off + zlen bs <= zlen m /\
  m' = take (Z.to_nat off) m ++ bs ++ drop (Z.to_nat off + length bs) m.
Proof. unfold mem_write. case_bool_decide; naive_solver. Qed.
Lemma zlen_mem_write {A} (m m' : list A) off bs : mem_write m off bs = Some m' -> zlen m' = zlen m.
Proof.
  intros (?&?&->)%mem_write_inv. unfold zlen in *.
  rewrite !length_app, length_take, length_drop. lia.
Qed.
Lemma mem_read_write_eq {A} (m m' : list A) off bs :
  mem_write m off bs = Some m' -> mem_read m' off (zlen bs) = Some bs.
Proof.
  intros Hw. pose proof (zlen_mem_write _ _ _ _ Hw) as Hl.
  apply mem_write_inv in Hw as (Ho&Hle&->).
  rewrite mem_read_some by (rewrite ?Hl; auto using zlen_nonneg; lia).
  f_equal. unfold zlen in *.
  rewrite drop_app_length' by (rewrite length_take; lia).
  by rewrite take_app_length' by lia.
Qed.
(** A read before the written window sees the old bytes. *)
Lemma mem_read_write_lt {A} (m m' : list A) off bs o n :
  mem_write m off bs = Some m' -> o + n <= off -> mem_read m' o n = mem_read m o n.
Proof.
  intros Hw Hlt. pose proof (zlen_mem_write _ _ _ _ Hw) as Hl.
  apply mem_write_inv in Hw as (Ho&Hle&Hm).
  unfold mem_read. rewrite Hl. case_bool_decide as H; [|done]. f_equal. subst m'.
  unfold zlen in *. rewrite drop_app_le by (rewrite length_take; lia).
  rewrite take_app_le by (rewrite length_drop, length_take; lia).
  rewrite skipn_firstn_comm, take_take. f_equal. lia.
Qed.

(** Memory in pieces. *)
Lemma mem_write_app {A} (a old new rest : list A) off :
  off = zlen a -> length old = length new -> mem_write (a ++ old ++ rest) off new = Some (a ++ new ++ rest).
Proof.
  intros -> Hl. pose proof (zlen_nonneg a). rewrite mem_write_some; [|done|].
  - f_equal. unfold zlen. rewrite Nat2Z.id, take_app_length. do 2 f_equal.
    rewrite (app_assoc a). replace (length a + length new)%nat with (length (a ++ old)) by (rewrite length_app; lia).
    by rewrite drop_app_length.
  - rewrite !zlen_app. pose proof (zlen_nonneg rest). unfold zlen in *. lia.
Qed.
Lemma mem_read_app {A} (a x rest : list A) off n :
  off = zlen a -> n = zlen x -> mem_read (a ++ x ++ rest) off n = Some x.
Proof.
  intros -> ->. rewrite mem_read_some; try apply zlen_nonneg.
  - unfold zlen. by rewrite !Nat2Z.id, drop_app_length, take_app_length.
  - rewrite !zlen_app. pose proof (zlen_nonneg rest). lia.
Qed.

(** ** Byte order

    The host is little-endian (x86-64, as the sources' use of [emmintrin.h]
    and inline assembly requires): an integer in memory is [le_bytes]. *)
Fixpoint le_bytes (n : nat) (z : Z) : list Z :=
  match n with
  | O => []
  | S n => u8 z :: le_bytes n (z / 256)
  end.
Fixpoint le_val (bs : list Z) : Z :=
  match bs with
  | [] => 0
  | b :: bs => b + 256 * le_val bs
  end.
Definition be_bytes (n : nat) (z : Z) : list Z := reverse (le_bytes n z).
Definition be_val (bs : list Z) : Z := le_val (reverse bs).

(** [htobe]/[betoh] of an [n]-byte integer on this host: swap the bytes. *)
Definition bswap (n : nat) (z : Z) : Z := le_val (be_bytes n z).
Definition htonl (z : Z) : Z := bswap 4 (u32 z).
Definition ntohl (z : Z) : Z := bswap 4 (u32 z).

Lemma length_le_bytes n z : length (le_bytes n z) = n.
Proof. revert z. induction n; intros; simpl; auto. Qed.
Lemma length_be_bytes n z : length (be_bytes n z) = n.
Proof. unfold be_bytes. by rewrite length_reverse, length_le_bytes. Qed.
Lemma zlen_be_bytes n z : zlen (be_bytes n z) = Z.of_nat n.
Proof. unfold zlen. by rewrite length_be_bytes. Qed.
Lemma le_bytes_byte n z : Forall is_byte (le_bytes n z).
Proof.
  revert z. induction n; intros; simpl; constructor; auto. apply u8_range.
Qed.
Lemma be_bytes_byte n z : Forall is_byte (be_bytes n z).
Proof. unfold be_bytes. apply Forall_reverse, le_bytes_byte. Qed.

Lemma le_val_le_bytes n z : le_val (le_bytes n z) = z mod 256 ^ Z.of_nat n.
Proof.
  revert z. induction n as [|n IH]; intros z; simpl le_bytes; simpl le_val.
  { by rewrite Z.mod_1_r. }
  rewrite IH, Nat2Z.inj_succ, Z.pow_succ_r by lia. unfold u8.
  rewrite Z.rem_mul_r; [lia|lia|apply Z.pow_pos_nonneg; lia].
Qed.
Lemma le_bytes_le_val bs : Forall is_byte bs -> le_bytes (length bs) (le_val bs) = bs.
Proof.
  induction 1 as [|b bs Hb _ IH]; [done|]. unfold is_byte in Hb. simpl.
  f_equal; [wrap_lia|].
  replace ((b + 256 * le_val bs) / 256) with (le_val bs) by wrap_lia. done.
Qed.
Lemma le_val_bound bs : Forall is_byte bs -> 0 <= le_val bs < 256 ^ zlen bs.
Proof.
  intros H. rewrite <-(le_bytes_le_val bs H), le_val_le_bytes. unfold zlen.
  rewrite length_le_bytes. apply Z.mod_pos_bound, Z.pow_pos_nonneg; lia.
Qed.
Lemma be_val_be_bytes n z : be_val (be_bytes n z) = z mod 256 ^ Z.of_nat n.
Proof. unfold be_val, be_bytes. rewrite reverse_involutive. apply le_val_le_bytes. Qed.
Lemma be_val_bound bs : Forall is_byte bs -> 0 <= be_val bs < 256 ^ zlen bs.
Proof.
  intros. unfold be_val, zlen. rewrite <-length_reverse. by apply le_val_bound, Forall_reverse.
Qed.
(** Storing a swapped integer writes it in network order... *)
Lemma le_bytes_bswap n z : le_bytes n (bswap n z) = be_bytes n z.
Proof.
  unfold bswap. rewrite <-(length_be_bytes n z) at 1.
  apply le_bytes_le_val, be_bytes_byte.
Qed.
(** ... and loading then swapping reads network order. *)
Lemma bswap_le_val n bs : length bs = n -> Forall is_byte bs -> bswap n (le_val bs) = be_val bs.
Proof. intros <- H. unfold bswap, be_bytes, be_val. by rewrite le_bytes_le_val. Qed.

(** ** Lists of lists: replacing one chain *)
Lemma Permutation_length_zlen {A} (l k : list A) : l ≡ₚ k -> zlen l = zlen k.
Proof. intros Hp. unfold zlen. by rewrite Hp. Qed.

Lemma join_insert_perm {A} (t : list (list A)) i c :
  t !! i = Some c ->
  exists rest, mjoin t ≡ₚ c ++ rest /\ forall c', mjoin (<[i:=c']> t) ≡ₚ c' ++ rest.
Proof.
  intros Hi. exists (mjoin (take i t) ++ mjoin (drop (S i) t)). split.
  - rewrite <-(take_drop_middle _ _ _ Hi) at 1. rewrite join_app. simpl.
    rewrite !app_assoc. f_equiv. apply Permutation_app_comm.
  - intros c'. rewrite insert_take_drop by (eapply lookup_lt_Some, Hi).
    rewrite join_app. simpl. rewrite !app_assoc. f_equiv. apply Permutation_app_comm.
Qed.

Lemma elem_of_join_lookup {A} (t : list (list A)) x :
  x ∈ mjoin t <-> exists i c, t !! i = Some c /\ x ∈ c.
Proof.
  rewrite list_elem_of_join. split.
  - intros (c&Hx&Hc). apply list_elem_of_lookup in Hc as [i Hi]. eauto.
  - intros (i&c&Hi&Hx). exists c. split; [done|]. apply list_elem_of_lookup. eauto.
Qed.

Lemma join_nil {A} (t : list (list A)) : mjoin t = [] <-> forall i c, t !! i = Some c -> c = [].
Proof.
  split.
  - intros Hj i [|x c] Hi; [done|]. exfalso.
    assert (Hx : x ∈ mjoin t).
    { apply elem_of_join_lookup. eexists _, _. split; [done|]. by left. }
    rewrite Hj in Hx. by apply elem_of_nil in Hx.
  - intros Hc. destruct (mjoin t) as [|x l] eqn:E; [done|].
    assert (Hx : x ∈ mjoin t) by (rewrite E; by left).
    apply elem_of_join_lookup in Hx as (i&c&Hi&Hx). rewrite (Hc i c Hi) in Hx.
    by apply elem_of_nil in Hx.
Qed.

(** ** Masks *)
Lemma land_mask h n : 0 <= n -> Z.land h (2 ^ n - 1) = h mod 2 ^ n.
Proof.
  intros. replace (2 ^ n - 1) with (Z.ones n) by (rewrite Z.ones_equiv; lia).
  by apply Z.land_ones.
Qed.
