(* ===== verification/Buffer.v ===== *)
(** * gp_buffer.c: the growable byte queue under every connection

    A buffer is one heap object with a reader and a writer index; the bytes
    between them are the queue's contents.  Space is reclaimed from the front
    by [make_space] before the object is reallocated. *)

From S2P Require Import Prelude.
From stdpp Require Import options.
Local Open Scope Z_scope.

Definition k_cheap_prepend : Z := 8.
Definition k_initial_size : Z := 8192.

(** [buffer] is the heap object, [len] the size the code believes it has. *)
Record gp_buffer := mk_gp_buffer {
  buffer : list Z;
  len : Z;
  reader_index : Z;
  writer_index : Z;
}.

Definition set_reader (b : gp_buffer) (r : Z) : gp_buffer :=
  {| buffer := buffer b; len := len b; reader_index := r; writer_index := writer_index b |}.
Definition set_writer (b : gp_buffer) (w : Z) : gp_buffer :=
  {| buffer := buffer b; len := len b; reader_index := reader_index b; writer_index := w |}.
Definition set_bytes (b : gp_buffer) (m : list Z) : gp_buffer :=
  {| buffer := m; len := len b; reader_index := reader_index b; writer_index := writer_index b |}.

Section Operations.
(** The indeterminate contents of fresh memory. *)
Context (junk : nat -> Z).

Definition init_gp_buffer : gp_buffer :=
  {| buffer := malloc junk (k_cheap_prepend + k_initial_size);
     len := k_cheap_prepend + k_initial_size;
     reader_index := k_cheap_prepend;
     writer_index := k_cheap_prepend |}.

Definition create_gp_buffer : gp_buffer := init_gp_buffer.

(** size_t arithmetic wraps at 64 bits. *)
Definition readable_bytes (b : gp_buffer) : Z := u64 (writer_index b - reader_index b).
Definition writable_bytes (b : gp_buffer) : Z := u64 (len b - writer_index b).
Definition prependable_bytes (b : gp_buffer) : Z := reader_index b.

(** [*(peek b) .. ] : [n] bytes at the reader index. *)
Definition peek (b : gp_buffer) (n : Z) : res (list Z) :=
  of_option (mem_read (buffer b) (reader_index b) n).

Definition retrieve_all (b : gp_buffer) : gp_buffer :=
  {| buffer := buffer b; len := len b;
     reader_index := k_cheap_prepend; writer_index := k_cheap_prepend |}.

Definition has_written (b : gp_buffer) (n : Z) : gp_buffer :=
  set_writer b (u64 (writer_index b + n)).

Definition retrieve (b : gp_buffer) (n : Z) : gp_buffer :=
  if n <? readable_bytes b then set_reader b (u64 (reader_index b + n))
  else retrieve_all b.

Definition retrieve_as_string (b : gp_buffer) (n : Z) : res (list Z * gp_buffer) :=
  let* tmp := peek b n in
  Ok (tmp, retrieve b n).

Definition retrieve_all_as_string (b : gp_buffer) : res (list Z * gp_buffer) :=
  retrieve_as_string b (readable_bytes b).

Definition make_space (b : gp_buffer) (n : Z) : res gp_buffer :=
  if u64 (writable_bytes b + prependable_bytes b) <? u64 (n + k_cheap_prepend) then
    Ok {| buffer := realloc junk (buffer b) (u64 (writer_index b + n));
          len := u64 (n + writer_index b);
          reader_index := reader_index b;
          writer_index := writer_index b |}
  else
    let readable := readable_bytes b in
    let* moved := of_option (mem_read (buffer b) (reader_index b) (readable_bytes b)) in
    let* m := of_option (mem_write (buffer b) k_cheap_prepend moved) in
    Ok {| buffer := m; len := len b;
          reader_index := k_cheap_prepend;
          writer_index := u64 (k_cheap_prepend + readable) |}.

Definition ensure_writable_bytes (b : gp_buffer) (n : Z) : res gp_buffer :=
  if writable_bytes b <? n then make_space b n else Ok b.

(** [str] is the object the argument points to; [n] bytes of it are copied. *)
Definition buffer_append (b : gp_buffer) (str : list Z) (n : Z) : res gp_buffer :=
  let* b1 := ensure_writable_bytes b n in
  let* src := of_option (mem_read str 0 n) in
  let* m := of_option (mem_write (buffer b1) (writer_index b1) src) in
  Ok (has_written (set_bytes b1 m) n).

(** What [readv] did: failed with an errno, or delivered these bytes. *)
Inductive readv_result :=
| readv_error (errno : Z)
| readv_data (data : list Z).

Definition extrabuf_size : Z := 65536.

(** Room offered to [readv]: the buffer's tail, and [extrabuf] when that
    is small. *)
Definition iov_total (b : gp_buffer) : Z :=
  let writable := writable_bytes b in
  if writable <? extrabuf_size then writable + extrabuf_size else writable.

(** Returns the buffer, the [size_t] result, and [*saved_errno] if set. *)
Definition buffer_read_fd (b : gp_buffer) (r : readv_result) : res (gp_buffer * Z * option Z) :=
  let writable := writable_bytes b in
  match r with
  | readv_error errno => Ok (b, u64 (-1), Some errno)
  | readv_data data =>
      (* readv scatters the data: first the tail, the rest into extrabuf *)
      let head := take (Z.to_nat writable) data in
      let extrabuf := drop (Z.to_nat writable) data in
      let n := zlen data in
      let* m := of_option (mem_write (buffer b) (writer_index b) head) in
      let b1 := set_bytes b m in
      if n <=? writable then Ok (set_writer b1 (u64 (writer_index b1 + n)), n, None)
      else
        let* b2 := buffer_append (set_writer b1 (len b1)) extrabuf (n - writable) in
        Ok (b2, n, None)
  end.

(** The guarded reads: [abort()] unless enough bytes are readable; the
    comparison is between [size_t]s, so a negative length never passes.  The
    [len + 1] that is allocated is an [int32_t]. *)
Definition peek_str (b : gp_buffer) (n : Z) : res (list Z) :=
  if u64 n <=? readable_bytes b then
    let* _ := int_ok (n + 1) in
    let* msg := peek b n in
    Ok (msg ++ [0])
  else Abort.

Definition peek_int64 (b : gp_buffer) : res Z :=
  if 8 <=? readable_bytes b then
    let* bs := peek b 8 in Ok (s64 (bswap 8 (le_val bs)))
  else Abort.
Definition peek_int32 (b : gp_buffer) : res Z :=
  if 4 <=? readable_bytes b then
    let* bs := peek b 4 in Ok (s32 (bswap 4 (le_val bs)))
  else Abort.
Definition peek_int16 (b : gp_buffer) : res Z :=
  if 2 <=? readable_bytes b then
    let* bs := peek b 2 in Ok (s16 (bswap 2 (le_val bs)))
  else Abort.
Definition peek_int8 (b : gp_buffer) : res Z :=
  if 1 <=? readable_bytes b then
    let* bs := peek b 1 in Ok (s8 (le_val bs))
  else Abort.

Definition read_int64 (b : gp_buffer) : res (Z * gp_buffer) :=
  let* result := peek_int64 b in Ok (result, retrieve b 8).
Definition read_int32 (b : gp_buffer) : res (Z * gp_buffer) :=
  let* result := peek_int32 b in Ok (result, retrieve b 4).
Definition read_int16 (b : gp_buffer) : res (Z * gp_buffer) :=
  let* result := peek_int16 b in Ok (result, retrieve b 2).
Definition read_int8 (b : gp_buffer) : res (Z * gp_buffer) :=
  let* result := peek_int8 b in Ok (result, retrieve b 1).

Definition read_str (b : gp_buffer) (n : Z) : res (list Z * gp_buffer) :=
  let* result := peek_str b n in Ok (result, retrieve b (u64 n)).

Section Protobuf.
(** [protobuf_c_message_unpack] of the protobuf-c library. *)
Context {desc msg : Type} (unpack : desc -> list Z -> option msg).

Definition peek_pb_msg (b : gp_buffer) (d : desc) (n : Z) : res (option msg) :=
  if u64 n <=? readable_bytes b then
    let* bs := peek b n in Ok (unpack d bs)
  else Abort.

Definition read_pb_msg (b : gp_buffer) (d : desc) (n : Z) : res (option msg * gp_buffer) :=
  let* result := peek_pb_msg b d n in Ok (result, retrieve b (u64 n)).
End Protobuf.
End Operations.

(** ** Abstraction: the queue of readable bytes, and well-formedness *)
Definition contents (b : gp_buffer) : list Z :=
  take (Z.to_nat (writer_index b - reader_index b)) (drop (Z.to_nat (reader_index b)) (buffer b)).

Record wf (b : gp_buffer) : Prop := {
  wf_len : zlen (buffer b) = len b;
  wf_reader : k_cheap_prepend <= reader_index b;
  wf_order : reader_index b <= writer_index b;
  wf_writer : writer_index b <= len b;
  wf_max : len b <= max_object;
  wf_bytes : Forall is_byte (buffer b);
}.

Ltac wf_lia :=
  repeat match goal with H : wf _ |- _ => destruct H end;
  unfold max_object, k_cheap_prepend, k_initial_size, extrabuf_size in *; simpl in *; lia.

Lemma readable_bytes_wf b : wf b -> readable_bytes b = writer_index b - reader_index b.
Proof. intros H. unfold readable_bytes. apply u64_small. wf_lia. Qed.
Lemma writable_bytes_wf b : wf b -> writable_bytes b = len b - writer_index b.
Proof. intros H. unfold writable_bytes. apply u64_small. wf_lia. Qed.

Lemma mem_read_contents b :
  wf b -> mem_read (buffer b) (reader_index b) (writer_index b - reader_index b) = Some (contents b).
Proof. intros H. apply mem_read_some; wf_lia. Qed.
Lemma zlen_contents b : wf b -> zlen (contents b) = writer_index b - reader_index b.
Proof. intros H. eapply zlen_mem_read, mem_read_contents, H. Qed.
Lemma readable_bytes_contents b : wf b -> readable_bytes b = zlen (contents b).
Proof. intros H. rewrite zlen_contents, readable_bytes_wf; done. Qed.

(** Peeking within the readable range returns a prefix of the contents. *)
Lemma peek_contents b n :
  wf b -> 0 <= n <= zlen (contents b) -> peek b n = Ok (take (Z.to_nat n) (contents b)).
Proof.
  intros H Hn. rewrite zlen_contents in Hn by done. unfold peek.
  rewrite mem_read_some by wf_lia. simpl. f_equal. unfold contents.
  rewrite take_take. f_equal. lia.
Qed.

Lemma wf_set_bytes b m :
  wf b -> zlen m = zlen (buffer b) -> Forall is_byte m -> wf (set_bytes b m).
Proof. intros [] ??. constructor; simpl; congruence || done. Qed.

Lemma mem_write_bytes m off bs m' :
  mem_write m off bs = Some m' -> Forall is_byte m -> Forall is_byte bs -> Forall is_byte m'.
Proof.
  intros (_&_&->)%mem_write_inv Hm Hb.
  rewrite !Forall_app. auto using Forall_take, Forall_drop.
Qed.

Lemma malloc_bytes junk n : Forall is_byte (malloc junk n).
Proof. unfold malloc. apply Forall_fmap, Forall_true. intros. apply u8_range. Qed.

Section Correctness.
Context (junk : nat -> Z).

Lemma init_gp_buffer_wf : wf (init_gp_buffer junk) /\ contents (init_gp_buffer junk) = [].
Proof.
  split; [|done]. constructor; simpl;
    [apply zlen_malloc| | | | |apply malloc_bytes];
    unfold max_object, k_cheap_prepend, k_initial_size; lia.
Qed.

Lemma retrieve_all_wf b : wf b -> wf (retrieve_all b) /\ contents (retrieve_all b) = [].
Proof.
  intros H. split.
  - constructor; simpl; try apply H; wf_lia.
  - unfold contents; simpl. by rewrite Z.sub_diag.
Qed.

Lemma retrieve_wf b n :
  wf b -> 0 <= n -> wf (retrieve b n) /\ contents (retrieve b n) = drop (Z.to_nat n) (contents b).
Proof.
  intros H Hn. unfold retrieve. rewrite readable_bytes_wf by done.
  destruct (Z.ltb_spec n (writer_index b - reader_index b)) as [Hlt|Hge].
  - rewrite u64_small by wf_lia. split.
    + constructor; simpl; try apply H; wf_lia.
    + unfold contents; simpl. rewrite skipn_firstn_comm, drop_drop. f_equal; [|f_equal]; wf_lia.
  - destruct (retrieve_all_wf b H) as [? ->]. split; [done|].
    symmetry. apply drop_ge. pose proof (zlen_contents b H). unfold zlen in *. lia.
Qed.

Lemma make_space_wf b n :
  wf b -> 0 <= n -> writable_bytes b < n -> writer_index b + n <= max_object ->
  exists b', make_space junk b n = Ok b' /\ wf b' /\ contents b' = contents b /\
    n <= writable_bytes b' /\ writer_index b' <= writer_index b /\
    (n <= len b - k_cheap_prepend - zlen (contents b) -> len b' = len b).
Proof.
  intros H Hn Hw Hmax. unfold make_space.
  rewrite writable_bytes_wf, zlen_contents in * by done.
  unfold prependable_bytes.
  rewrite !u64_small by wf_lia.
  destruct (Z.ltb_spec (len b - writer_index b + reader_index b) (n + k_cheap_prepend)) as [Hlt|Hge].
  - eexists; split; [done|].
    assert (Hl : zlen (realloc junk (buffer b) (writer_index b + n)) = writer_index b + n)
      by (apply zlen_realloc; wf_lia).
    assert (Hwf : wf {| buffer := realloc junk (buffer b) (writer_index b + n);
          len := n + writer_index b; reader_index := reader_index b;
          writer_index := writer_index b |}).
    { constructor; simpl; try wf_lia. unfold realloc. apply Forall_app; split.
      - apply Forall_take, H.
      - apply Forall_drop, malloc_bytes. }
    split_and!; [done| |rewrite writable_bytes_wf by done; simpl; lia|simpl; lia|simpl; wf_lia].
    unfold contents; simpl. rewrite !firstn_skipn_comm. f_equal.
    replace (Z.to_nat (reader_index b) + Z.to_nat (writer_index b - reader_index b))%nat
      with (Z.to_nat (writer_index b)) by wf_lia.
    apply realloc_prefix; wf_lia.
  - rewrite readable_bytes_wf, mem_read_contents by done. simpl.
    pose proof (zlen_contents b H) as Hc.
    destruct (mem_write_fits (buffer b) k_cheap_prepend (contents b)) as [m Hm]; [wf_lia..|].
    rewrite Hm. simpl. eexists; split; [done|].
    pose proof (zlen_mem_write _ _ _ _ Hm) as Hlm.
    pose proof (mem_read_write_eq _ _ _ _ Hm) as Hr.
    rewrite u64_small by wf_lia.
    match goal with |- wf ?x /\ _ => assert (Hwf : wf x) end.
    { constructor; simpl; try wf_lia. eapply mem_write_bytes; [done|apply H|].
      apply Forall_take, Forall_drop, H. }
    split_and!; [done| |rewrite writable_bytes_wf by done; simpl; wf_lia|wf_lia|done].
    apply mem_read_contents in Hwf as Hr2. simpl in Hr2.
    replace (k_cheap_prepend + (writer_index b - reader_index b) - k_cheap_prepend)
      with (zlen (contents b)) in Hr2 by lia.
    congruence.
Qed.

Lemma ensure_writable_bytes_wf b n :
  wf b -> 0 <= n -> writer_index b + n <= max_object ->
  exists b', ensure_writable_bytes junk b n = Ok b' /\ wf b' /\ contents b' = contents b /\
    n <= writable_bytes b' /\ writer_index b' <= writer_index b /\
    (n <= len b - k_cheap_prepend - zlen (contents b) -> len b' = len b).
Proof.
  intros H Hn Hmax. unfold ensure_writable_bytes.
  destruct (Z.ltb_spec (writable_bytes b) n); [by apply make_space_wf|].
  exists b. split_and!; auto with lia.
Qed.

(** Writing at the writer index and advancing it extends the contents. *)
Lemma contents_extend b m bs :
  wf b -> mem_write (buffer b) (writer_index b) bs = Some m -> Forall is_byte bs ->
  let b' := set_writer (set_bytes b m) (writer_index b + zlen bs) in
  wf b' /\ contents b' = contents b ++ bs.
Proof.
  intros H Hm Hb b'. pose proof (zlen_mem_write _ _ _ _ Hm) as Hl.
  pose proof (mem_write_bytes _ _ _ _ Hm (wf_bytes _ H) Hb) as Hby.
  apply mem_write_inv in Hm as (Hw&Hle&->). split.
  { pose proof (zlen_nonneg bs). constructor; simpl; try wf_lia; done. }
  unfold b', contents; simpl. rewrite !firstn_skipn_comm.
  replace (Z.to_nat (reader_index b) + Z.to_nat (writer_index b - reader_index b))%nat
    with (Z.to_nat (writer_index b)) by wf_lia.
  pose proof (zlen_nonneg bs).
  replace (Z.to_nat (reader_index b) + Z.to_nat (writer_index b + zlen bs - reader_index b))%nat
    with (length (take (Z.to_nat (writer_index b)) (buffer b)) + length bs)%nat
    by (rewrite length_take; destruct H; unfold zlen, k_cheap_prepend in *; lia).
  rewrite take_app_add, take_app_length by done.
  rewrite drop_app_le; [done|]. rewrite length_take.
  destruct H; unfold zlen, k_cheap_prepend in *; lia.
Qed.

Lemma buffer_append_wf b str n :
  wf b -> 0 <= n <= zlen str -> writer_index b + n <= max_object -> Forall is_byte str ->
  exists b', buffer_append junk b str n = Ok b' /\ wf b' /\
    contents b' = contents b ++ take (Z.to_nat n) str /\
    writer_index b' <= writer_index b + n /\
    (n <= len b - k_cheap_prepend - zlen (contents b) -> len b' = len b).
Proof.
  intros H Hn Hmax Hb. unfold buffer_append.
  destruct (ensure_writable_bytes_wf b n) as (b1&->&H1&Hc&Hw&Hwi&Hcap); [done|lia|done|]. simpl.
  rewrite mem_read_some by lia. simpl. rewrite drop_0.
  rewrite writable_bytes_wf in Hw by done.
  assert (Hl : zlen (take (Z.to_nat n) str) = n)
    by (unfold zlen in *; rewrite length_take; lia).
  destruct (mem_write_fits (buffer b1) (writer_index b1) (take (Z.to_nat n) str)) as [m Hm];
    [wf_lia..|]. rewrite Hm. simpl. eexists; split; [done|].
  destruct (contents_extend b1 m (take (Z.to_nat n) str)) as [? Hc'];
    [done|done|by apply Forall_take|].
  rewrite Hl in *. unfold has_written. simpl. rewrite u64_small by wf_lia.
  split_and!; [done|congruence|simpl; lia|done].
Qed.

(** *** The integer reads: network order, sign extended, [abort()] when short *)
Lemma peek_int_ok b n :
  wf b -> 0 <= n <= zlen (contents b) ->
  exists bs, peek b n = Ok bs /\ bs = take (Z.to_nat n) (contents b) /\
    length bs = Z.to_nat n /\ Forall is_byte bs.
Proof.
  intros H Hn. exists (take (Z.to_nat n) (contents b)). split_and!; [by apply peek_contents|done| |].
  - rewrite length_take. unfold zlen in *. lia.
  - apply Forall_take, Forall_take, Forall_drop, H.
Qed.
End Correctness.

(** ** The specification: a queue of bytes

    [queue] is the abstract state.  A command either yields an output and a
    new queue, or is refused by [abort()]. *)
Module Spec.
Definition queue := list Z.

Inductive cmd :=
| Append (bs : list Z)
| Retrieve (n : Z)
| RetrieveAll
| EnsureWritable (n : Z)
| ReadInt8 | ReadInt16 | ReadInt32 | ReadInt64
| ReadStr (n : Z)
| RetrieveAllAsString.

Inductive output :=
| ONone
| OInt (z : Z)
| OStr (s : list Z).

Definition read_int (n : nat) (sgn : Z -> Z) (q : queue) : res (output * queue) :=
  if decide (n <= length q)%nat then Ok (OInt (sgn (be_val (take n q))), drop n q) else Abort.

Definition step (c : cmd) (q : queue) : res (output * queue) :=
  match c with
  | Append bs => Ok (ONone, q ++ bs)
  | Retrieve n => Ok (ONone, drop (Z.to_nat n) q)
  | RetrieveAll => Ok (ONone, [])
  | EnsureWritable _ => Ok (ONone, q)
  | ReadInt8 => read_int 1 s8 q
  | ReadInt16 => read_int 2 s16 q
  | ReadInt32 => read_int 4 s32 q
  | ReadInt64 => read_int 8 s64 q
  | ReadStr n =>
      if decide (0 <= n <= zlen q) then Ok (OStr (take (Z.to_nat n) q ++ [0]), drop (Z.to_nat n) q)
      else Abort
  | RetrieveAllAsString => Ok (OStr q, [])
  end.

Fixpoint run (cs : list cmd) (q : queue) : res (list output * queue) :=
  match cs with
  | [] => Ok ([], q)
  | c :: cs =>
      let* (o, q1) := step c q in
      let* (os, q2) := run cs q1 in
      Ok (o :: os, q2)
  end.

(** The bytes a command may add behind the writer index. *)
Definition demand (c : cmd) : Z :=
  match c with Append bs => zlen bs | EnsureWritable n => n | _ => 0 end.
Definition total_demand (cs : list cmd) : Z := foldr (fun c z => demand c + z) 0 cs.

(** Arguments in the range of their C types; [peek_str] adds one to the length. *)
Definition cmd_ok (c : cmd) : Prop :=
  match c with
  | Append bs => Forall is_byte bs
  | Retrieve n | EnsureWritable n => 0 <= n <= max_object
  | ReadStr n => -2147483648 <= n < 2147483647
  | _ => True
  end.
End Spec.

(** The same commands on a [gp_buffer], through the code's functions. *)
Section Implementation.
Context (junk : nat -> Z).
Import Spec.

Definition impl_step (c : cmd) (b : gp_buffer) : res (output * gp_buffer) :=
  match c with
  | Append bs => let* b' := buffer_append junk b bs (zlen bs) in Ok (ONone, b')
  | Retrieve n => Ok (ONone, retrieve b n)
  | RetrieveAll => Ok (ONone, retrieve_all b)
  | EnsureWritable n => let* b' := ensure_writable_bytes junk b n in Ok (ONone, b')
  | ReadInt8 => let* (z, b') := read_int8 b in Ok (OInt z, b')
  | ReadInt16 => let* (z, b') := read_int16 b in Ok (OInt z, b')
  | ReadInt32 => let* (z, b') := read_int32 b in Ok (OInt z, b')
  | ReadInt64 => let* (z, b') := read_int64 b in Ok (OInt z, b')
  | ReadStr n => let* (s, b') := read_str b n in Ok (OStr s, b')
  | RetrieveAllAsString => let* (s, b') := retrieve_all_as_string b in Ok (OStr s, b')
  end.

Fixpoint impl_run (cs : list cmd) (b : gp_buffer) : res (list output * gp_buffer) :=
  match cs with
  | [] => Ok ([], b)
  | c :: cs =>
      let* (o, b1) := impl_step c b in
      let* (os, b2) := impl_run cs b1 in
      Ok (o :: os, b2)
  end.
End Implementation.


(** ** Refinement *)
Section Refinement.
Context (junk : nat -> Z).
Import Spec.

(** The two outcomes agree, and the writer index moved by at most [d]. *)
Definition sim (w d : Z) (r : res (output * gp_buffer)) (s : res (output * queue)) : Prop :=
  match r, s with
  | Ok (o, b), Ok (o', q) => o = o' /\ wf b /\ contents b = q /\ writer_index b <= w + d
  | Abort, Abort => True
  | _, _ => False
  end.

Lemma retrieve_writer b n : wf b -> writer_index (retrieve b n) <= writer_index b.
Proof.
  intros H. unfold retrieve. destruct (_ <? _); simpl; wf_lia.
Qed.

(** One integer read, whatever its width. *)
Lemma read_int_sim b (n : nat) (sgn swap : Z -> Z) (peek_int : gp_buffer -> res Z) :
  wf b ->
  (forall bs, length bs = n -> Forall is_byte bs -> swap (le_val bs) = be_val bs) ->
  (peek_int b = if Z.of_nat n <=? readable_bytes b then
                  let* bs := peek b (Z.of_nat n) in Ok (sgn (swap (le_val bs)))
                else Abort) ->
  sim (writer_index b) 0
    (let* (z, b') := (let* z := peek_int b in Ok (z, retrieve b (Z.of_nat n))) in Ok (OInt z, b'))
    (read_int n sgn (contents b)).
Proof.
  intros H Hswap ->. unfold read_int.
  rewrite readable_bytes_contents by done. unfold zlen.
  destruct (Z.leb_spec (Z.of_nat n) (Z.of_nat (length (contents b)))), decide; try lia; [|done].
  destruct (peek_int_ok b (Z.of_nat n)) as (bs&->&Hbs&Hl&Hby); [done|unfold zlen; lia|].
  rewrite Nat2Z.id in Hbs, Hl. simpl. rewrite Hswap by done.
  destruct (retrieve_wf b (Z.of_nat n)) as [? ->]; [done|lia|]. rewrite Nat2Z.id, Hbs.
  pose proof (retrieve_writer b (Z.of_nat n) H). split_and!; auto; lia.
Qed.

Lemma step_sim c b :
  wf b -> cmd_ok c -> writer_index b + demand c <= max_object ->
  sim (writer_index b) (demand c) (impl_step junk c b) (step c (contents b)).
Proof.
  intros H Hc Hd. destruct c; simpl in *.
  - destruct (buffer_append_wf junk b bs (zlen bs)) as (b'&->&?&Hb'&?&_);
      [done|pose proof (zlen_nonneg bs); lia|done|done|].
    simpl. split_and!; auto. rewrite Hb'. f_equal. unfold zlen. rewrite Nat2Z.id. by apply take_ge.
  - destruct (retrieve_wf b n) as [? ->]; [done|lia|].
    pose proof (retrieve_writer b n H). split_and!; auto; lia.
  - destruct (retrieve_all_wf b H) as [? ->]. split_and!; auto. wf_lia.
  - destruct (ensure_writable_bytes_wf junk b n) as (b'&->&?&?&?&?&_); [done|lia|lia|].
    simpl. split_and!; auto; lia.
  - apply (read_int_sim b 1 s8 (fun z => z)); [done| |done].
    intros [|x [|y bs]] Hl Hby; try discriminate Hl. done.
  - apply (read_int_sim b 2 s16 (bswap 2)); [done|apply bswap_le_val|done].
  - apply (read_int_sim b 4 s32 (bswap 4)); [done|apply bswap_le_val|done].
  - apply (read_int_sim b 8 s64 (bswap 8)); [done|apply bswap_le_val|done].
  - unfold read_str, peek_str. rewrite readable_bytes_contents by done.
    pose proof (zlen_contents b H).
    destruct (Z.leb_spec (u64 n) (zlen (contents b))), decide as [Hn|Hn]; simpl.
    + rewrite int_ok_small by lia. cbn [res_bind]. rewrite peek_contents by done. simpl. rewrite u64_small by wf_lia.
      destruct (retrieve_wf b n) as [? ->]; [done|lia|].
      pose proof (retrieve_writer b n H). split_and!; auto; lia.
    + exfalso. apply Hn. destruct H. unfold max_object, k_cheap_prepend in *. wrap_lia.
    + destruct H. unfold max_object, k_cheap_prepend in *. wrap_lia.
    + done.
  - unfold retrieve_all_as_string, retrieve_as_string.
    rewrite readable_bytes_contents by done.
    rewrite peek_contents by (pose proof (zlen_nonneg (contents b)); auto with lia). simpl.
    destruct (retrieve_wf b (zlen (contents b))) as [? ->]; [done|apply zlen_nonneg|].
    pose proof (retrieve_writer b (zlen (contents b)) H).
    unfold zlen in *. rewrite Nat2Z.id, drop_all, take_ge by done.
    split_and!; auto; lia.
Qed.

Lemma demand_nonneg c : cmd_ok c -> 0 <= demand c.
Proof. destruct c; simpl; try lia. intros. apply zlen_nonneg. Qed.
Lemma total_demand_nonneg cs : Forall cmd_ok cs -> 0 <= total_demand cs.
Proof. induction 1 as [|c cs Hc]; simpl; [lia|]. pose proof (demand_nonneg c Hc). lia. Qed.

Lemma run_sim cs b :
  wf b -> Forall cmd_ok cs -> writer_index b + total_demand cs <= max_object ->
  match impl_run junk cs b, run cs (contents b) with
  | Ok (os, b'), Ok (os', q) => os = os' /\ wf b' /\ contents b' = q
  | Abort, Abort => True
  | _, _ => False
  end.
Proof.
  intros H Hcs. revert b H. induction Hcs as [|c cs Hc Hcs IH]; intros b H Hd; simpl in *; [done|].
  pose proof (total_demand_nonneg cs Hcs). pose proof (demand_nonneg c Hc).
  pose proof (step_sim c b H Hc ltac:(lia)) as Hs. unfold sim in Hs.
  destruct (impl_step junk c b) as [[o b1]| |], (step c (contents b)) as [[o' q1]| |]; try done.
  destruct Hs as (->&Hb1&<-&Hw). simpl.
  specialize (IH b1 Hb1 ltac:(lia)).
  destruct (impl_run junk cs b1) as [[os b2]| |], (run cs (contents b1)) as [[os' q2]| |]; naive_solver.
Qed.
End Refinement.

(** ** Properties *)
Section ReadFd.
Context (junk : nat -> Z).

Lemma buffer_read_fd_ok b data :
  wf b -> Forall is_byte data -> zlen data <= iov_total b ->
  writer_index b + zlen data <= max_object ->
  exists b', buffer_read_fd junk b (readv_data data) = Ok (b', zlen data, None) /\
    wf b' /\ contents b' = contents b ++ data /\ writer_index b' <= writer_index b + zlen data.
Proof.
  intros H Hby Hiov Hmax. unfold buffer_read_fd. pose proof (zlen_nonneg data).
  assert (Hw : writable_bytes b = len b - writer_index b) by (by apply writable_bytes_wf).
  set (head := take (Z.to_nat (writable_bytes b)) data).
  assert (Hh : zlen head = Z.min (writable_bytes b) (zlen data)).
  { unfold head, zlen in *. rewrite length_take. wf_lia. }
  destruct (mem_write_fits (buffer b) (writer_index b) head) as [m Hm]; [wf_lia..|].
  rewrite Hm. simpl.
  destruct (contents_extend b m head H Hm) as [Hb1 Hc1]; [by apply Forall_take|].
  destruct (Z.leb_spec (zlen data) (writable_bytes b)) as [Hle|Hgt].
  - assert (Hd : head = data).
    { apply take_ge. unfold zlen in *. lia. }
    rewrite Hd in *. rewrite u64_small by wf_lia. eexists. split_and!; [done..|]. simpl. lia.
  - rewrite Hh, Z.min_l, Hw in Hb1, Hc1 by lia.
    replace (writer_index b + (len b - writer_index b)) with (len b) in * by lia.
    set (b1 := set_writer _ _) in *.
    set (rest := drop (Z.to_nat (writable_bytes b)) data).
    assert (Hr : zlen rest = zlen data - writable_bytes b).
    { unfold rest, zlen in *. rewrite length_drop. wf_lia. }
    destruct (buffer_append_wf junk b1 rest (zlen data - writable_bytes b))
      as (b2&Ha&?&Hc2&Hw2&_); [done|lia|unfold b1; simpl; lia|by apply Forall_drop|].
    change (set_writer (set_bytes b m) (len (set_bytes b m))) with b1. rewrite Ha. simpl.
    eexists; split_and!; [done|done| |unfold b1 in Hw2; simpl in Hw2; lia].
    rewrite Hc2, Hc1, <-app_assoc. f_equal. rewrite <-Hr. unfold zlen.
    rewrite Nat2Z.id, (take_ge rest) by done. apply take_drop.
Qed.
End ReadFd.

(** C4.  The buffer is a FIFO queue of bytes: any sequence of appends,
    retrievals and integer or string reads, run through the code from a fresh
    buffer, has exactly the outputs, the final contents and the [abort()]s of
    the same sequence on an abstract queue, for as long as the object stays
    below [PTRDIFF_MAX] and no string of INT32_MAX bytes is asked for, whose
    length plus one overflows; no access is ever out of bounds. *)
Theorem buffer_refines_queue (junk : nat -> Z) (cs : list Spec.cmd) :
  Forall Spec.cmd_ok cs ->
  k_cheap_prepend + Spec.total_demand cs <= max_object ->
  match impl_run junk cs (init_gp_buffer junk), Spec.run cs [] with
  | Ok (os, b), Ok (os', q) => os = os' /\ wf b /\ contents b = q
  | Abort, Abort => True
  | _, _ => False
  end.
Proof.
  intros Hcs Hd. destruct (init_gp_buffer_wf junk) as [H Hc].
  rewrite <-Hc. by apply run_sim.
Qed.

Lemma buffer_refines_queue_witness :
  let cs := [Spec.Append [0; 0; 1; 2; 255]; Spec.ReadInt32; Spec.ReadInt8] in
  impl_run (fun _ => 0) cs (init_gp_buffer (fun _ => 0)) <> Ub /\
  Spec.run cs [] = Ok ([Spec.ONone; Spec.OInt 258; Spec.OInt (-1)], []).
Proof.
  pose proof (buffer_refines_queue (fun _ => 0)
    [Spec.Append [0; 0; 1; 2; 255]; Spec.ReadInt32; Spec.ReadInt8]) as H.
  split; [|reflexivity].
  destruct (impl_run _ _ _); [discriminate|discriminate|].
  exfalso. apply H.
  - repeat constructor; unfold is_byte; lia.
  - unfold max_object, k_cheap_prepend. simpl. unfold zlen. simpl. lia.
Defined.

(** [buffer_read_fd] on a successful [readv]: every delivered byte,
    whether it landed in the buffer's tail or in [extrabuf], is appended to
    the contents in order, and the byte count is returned. *)
Theorem buffer_read_fd_appends (junk : nat -> Z) (b : gp_buffer) (data : list Z) :
  wf b -> Forall is_byte data -> zlen data <= iov_total b ->
  writer_index b + zlen data <= max_object ->
  exists b', buffer_read_fd junk b (readv_data data) = Ok (b', zlen data, None) /\
    wf b' /\ contents b' = contents b ++ data.
Proof. intros H1 H2 H3 H4. destruct (buffer_read_fd_ok junk b data H1 H2 H3 H4) as (b'&?&?&?&_). by exists b'. Qed.

Lemma buffer_read_fd_appends_witness :
  let b := init_gp_buffer (fun _ => 0) in
  exists b', buffer_read_fd (fun _ => 0) b (readv_data [7; 8]) = Ok (b', 2, None) /\
    wf b' /\ contents b' = contents b ++ [7; 8].
Proof.
  apply (buffer_read_fd_appends (fun _ => 0) (init_gp_buffer (fun _ => 0)) [7; 8]).
  - apply init_gp_buffer_wf.
  - repeat constructor; unfold is_byte; lia.
  - vm_compute. discriminate.
  - vm_compute. discriminate.
Defined.

(** An append that fits in the free space, counted on both sides of the
    contents, never reallocates: the front is reclaimed instead. *)
Theorem buffer_append_reuses_space (junk : nat -> Z) (b : gp_buffer) (str : list Z) :
  wf b -> Forall is_byte str ->
  k_cheap_prepend + zlen (contents b) + zlen str <= len b ->
  writer_index b + zlen str <= max_object ->
  exists b', buffer_append junk b str (zlen str) = Ok b' /\ len b' = len b /\
    zlen (buffer b') = zlen (buffer b) /\ contents b' = contents b ++ str.
Proof.
  intros H Hby Hfit Hmax. pose proof (zlen_nonneg str).
  destruct (buffer_append_wf junk b str (zlen str)) as (b'&->&Hb'&Hc&_&Hl); [done|lia|done..|].
  specialize (Hl ltac:(lia)). eexists; split_and!; [done|done| |].
  - rewrite (wf_len _ Hb'), (wf_len _ H). lia.
  - rewrite Hc. f_equal. unfold zlen. rewrite Nat2Z.id. by apply take_ge.
Qed.

(** A small buffer whose contents sit at the end of the object. *)
Definition full_buffer : gp_buffer :=
  {| buffer := replicate 30 5; len := 30; reader_index := 28; writer_index := 30 |}.
Lemma full_buffer_wf : wf full_buffer.
Proof. constructor; try (vm_compute; congruence). repeat constructor; unfold is_byte; lia. Qed.

Lemma buffer_append_reuses_space_witness :
  exists b', buffer_append (fun _ => 0) full_buffer [1; 2; 3] 3 = Ok b' /\ len b' = 30 /\
    zlen (buffer b') = 30 /\ contents b' = [5; 5; 1; 2; 3].
Proof.
  apply (buffer_append_reuses_space (fun _ => 0) full_buffer [1; 2; 3]).
  - apply full_buffer_wf.
  - repeat constructor; unfold is_byte; lia.
  - vm_compute. discriminate.
  - vm_compute. discriminate.
Defined.
