(* ===== verification/Hash.v ===== *)
(** * gp_hash.c: the keyed hash behind the dictionary

    A reduced-round SipHash (one round per block, two at the end) over
    64-bit words, and its case-insensitive variant. *)

From S2P Require Import Prelude.
From stdpp Require Import options.
Local Open Scope Z_scope.

(** 64-bit word operations of the macros in gp.h. *)
Definition ROTL (x b : Z) : Z := Z.lor (u64 (Z.shiftl x b)) (Z.shiftr x (64 - b)).
Definition add64 (x y : Z) : Z := u64 (x + y).

Definition siptlw (c : Z) : Z := if (65 <=? c) && (c <=? 90) then c + (97 - 65) else c.

Record sip_state := mk_sip { v0 : Z; v1 : Z; v2 : Z; v3 : Z }.

Definition SIPROUND (s : sip_state) : sip_state :=
  let '(mk_sip v0 v1 v2 v3) := s in
  let v0 := add64 v0 v1 in
  let v1 := ROTL v1 13 in
  let v1 := Z.lxor v1 v0 in
  let v0 := ROTL v0 32 in
  let v2 := add64 v2 v3 in
  let v3 := ROTL v3 16 in
  let v3 := Z.lxor v3 v2 in
  let v0 := add64 v0 v3 in
  let v3 := ROTL v3 21 in
  let v3 := Z.lxor v3 v0 in
  let v2 := add64 v2 v1 in
  let v1 := ROTL v1 17 in
  let v1 := Z.lxor v1 v2 in
  let v2 := ROTL v2 32 in
  mk_sip v0 v1 v2 v3.

(** [*((uint64_t* )(p))] at offset [p] of the object [m]. *)
Definition U8TO64_LE (m : list Z) (p : Z) : res Z :=
  let* bs := of_option (mem_read m p 8) in Ok (le_val bs).

Definition byte_at (m : list Z) (p : Z) : res Z :=
  let* bs := of_option (mem_read m p 1) in Ok (le_val bs).

Definition U8TO64_LE_NOCASE (m : list Z) (p : Z) : res Z :=
  let* c0 := byte_at m p in
  let* c1 := byte_at m (p + 1) in
  let* c2 := byte_at m (p + 2) in
  let* c3 := byte_at m (p + 3) in
  let* c4 := byte_at m (p + 4) in
  let* c5 := byte_at m (p + 5) in
  let* c6 := byte_at m (p + 6) in
  let* c7 := byte_at m (p + 7) in
  Ok (Z.lor (Z.lor (Z.lor (Z.lor (Z.lor (Z.lor (Z.lor
        (siptlw c0)
        (Z.shiftl (siptlw c1) 8))
        (Z.shiftl (siptlw c2) 16))
        (Z.shiftl (siptlw c3) 24))
        (Z.shiftl (siptlw c4) 32))
        (Z.shiftl (siptlw c5) 40))
        (Z.shiftl (siptlw c6) 48))
        (Z.shiftl (siptlw c7) 56)).

Section Siphash.
(** The two variants differ in how a block and a trailing byte are loaded. *)
Context (load_block : list Z -> Z -> res Z) (fold_byte : Z -> Z).

(** [for (; in != end; in += 8)] over [blocks] blocks. *)
Fixpoint sip_blocks (blocks : nat) (m : list Z) (p : Z) (s : sip_state) : res sip_state :=
  match blocks with
  | O => Ok s
  | S blocks =>
      let* w := load_block m p in
      let s := SIPROUND (mk_sip (v0 s) (v1 s) (v2 s) (Z.lxor (v3 s) w)) in
      sip_blocks blocks m (p + 8) (mk_sip (Z.lxor (v0 s) w) (v1 s) (v2 s) (v3 s))
  end.

(** The fall-through [switch (left)]: [case i+1] ors in byte [i]. *)
Fixpoint sip_tail (left : nat) (m : list Z) (p : Z) (b : Z) : res Z :=
  match left with
  | O => Ok b
  | S i =>
      let* c := byte_at m (p + Z.of_nat i) in
      sip_tail i m p (Z.lor b (Z.shiftl (fold_byte c) (8 * Z.of_nat i)))
  end.

Definition siphash_with (m : list Z) (inlen : Z) (k : list Z) : res Z :=
  let* k0 := U8TO64_LE k 0 in
  let* k1 := U8TO64_LE k 8 in
  let fin := inlen - inlen mod 8 in
  let left := Z.land inlen 7 in
  let b := u64 (Z.shiftl inlen 56) in
  let s := mk_sip (Z.lxor 0x736f6d6570736575 k0) (Z.lxor 0x646f72616e646f6d k1)
                  (Z.lxor 0x6c7967656e657261 k0) (Z.lxor 0x7465646279746573 k1) in
  let* s := sip_blocks (Z.to_nat (fin / 8)) m 0 s in
  let* b := sip_tail (Z.to_nat left) m fin b in
  let s := SIPROUND (mk_sip (v0 s) (v1 s) (v2 s) (Z.lxor (v3 s) b)) in
  let s := mk_sip (Z.lxor (v0 s) b) (v1 s) (Z.lxor (v2 s) 0xff) (v3 s) in
  let s := SIPROUND (SIPROUND s) in
  Ok (Z.lxor (Z.lxor (Z.lxor (v0 s) (v1 s)) (v2 s)) (v3 s)).
End Siphash.

Definition siphash : list Z -> Z -> list Z -> res Z := siphash_with U8TO64_LE (fun c => c).
Definition siphash_nocase : list Z -> Z -> list Z -> res Z :=
  siphash_with U8TO64_LE_NOCASE siptlw.

(** ** Words stay words *)
Definition is_u64 (z : Z) : Prop := 0 <= z < 2 ^ 64.
Definition sip_wf (s : sip_state) : Prop :=
  is_u64 (v0 s) /\ is_u64 (v1 s) /\ is_u64 (v2 s) /\ is_u64 (v3 s).

Lemma is_u64_bits z : is_u64 z <-> 0 <= z /\ forall i, 64 <= i -> Z.testbit z i = false.
Proof.
  unfold is_u64. split.
  - intros H. split; [lia|]. intros i Hi.
    rewrite <-(Z.mod_small z (2 ^ 64)) by lia. apply Z.mod_pow2_bits_high. lia.
  - intros [H0 Hb]. split; [done|].
    assert (Hz : z = z mod 2 ^ 64).
    { apply Z.bits_inj'. intros i Hi. destruct (Z.lt_ge_cases i 64).
      - by rewrite Z.mod_pow2_bits_low.
      - rewrite Z.mod_pow2_bits_high by lia. auto. }
    rewrite Hz. apply Z.mod_pos_bound. lia.
Qed.

Lemma lxor_u64 x y : is_u64 x -> is_u64 y -> is_u64 (Z.lxor x y).
Proof.
  rewrite !is_u64_bits. intros [? Hx] [? Hy]. split; [by apply Z.lxor_nonneg|].
  intros i Hi. by rewrite Z.lxor_spec, Hx, Hy.
Qed.
Lemma lor_u64 x y : is_u64 x -> is_u64 y -> is_u64 (Z.lor x y).
Proof.
  rewrite !is_u64_bits. intros [? Hx] [? Hy]. split; [by apply Z.lor_nonneg|].
  intros i Hi. by rewrite Z.lor_spec, Hx, Hy.
Qed.
Lemma u64_is_u64 z : is_u64 (u64 z).
Proof. unfold is_u64. apply u64_range. Qed.
Lemma shiftr_u64 x n : is_u64 x -> 0 <= n -> is_u64 (Z.shiftr x n).
Proof.
  rewrite !is_u64_bits. intros [? Hx] ?. split; [by apply Z.shiftr_nonneg|].
  intros i Hi. rewrite Z.shiftr_spec by lia. apply Hx. lia.
Qed.
Lemma ROTL_u64 x n : is_u64 x -> 0 <= n <= 64 -> is_u64 (ROTL x n).
Proof. intros. apply lor_u64; [apply u64_is_u64|apply shiftr_u64; auto; lia]. Qed.

#[local] Hint Resolve lxor_u64 lor_u64 u64_is_u64 ROTL_u64 : wrap.

Lemma SIPROUND_wf s : sip_wf s -> sip_wf (SIPROUND s).
Proof.
  destruct s as [a b c d]. intros (?&?&?&?). simpl in *.
  unfold sip_wf, add64; simpl. split_and!; auto 12 with wrap lia.
Qed.

(** ** Rotation, addition and exclusive-or can be undone *)
Lemma ROTL_testbit x n i :
  is_u64 x -> 0 < n < 64 -> 0 <= i < 64 ->
  Z.testbit (ROTL x n) i = Z.testbit x ((i - n) mod 64).
Proof.
  intros [Hx0 Hx]%is_u64_bits Hn Hi. unfold ROTL, u64.
  change 18446744073709551616 with (2 ^ 64).
  rewrite Z.lor_spec, Z.mod_pow2_bits_low, Z.shiftl_spec, Z.shiftr_spec by lia.
  destruct (Z.lt_ge_cases i n).
  - rewrite Z.testbit_neg_r by lia. simpl. f_equal.
    apply (Z.mod_unique _ _ (-1)); lia.
  - rewrite Z.mod_small by lia. rewrite (Hx (i + (64 - n))) by lia. apply orb_false_r.
Qed.

Lemma ROTL_inj x y n : is_u64 x -> is_u64 y -> 0 < n < 64 -> ROTL x n = ROTL y n -> x = y.
Proof.
  intros Hx Hy Hn Heq. apply Z.bits_inj'. intros i Hi.
  destruct (Z.lt_ge_cases i 64).
  - apply (f_equal (fun z => Z.testbit z ((i + n) mod 64))) in Heq.
    assert (Hr : 0 <= (i + n) mod 64 < 64) by (apply Z.mod_pos_bound; lia).
    rewrite !ROTL_testbit in Heq by done.
    rewrite Zminus_mod_idemp_l in Heq. replace (i + n - n) with i in Heq by lia.
    by rewrite Z.mod_small in Heq by lia.
  - apply is_u64_bits in Hx as [_ Hx], Hy as [_ Hy]. by rewrite Hx, Hy.
Qed.

Lemma add64_inj_l x y z : is_u64 x -> is_u64 y -> add64 x z = add64 y z -> x = y.
Proof. unfold is_u64, add64. change (2 ^ 64) with 18446744073709551616. intros. wrap_lia. Qed.

Lemma lxor_inj_l x y z : Z.lxor x z = Z.lxor y z -> x = y.
Proof.
  intros H. apply (f_equal (fun w => Z.lxor w z)) in H.
  by rewrite !Z.lxor_assoc, Z.lxor_nilpotent, !Z.lxor_0_r in H.
Qed.

(** ** The case-insensitive loads are loads of the lower-cased bytes *)
Lemma siptlw_byte c : is_byte c -> is_byte (siptlw c).
Proof.
  unfold is_byte, siptlw. intros.
  destruct (Z.leb_spec 65 c), (Z.leb_spec c 90); simpl; lia.
Qed.
Lemma mem_read_fmap (f : Z -> Z) (m : list Z) p n :
  mem_read (f <$> m) p n = option_map (fmap f) (mem_read m p n).
Proof.
  unfold mem_read, zlen. rewrite length_fmap.
  case_bool_decide; [|done]. simpl. by rewrite fmap_take, fmap_drop.
Qed.

Lemma byte_at_siptlw (m : list Z) p :
  byte_at (siptlw <$> m) p = let* c := byte_at m p in Ok (siptlw c).
Proof.
  unfold byte_at. rewrite mem_read_fmap.
  destruct (mem_read m p 1) as [bs|] eqn:E; simpl; [|done].
  apply zlen_mem_read in E. unfold zlen in E.
  destruct bs as [|b [|]]; simpl in *; [lia| |lia]. by rewrite !Z.add_0_r.
Qed.

Lemma lor_shiftl_add a b k : 0 <= k -> 0 <= a < 2 ^ k -> Z.lor a (Z.shiftl b k) = a + b * 2 ^ k.
Proof.
  intros Hk Ha.
  assert (Hl : Z.land a (Z.shiftl b k) = 0).
  { apply Z.bits_inj'. intros i Hi. rewrite Z.land_spec, Z.bits_0, Z.shiftl_spec by done.
    destruct (Z.lt_ge_cases i k).
    - rewrite (Z.testbit_neg_r b) by lia. apply andb_false_r.
    - rewrite <-(Z.mod_small a (2 ^ k)), Z.mod_pow2_bits_high by lia. done. }
  rewrite <-Z.shiftl_mul_pow2 by done.
  rewrite Z.add_nocarry_lxor by done. symmetry. by apply Z.lxor_lor.
Qed.

(** A read of eight bytes, one byte at a time. *)
Lemma byte_at_read m p n (bs : list Z) i c :
  mem_read m p n = Some bs -> 0 <= i -> bs !! Z.to_nat i = Some c -> byte_at m (p + i) = Ok c.
Proof.
  intros (?&?&?&->)%mem_read_inv Hi Hc. unfold byte_at.
  apply lookup_take_Some in Hc as [Hc ?]. rewrite lookup_drop in Hc.
  rewrite mem_read_some by lia. simpl.
  replace (Z.to_nat (p + i)) with (Z.to_nat p + Z.to_nat i)%nat by lia.
  rewrite (drop_S _ c) by done. simpl. f_equal. lia.
Qed.

Lemma U8TO64_LE_NOCASE_eq (m : list Z) p :
  Forall is_byte m -> U8TO64_LE_NOCASE m p = U8TO64_LE (siptlw <$> m) p.
Proof.
  intros Hm. unfold U8TO64_LE. rewrite mem_read_fmap.
  destruct (mem_read m p 8) as [bs|] eqn:E; simpl.
  - pose proof (zlen_mem_read _ _ _ _ E) as Hl.
    assert (Hb : Forall is_byte (siptlw <$> bs)).
    { apply mem_read_inv in E as (_&_&_&->).
      apply Forall_fmap. eapply Forall_impl; [apply Forall_take, Forall_drop, Hm|].
      intros; simpl; by apply siptlw_byte. }
    destruct bs as [|c0 [|c1 [|c2 [|c3 [|c4 [|c5 [|c6 [|c7 [|]]]]]]]]];
      unfold zlen in Hl; simpl in Hl; try lia. clear Hl.
    unfold U8TO64_LE_NOCASE.
    pose proof (byte_at_read m p 8 _ 0 c0 E) as H0. rewrite Z.add_0_r in H0.
    rewrite H0, (byte_at_read m p 8 _ 1 c1 E), (byte_at_read m p 8 _ 2 c2 E),
      (byte_at_read m p 8 _ 3 c3 E), (byte_at_read m p 8 _ 4 c4 E), (byte_at_read m p 8 _ 5 c5 E),
      (byte_at_read m p 8 _ 6 c6 E), (byte_at_read m p 8 _ 7 c7 E) by done. cbn [res_bind].
    f_equal. repeat (apply Forall_cons in Hb as [? Hb]; simpl in Hb). unfold is_byte in *.
    rewrite (lor_shiftl_add _ (siptlw c1)), (lor_shiftl_add _ (siptlw c2)),
      (lor_shiftl_add _ (siptlw c3)), (lor_shiftl_add _ (siptlw c4)),
      (lor_shiftl_add _ (siptlw c5)), (lor_shiftl_add _ (siptlw c6)),
      (lor_shiftl_add _ (siptlw c7)) by lia. cbn [fmap list_fmap le_val]. lia.
  - unfold U8TO64_LE_NOCASE, byte_at.
    destruct (decide (0 <= p)) as [Hp|Hp].
    + assert (Hn : mem_read m (p + 7) 1 = None \/ zlen m <= p + 7).
      { right. unfold mem_read in E. case_bool_decide as H; [done|]. lia. }
      assert (H7 : mem_read m (p + 7) 1 = None).
      { unfold mem_read. rewrite bool_decide_false; [done|]. destruct Hn; [|lia].
        unfold mem_read in H. case_bool_decide; [done|]. lia. }
      rewrite H7. simpl.
      repeat match goal with |- context [mem_read m ?o 1] => destruct (mem_read m o 1); simpl end; done.
    + assert (H0 : mem_read m p 1 = None) by (unfold mem_read; rewrite bool_decide_false by lia; done).
      by rewrite H0.
Qed.

Lemma sip_blocks_nocase n m p s :
  Forall is_byte m ->
  sip_blocks U8TO64_LE_NOCASE n m p s = sip_blocks U8TO64_LE n (siptlw <$> m) p s.
Proof.
  intros Hm. revert p s. induction n as [|n IH]; intros p s; simpl; [done|].
  rewrite U8TO64_LE_NOCASE_eq by done.
  destruct (U8TO64_LE (siptlw <$> m) p); simpl; auto.
Qed.

Lemma sip_tail_nocase n m p b :
  sip_tail siptlw n m p b = sip_tail (fun c => c) n (siptlw <$> m) p b.
Proof.
  revert b. induction n as [|n IH]; intros b; simpl; [done|].
  rewrite byte_at_siptlw. destruct (byte_at m (p + Z.of_nat n)); simpl; auto.
Qed.

(** ** Totality *)
Lemma U8TO64_LE_ok m p :
  Forall is_byte m -> 0 <= p -> p + 8 <= zlen m -> exists w, U8TO64_LE m p = Ok w /\ is_u64 w.
Proof.
  intros Hm Hp Hl. unfold U8TO64_LE. rewrite mem_read_some by lia. simpl.
  eexists; split; [done|].
  pose proof (le_val_bound (take (Z.to_nat 8) (drop (Z.to_nat p) m))) as Hb.
  unfold zlen in *. rewrite length_take, length_drop in Hb.
  replace (Z.of_nat _) with 8 in Hb by lia.
  unfold is_u64. change (256 ^ 8) with (2 ^ 64) in Hb.
  apply Hb. by apply Forall_take, Forall_drop.
Qed.

Lemma sip_blocks_ok n m p s :
  Forall is_byte m -> sip_wf s -> 0 <= p -> p + 8 * Z.of_nat n <= zlen m ->
  exists s', sip_blocks U8TO64_LE n m p s = Ok s' /\ sip_wf s'.
Proof.
  intros Hm. revert p s. induction n as [|n IH]; intros p s Hs Hp Hl; simpl; [eauto|].
  destruct (U8TO64_LE_ok m p Hm Hp) as (w&->&Hw); [lia|]. simpl.
  destruct Hs as (?&?&?&?).
  destruct (SIPROUND_wf (mk_sip (v0 s) (v1 s) (v2 s) (Z.lxor (v3 s) w))) as (?&?&?&?).
  { split_and!; simpl; auto with wrap. }
  apply IH; [|lia|lia]. split_and!; simpl; auto with wrap.
Qed.

Lemma sip_tail_ok n m p b :
  Forall is_byte m -> (n <= 7)%nat -> is_u64 b -> 0 <= p -> p + Z.of_nat n <= zlen m ->
  exists b', sip_tail (fun c => c) n m p b = Ok b' /\ is_u64 b'.
Proof.
  intros Hm. revert b. induction n as [|n IH]; intros b Hn Hb Hp Hl; simpl; [eauto|].
  unfold byte_at. rewrite mem_read_some by lia. simpl.
  destruct (drop (Z.to_nat (p + Z.of_nat n)) m) as [|c rest] eqn:E; simpl.
  { apply (f_equal length) in E. rewrite length_drop in E. unfold zlen in Hl. simpl in E. lia. }
  apply IH; [lia| |lia|lia]. apply lor_u64; [done|].
  assert (Hc : is_byte c).
  { assert (H : Forall is_byte (c :: rest)) by (rewrite <-E; by apply Forall_drop).
    by apply Forall_cons in H as [? _]. }
  unfold is_u64, is_byte in *. rewrite Z.shiftl_mul_pow2 by lia.
  assert (2 ^ (8 * Z.of_nat n) <= 2 ^ 48) by (apply Z.pow_le_mono_r; lia).
  assert (0 < 2 ^ (8 * Z.of_nat n)) by (apply Z.pow_pos_nonneg; lia). nia.
Qed.
Lemma land_7 z : 0 <= z -> Z.land z 7 = z mod 8.
Proof. intros. change 7 with (Z.ones 3). by rewrite Z.land_ones. Qed.

Lemma siphash_ok m inlen k :
  Forall is_byte m -> Forall is_byte k -> 0 <= inlen <= zlen m -> 16 <= zlen k ->
  exists h, siphash m inlen k = Ok h /\ is_u64 h.
Proof.
  intros Hm Hk Hl Hkl. unfold siphash, siphash_with.
  destruct (U8TO64_LE_ok k 0 Hk) as (k0&->&Hk0); [lia..|].
  destruct (U8TO64_LE_ok k 8 Hk) as (k1&->&Hk1); [lia..|]. cbn [res_bind].
  rewrite land_7 by lia.
  assert (Hc : forall c, 0 <= c < 2 ^ 63 -> is_u64 c) by (unfold is_u64; intros; lia).
  edestruct (sip_blocks_ok (Z.to_nat ((inlen - inlen mod 8) / 8)) m 0) as (s&->&Hs);
    [done| |lia| |cbn [res_bind]].
  { split_and!; simpl; apply lxor_u64; auto; apply Hc; lia. }
  { Z.div_mod_to_equations. lia. }
  edestruct (sip_tail_ok (Z.to_nat (inlen mod 8)) m (inlen - inlen mod 8)) as (b&->&Hb);
    [done|Z.div_mod_to_equations; lia|apply u64_is_u64|Z.div_mod_to_equations; lia..|].
  cbn [res_bind]. eexists; split; [done|].
  destruct Hs as (?&?&?&?).
  match goal with |- context [SIPROUND (SIPROUND ?t)] =>
    assert (Ht : sip_wf (SIPROUND (SIPROUND t))) end.
  { apply SIPROUND_wf, SIPROUND_wf.
    match goal with |- context [SIPROUND ?t] => destruct (SIPROUND_wf t) as (?&?&?&?) end.
    { split_and!; simpl; auto with wrap. }
    split_and!; simpl; auto with wrap. apply lxor_u64; [done|]. apply Hc. lia. }
  destruct Ht as (?&?&?&?). auto with wrap.
Qed.

Lemma siphash_nocase_eq m inlen k :
  Forall is_byte m -> siphash_nocase m inlen k = siphash (siptlw <$> m) inlen k.
Proof.
  intros Hm. unfold siphash_nocase, siphash, siphash_with.
  destruct (U8TO64_LE k 0), (U8TO64_LE k 8); cbn [res_bind]; try done.
  rewrite sip_blocks_nocase by done.
  destruct (sip_blocks _ _ _ _ _); cbn [res_bind]; [|done..].
  by rewrite sip_tail_nocase.
Qed.

(** ** Properties *)

(** C29.  [siphash] is total on its domain: given [inlen] readable bytes and a
    16-byte key it returns a 64-bit word and reads nothing outside them. *)
Theorem siphash_total (m : list Z) (inlen : Z) (k : list Z) :
  Forall is_byte m -> Forall is_byte k -> 0 <= inlen <= zlen m -> 16 <= zlen k ->
  exists h, siphash m inlen k = Ok h /\ 0 <= h < 2 ^ 64.
Proof. apply siphash_ok. Qed.

Lemma siphash_total_witness :
  exists h, siphash [97; 98; 99] 3 (replicate 16 0) = Ok h /\ 0 <= h < 2 ^ 64.
Proof.
  apply siphash_total; [repeat constructor; unfold is_byte; lia|
    apply Forall_replicate; unfold is_byte; lia|vm_compute; split; discriminate|vm_compute; discriminate].
Defined.

(** Case-insensitive hashing: [siphash_nocase] is [siphash] of the
    lower-cased input, so two strings that differ only in ASCII case hash
    alike, for every length and key. *)
Theorem siphash_nocase_case_insensitive (m m' : list Z) (inlen : Z) (k : list Z) :
  Forall is_byte m -> Forall is_byte m' -> siptlw <$> m = siptlw <$> m' ->
  siphash_nocase m inlen k = siphash (siptlw <$> m) inlen k /\
  siphash_nocase m inlen k = siphash_nocase m' inlen k.
Proof. intros Hm Hm' Heq. rewrite !siphash_nocase_eq by done. by rewrite Heq. Qed.

Lemma siphash_nocase_case_insensitive_witness :
  let m := [72; 111; 115; 116; 45; 78; 97; 109; 101] in
  let m' := [104; 79; 83; 84; 45; 110; 65; 77; 69] in
  siphash_nocase m 9 (replicate 16 1) = siphash (siptlw <$> m) 9 (replicate 16 1) /\
  siphash_nocase m 9 (replicate 16 1) = siphash_nocase m' 9 (replicate 16 1).
Proof.
  apply siphash_nocase_case_insensitive;
    [repeat constructor; unfold is_byte; lia..|reflexivity].
Defined.

(**  One SipHash round loses nothing: it is injective on 64-bit states,
    so no two inputs are merged before the final fold. *)
Theorem SIPROUND_injective (s t : sip_state) :
  sip_wf s -> sip_wf t -> SIPROUND s = SIPROUND t -> s = t.
Proof.
  destruct s as [a b c d], t as [a' b' c' d'].
  intros (Ha&Hb&Hc&Hd) (Ha'&Hb'&Hc'&Hd') H. simpl in *.
  injection H as H0 H1 H2 H3. unfold add64 in *.
  set (p := u64 (a + b)) in *. set (p' := u64 (a' + b')) in *.
  set (q := Z.lxor (ROTL b 13) p) in *. set (q' := Z.lxor (ROTL b' 13) p') in *.
  set (r := u64 (c + d)) in *. set (r' := u64 (c' + d')) in *.
  set (w := Z.lxor (ROTL d 16) r) in *. set (w' := Z.lxor (ROTL d' 16) r') in *.
  assert (is_u64 p /\ is_u64 p' /\ is_u64 r /\ is_u64 r') as (Hp&Hp'&Hr&Hr')
    by (split_and!; apply u64_is_u64).
  assert (is_u64 q /\ is_u64 q') as [Hq Hq'] by (split; apply lxor_u64; auto with wrap lia).
  assert (is_u64 w /\ is_u64 w') as [Hw Hw'] by (split; apply lxor_u64; auto with wrap lia).
  apply ROTL_inj in H2; [|apply u64_is_u64..|lia].
  rewrite H2 in H1. apply lxor_inj_l, ROTL_inj in H1; [|done..|lia].
  rewrite <-H1 in H2. apply add64_inj_l in H2; [|done..].
  rewrite <-H0 in H3. apply lxor_inj_l, ROTL_inj in H3; [|done..|lia].
  rewrite <-H3 in H0. apply add64_inj_l in H0; [|auto with wrap lia..].
  apply ROTL_inj in H0; [|done..|lia].
  unfold q, q' in H1. rewrite H0 in H1. apply lxor_inj_l, ROTL_inj in H1; [|done..|lia].
  unfold w, w' in H3. rewrite H2 in H3. apply lxor_inj_l, ROTL_inj in H3; [|done..|lia].
  subst b' d'. unfold p, p' in H0. unfold r, r' in H2.
  apply (add64_inj_l a a' b) in H0; [|done..]. apply (add64_inj_l c c' d) in H2; [|done..].
  by subst.
Qed.

Lemma SIPROUND_injective_witness :
  SIPROUND (mk_sip 1 2 3 4) = SIPROUND (mk_sip 1 2 3 4) /\ mk_sip 1 2 3 4 = mk_sip 1 2 3 4.
Proof.
  split; [reflexivity|].
  apply SIPROUND_injective; [unfold sip_wf, is_u64; simpl; lia..|reflexivity].
Defined.
