(* ===== verification/Dict.v ===== *)
(** * gp_dict.c: the incrementally rehashed hash table (data and operations)

    A [dict] owns two tables; while a rehash is in progress ([rehashidx <> -1])
    the buckets of [ht0] below [rehashidx] have moved to [ht1] and every
    lookup consults both.  A bucket is the chain of its entries, head first.
    Pointers to entries and keys are addresses ([e_addr], [k_ptr]); the
    addresses that [malloc] returns are arguments of the operations that
    allocate. *)

From S2P Require Import Prelude Hash.
From stdpp Require Import options.
Local Open Scope Z_scope.

Definition DICT_OK : Z := 0.
Definition DICT_ERR : Z := 1.
Definition DICT_HT_INITIAL_SIZE : Z := 4.
Definition dict_force_resize_ratio : Z := 5.
Definition LONG_MAX : Z := 9223372036854775807.

Section Dict.
(** Contents of keys, and values. *)
Context {K V : Type}.

(** A key object: where it lives and what it holds. *)
Record dkey := mk_dkey { k_ptr : Z; k_val : K }.

(** [val = None]: the union [v] has not been written since [malloc]. *)
Record dictEntry := mk_entry { e_addr : Z; key : dkey; val : option V }.

(** [keyDup] receives the address its [malloc] returned.  A NULL member is
    [None]; the destructors only free, so their presence is what matters. *)
Record dictType := mk_dictType {
  hashFunction : K -> Z;
  keyDup : option (Z -> dkey -> dkey);
  valDup : option (V -> V);
  keyCompare : option (K -> K -> bool);
  keyDestructor : bool;
  valDestructor : bool;
}.

(** [table = None] is the NULL pointer. *)
Record dictht := mk_dictht {
  table : option (list (list dictEntry));
  size : Z;
  sizemask : Z;
  used : Z;
}.

Record dict := mk_dict {
  ht0 : dictht;
  ht1 : dictht;
  rehashidx : Z;
  iterators : Z;
}.

Definition set_ht0 (d : dict) (h : dictht) : dict := mk_dict h (ht1 d) (rehashidx d) (iterators d).
Definition set_ht1 (d : dict) (h : dictht) : dict := mk_dict (ht0 d) h (rehashidx d) (iterators d).
Definition set_rehashidx (d : dict) (i : Z) : dict := mk_dict (ht0 d) (ht1 d) i (iterators d).
Definition set_iterators (d : dict) (i : Z) : dict := mk_dict (ht0 d) (ht1 d) (rehashidx d) i.
Definition set_table (h : dictht) (t : list (list dictEntry)) (u : Z) : dictht :=
  mk_dictht (Some t) (size h) (sizemask h) u.

(** The type of the dictionary, fixed by [_dictInit], and the global
    [dict_can_resize]. *)
Context (ty : dictType) (dict_can_resize : bool).

Definition _dictReset : dictht := mk_dictht None 0 0 0.
Definition _dictInit : dict := mk_dict _dictReset _dictReset (-1) 0.
Definition _dictCreate : dict := _dictInit.

Definition dictIsRehashing (d : dict) : bool := negb (rehashidx d =? -1).
Definition dictSize (d : dict) : Z := u64 (used (ht0 d) + used (ht1 d)).
Definition dictSlots (d : dict) : Z := u64 (size (ht0 d) + size (ht1 d)).

Definition dictHashKey (k : dkey) : Z := hashFunction ty (k_val k).
Definition dictCompareKeys (k1 k2 : dkey) : bool :=
  match keyCompare ty with
  | Some f => f (k_val k1) (k_val k2)
  | None => k_ptr k1 =? k_ptr k2
  end.
(** [key==he->key || dictCompareKeys(d, key, he->key)] *)
Definition key_matches (k : dkey) (e : dictEntry) : bool :=
  (k_ptr k =? k_ptr (key e)) || dictCompareKeys k (key e).

Definition dictSetKey (a : Z) (k : dkey) : dkey :=
  match keyDup ty with Some f => f a k | None => k end.
Definition dup_val (v : V) : V :=
  match valDup ty with Some f => f v | None => v end.
Definition dictFreeKey (e : dictEntry) : list Z :=
  if keyDestructor ty then [k_ptr (key e)] else [].

(** [ht->table[i]]: NULL or out-of-range accesses are undefined. *)
Definition bucket (h : dictht) (i : Z) : res (list dictEntry) :=
  let* t := of_option (table h) in of_option (if 0 <=? i then t !! Z.to_nat i else None).
Definition set_bucket (h : dictht) (i : Z) (c : list dictEntry) (u : Z) : res dictht :=
  let* t := of_option (table h) in
  let* _ := bucket h i in
  Ok (set_table h (<[Z.to_nat i := c]> t) u).

(** [dictSetVal(d, entry, val)] through the entry's address. *)
Definition entry_set_val (a : Z) (v : V) (e : dictEntry) : dictEntry :=
  if e_addr e =? a then mk_entry (e_addr e) (key e) (Some v) else e.
Definition ht_set_val (a : Z) (v : V) (h : dictht) : dictht :=
  mk_dictht (option_map (fmap (fun c : list dictEntry => entry_set_val a v <$> c)) (table h))
            (size h) (sizemask h) (used h).
Definition dictSetVal (d : dict) (a : Z) (v : V) : dict :=
  let v := dup_val v in
  mk_dict (ht_set_val a v (ht0 d)) (ht_set_val a v (ht1 d)) (rehashidx d) (iterators d).

(** *** Sizes *)
(** The [while(1)] loop doubles [i]; 64 rounds exceed every [unsigned long]. *)
Fixpoint next_power_loop (fuel : nat) (i size : Z) : Z :=
  match fuel with
  | O => i
  | S fuel => if size <=? i then i else next_power_loop fuel (u64 (i * 2)) size
  end.
Definition _dictNextPower (size : Z) : Z :=
  if LONG_MAX <=? size then u64 (LONG_MAX + 1)
  else next_power_loop 64 DICT_HT_INITIAL_SIZE size.

(** [calloc(realsize, sizeof(dictEntry* ))] is NULL when no object can be that
    large; the result is not tested. *)
Definition calloc_table (realsize : Z) : option (list (list dictEntry)) :=
  if realsize * 8 <=? max_object then Some (replicate (Z.to_nat realsize) []) else None.
Definition dictExpand (d : dict) (n : Z) : dict * Z :=
  if dictIsRehashing d || (n <? used (ht0 d)) then (d, DICT_ERR)
  else
    let realsize := _dictNextPower n in
    if realsize =? size (ht0 d) then (d, DICT_ERR)
    else
      let h := mk_dictht (calloc_table realsize) realsize (realsize - 1) 0 in
      match table (ht0 d) with
      | None => (set_ht0 d h, DICT_OK)
      | Some _ => (set_rehashidx (set_ht1 d h) 0, DICT_OK)
      end.

(** [minimal] is an [int]; it is converted back to [unsigned long]. *)
Definition dictResize (d : dict) : dict * Z :=
  if negb dict_can_resize || dictIsRehashing d then (d, DICT_ERR)
  else
    let minimal := s32 (used (ht0 d)) in
    let minimal := if minimal <? DICT_HT_INITIAL_SIZE then DICT_HT_INITIAL_SIZE else minimal in
    dictExpand d (u64 minimal).

Definition _dictExpandIfNeeded (d : dict) : dict * Z :=
  if dictIsRehashing d then (d, DICT_OK)
  else if size (ht0 d) =? 0 then dictExpand d DICT_HT_INITIAL_SIZE
  else if (size (ht0 d) <=? used (ht0 d)) &&
          (dict_can_resize || (dict_force_resize_ratio <? used (ht0 d) / size (ht0 d)))
  then dictExpand d (u64 (used (ht0 d) * 2))
  else (d, DICT_OK).

(** *** Incremental rehashing *)
(** [while(ht[0].table[rehashidx] == NULL) { rehashidx++; if (--empty_visits
    == 0) return 1; }]: the new index, the visits left, and whether to
    return.  One more round than there are buckets reads out of range. *)
Fixpoint skip_empty (fuel : nat) (t : list (list dictEntry)) (idx visits : Z) : res (Z * Z * bool) :=
  match fuel with
  | O => Ub
  | S fuel =>
      let* c := of_option (t !! Z.to_nat idx) in
      match c with
      | [] => if visits - 1 =? 0 then Ok (idx + 1, visits - 1, true)
              else skip_empty fuel t (idx + 1) (visits - 1)
      | _ :: _ => Ok (idx, visits, false)
      end
  end.

(** [while(de)]: push every entry of the chain on its bucket of [ht1]. *)
Fixpoint move_chain (c : list dictEntry) (h0 h1 : dictht) : res (dictht * dictht) :=
  match c with
  | [] => Ok (h0, h1)
  | de :: c =>
      let h := Z.land (dictHashKey (key de)) (sizemask h1) in
      let* b := bucket h1 h in
      let* h1 := set_bucket h1 h (de :: b) (u64 (used h1 + 1)) in
      move_chain c (mk_dictht (table h0) (size h0) (sizemask h0) (u64 (used h0 - 1))) h1
  end.

(** The outer [while(n-- && ht[0].used != 0)]; [true]: returned early. *)
Fixpoint rehash_loop (n : nat) (visits : Z) (d : dict) : res (dict * bool) :=
  match n with
  | O => Ok (d, false)
  | S n =>
      if used (ht0 d) =? 0 then Ok (d, false)
      else if size (ht0 d) <=? rehashidx d then Abort
      else
        let* t := of_option (table (ht0 d)) in
        let* (idx, visits, stop) := skip_empty (S (length t)) t (rehashidx d) visits in
        if stop then Ok (set_rehashidx d idx, true)
        else
          let* c := bucket (ht0 d) idx in
          let* (h0, h1) := move_chain c (ht0 d) (ht1 d) in
          let* h0 := set_bucket h0 idx [] (used h0) in
          rehash_loop n visits (mk_dict h0 h1 (idx + 1) (iterators d))
  end.

(** [n] is an [int] that is not negative, [n*10] an [int] as well. *)
Definition dictRehash (d : dict) (n : nat) : res (dict * Z) :=
  let* empty_visits := int_ok (Z.of_nat n * 10) in
  if negb (dictIsRehashing d) then Ok (d, 0)
  else
    let* (d, stop) := rehash_loop n empty_visits d in
    if stop : bool then Ok (d, 1)
    else if used (ht0 d) =? 0 then Ok (mk_dict (ht1 d) _dictReset (-1) (iterators d), 0)
    else Ok (d, 1).

(** [timeInMilliseconds() - start] after each round is read from [clock]. *)
Fixpoint dictRehashMilliseconds (clock : list Z) (ms rehashes : Z) (d : dict) : res (dict * Z) :=
  let* (d, more) := dictRehash d 100 in
  if more =? 0 then Ok (d, rehashes)
  else
    let* rehashes := int_ok (rehashes + 100) in
    match clock with
    | [] => Ok (d, rehashes)
    | t :: clock => if ms <? t then Ok (d, rehashes) else dictRehashMilliseconds clock ms rehashes d
    end.

Definition _dictRehashStep (d : dict) : res dict :=
  if iterators d =? 0 then let* (d, _) := dictRehash d 1 in Ok d else Ok d.
Definition step_if_rehashing (d : dict) : res dict :=
  if dictIsRehashing d then _dictRehashStep d else Ok d.

(** *** Lookup and insertion *)
(** [while(he)] along a chain. *)
Fixpoint chain_find (k : dkey) (c : list dictEntry) : option dictEntry :=
  match c with
  | [] => None
  | e :: c => if key_matches k e then Some e else chain_find k c
  end.

(** One round of [for (table = 0; table <= 1; table++)]. *)
Definition table_find (h : dictht) (k : dkey) (hash : Z) : res (option dictEntry) :=
  let* c := bucket h (Z.land hash (sizemask h)) in Ok (chain_find k c).

(** The search of both tables, as far as the rehashing state requires. *)
Definition find_both (d : dict) (k : dkey) (hash : Z) : res (option dictEntry) :=
  let* r := table_find (ht0 d) k hash in
  match r with
  | Some e => Ok (Some e)
  | None => if dictIsRehashing d then table_find (ht1 d) k hash else Ok None
  end.

(** Returns the index, or -1, and [*existing]. *)
Definition _dictKeyIndex (d : dict) (k : dkey) (hash : Z) : res (dict * Z * option dictEntry) :=
  let (d, rc) := _dictExpandIfNeeded d in
  if rc =? DICT_ERR then Ok (d, -1, None)
  else
    let* r := find_both d k hash in
    match r with
    | Some e => Ok (d, -1, Some e)
    | None =>
        let h := if dictIsRehashing d then ht1 d else ht0 d in
        Ok (d, s64 (Z.land hash (sizemask h)), None)
    end.

(** [ea], [ka]: what the [malloc]s of the entry and of [keyDup] return.
    Results: the new entry's address or NULL, and [*existing]. *)
Definition dictAddRaw (d : dict) (k : dkey) (ea ka : Z) : res (dict * option Z * option dictEntry) :=
  let* d := step_if_rehashing d in
  let* (d, index, existing) := _dictKeyIndex d k (dictHashKey k) in
  if index =? -1 then Ok (d, None, existing)
  else
    let h := if dictIsRehashing d then ht1 d else ht0 d in
    let* c := bucket h index in
    let entry := mk_entry ea (dictSetKey ka k) None in
    let* h := set_bucket h index (entry :: c) (u64 (used h + 1)) in
    Ok (if dictIsRehashing d then set_ht1 d h else set_ht0 d h, Some ea, None).

Definition dictAdd (d : dict) (k : dkey) (v : V) (ea ka : Z) : res (dict * Z) :=
  let* (d, entry, _) := dictAddRaw d k ea ka in
  match entry with
  | None => Ok (d, DICT_ERR)
  | Some a => Ok (dictSetVal d a v, DICT_OK)
  end.

Definition dictReplace (d : dict) (k : dkey) (v : V) (ea ka : Z) : res (dict * Z) :=
  let* (d, entry, existing) := dictAddRaw d k ea ka in
  match entry with
  | Some a => Ok (dictSetVal d a v, 1)
  | None =>
      (* auxentry = *existing: existing must not be NULL *)
      let* e := of_option existing in
      Ok (dictSetVal d (e_addr e) v, 0)
  end.

Definition dictAddOrFind (d : dict) (k : dkey) (ea ka : Z) : res (dict * option Z) :=
  let* (d, entry, existing) := dictAddRaw d k ea ka in
  Ok (d, match entry with Some a => Some a | None => e_addr <$> existing end).

Definition dictFind (d : dict) (k : dkey) : res (dict * option dictEntry) :=
  if dictSize d =? 0 then Ok (d, None)
  else
    let* d := step_if_rehashing d in
    let* r := find_both d k (dictHashKey k) in
    Ok (d, r).

(** [None]: NULL is returned; reading an unset value is undefined. *)
Definition dictFetchValue (d : dict) (k : dkey) : res (dict * option V) :=
  let* (d, he) := dictFind d k in
  match he with
  | None => Ok (d, None)
  | Some e => let* v := of_option (val e) in Ok (d, Some v)
  end.

(** *** Deletion *)
(** The chain without its first matching entry, and that entry. *)
Fixpoint chain_unlink (k : dkey) (c : list dictEntry) : option (dictEntry * list dictEntry) :=
  match c with
  | [] => None
  | e :: c =>
      if key_matches k e then Some (e, c)
      else match chain_unlink k c with
           | Some (x, c') => Some (x, e :: c')
           | None => None
           end
  end.

Definition table_unlink (h : dictht) (k : dkey) (hash : Z) : res (option (dictEntry * dictht)) :=
  let idx := Z.land hash (sizemask h) in
  let* c := bucket h idx in
  match chain_unlink k c with
  | None => Ok None
  | Some (e, c') => let* h := set_bucket h idx c' (u64 (used h - 1)) in Ok (Some (e, h))
  end.

(** The unlinked entry, and the key addresses freed. *)
Definition dictGenericDelete (d : dict) (k : dkey) (nofree : bool)
    : res (dict * option dictEntry * list Z) :=
  if (used (ht0 d) =? 0) && (used (ht1 d) =? 0) then Ok (d, None, [])
  else
    let* d := step_if_rehashing d in
    let h := dictHashKey k in
    let freed e := if nofree then [] else dictFreeKey e in
    let* r := table_unlink (ht0 d) k h in
    match r with
    | Some (e, h0) => Ok (set_ht0 d h0, Some e, freed e)
    | None =>
        if negb (dictIsRehashing d) then Ok (d, None, [])
        else
          let* r := table_unlink (ht1 d) k h in
          match r with
          | Some (e, h1) => Ok (set_ht1 d h1, Some e, freed e)
          | None => Ok (d, None, [])
          end
    end.

Definition dictDelete (d : dict) (k : dkey) : res (dict * Z * list Z) :=
  let* (d, he, freed) := dictGenericDelete d k false in
  Ok (d, match he with Some _ => DICT_OK | None => DICT_ERR end, freed).

Definition dictUnlink (d : dict) (k : dkey) : res (dict * option dictEntry) :=
  let* (d, he, _) := dictGenericDelete d k true in Ok (d, he).

Definition dictFreeUnlinkedEntry (he : option dictEntry) : list Z :=
  match he with None => [] | Some e => dictFreeKey e end.

(** [for (i = 0; i < ht->size && ht->used > 0; i++)]: the key addresses freed
    from the remaining buckets. *)
Fixpoint clear_buckets (t : list (list dictEntry)) (u : Z) : list Z :=
  match t with
  | [] => []
  | c :: t =>
      if u =? 0 then []
      else mjoin (dictFreeKey <$> c) ++ clear_buckets t (u64 (u - zlen c))
  end.
Definition _dictClear (h : dictht) : dictht * list Z :=
  (_dictReset, match table h with
               | None => []
               | Some t => clear_buckets (take (Z.to_nat (size h)) t) (used h)
               end).

Definition dictEmpty (d : dict) : dict * list Z :=
  let (h0, f0) := _dictClear (ht0 d) in
  let (h1, f1) := _dictClear (ht1 d) in
  (mk_dict h0 h1 (-1) 0, f0 ++ f1).

Definition dictRelease (d : dict) : list Z :=
  snd (_dictClear (ht0 d)) ++ snd (_dictClear (ht1 d)).

Definition dictGetHash (k : dkey) : Z := dictHashKey k.

(** The entry whose key lives at [oldptr], by pointer only. *)
Definition table_find_ptr (h : dictht) (oldptr hash : Z) : res (option dictEntry) :=
  let* c := bucket h (Z.land hash (sizemask h)) in
  Ok (snd <$> list_find (fun e => oldptr = k_ptr (key e)) c).
Definition dictFindEntryRefByPtrAndHash (d : dict) (oldptr hash : Z) : res (option dictEntry) :=
  if dictSize d =? 0 then Ok None
  else
    let* r := table_find_ptr (ht0 d) oldptr hash in
    match r with
    | Some e => Ok (Some e)
    | None => if dictIsRehashing d then table_find_ptr (ht1 d) oldptr hash else Ok None
    end.
End Dict.

Arguments dkey : clear implicits.
Arguments dictEntry : clear implicits.
Arguments dictType : clear implicits.
Arguments dictht : clear implicits.
Arguments dict : clear implicits.

Definition dictEnableResize : bool := true.
Definition dictDisableResize : bool := false.
