(* ===== verification/DictInv.v ===== *)
(** * gp_dict.c: invariant and refinement of a finite map

    [dict_wf] is the representation invariant; [dmodel] is the finite map a
    dictionary stands for.  Every operation is shown to preserve the first
    and to act on the second as a map operation does. *)

From S2P Require Import Prelude Hash Dict.
Local Open Scope Z_scope.

(** What a [dictType] must provide, on the keys that satisfy [key_ok]. *)
Class DictTypeOk {K V} (ty : dictType K V) (key_ok : K -> Prop) : Prop := {
  hash_range : forall k, key_ok k -> 0 <= hashFunction ty k < 2 ^ 64;
  compare_spec : forall a b, key_ok (k_val a) -> key_ok (k_val b) ->
    (dictCompareKeys ty a b = true <-> k_val a = k_val b);
  dup_contents : forall a k, k_val (dictSetKey ty a k) = k_val k;
}.

Section Invariant.
Context {K V : Type} `{Countable K}.
Context (ty : dictType K V) (key_ok : K -> Prop) `{Hty : !DictTypeOk ty key_ok}.

Implicit Types (e : dictEntry K V) (c : list (dictEntry K V)) (t : list (list (dictEntry K V))).
Implicit Types (h : dictht K V) (d : dict K V) (k : dkey K).

Definition e_key e : K := k_val (key e).
Definition hash_of e : Z := dictHashKey ty (key e).

Definition ht_entries h : list (dictEntry K V) :=
  match table h with None => [] | Some t => mjoin t end.
Definition entries d : list (dictEntry K V) := ht_entries (ht0 d) ++ ht_entries (ht1 d).

(** Every entry sits in the bucket of its hash. *)
Definition placed t (mask : Z) : Prop :=
  forall i c e, t !! i = Some c -> e ∈ c -> Z.land (hash_of e) mask = Z.of_nat i.

Definition ht_wf h : Prop :=
  match table h with
  | None => size h = 0 /\ sizemask h = 0 /\ used h = 0
  | Some t =>
      (exists n, 2 <= n <= 63 /\ size h = 2 ^ n) /\ sizemask h = size h - 1 /\
      zlen t = size h /\ used h = zlen (mjoin t) /\ placed t (sizemask h)
  end.

(** The buckets of [ht0] below [rehashidx] are empty. *)
Definition migrated d : Prop :=
  match table (ht0 d), table (ht1 d) with
  | Some t, Some _ =>
      0 <= rehashidx d <= size (ht0 d) /\
      forall i c, Z.of_nat i < rehashidx d -> t !! i = Some c -> c = []
  | _, _ => False
  end.

(** An entry takes at least 32 bytes of the address space. *)
Definition max_entries : Z := 2 ^ 58.

Record dict_wf d : Prop := {
  wf_ht0 : ht_wf (ht0 d);
  wf_ht1 : ht_wf (ht1 d);
  wf_keys : Forall (fun e => key_ok (e_key e)) (entries d);
  wf_nodup : NoDup (e_key <$> entries d);
  wf_addrs : NoDup (e_addr <$> entries d);
  wf_rehash : if dictIsRehashing d then migrated d else table (ht1 d) = None;
  wf_iterators : 0 <= iterators d;
  wf_count : zlen (entries d) <= max_entries;
}.

(** The finite map represented; [None] inside is a value not yet set. *)
Definition dmodel d : gmap K (option V) := list_to_map ((fun e => (e_key e, val e)) <$> entries d).

(** An address holds one object: a caller's key that aliases a stored key
    object has its contents. *)
Definition alias_ok d k : Prop :=
  forall e, e ∈ entries d -> k_ptr k = k_ptr (key e) -> k_val k = e_key e.

(** *** Elementary facts *)
Lemma hash_range_e e : key_ok (e_key e) -> 0 <= hash_of e < 2 ^ 64.
Proof. apply hash_range. Qed.

Lemma ht_wf_size h : ht_wf h -> 0 <= size h <= 2 ^ 63.
Proof.
  unfold ht_wf. destruct (table h); [|lia].
  intros ((n&Hn&->)&_). split; [lia|]. apply Z.pow_le_mono_r; lia.
Qed.
Lemma ht_wf_used h : ht_wf h -> used h = zlen (ht_entries h).
Proof. unfold ht_wf, ht_entries. destruct (table h); [naive_solver|]. by intros (_&_&->). Qed.
Lemma wf_used_le d : dict_wf d -> used (ht0 d) + used (ht1 d) = zlen (entries d).
Proof.
  intros Hd. rewrite (ht_wf_used _ (wf_ht0 _ Hd)), (ht_wf_used _ (wf_ht1 _ Hd)).
  unfold entries. by rewrite zlen_app.
Qed.

(** The bucket of a hash exists in an allocated table. *)
Lemma bucket_hash h t hash :
  ht_wf h -> table h = Some t ->
  exists c, bucket h (Z.land hash (sizemask h)) = Ok c /\
    t !! Z.to_nat (Z.land hash (sizemask h)) = Some c /\
    0 <= Z.land hash (sizemask h) < size h.
Proof.
  unfold ht_wf, bucket. intros Hw Ht. rewrite Ht in *.
  destruct Hw as ((n&Hn&Hs)&Hm&Hl&_). rewrite Hm, Hs, land_mask by lia.
  assert (Hr : 0 <= hash mod 2 ^ n < 2 ^ n) by (apply Z.mod_pos_bound; lia).
  destruct (lookup_lt_is_Some_2 t (Z.to_nat (hash mod 2 ^ n))) as [c Hc].
  { unfold zlen in Hl. lia. }
  exists c. simpl. destruct (Z.leb_spec 0 (hash mod 2 ^ n)); [|lia].
  rewrite Hc. done.
Qed.

Lemma key_matches_spec d k e :
  alias_ok d k -> e ∈ entries d -> key_ok (k_val k) -> key_ok (e_key e) ->
  key_matches ty k e = true <-> k_val k = e_key e.
Proof.
  intros Ha He Hk Hke. unfold key_matches.
  rewrite orb_true_iff, Z.eqb_eq. rewrite (compare_spec k (key e) Hk Hke). naive_solver.
Qed.

(** *** Searching a chain and a table *)
Definition same_key k e : Prop := k_val k = e_key e.

Lemma chain_find_spec d k c :
  alias_ok d k -> key_ok (k_val k) -> Forall (fun e => key_ok (e_key e)) c ->
  (forall e, e ∈ c -> e ∈ entries d) ->
  match chain_find ty k c with
  | Some e => e ∈ c /\ same_key k e
  | None => forall e, e ∈ c -> ~ same_key k e
  end.
Proof.
  intros Ha Hk Hc Hin. induction Hc as [|e c He Hc IH]; simpl; [by intros ? ?%elem_of_nil|].
  destruct (key_matches ty k e) eqn:E.
  - rewrite (key_matches_spec d) in E by (auto; apply Hin; left).
    split; [by left|done].
  - assert (Hne : ~ same_key k e).
    { intros Hs. apply (key_matches_spec d k e) in Hs; [congruence|done|apply Hin; by left|done..]. }
    destruct (chain_find ty k c) as [e'|].
    + destruct IH; [intros; apply Hin; by right|]. split; [by right|done].
    + intros e' [->|He']%elem_of_cons; [done|]. apply IH; [|done]. intros; apply Hin; by right.
Qed.

Lemma ht_entries_place h t e :
  ht_wf h -> table h = Some t -> e ∈ ht_entries h ->
  exists c, t !! Z.to_nat (Z.land (hash_of e) (sizemask h)) = Some c /\ e ∈ c.
Proof.
  unfold ht_wf, ht_entries. intros Hw Ht. rewrite Ht in *.
  destruct Hw as (_&_&_&_&Hp). intros (i&c&Hi&He)%elem_of_join_lookup.
  exists c. rewrite (Hp i c e Hi He), Nat2Z.id. done.
Qed.

Lemma table_find_spec d h k :
  dict_wf d -> h = ht0 d \/ h = ht1 d -> is_Some (table h) ->
  alias_ok d k -> key_ok (k_val k) ->
  exists r, table_find ty h k (dictHashKey ty k) = Ok r /\
    match r with
    | Some e => e ∈ ht_entries h /\ same_key k e
    | None => forall e, e ∈ ht_entries h -> ~ same_key k e
    end.
Proof.
  intros Hd Hh [t Ht] Ha Hk.
  assert (Hw : ht_wf h) by (destruct Hh as [->| ->]; apply Hd).
  assert (Hsub : forall e, e ∈ ht_entries h -> e ∈ entries d).
  { intros e He. unfold entries. destruct Hh as [->| ->]; set_solver. }
  unfold table_find.
  destruct (bucket_hash h t (dictHashKey ty k) Hw Ht) as (c&->&Hc&_). simpl.
  assert (Hcin : forall e, e ∈ c -> e ∈ ht_entries h).
  { intros e He. unfold ht_entries. rewrite Ht. apply elem_of_join_lookup. eauto. }
  pose proof (chain_find_spec d k c Ha Hk) as Hf.
  assert (Hc' : Forall (fun e => key_ok (e_key e)) c).
  { apply Forall_forall. intros e He. pose proof (wf_keys d Hd) as Hks.
    rewrite Forall_forall in Hks. auto. }
  specialize (Hf Hc' ltac:(auto)). eexists; split; [done|].
  destruct (chain_find ty k c) as [e|]; [naive_solver|].
  intros e He Hs. apply (Hf e); [|done].
  destruct (ht_entries_place h t e Hw Ht He) as (c'&Hc2&Hec).
  unfold hash_of, dictHashKey in Hc2. fold (e_key e) in Hc2. unfold same_key in Hs.
  rewrite <-Hs in Hc2. unfold dictHashKey in Hc. congruence.
Qed.

Lemma ht1_entries_nil d : dict_wf d -> dictIsRehashing d = false -> ht_entries (ht1 d) = [].
Proof.
  intros Hd Hr. pose proof (wf_rehash d Hd) as Hw. rewrite Hr in Hw.
  unfold ht_entries. by rewrite Hw.
Qed.

Lemma rehashing_tables d :
  dict_wf d -> dictIsRehashing d = true -> exists t0 t1,
    table (ht0 d) = Some t0 /\ table (ht1 d) = Some t1 /\
    0 <= rehashidx d <= size (ht0 d) /\
    forall i c, Z.of_nat i < rehashidx d -> t0 !! i = Some c -> c = [].
Proof.
  intros Hd Hr. pose proof (wf_rehash d Hd) as Hw. rewrite Hr in Hw. unfold migrated in Hw.
  destruct (table (ht0 d)) as [t0|], (table (ht1 d)) as [t1|]; try done.
  exists t0, t1. naive_solver.
Qed.

Lemma find_both_spec d k :
  dict_wf d -> is_Some (table (ht0 d)) -> alias_ok d k -> key_ok (k_val k) ->
  exists r, find_both ty d k (dictHashKey ty k) = Ok r /\
    match r with
    | Some e => e ∈ entries d /\ same_key k e
    | None => forall e, e ∈ entries d -> ~ same_key k e
    end.
Proof.
  intros Hd Ht Ha Hk. unfold find_both, entries.
  destruct (table_find_spec d (ht0 d) k) as (r&->&Hr); auto. simpl.
  destruct r as [e|]; [eexists; split; [done|]; set_solver|].
  destruct (dictIsRehashing d) eqn:E.
  - destruct (rehashing_tables d Hd E) as (t0&t1&_&Ht1&_).
    destruct (table_find_spec d (ht1 d) k) as (r&->&Hr'); eauto.
    eexists; split; [done|]. destruct r; set_solver.
  - eexists; split; [done|]. rewrite ht1_entries_nil by done. set_solver.
Qed.

(** *** The map *)
Lemma dmodel_some d e : dict_wf d -> e ∈ entries d -> dmodel d !! e_key e = Some (val e).
Proof.
  intros Hd He. apply elem_of_list_to_map_1.
  - rewrite <-list_fmap_compose. apply (wf_nodup d Hd).
  - apply list_elem_of_fmap. eauto.
Qed.
Lemma dmodel_none d k :
  (forall e, e ∈ entries d -> ~ same_key k e) -> dmodel d !! k_val k = None.
Proof.
  intros He. apply not_elem_of_list_to_map_1. rewrite <-list_fmap_compose.
  intros (e&Heq&Hin)%list_elem_of_fmap. by apply (He e Hin).
Qed.
Lemma dmodel_perm d d' : dict_wf d -> entries d ≡ₚ entries d' -> dmodel d = dmodel d'.
Proof.
  intros Hd Hp. apply list_to_map_proper; [|by rewrite Hp].
  rewrite <-list_fmap_compose. apply (wf_nodup d Hd).
Qed.

(** *** Replacing one bucket *)
Lemma set_bucket_spec h t i c c' :
  ht_wf h -> table h = Some t -> 0 <= i -> t !! Z.to_nat i = Some c ->
  (forall e, e ∈ c' -> Z.land (hash_of e) (sizemask h) = i) ->
  let h' := set_table h (<[Z.to_nat i := c']> t) (used h - zlen c + zlen c') in
  set_bucket h i c' (used h - zlen c + zlen c') = Ok h' /\ ht_wf h' /\
  exists rest, ht_entries h ≡ₚ c ++ rest /\ ht_entries h' ≡ₚ c' ++ rest.
Proof.
  intros Hw Ht Hi Hc Hpl h'.
  assert (Hsb : set_bucket h i c' (used h - zlen c + zlen c') = Ok h').
  { unfold set_bucket, bucket. rewrite Ht. simpl.
    destruct (Z.leb_spec 0 i); [|lia]. by rewrite Hc. }
  destruct (join_insert_perm t _ c Hc) as (rest&Hp&Hp').
  assert (He : ht_entries h ≡ₚ c ++ rest) by (unfold ht_entries; rewrite Ht; done).
  assert (He' : ht_entries h' ≡ₚ c' ++ rest) by (unfold ht_entries; simpl; done).
  split_and!; [done| |eauto].
  unfold ht_wf in *. rewrite Ht in Hw. simpl. destruct Hw as (?&?&Hl&Hu&Hplace).
  split_and!; [done|done| | |].
  - unfold zlen in *. by rewrite length_insert.
  - rewrite Hu. rewrite (Permutation_length_zlen _ _ Hp), (Permutation_length_zlen _ _ (Hp' c')), !zlen_app. lia.
  - intros j cj e Hj Hej. destruct (decide (j = Z.to_nat i)) as [->|Hne].
    + rewrite list_lookup_insert_eq in Hj by (eapply lookup_lt_Some, Hc).
      injection Hj as <-. rewrite (Hpl e Hej). lia.
    + rewrite list_lookup_insert_ne in Hj by done. eauto.
Qed.

(** *** Rehashing *)
Lemma move_chain_spec c h0 h1 :
  ht_wf h1 -> is_Some (table h1) -> zlen c <= used h0 < 2 ^ 63 ->
  used h1 + zlen c <= max_entries ->
  exists h1', move_chain ty c h0 h1 =
      Ok (mk_dictht (table h0) (size h0) (sizemask h0) (used h0 - zlen c), h1') /\
    ht_wf h1' /\ is_Some (table h1') /\ size h1' = size h1 /\
    ht_entries h1' ≡ₚ c ++ ht_entries h1.
Proof.
  revert h0 h1. induction c as [|e c IH]; intros h0 h1 Hw Ht Hu0 Hu1; simpl.
  { exists h1. rewrite zlen_nil, Z.sub_0_r. destruct h0; done. }
  destruct Ht as [t Ht]. rewrite zlen_cons in *. pose proof (zlen_nonneg c).
  pose proof (zlen_nonneg (ht_entries h1)) as Hn. rewrite <-ht_wf_used in Hn by done.
  destruct (bucket_hash h1 t (hash_of e) Hw Ht) as (b&Hb&Hc&Hr). fold (hash_of e).
  rewrite Hb. cbn [res_bind].
  destruct (set_bucket_spec h1 t (Z.land (hash_of e) (sizemask h1)) b (e :: b) Hw Ht)
    as (Hsb&Hw'&rest&Hp&Hp'); [lia|done| |].
  { intros e' [->|He']%elem_of_cons; [done|].
    unfold ht_wf in Hw. rewrite Ht in Hw. destruct Hw as (_&_&_&_&Hpl).
    rewrite (Hpl _ _ _ Hc He'). lia. }
  rewrite zlen_cons in Hsb, Hw', Hp'.
  replace (used h1 - zlen b + (1 + zlen b)) with (used h1 + 1) in * by lia.
  unfold max_entries in *.
  rewrite u64_small by lia. rewrite Hsb. cbn [res_bind]. rewrite u64_small by lia.
  destruct (IH (mk_dictht (table h0) (size h0) (sizemask h0) (used h0 - 1))
               (set_table h1 (<[Z.to_nat (Z.land (hash_of e) (sizemask h1)) := e :: b]> t) (used h1 + 1)))
    as (h1'&->&Hw1&Ht1&Hs1&Hp1); [done|done|simpl; lia|simpl; lia|].
  exists h1'. split_and!; [|done|done|done|].
  - simpl. do 3 f_equal. lia.
  - rewrite Hp1, Hp', Hp. symmetry. apply Permutation_middle.
Qed.

Lemma skip_empty_spec fuel t idx visits (j : nat) e c :
  0 <= idx <= Z.of_nat j -> t !! j = Some (e :: c) -> Z.of_nat j - idx < Z.of_nat fuel -> 1 <= visits ->
  exists idx' visits' stop, skip_empty fuel t idx visits = Ok (idx', visits', stop) /\
    idx <= idx' <= Z.of_nat j /\ idx' - idx = visits - visits' /\
    (forall i c, idx <= Z.of_nat i < idx' -> t !! i = Some c -> c = []) /\
    if stop : bool then visits' = 0 else 1 <= visits' /\ exists e c, t !! Z.to_nat idx' = Some (e :: c).
Proof.
  revert idx visits. induction fuel as [|fuel IH]; intros idx visits Hidx Hj Hf Hv; [lia|]. simpl.
  destruct (lookup_lt_is_Some_2 t (Z.to_nat idx)) as [b Hb].
  { apply lookup_lt_Some in Hj. lia. }
  rewrite Hb. cbn [of_option res_bind]. destruct b as [|e0 b].
  - assert (Hlt : idx < Z.of_nat j).
    { destruct (decide (idx = Z.of_nat j)) as [->|]; [|lia]. rewrite Nat2Z.id in Hb. congruence. }
    assert (Hone : forall i c, idx <= Z.of_nat i < idx + 1 -> t !! i = Some c -> c = []).
    { intros i c' Hi Hc'. replace i with (Z.to_nat idx) in Hc' by lia. congruence. }
    destruct (Z.eqb_spec (visits - 1) 0) as [Hz|Hz].
    + eexists _, _, _. split_and!; [done|lia|lia|lia|done|exact Hz].
    + destruct (IH (idx + 1) (visits - 1)) as (idx'&v'&stop&->&?&?&Hemp&?); [lia|done|lia|lia|].
      eexists _, _, _. split_and!; [done|lia|lia|lia| |done].
      intros i c' Hi. destruct (decide (Z.of_nat i = idx)); [apply Hone; lia|apply Hemp; lia].
  - exists idx, visits, false. split_and!; [done|lia|lia|lia|intros; lia|exact Hv|eauto].
Qed.

(** A table with entries has a non-empty bucket, past the migrated ones. *)
Lemma used_nonempty d t0 :
  dict_wf d -> table (ht0 d) = Some t0 -> used (ht0 d) <> 0 ->
  exists j e c, t0 !! j = Some (e :: c).
Proof.
  intros Hd Ht Hu. rewrite (ht_wf_used _ (wf_ht0 _ Hd)) in Hu.
  unfold ht_entries in Hu. rewrite Ht in Hu.
  destruct (mjoin t0) as [|e l] eqn:E; [done|].
  assert (He : e ∈ mjoin t0) by (rewrite E; by left).
  apply elem_of_join_lookup in He as (i&c&Hi&He).
  destruct c as [|e' c]; [by apply elem_of_nil in He|]. eauto.
Qed.

(** Moving entries around keeps the invariant. *)
Lemma dict_wf_perm d d' :
  dict_wf d -> ht_wf (ht0 d') -> ht_wf (ht1 d') -> entries d' ≡ₚ entries d ->
  (if dictIsRehashing d' then migrated d' else table (ht1 d') = None) ->
  0 <= iterators d' -> dict_wf d'.
Proof.
  intros Hd H0 H1 Hp Hr Hi. constructor; auto.
  - rewrite Hp. apply Hd.
  - rewrite Hp. apply Hd.
  - rewrite Hp. apply Hd.
  - rewrite (Permutation_length_zlen _ _ Hp). apply Hd.
Qed.

Lemma is_rehashing_true d : 0 <= rehashidx d -> dictIsRehashing d = true.
Proof. intros. unfold dictIsRehashing. destruct (Z.eqb_spec (rehashidx d) (-1)); [lia|done]. Qed.

Lemma rehash_bucket_spec d t0 idx c0 :
  dict_wf d -> dictIsRehashing d = true -> table (ht0 d) = Some t0 ->
  0 <= idx -> t0 !! Z.to_nat idx = Some c0 ->
  (forall i c, Z.of_nat i < idx -> t0 !! i = Some c -> c = []) ->
  exists h0 h1 h0', bucket (ht0 d) idx = Ok c0 /\
    move_chain ty c0 (ht0 d) (ht1 d) = Ok (h0, h1) /\ set_bucket h0 idx [] (used h0) = Ok h0' /\
    let d' := mk_dict h0' h1 (idx + 1) (iterators d) in
    dict_wf d' /\ entries d' ≡ₚ entries d /\
    size h0' = size (ht0 d) /\ size h1 = size (ht1 d) /\ is_Some (table h0').
Proof.
  intros Hd Hr Ht0 Hidx Hc0 Hemp.
  destruct (rehashing_tables d Hd Hr) as (t0'&t1&Ht0'&Ht1&Hri&_).
  rewrite Ht0 in Ht0'. injection Ht0' as <-.
  pose proof (wf_ht0 d Hd) as Hw0. pose proof (wf_ht1 d Hd) as Hw1.
  pose proof (wf_count d Hd) as Hcnt. rewrite <-wf_used_le in Hcnt by done.
  destruct (set_bucket_spec (ht0 d) t0 idx c0 [] Hw0 Ht0 Hidx Hc0) as (Hsb&Hw0'&rest&Hp&Hp').
  { by intros ? ?%elem_of_nil. }
  rewrite zlen_nil, Z.add_0_r in *.
  assert (Hlc : 0 <= zlen c0 <= used (ht0 d)).
  { rewrite (ht_wf_used _ Hw0), (Permutation_length_zlen _ _ Hp), zlen_app.
    pose proof (zlen_nonneg c0). pose proof (zlen_nonneg rest). lia. }
  pose proof (zlen_nonneg (ht_entries (ht1 d))) as Hn1. rewrite <-ht_wf_used in Hn1 by done.
  destruct (move_chain_spec c0 (ht0 d) (ht1 d)) as (h1&Hmv&Hw1'&Ht1'&Hs1&Hp1);
    [done|eauto|unfold max_entries in *; lia|unfold max_entries in *; lia|].
  eexists _, h1, _. split_and!; [|exact Hmv|exact Hsb|..]; try done.
  { unfold bucket. rewrite Ht0. simpl. destruct (Z.leb_spec 0 idx); [|lia]. by rewrite Hc0. }
  assert (Hlt : idx + 1 <= size (ht0 d)).
  { apply lookup_lt_Some in Hc0. unfold ht_wf in Hw0. rewrite Ht0 in Hw0.
    destruct Hw0 as (_&_&Hl&_). unfold zlen in Hl. lia. }
  assert (Hpe : entries (mk_dict (set_table (ht0 d) (<[Z.to_nat idx:=[]]> t0) (used (ht0 d) - zlen c0))
                            h1 (idx + 1) (iterators d)) ≡ₚ entries d).
  { unfold entries; simpl. rewrite Hp1, Hp', Hp. simpl.
    rewrite (app_assoc rest), (Permutation_app_comm rest c0). by rewrite <-app_assoc. }
  split; [|split; [exact Hpe|]].
  - apply (dict_wf_perm d); [done|done|done|exact Hpe| |simpl; apply Hd].
    rewrite is_rehashing_true by (simpl; lia). unfold migrated; simpl.
    destruct Ht1' as [t1' ->]. split; [lia|].
    intros i c Hi Hc. destruct (decide (i = Z.to_nat idx)) as [->|Hne].
    + rewrite list_lookup_insert_eq in Hc by (eapply lookup_lt_Some, Hc0). congruence.
    + rewrite list_lookup_insert_ne in Hc by done. apply (Hemp i); [lia|done].
  - split_and!; simpl; eauto.
Qed.

Lemma rehash_loop_spec n visits d :
  dict_wf d -> dictIsRehashing d = true -> n = O \/ 1 <= visits ->
  exists d' stop, rehash_loop ty n visits d = Ok (d', stop) /\
    dict_wf d' /\ dictIsRehashing d' = true /\ entries d' ≡ₚ entries d /\
    iterators d' = iterators d /\ size (ht0 d') = size (ht0 d) /\ size (ht1 d') = size (ht1 d) /\
    rehashidx d + (if stop : bool then visits else 0) <= rehashidx d' /\
    (stop = false -> used (ht0 d') = 0 \/ rehashidx d + Z.of_nat n <= rehashidx d') /\
    (stop = true -> used (ht0 d') <> 0).
Proof.
  revert visits d. induction n as [|n IH]; intros visits d Hd Hr Hv; cbn [rehash_loop].
  { exists d, false. split_and!; auto; lia. }
  assert (Hv1 : 1 <= visits) by (destruct Hv; [done|lia]).
  destruct (Z.eqb_spec (used (ht0 d)) 0) as [Hu|Hu].
  { exists d, false. split_and!; auto; lia. }
  destruct (rehashing_tables d Hd Hr) as (t0&t1&Ht0&Ht1&Hri&Hemp).
  destruct (used_nonempty d t0 Hd Ht0 Hu) as (j&e&c&Hj).
  assert (Hjr : rehashidx d <= Z.of_nat j).
  { apply Z.nlt_ge. intros Hlt. specialize (Hemp j _ Hlt Hj). done. }
  assert (Hjl : Z.of_nat j < size (ht0 d)).
  { pose proof (lookup_lt_Some _ _ _ Hj). pose proof (wf_ht0 d Hd) as Hw.
    unfold ht_wf in Hw. rewrite Ht0 in Hw. destruct Hw as (_&_&Hl&_). unfold zlen in Hl. lia. }
  destruct (Z.leb_spec (size (ht0 d)) (rehashidx d)); [lia|].
  rewrite Ht0. cbn [of_option res_bind].
  destruct (skip_empty_spec (S (length t0)) t0 (rehashidx d) visits j e c)
    as (idx&v'&stop&Hsk&Hi1&Hi2&Hemp2&Hst); [lia|done| |done|].
  { apply lookup_lt_Some in Hj. lia. }
  assert (Hemp' : forall i c, Z.of_nat i < idx -> t0 !! i = Some c -> c = []).
  { intros i c' Hi Hc'. destruct (decide (Z.of_nat i < rehashidx d)); [eauto|].
    apply (Hemp2 i); [lia|done]. }
  rewrite Hsk. cbn [res_bind]. destruct stop.
  - exists (set_rehashidx d idx), true.
    assert (Hr' : dictIsRehashing (set_rehashidx d idx) = true) by (apply is_rehashing_true; simpl; lia).
    split_and!; auto; simpl; try lia.
    apply (dict_wf_perm d); simpl; try apply Hd; [done|].
    rewrite Hr'. unfold migrated; simpl. rewrite Ht0, Ht1. split; [lia|done].
  - destruct Hst as (Hv'&e'&c'&Hc').
    destruct (rehash_bucket_spec d t0 idx (e' :: c') Hd Hr Ht0) as
      (h0&h1&h0'&Hb&Hmv&Hsb&Hd'&Hp&Hs0&Hs1&_); [lia|done|done|].
    rewrite Hb. cbn [res_bind]. rewrite Hmv. cbn [res_bind]. rewrite Hsb. cbn [res_bind].
    destruct (IH v' _ Hd') as (d'&stop&Hl&Hwf&Hr'&Hp'&Hit&Hz0&Hz1&Hprog&Hf&Ht);
      [apply is_rehashing_true; simpl; lia|by right|].
    rewrite Hl. exists d', stop. simpl in *.
    split_and!; auto; try congruence.
    + by rewrite Hp', Hp.
    + destruct stop; lia.
    + intros Hs. destruct (Hf Hs); [by left|right; lia].
Qed.

(** [dictRehash] on a well-formed dictionary: no access goes wrong, no entry
    is lost or duplicated, and it reports 0 exactly when it is done. *)
Lemma dictRehash_spec d n :
  dict_wf d -> Z.of_nat n * 10 < 2147483648 ->
  exists d' r, dictRehash ty d n = Ok (d', r) /\ dict_wf d' /\ entries d' ≡ₚ entries d /\
    iterators d' = iterators d /\ (is_Some (table (ht0 d)) -> is_Some (table (ht0 d'))) /\
    r = (if dictIsRehashing d' then 1 else 0) /\
    (dictIsRehashing d' = true -> dictIsRehashing d = true /\
       size (ht0 d') = size (ht0 d) /\ rehashidx d + Z.of_nat n <= rehashidx d').
Proof.
  intros Hd Hn. unfold dictRehash. rewrite int_ok_small by lia. destruct (dictIsRehashing d) eqn:Hr; cbn [negb res_bind].
  2:{ exists d, 0. rewrite Hr. split_and!; auto; done. }
  destruct (rehash_loop_spec n (Z.of_nat n * 10) d Hd Hr)
    as (d1&stop&Hl&Hd1&Hr1&Hp&Hit&Hs0&Hs1&Hprog&Hf&Ht); [lia|].
  rewrite Hl. cbn [res_bind].
  destruct (rehashing_tables d1 Hd1 Hr1) as (t0&t1&Ht0&Ht1&Hri&Hemp).
  destruct stop; [|destruct (Z.eqb_spec (used (ht0 d1)) 0) as [Hu|Hu]].
  - exists d1, 1. rewrite Hr1. split_and!; auto; lia.
  - exists (mk_dict (ht1 d1) _dictReset (-1) (iterators d1)), 0.
    assert (Hp' : entries (mk_dict (ht1 d1) _dictReset (-1) (iterators d1)) ≡ₚ entries d).
    { rewrite <-Hp. unfold entries at 1 2; simpl.
      rewrite (ht_wf_used _ (wf_ht0 _ Hd1)) in Hu. unfold zlen in Hu.
      destruct (ht_entries (ht0 d1)); [|simpl in Hu; lia].
      unfold ht_entries at 2; simpl. by rewrite app_nil_r. }
    split_and!; auto; simpl; [|by intros ?..]; eauto.
    apply (dict_wf_perm d); auto; simpl; [apply Hd1|done|done|apply Hd1].
  - exists d1, 1. rewrite Hr1. destruct (Hf eq_refl); [done|]. split_and!; auto; lia.
Qed.

Lemma step_if_rehashing_spec d :
  dict_wf d ->
  exists d', step_if_rehashing ty d = Ok d' /\ dict_wf d' /\ entries d' ≡ₚ entries d /\
    iterators d' = iterators d /\ (is_Some (table (ht0 d)) -> is_Some (table (ht0 d'))).
Proof.
  intros Hd. unfold step_if_rehashing, _dictRehashStep.
  destruct (dictIsRehashing d); [|eauto 10].
  destruct (iterators d =? 0); [|eauto 10].
  destruct (dictRehash_spec d 1 Hd eq_refl) as (d'&r&->&?&?&?&?&_). simpl. eauto 10.
Qed.

(** *** Sizes *)
Lemma next_power_loop_spec fuel p n :
  2 <= p <= 63 -> 63 - p < Z.of_nat fuel -> 0 <= n <= 2 ^ 63 -> (p = 2 \/ 2 ^ (p - 1) < n) ->
  exists m, 2 <= m <= 63 /\ next_power_loop fuel (2 ^ p) n = 2 ^ m /\ n <= 2 ^ m /\
    (m = 2 \/ 2 ^ (m - 1) < n).
Proof.
  revert p. induction fuel as [|fuel IH]; intros p Hp Hf Hn Hlow; [lia|]. simpl.
  destruct (Z.leb_spec n (2 ^ p)) as [Hle|Hgt]; [by exists p|].
  assert (Hp' : p < 63).
  { destruct (decide (p = 63)) as [->|]; [lia|lia]. }
  assert (2 ^ p * 2 = 2 ^ (p + 1)) as -> by (rewrite Z.pow_add_r by lia; lia).
  assert (2 ^ (p + 1) <= 2 ^ 63) by (apply Z.pow_le_mono_r; lia).
  rewrite u64_small by lia.
  apply IH; try lia. right. by replace (p + 1 - 1) with p by lia.
Qed.

Lemma _dictNextPower_spec n :
  0 <= n < 2 ^ 64 ->
  exists m, 2 <= m <= 63 /\ _dictNextPower n = 2 ^ m /\
    (n <= 2 ^ 63 -> n <= 2 ^ m) /\ (m = 2 \/ 2 ^ (m - 1) < n).
Proof.
  intros Hn. unfold _dictNextPower, LONG_MAX.
  destruct (Z.leb_spec 9223372036854775807 n).
  - exists 63. split_and!; [lia..|done|lia|right; lia].
  - destruct (next_power_loop_spec 64 2 n) as (m&?&Hm&?&?); [lia..|by left|].
    exists m. change (2 ^ 2) with DICT_HT_INITIAL_SIZE in Hm. auto.
Qed.

Lemma ht_wf_fresh m :
  2 <= m <= 63 -> ht_wf (mk_dictht (Some (replicate (Z.to_nat (2 ^ m)) [])) (2 ^ m) (2 ^ m - 1) 0).
Proof.
  intros Hm. unfold ht_wf; simpl.
  assert (0 < 2 ^ m) by (apply Z.pow_pos_nonneg; lia).
  assert (Hj : mjoin (replicate (Z.to_nat (2 ^ m)) ([] : list (dictEntry K V))) = []).
  { apply join_nil. intros i c [-> _]%lookup_replicate. done. }
  split_and!; [by exists m|done| | |].
  - unfold zlen. rewrite length_replicate. lia.
  - by rewrite Hj.
  - intros i c e [-> _]%lookup_replicate He. by apply elem_of_nil in He.
Qed.

Lemma ht_entries_fresh n s m u :
  ht_entries (mk_dictht (Some (replicate n [])) s m u : dictht K V) = [].
Proof.
  unfold ht_entries; simpl. apply join_nil. intros i c [-> _]%lookup_replicate. done.
Qed.

(** The largest table that can be allocated. *)
Definition max_slots : Z := 2 ^ 59.
Lemma calloc_table_fits n : 0 <= n <= max_slots -> exists m, 2 <= m <= 63 /\ _dictNextPower n = 2 ^ m /\
  calloc_table (_dictNextPower n) = Some (replicate (Z.to_nat (2 ^ m)) ([] : list (dictEntry K V))).
Proof.
  unfold max_slots. intros Hn. destruct (_dictNextPower_spec n) as (m&Hm&Hp&_&Hl); [lia|]. exists m. split; [done|]. split; [done|].
  assert (2 ^ m <= 2 ^ 59).
  { destruct Hl as [->|Hl]; [done|]. apply Z.pow_le_mono_r; [done|]. assert (m - 1 < 59); [|lia]. apply (Z.pow_lt_mono_r_iff 2); lia. }
  unfold calloc_table, max_object. rewrite Hp, (proj2 (Z.leb_le _ _)) by lia. done.
Qed.

Lemma dictExpand_spec d n :
  dict_wf d -> 0 <= n <= max_slots ->
  exists d' rc, dictExpand d n = (d', rc) /\ dict_wf d' /\ entries d' = entries d /\
    iterators d' = iterators d /\ (is_Some (table (ht0 d)) -> is_Some (table (ht0 d'))) /\
    (rc = DICT_ERR /\ d' = d \/ rc = DICT_OK /\ is_Some (table (ht0 d'))) /\
    (dictIsRehashing d = false -> used (ht0 d) <= n -> _dictNextPower n <> size (ht0 d) -> rc = DICT_OK).
Proof.
  intros Hd Hn. unfold dictExpand.
  destruct (dictIsRehashing d) eqn:Hr; simpl.
  { exists d, DICT_ERR. split_and!; auto; done. }
  destruct (Z.ltb_spec n (used (ht0 d))).
  { exists d, DICT_ERR. split_and!; auto; lia. }
  destruct (Z.eqb_spec (_dictNextPower n) (size (ht0 d))) as [Hs|Hs].
  { exists d, DICT_ERR. split_and!; auto; done. }
  destruct (calloc_table_fits n Hn) as (m&Hm&Hpow&Hfit). rewrite Hfit. rewrite Hpow in *.
  pose proof (wf_rehash d Hd) as Ht1. rewrite Hr in Ht1.
  assert (He1 : ht_entries (ht1 d) = []) by (unfold ht_entries; by rewrite Ht1).
  set (h := mk_dictht _ _ _ _).
  assert (Heh : ht_entries h = []) by apply ht_entries_fresh.
  destruct (table (ht0 d)) as [t0|] eqn:Ht0.
  - eexists (set_rehashidx (set_ht1 d h) 0), DICT_OK.
    assert (He : entries (set_rehashidx (set_ht1 d h) 0) = entries d).
    { unfold entries; simpl. by rewrite Heh, He1. }
    split_and!; auto; simpl; eauto.
    apply (dict_wf_perm d); auto; simpl; [apply Hd|by apply ht_wf_fresh|by rewrite He| |apply Hd].
    unfold migrated; simpl. rewrite Ht0. pose proof (ht_wf_size _ (wf_ht0 _ Hd)).
    split; [lia|]. intros; lia.
  - eexists (set_ht0 d h), DICT_OK.
    assert (He : entries (set_ht0 d h) = entries d).
    { unfold entries; simpl. rewrite Heh. unfold ht_entries at 2. by rewrite Ht0. }
    split_and!; auto; simpl; eauto.
    apply (dict_wf_perm d); auto; simpl; [by apply ht_wf_fresh|apply Hd|by rewrite He| |apply Hd].
    unfold dictIsRehashing in *; simpl. by rewrite Hr.
Qed.

Lemma _dictExpandIfNeeded_spec cr d :
  dict_wf d ->
  exists d', _dictExpandIfNeeded cr d = (d', DICT_OK) /\ dict_wf d' /\ entries d' = entries d /\
    iterators d' = iterators d /\ is_Some (table (ht0 d')).
Proof.
  intros Hd. unfold _dictExpandIfNeeded.
  destruct (dictIsRehashing d) eqn:Hr.
  { exists d. split_and!; auto. destruct (rehashing_tables d Hd Hr) as (?&?&->&_). eauto. }
  pose proof (wf_ht0 d Hd) as Hw. pose proof (wf_count d Hd) as Hc.
  rewrite <-wf_used_le in Hc by done.
  pose proof (ht_wf_used _ (wf_ht1 _ Hd)) as Hu1. rewrite ht1_entries_nil, zlen_nil in Hu1 by done.
  destruct (Z.eqb_spec (size (ht0 d)) 0) as [Hs0|Hs0].
  - destruct (dictExpand_spec d DICT_HT_INITIAL_SIZE Hd) as (d'&rc&->&?&?&?&_&Hrc&Hok).
    { unfold DICT_HT_INITIAL_SIZE, max_slots. lia. }
    unfold ht_wf in Hw. destruct (table (ht0 d)); [destruct Hw as ((n&?&?)&_); lia|].
    destruct Hw as (?&?&Hu).
    assert (rc = DICT_OK) as ->.
    { apply Hok; [done|unfold DICT_HT_INITIAL_SIZE; lia|]. rewrite Hs0. by vm_compute. }
    exists d'. destruct Hrc as [[??]|[??]]; [done|]. auto.
  - assert (Ht : is_Some (table (ht0 d))).
    { unfold ht_wf in Hw. destruct (table (ht0 d)); [eauto|lia]. }
    destruct (_ && _) eqn:E; [|eauto 10].
    apply andb_true_iff in E as [Hle%Z.leb_le _].
    unfold max_entries in Hc. rewrite Hu1 in Hc.
    assert (Hpos : 4 <= size (ht0 d)).
    { unfold ht_wf in Hw. destruct Ht as [t Ht]. rewrite Ht in Hw.
      destruct Hw as ((n&Hn&->)&_). change 4 with (2 ^ 2). apply Z.pow_le_mono_r; lia. }
    rewrite u64_small by lia.
    destruct (dictExpand_spec d (used (ht0 d) * 2) Hd) as (d'&rc&->&?&?&?&_&Hrc&Hok); [unfold max_slots; lia|].
    assert (rc = DICT_OK) as ->.
    { apply Hok; [done|lia|].
      destruct (_dictNextPower_spec (used (ht0 d) * 2)) as (m&_&->&Hge&_); lia. }
    exists d'. destruct Hrc as [[??]|[??]]; [done|]. auto.
Qed.

(** *** Insertion *)
Lemma alias_ok_perm d d' k : entries d' ≡ₚ entries d -> alias_ok d k -> alias_ok d' k.
Proof. intros Hp Ha e He. rewrite Hp in He. by apply Ha. Qed.

Lemma land_not_minus_1 hash h t :
  ht_wf h -> table h = Some t -> s64 (Z.land hash (sizemask h)) = Z.land hash (sizemask h) /\
    Z.land hash (sizemask h) <> -1.
Proof.
  intros Hw Ht. destruct (bucket_hash h t hash Hw Ht) as (_&_&_&Hr).
  pose proof (ht_wf_size h Hw). split; [|lia]. apply s64_small. lia.
Qed.

(** The table that receives a new entry. *)
Definition target d : dictht K V := if dictIsRehashing d then ht1 d else ht0 d.
Definition set_target d h : dict K V := if dictIsRehashing d then set_ht1 d h else set_ht0 d h.

Lemma target_table d : dict_wf d -> is_Some (table (ht0 d)) -> is_Some (table (target d)).
Proof.
  intros Hd Ht. unfold target. destruct (dictIsRehashing d) eqn:Hr; [|done].
  destruct (rehashing_tables d Hd Hr) as (?&?&_&->&_). eauto.
Qed.

(** Pushing a new entry on its bucket in the target table. *)
Lemma push_spec d e :
  dict_wf d -> is_Some (table (ht0 d)) -> zlen (entries d) < max_entries ->
  key_ok (e_key e) -> (forall e', e' ∈ entries d -> e_key e <> e_key e' /\ e_addr e <> e_addr e') ->
  exists c h', bucket (target d) (Z.land (hash_of e) (sizemask (target d))) = Ok c /\
    set_bucket (target d) (Z.land (hash_of e) (sizemask (target d))) (e :: c) (u64 (used (target d) + 1)) = Ok h' /\
    dict_wf (set_target d h') /\ entries (set_target d h') ≡ₚ e :: entries d /\
    iterators (set_target d h') = iterators d /\ is_Some (table (ht0 (set_target d h'))).
Proof.
  intros Hd Ht0 Hc Hke Hnew.
  destruct (target_table d Hd Ht0) as [t Ht].
  assert (Hw : ht_wf (target d)) by (unfold target; destruct (dictIsRehashing d); apply Hd).
  destruct (bucket_hash (target d) t (hash_of e) Hw Ht) as (c&Hb&Hlk&Hr).
  destruct (set_bucket_spec (target d) t (Z.land (hash_of e) (sizemask (target d))) c (e :: c) Hw Ht)
    as (Hsb&Hw'&rest&Hp&Hp'); [lia|done| |].
  { intros e' [->|He']%elem_of_cons; [done|].
    unfold ht_wf in Hw. rewrite Ht in Hw. destruct Hw as (_&_&_&_&Hpl).
    rewrite (Hpl _ _ _ Hlk He'). lia. }
  rewrite zlen_cons in Hsb, Hw', Hp'.
  replace (used (target d) - zlen c + (1 + zlen c)) with (used (target d) + 1) in * by lia.
  pose proof (wf_used_le d Hd) as Hu.
  pose proof (zlen_nonneg (ht_entries (ht0 d))) as Hz0. pose proof (zlen_nonneg (ht_entries (ht1 d))) as Hz1.
  rewrite <-ht_wf_used in Hz0, Hz1 by apply Hd.
  assert (Hub : 0 <= used (target d) <= zlen (entries d)) by (unfold target; destruct (dictIsRehashing d); lia).
  exists c. eexists. split; [exact Hb|]. unfold max_entries in *.
  rewrite u64_small by lia. split; [exact Hsb|].
  set (h' := set_table _ _ _) in *.
  assert (Hpe : entries (set_target d h') ≡ₚ e :: entries d).
  { assert (Hpt : ht_entries h' ≡ₚ e :: ht_entries (target d)) by (rewrite Hp, Hp'; done).
    unfold set_target, target, entries in *. destruct (dictIsRehashing d); simpl; rewrite Hpt; [|done].
    symmetry. apply Permutation_middle. }
  assert (Hrr : rehashidx (set_target d h') = rehashidx d)
    by (unfold set_target; by destruct (dictIsRehashing d)).
  assert (Hrh : dictIsRehashing (set_target d h') = dictIsRehashing d) by (unfold dictIsRehashing; by rewrite Hrr).
  split_and!; [|done|unfold set_target; by destruct (dictIsRehashing d)|
               unfold set_target; destruct (dictIsRehashing d); simpl; eauto].
  constructor.
  - unfold set_target. destruct (dictIsRehashing d); [apply Hd|done].
  - unfold set_target. destruct (dictIsRehashing d); [done|apply Hd].
  - rewrite Hpe. constructor; [done|apply Hd].
  - rewrite Hpe, fmap_cons. apply NoDup_cons. split; [|apply Hd].
    intros (e'&Heq&He')%list_elem_of_fmap. by destruct (Hnew e' He').
  - rewrite Hpe, fmap_cons. apply NoDup_cons. split; [|apply Hd].
    intros (e'&Heq&He')%list_elem_of_fmap. by destruct (Hnew e' He').
  - rewrite Hrh. pose proof (wf_rehash d Hd) as Hrw. unfold set_target.
    destruct (dictIsRehashing d) eqn:E; [|done].
    unfold migrated in *; simpl. by destruct (table (ht0 d)), (table (ht1 d)).
  - unfold set_target. destruct (dictIsRehashing d); apply Hd.
  - rewrite (Permutation_length_zlen _ _ Hpe), zlen_cons. unfold max_entries. lia.
Qed.

Lemma dictAddRaw_spec cr d k ea ka :
  dict_wf d -> alias_ok d k -> key_ok (k_val k) -> zlen (entries d) < max_entries ->
  ea ∉ e_addr <$> entries d ->
  exists d' r ex, dictAddRaw ty cr d k ea ka = Ok (d', r, ex) /\ dict_wf d' /\
    iterators d' = iterators d /\
    match r with
    | None => entries d' ≡ₚ entries d /\ exists e, ex = Some e /\ e ∈ entries d /\ same_key k e
    | Some a => a = ea /\ ex = None /\ (forall e, e ∈ entries d -> ~ same_key k e) /\
        entries d' ≡ₚ mk_entry ea (dictSetKey ty ka k) None :: entries d
    end.
Proof.
  intros Hd Ha Hk Hc Hea. unfold dictAddRaw.
  destruct (step_if_rehashing_spec d Hd) as (d1&->&Hd1&Hp1&Hi1&_). cbn [res_bind].
  unfold _dictKeyIndex.
  destruct (_dictExpandIfNeeded_spec cr d1 Hd1) as (d2&->&Hd2&He2&Hi2&Ht2).
  change (DICT_OK =? DICT_ERR) with false. cbv iota.
  assert (Hp2 : entries d2 ≡ₚ entries d) by (by rewrite He2).
  destruct (find_both_spec d2 k Hd2 Ht2) as (r&->&Hr); [by apply (alias_ok_perm d)|done|].
  cbn [res_bind]. destruct r as [e|].
  { cbn [res_bind]. change (-1 =? -1) with true. cbv iota.
    eexists _, None, (Some e). split; [done|]. split_and!; [done|congruence|done|].
    destruct Hr as [He Hs]. rewrite Hp2 in He. eauto. }
  assert (Hnew : forall e, e ∈ entries d -> ~ same_key k e).
  { intros e He. apply Hr. by rewrite Hp2. }
  fold (target d2). destruct (target_table d2 Hd2 Ht2) as [t Ht].
  assert (Hw : ht_wf (target d2)) by (unfold target; destruct (dictIsRehashing d2); apply Hd2).
  destruct (land_not_minus_1 (dictHashKey ty k) (target d2) t Hw Ht) as [Hs64 Hne].
  cbn [res_bind]. rewrite Hs64. destruct (Z.eqb_spec (Z.land (dictHashKey ty k) (sizemask (target d2))) (-1)); [done|].
  set (e := mk_entry ea (dictSetKey ty ka k) None).
  assert (Hkey : e_key e = k_val k) by apply dup_contents.
  assert (Hh : dictHashKey ty k = hash_of e).
  { unfold hash_of, dictHashKey. fold (e_key e). by rewrite Hkey. }
  rewrite Hh.
  destruct (push_spec d2 e Hd2 Ht2) as (c&h'&Hb&Hsb&Hwf&Hp&Hit&_).
  - by rewrite (Permutation_length_zlen _ _ Hp2).
  - by rewrite Hkey.
  - intros e' He'. rewrite Hp2 in He'. rewrite Hkey. split; [by apply Hnew|].
    intros Heq. apply Hea. apply list_elem_of_fmap. exists e'. auto.
  - change (if dictIsRehashing d2 then ht1 d2 else ht0 d2) with (target d2).
    rewrite Hb. cbn [res_bind]. rewrite Hsb. cbn [res_bind].
    change (if dictIsRehashing d2 then set_ht1 d2 h' else set_ht0 d2 h') with (set_target d2 h').
    eexists _, _, _. split; [done|]. split_and!; [done|congruence|done|done|done|].
    by rewrite Hp, Hp2.
Qed.
End Invariant.
