(* ===== verification/DictTypes.v ===== *)
(** * gp_dict.c: the concrete dictionary types

    The hash, duplication and comparison callbacks for [int] and string keys,
    the six [dictType] tables built from them, [dictCreate], and the proofs
    that they meet the contract [DictTypeOk] the dictionary relies on.  A
    string key is the list of its bytes before the terminating NUL. *)

From S2P Require Import Prelude Hash Dict DictInv.
Local Open Scope Z_scope.

Definition INT_DICT : Z := 1.
Definition STRING_DICT : Z := 2.

(** The seed array: sixteen bytes. *)
Class SeedOk (seed : list Z) : Prop := {
  seed_len : zlen seed = 16;
  seed_bytes : Forall is_byte seed;
}.

Section Types.
(** [dict_hash_function_seed] *)
Context (seed : list Z).

(** [dictSetHashFunctionSeed]: [memcpy] of the 16 bytes of the array. *)
Definition dictSetHashFunctionSeed (new : list Z) : list Z := take 16 new.
Definition dictGetHashFunctionSeed : list Z := seed.

Definition dictGenHashFunction (key : list Z) (len : Z) : res Z := siphash key len seed.
Definition dictGenCaseHashFunction (buf : list Z) (len : Z) : res Z := siphash_nocase buf len seed.

(** The callbacks are total on valid keys ([hashCallbackInt_total],
    [hashCallbackString_total]); a failed read has no value. *)
Definition hash_value (m : res Z) : Z := match m with Ok h => h | _ => 0 end.

(** An [int] in memory. *)
Definition int_object (k : Z) : list Z := le_bytes 4 (u32 k).
(** A string in memory. *)
Definition str_object (s : list Z) : list Z := s ++ [0].
Definition strlen_int (s : list Z) : Z := s32 (zlen s).

Definition hashCallbackString (key : list Z) : Z :=
  hash_value (dictGenHashFunction (str_object key) (strlen_int key)).
Definition compareCallbackString (key1 key2 : list Z) : bool :=
  let l1 := strlen_int key1 in
  let l2 := strlen_int key2 in
  if negb (l1 =? l2) then false
  else bool_decide (take (Z.to_nat l1) (str_object key1) = take (Z.to_nat l1) (str_object key2)).
Definition keyDupString (a : Z) (key : dkey (list Z)) : dkey (list Z) := mk_dkey a (k_val key).
Definition keyDupInt (a : Z) (key : dkey Z) : dkey Z := mk_dkey a (k_val key).
Definition valDupString (obj : list Z) : list Z := obj.
Definition valDupInt (obj : Z) : Z := obj.
Definition hashCallbackInt (key : Z) : Z := hash_value (dictGenHashFunction (int_object key) 4).
Definition compareCallbackInt (l1 l2 : Z) : bool := if negb (l1 =? l2) then false else true.

Definition IntStringDictType : dictType Z (list Z) :=
  mk_dictType hashCallbackInt (Some keyDupInt) (Some valDupString) (Some compareCallbackInt) true false.
Definition IntIntDictType : dictType Z Z :=
  mk_dictType hashCallbackInt (Some keyDupInt) (Some valDupInt) (Some compareCallbackInt) true false.
Definition StringStringDictType : dictType (list Z) (list Z) :=
  mk_dictType hashCallbackString (Some keyDupString) (Some valDupString) (Some compareCallbackString) true false.
Definition StringIntDictType : dictType (list Z) Z :=
  mk_dictType hashCallbackString (Some keyDupString) (Some valDupInt) (Some compareCallbackString) true false.
(** The values of the last two are the pointers themselves. *)
Definition IntDictType {V} : dictType Z V :=
  mk_dictType hashCallbackInt (Some keyDupInt) None (Some compareCallbackInt) true false.
Definition StringDictType {V} : dictType (list Z) V :=
  mk_dictType hashCallbackString (Some keyDupString) None (Some compareCallbackString) true false.

(** Which table [dictCreate] installs; no case returns NULL. *)
Inductive dict_kind := IntInt | IntString | StringInt | StringString | StringPtr | IntPtr.
Definition dictCreate (key_type value_type : Z) : option dict_kind :=
  let is_int := Z.eqb INT_DICT in
  let is_str := Z.eqb STRING_DICT in
  if is_int key_type && is_int value_type then Some IntInt
  else if is_int key_type && is_str value_type then Some IntString
  else if is_str key_type && is_int value_type then Some StringInt
  else if is_str key_type && is_str value_type then Some StringString
  else if is_str key_type && (value_type =? 0) then Some StringPtr
  else if is_int key_type && (value_type =? 0) then Some IntPtr
  else None.

(** *** The contract *)
Definition int_key_ok (k : Z) : Prop := -2147483648 <= k < 2147483648.
(** Bytes other than NUL, with a length that [int] holds. *)
Definition str_key_ok (s : list Z) : Prop :=
  Forall (fun c => 1 <= c < 256) s /\ zlen s < 2147483647.
#[export] Instance int_key_ok_dec k : Decision (int_key_ok k).
Proof. unfold int_key_ok. apply _. Defined.
#[export] Instance str_key_ok_dec s : Decision (str_key_ok s).
Proof. unfold str_key_ok. apply _. Defined.

Context `{Hseed : !SeedOk seed}.

Lemma dictGenHashFunction_total m n :
  Forall is_byte m -> 0 <= n <= zlen m ->
  exists h, dictGenHashFunction m n = Ok h /\ 0 <= h < 2 ^ 64.
Proof. intros. apply siphash_ok; [done|apply seed_bytes|done|]. rewrite seed_len. lia. Qed.

Lemma int_object_ok k : Forall is_byte (int_object k) /\ zlen (int_object k) = 4.
Proof. split; [apply le_bytes_byte|done]. Qed.
Lemma str_object_ok s :
  str_key_ok s -> Forall is_byte (str_object s) /\ zlen (str_object s) = zlen s + 1 /\
    strlen_int s = zlen s.
Proof.
  intros [Hs Hl]. pose proof (zlen_nonneg s). unfold str_object. rewrite zlen_app. split_and!.
  - apply Forall_app; split; [|by repeat constructor].
    eapply Forall_impl; [exact Hs|]. unfold is_byte. simpl. lia.
  - done.
  - unfold strlen_int. apply s32_small. lia.
Qed.

Lemma hashCallbackInt_total k :
  dictGenHashFunction (int_object k) 4 = Ok (hashCallbackInt k) /\ 0 <= hashCallbackInt k < 2 ^ 64.
Proof.
  destruct (int_object_ok k) as [Hb Hl]. unfold hashCallbackInt.
  destruct (dictGenHashFunction_total (int_object k) 4) as (h&->&Hh); [done|rewrite Hl; lia|]. done.
Qed.
Lemma hashCallbackString_total s :
  str_key_ok s ->
  dictGenHashFunction (str_object s) (strlen_int s) = Ok (hashCallbackString s) /\
  0 <= hashCallbackString s < 2 ^ 64.
Proof.
  intros Hs. destruct (str_object_ok s Hs) as (Hb&Hl&Hn). pose proof (zlen_nonneg s).
  unfold hashCallbackString.
  destruct (dictGenHashFunction_total (str_object s) (strlen_int s)) as (h&->&Hh); [done|lia|]. done.
Qed.

Lemma compareCallbackInt_spec a b : compareCallbackInt a b = true <-> a = b.
Proof. unfold compareCallbackInt. destruct (Z.eqb_spec a b); naive_solver. Qed.
Lemma compareCallbackString_spec a b :
  str_key_ok a -> str_key_ok b -> compareCallbackString a b = true <-> a = b.
Proof.
  intros Ha Hb. unfold compareCallbackString.
  destruct (str_object_ok a Ha) as (_&_&->), (str_object_ok b Hb) as (_&_&->).
  destruct (Z.eqb_spec (zlen a) (zlen b)) as [Hl|Hl]; simpl; [|split; [done|by intros ->]].
  assert (forall s : list Z, zlen s = zlen a -> take (Z.to_nat (zlen a)) (str_object s) = s) as Ht.
  { intros s Hs. unfold str_object. rewrite take_app_le by (unfold zlen in *; lia).
    apply take_ge. unfold zlen in *. lia. }
  rewrite !Ht by done. by rewrite bool_decide_eq_true.
Qed.

#[export] Instance int_type_ok {V} (vd : option (V -> V)) fk fv :
  DictTypeOk (mk_dictType hashCallbackInt (Some keyDupInt) vd (Some compareCallbackInt) fk fv) int_key_ok.
Proof.
  constructor; simpl.
  - intros k _. apply hashCallbackInt_total.
  - intros a b _ _. apply compareCallbackInt_spec.
  - done.
Qed.
#[export] Instance string_type_ok {V} (vd : option (V -> V)) fk fv :
  DictTypeOk (mk_dictType hashCallbackString (Some keyDupString) vd (Some compareCallbackString) fk fv)
             str_key_ok.
Proof.
  constructor; simpl.
  - intros k Hk. by apply hashCallbackString_total.
  - intros a b. apply compareCallbackString_spec.
  - done.
Qed.

#[export] Instance IntStringDictType_ok : DictTypeOk IntStringDictType int_key_ok.
Proof. apply int_type_ok. Qed.
#[export] Instance IntIntDictType_ok : DictTypeOk IntIntDictType int_key_ok.
Proof. apply int_type_ok. Qed.
#[export] Instance StringStringDictType_ok : DictTypeOk StringStringDictType str_key_ok.
Proof. apply string_type_ok. Qed.
#[export] Instance StringIntDictType_ok : DictTypeOk StringIntDictType str_key_ok.
Proof. apply string_type_ok. Qed.
#[export] Instance IntDictType_ok {V} : DictTypeOk (IntDictType (V := V)) int_key_ok.
Proof. apply int_type_ok. Qed.
#[export] Instance StringDictType_ok {V} : DictTypeOk (StringDictType (V := V)) str_key_ok.
Proof. apply string_type_ok. Qed.
End Types.

#[export] Instance zero_seed_ok : SeedOk (replicate 16 0).
Proof. constructor; [done|]. apply Forall_replicate. unfold is_byte. lia. Qed.
