(* ===== verification/DictRefine.v ===== *)
(** * gp_dict.c: every operation as an operation of a finite map

    The specifications of lookup, insertion, replacement, deletion and
    clearing on well-formed dictionaries, and the theorem that any sequence of
    calls from [_dictCreate], with rehashing going on or not, answers as the
    finite map [dmodel] does. *)

From S2P Require Import Prelude Hash Dict DictInv DictTypes.
Local Open Scope Z_scope.

(** *** Calls *)
Inductive cmd {K V : Type} :=
  | CAdd (k : dkey K) (v : V) (ea ka : Z)
  | CReplace (k : dkey K) (v : V) (ea ka : Z)
  | CAddOrFind (k : dkey K) (ea ka : Z)
  | CFind (k : dkey K)
  | CFetch (k : dkey K)
  | CDelete (k : dkey K)
  | CExpand (n : Z)
  | CResize
  | CRehash (n : nat)
  | CEmpty
  | CCanResize (b : bool).
Arguments cmd : clear implicits.

(** What a call lets its caller see: a return code, an entry's key and value,
    or a fetched value. *)
Inductive out {K V : Type} :=
  | OCode (rc : Z)
  | OEntry (r : option (K * option V))
  | OValue (r : option V)
  | OUnit.
Arguments out : clear implicits.

(** The dictionary and the global [dict_can_resize]. *)
Definition exec {K V} (ty : dictType K V) (s : dict K V * bool) (c : cmd K V)
    : res ((dict K V * bool) * out K V) :=
  let (d, cr) := s in
  match c with
  | CAdd k v ea ka => let* (d, rc) := dictAdd ty cr d k v ea ka in Ok (d, cr, OCode rc)
  | CReplace k v ea ka => let* (d, rc) := dictReplace ty cr d k v ea ka in Ok (d, cr, OCode rc)
  | CAddOrFind k ea ka => let* (d, _) := dictAddOrFind ty cr d k ea ka in Ok (d, cr, OUnit)
  | CFind k =>
      let* (d, r) := dictFind ty d k in
      Ok (d, cr, OEntry ((fun e => (k_val (key e), val e)) <$> r))
  | CFetch k => let* (d, r) := dictFetchValue ty d k in Ok (d, cr, OValue r)
  | CDelete k => let* (d, rc, _) := dictDelete ty d k in Ok (d, cr, OCode rc)
  | CExpand n => let (d, _) := dictExpand d n in Ok (d, cr, OUnit)
  | CResize => let (d, _) := dictResize cr d in Ok (d, cr, OUnit)
  | CRehash n => let* (d, _) := dictRehash ty d n in Ok (d, cr, OUnit)
  | CEmpty => Ok (fst (dictEmpty ty d), cr, OUnit)
  | CCanResize b => Ok (d, if b then dictEnableResize else dictDisableResize, OUnit)
  end.

Fixpoint run {K V} (ty : dictType K V) (s : dict K V * bool) (cs : list (cmd K V))
    : res ((dict K V * bool) * list (out K V)) :=
  match cs with
  | [] => Ok (s, [])
  | c :: cs =>
      let* (s, o) := exec ty s c in
      let* (s, os) := run ty s cs in
      Ok (s, o :: os)
  end.

(** The specification: a finite map whose values may still be unset. *)
Definition spec {K V} `{Countable K} (ty : dictType K V) (m : gmap K (option V)) (c : cmd K V)
    : gmap K (option V) * out K V :=
  match c with
  | CAdd k v _ _ =>
      match m !! k_val k with
      | Some _ => (m, OCode DICT_ERR)
      | None => (<[k_val k := Some (dup_val ty v)]> m, OCode DICT_OK)
      end
  | CReplace k v _ _ =>
      (<[k_val k := Some (dup_val ty v)]> m, OCode (match m !! k_val k with Some _ => 0 | None => 1 end))
  | CAddOrFind k _ _ =>
      (match m !! k_val k with Some _ => m | None => <[k_val k := None]> m end, OUnit)
  | CFind k => (m, OEntry ((fun v => (k_val k, v)) <$> m !! k_val k))
  | CFetch k => (m, OValue (mjoin (m !! k_val k)))
  | CDelete k =>
      (delete (k_val k) m, OCode (match m !! k_val k with Some _ => DICT_OK | None => DICT_ERR end))
  | CEmpty => (∅, OUnit)
  | CExpand _ | CResize | CRehash _ | CCanResize _ => (m, OUnit)
  end.
Fixpoint spec_run {K V} `{Countable K} (ty : dictType K V) (m : gmap K (option V)) (cs : list (cmd K V))
    : gmap K (option V) * list (out K V) :=
  match cs with
  | [] => (m, [])
  | c :: cs =>
      let (m, o) := spec ty m c in
      let (m, os) := spec_run ty m cs in
      (m, o :: os)
  end.

Section Refine.
Context {K V : Type} `{Countable K}.
Context (ty : dictType K V) (key_ok : K -> Prop) `{Hty : !DictTypeOk ty key_ok}.

Implicit Types (e : dictEntry K V) (c : list (dictEntry K V)) (t : list (list (dictEntry K V))).
Implicit Types (h : dictht K V) (d : dict K V) (k : dkey K).

Notation dict_wf := (dict_wf ty key_ok).
Notation ht_wf := (ht_wf ty).
Notation hash_of := (hash_of ty).

(** *** Writing a value *)
Lemma entry_set_val_key a v e : e_key (entry_set_val a v e) = e_key e.
Proof. unfold entry_set_val. by destruct (e_addr e =? a). Qed.
Lemma entry_set_val_addr a v e : e_addr (entry_set_val a v e) = e_addr e.
Proof. unfold entry_set_val. by destruct (e_addr e =? a). Qed.
Lemma entry_set_val_key_obj a v e : key (entry_set_val a v e) = key e.
Proof. unfold entry_set_val. by destruct (e_addr e =? a). Qed.
Lemma entry_set_val_hash a v e : hash_of (entry_set_val a v e) = hash_of e.
Proof. unfold DictInv.hash_of. by rewrite entry_set_val_key_obj. Qed.

Lemma fmap_set_val_keys a v c : e_key <$> (entry_set_val a v <$> c) = e_key <$> c.
Proof. rewrite <-list_fmap_compose. apply list_fmap_ext. intros; apply entry_set_val_key. Qed.
Lemma fmap_set_val_addrs a v c : e_addr <$> (entry_set_val a v <$> c) = e_addr <$> c.
Proof. rewrite <-list_fmap_compose. apply list_fmap_ext. intros; apply entry_set_val_addr. Qed.

Lemma ht_entries_set_val a v h : ht_entries (ht_set_val a v h) = entry_set_val a v <$> ht_entries h.
Proof.
  unfold ht_entries, ht_set_val. cbn [table]. destruct (table h) as [t|]; [|done]. cbn [option_map].
  induction t as [|c t IH]; [done|]. rewrite fmap_cons.
  change (mjoin (c :: t)) with (c ++ mjoin t). rewrite fmap_app, <-IH. done.
Qed.

Lemma ht_wf_set_val a v h : ht_wf h -> ht_wf (ht_set_val a v h).
Proof.
  unfold DictInv.ht_wf. intros Hw.
  pose proof (ht_entries_set_val a v h) as He. unfold ht_entries in He.
  unfold ht_set_val in *; cbn [table size sizemask used] in *.
  destruct (table h) as [t|]; cbn [option_map] in *; [|done].
  destruct Hw as (?&?&Hl&Hu&Hpl). rewrite He. split_and!; auto.
  - unfold zlen in *. by rewrite length_fmap.
  - rewrite Hu. unfold zlen. by rewrite length_fmap.
  - intros i c e Hi Hc. apply list_lookup_fmap_Some in Hi as (c0&->&Hi).
    apply list_elem_of_fmap in Hc as (e0&->&He0). rewrite entry_set_val_hash. eauto.
Qed.

Lemma entries_set_val d a v :
  entries (dictSetVal ty d a v) = entry_set_val a (dup_val ty v) <$> entries d.
Proof. unfold entries, dictSetVal; simpl. by rewrite !ht_entries_set_val, fmap_app. Qed.

Lemma dict_wf_set_val d a v : dict_wf d -> dict_wf (dictSetVal ty d a v).
Proof.
  intros Hd. constructor.
  - apply ht_wf_set_val, Hd.
  - apply ht_wf_set_val, Hd.
  - rewrite entries_set_val, Forall_fmap. eapply Forall_impl; [apply Hd|].
    intros e. simpl. by rewrite entry_set_val_key.
  - rewrite entries_set_val, fmap_set_val_keys. apply Hd.
  - rewrite entries_set_val, fmap_set_val_addrs. apply Hd.
  - pose proof (wf_rehash _ _ d Hd) as Hr. unfold dictIsRehashing, migrated in *; simpl.
    destruct (negb _); [|by rewrite Hr].
    destruct (table (ht0 d)) as [t0|], (table (ht1 d)); try done.
    simpl. destruct Hr as [? Hr]. split; [done|].
    intros i c Hi Hc. apply list_lookup_fmap_Some in Hc as (c0&->&Hc).
    by rewrite (Hr i c0 Hi Hc).
  - apply Hd.
  - rewrite entries_set_val. unfold zlen. rewrite length_fmap. apply Hd.
Qed.

(** Entries are identified by address. *)
Lemma wf_addr_inj d e e' : dict_wf d -> e ∈ entries d -> e' ∈ entries d -> e_addr e = e_addr e' -> e = e'.
Proof.
  intros Hd He He' Heq.
  apply list_elem_of_lookup in He as [i Hi]. apply list_elem_of_lookup in He' as [j Hj].
  assert (i = j) as ->; [|congruence].
  eapply (NoDup_lookup (e_addr <$> entries d)); [apply Hd|..];
    rewrite list_lookup_fmap; [by rewrite Hi|by rewrite Hj, Heq].
Qed.
Lemma wf_key_inj d e e' : dict_wf d -> e ∈ entries d -> e' ∈ entries d -> e_key e = e_key e' -> e = e'.
Proof.
  intros Hd He He' Heq.
  apply list_elem_of_lookup in He as [i Hi]. apply list_elem_of_lookup in He' as [j Hj].
  assert (i = j) as ->; [|congruence].
  eapply (NoDup_lookup (e_key <$> entries d)); [apply Hd|..];
    rewrite list_lookup_fmap; [by rewrite Hi|by rewrite Hj, Heq].
Qed.

(** Looking a key up in the map is finding its entry. *)
Lemma dmodel_lookup d k r :
  dict_wf d ->
  match r with
  | Some e => e ∈ entries d /\ same_key k e
  | None => forall e, e ∈ entries d -> ~ same_key k e
  end -> dmodel d !! k_val k = val <$> r.
Proof.
  intros Hd. destruct r as [e|]; simpl.
  - intros [He ->]. by apply (dmodel_some ty key_ok).
  - apply dmodel_none.
Qed.

Lemma dmodel_elem d kk v : dmodel d !! kk = Some v -> exists e, e ∈ entries d /\ e_key e = kk /\ val e = v.
Proof.
  intros Hl%elem_of_list_to_map_2. apply list_elem_of_fmap in Hl as (e&Heq&He).
  injection Heq as -> ->. eauto.
Qed.

Lemma dmodel_set_val d e v :
  dict_wf d -> e ∈ entries d ->
  dmodel (dictSetVal ty d (e_addr e) v) = <[e_key e := Some (dup_val ty v)]> (dmodel d).
Proof.
  intros Hd He. pose proof (dict_wf_set_val d (e_addr e) v Hd) as Hd'.
  apply map_eq. intros kk. destruct (decide (kk = e_key e)) as [->|Hne].
  - rewrite lookup_insert_eq.
    rewrite <-(entry_set_val_key (e_addr e) (dup_val ty v) e).
    rewrite (dmodel_some ty key_ok _ _ Hd').
    + unfold entry_set_val. by rewrite Z.eqb_refl.
    + rewrite entries_set_val. apply list_elem_of_fmap. eauto.
  - rewrite lookup_insert_ne by done.
    destruct (dmodel d !! kk) as [v'|] eqn:E.
    + apply dmodel_elem in E as (e'&He'&<-&<-).
      rewrite <-(entry_set_val_key (e_addr e) (dup_val ty v) e').
      rewrite (dmodel_some ty key_ok _ _ Hd').
      * unfold entry_set_val. destruct (Z.eqb_spec (e_addr e') (e_addr e)) as [Ha|]; [|done].
        by rewrite (wf_addr_inj d e' e Hd He' He Ha) in Hne.
      * rewrite entries_set_val. apply list_elem_of_fmap. eauto.
    + destruct (dmodel (dictSetVal ty d (e_addr e) v) !! kk) as [v'|] eqn:E'; [|done].
      apply dmodel_elem in E' as (e'&He'&<-&<-).
      rewrite entries_set_val in He'. apply list_elem_of_fmap in He' as (e0&->&He0).
      rewrite entry_set_val_key in E. by rewrite (dmodel_some ty key_ok d e0 Hd He0) in E.
Qed.

(** Adding one entry to the map. *)
Lemma dmodel_push d d' e :
  dict_wf d' -> entries d' ≡ₚ e :: entries d -> dmodel d' = <[e_key e := val e]> (dmodel d).
Proof.
  intros Hd' Hp. assert (dmodel d' = list_to_map ((fun e => (e_key e, val e)) <$> (e :: entries d))) as ->.
  { apply list_to_map_proper; [|by rewrite Hp].
    rewrite <-list_fmap_compose. apply (wf_nodup _ _ _ Hd'). }
  by rewrite fmap_cons.
Qed.
Lemma dmodel_pop d d' e :
  dict_wf d -> entries d ≡ₚ e :: entries d' -> dmodel d' = delete (e_key e) (dmodel d).
Proof.
  intros Hd Hp. rewrite (dmodel_push d' d e Hd Hp). rewrite delete_insert_id; [done|].
  apply not_elem_of_list_to_map_1. rewrite <-list_fmap_compose.
  pose proof (wf_nodup _ _ _ Hd) as Hn. rewrite Hp, fmap_cons in Hn. by apply NoDup_cons in Hn as [??].
Qed.

(** *** Lookup *)
Lemma dictSize_spec d : dict_wf d -> dictSize d = zlen (entries d).
Proof.
  intros Hd. unfold dictSize. rewrite (wf_used_le _ _ d Hd).
  pose proof (wf_count _ _ d Hd). pose proof (zlen_nonneg (entries d)).
  unfold max_entries in *. apply u64_small. lia.
Qed.

Lemma nonempty_table d : dict_wf d -> entries d <> [] -> is_Some (table (ht0 d)).
Proof.
  intros Hd Hne. destruct (dictIsRehashing d) eqn:Hr.
  - destruct (rehashing_tables _ _ d Hd Hr) as (?&?&->&_). eauto.
  - unfold entries in Hne. rewrite (ht1_entries_nil _ _ d Hd Hr), app_nil_r in Hne.
    unfold ht_entries in Hne. destruct (table (ht0 d)); [eauto|done].
Qed.

Lemma dictFind_spec d k :
  dict_wf d -> alias_ok d k -> key_ok (k_val k) ->
  exists d' r, dictFind ty d k = Ok (d', r) /\ dict_wf d' /\ entries d' ≡ₚ entries d /\
    iterators d' = iterators d /\
    match r with
    | Some e => e ∈ entries d /\ same_key k e
    | None => forall e, e ∈ entries d -> ~ same_key k e
    end.
Proof.
  intros Hd Ha Hk. unfold dictFind. rewrite dictSize_spec by done.
  destruct (Z.eqb_spec (zlen (entries d)) 0) as [Hz|Hz].
  { exists d, None. unfold zlen in Hz. destruct (entries d); [|simpl in Hz; lia].
    split_and!; auto. by intros e ?%elem_of_nil. }
  destruct (step_if_rehashing_spec ty key_ok d Hd) as (d1&->&Hd1&Hp&Hi&Ht). cbn [res_bind].
  destruct (find_both_spec ty key_ok d1 k) as (r&->&Hr); [done|..|done|].
  - apply Ht, nonempty_table; [done|]. by intros Hn; rewrite Hn in Hz.
  - by apply (alias_ok_perm d).
  - cbn [res_bind]. eexists _, r. split_and!; [done..|].
    destruct r; [by rewrite Hp in Hr|]. intros e. rewrite <-Hp. apply Hr.
Qed.

(** *** Insertion and replacement *)
Lemma dictAdd_spec cr d k v ea ka :
  dict_wf d -> alias_ok d k -> key_ok (k_val k) -> zlen (entries d) < max_entries ->
  ea ∉ e_addr <$> entries d ->
  exists d' rc, dictAdd ty cr d k v ea ka = Ok (d', rc) /\ dict_wf d' /\ iterators d' = iterators d /\
    (rc, dmodel d') = match dmodel d !! k_val k with
                      | Some _ => (DICT_ERR, dmodel d)
                      | None => (DICT_OK, <[k_val k := Some (dup_val ty v)]> (dmodel d))
                      end.
Proof.
  intros Hd Ha Hk Hc Hea. unfold dictAdd.
  destruct (dictAddRaw_spec ty key_ok cr d k ea ka) as (d1&r&ex&->&Hd1&Hi&Hr); [done..|].
  cbn [res_bind]. destruct r as [a|].
  - destruct Hr as (->&_&Hnew&Hp). set (e := mk_entry ea _ None) in Hp.
    rewrite (dmodel_none d k Hnew).
    assert (He : e ∈ entries d1) by (rewrite Hp; by left).
    eexists _, _. split; [done|]. split; [by apply dict_wf_set_val|]. split; [done|]. f_equal.
    change ea with (e_addr e). rewrite (dmodel_set_val d1 e v Hd1 He), (dmodel_push d d1 e Hd1 Hp).
    assert (e_key e = k_val k) as -> by apply (dup_contents (ty := ty)).
    by rewrite insert_insert_eq.
  - destruct Hr as (Hp&e&->&He&Hs). rewrite Hs, (dmodel_some ty key_ok d e Hd He).
    eexists _, _. split; [done|]. split; [done|]. split; [done|]. f_equal.
    by apply (dmodel_perm ty key_ok).
Qed.

Lemma dictReplace_spec cr d k v ea ka :
  dict_wf d -> alias_ok d k -> key_ok (k_val k) -> zlen (entries d) < max_entries ->
  ea ∉ e_addr <$> entries d ->
  exists d' rc, dictReplace ty cr d k v ea ka = Ok (d', rc) /\ dict_wf d' /\ iterators d' = iterators d /\
    rc = match dmodel d !! k_val k with Some _ => 0 | None => 1 end /\
    dmodel d' = <[k_val k := Some (dup_val ty v)]> (dmodel d).
Proof.
  intros Hd Ha Hk Hc Hea. unfold dictReplace.
  destruct (dictAddRaw_spec ty key_ok cr d k ea ka) as (d1&r&ex&->&Hd1&Hi&Hr); [done..|].
  cbn [res_bind]. destruct r as [a|].
  - destruct Hr as (->&_&Hnew&Hp). set (e := mk_entry ea _ None) in Hp.
    rewrite (dmodel_none d k Hnew).
    assert (He : e ∈ entries d1) by (rewrite Hp; by left).
    eexists _, _. split; [done|]. split; [by apply dict_wf_set_val|]. split_and!; [done..|].
    change ea with (e_addr e). rewrite (dmodel_set_val d1 e v Hd1 He), (dmodel_push d d1 e Hd1 Hp).
    assert (e_key e = k_val k) as -> by apply (dup_contents (ty := ty)).
    by rewrite insert_insert_eq.
  - destruct Hr as (Hp&e&->&He&Hs). rewrite Hs, (dmodel_some ty key_ok d e Hd He).
    assert (He' : e ∈ entries d1) by (by rewrite Hp).
    cbn [of_option res_bind]. eexists _, _. split; [done|]. split; [by apply dict_wf_set_val|].
    split_and!; [done..|]. rewrite (dmodel_set_val d1 e v Hd1 He').
    by rewrite (dmodel_perm ty key_ok d1 d Hd1 Hp).
Qed.

Lemma dictAddOrFind_spec cr d k ea ka :
  dict_wf d -> alias_ok d k -> key_ok (k_val k) -> zlen (entries d) < max_entries ->
  ea ∉ e_addr <$> entries d ->
  exists d' a e, dictAddOrFind ty cr d k ea ka = Ok (d', Some a) /\ dict_wf d' /\
    iterators d' = iterators d /\ e ∈ entries d' /\ e_addr e = a /\ e_key e = k_val k /\
    dmodel d' = match dmodel d !! k_val k with
                | Some _ => dmodel d
                | None => <[k_val k := None]> (dmodel d)
                end.
Proof.
  intros Hd Ha Hk Hc Hea. unfold dictAddOrFind.
  destruct (dictAddRaw_spec ty key_ok cr d k ea ka) as (d1&r&ex&->&Hd1&Hi&Hr); [done..|].
  cbn [res_bind]. destruct r as [a|].
  - destruct Hr as (->&_&Hnew&Hp). set (e := mk_entry ea _ None) in Hp.
    rewrite (dmodel_none d k Hnew).
    assert (Hke : e_key e = k_val k) by apply (dup_contents (ty := ty)).
    exists d1, ea, e. rewrite (dmodel_push d d1 e Hd1 Hp), Hke. split_and!; try done.
    rewrite Hp. by left.
  - destruct Hr as (Hp&e&->&He&Hs). rewrite Hs, (dmodel_some ty key_ok d e Hd He).
    exists d1, (e_addr e), e. split_and!; try done; [by rewrite Hp|].
    by apply (dmodel_perm ty key_ok).
Qed.

(** *** Deletion *)
Lemma chain_unlink_spec d k c :
  alias_ok d k -> key_ok (k_val k) -> Forall (fun e => key_ok (e_key e)) c ->
  (forall e, e ∈ c -> e ∈ entries d) ->
  match chain_unlink ty k c with
  | Some (e, c') => same_key k e /\ c ≡ₚ e :: c'
  | None => forall e, e ∈ c -> ~ same_key k e
  end.
Proof.
  intros Ha Hk Hc Hin. induction Hc as [|e c He Hc IH]; simpl; [by intros ? ?%elem_of_nil|].
  destruct (key_matches ty k e) eqn:E.
  - rewrite (key_matches_spec ty key_ok d) in E by (auto; apply Hin; left). done.
  - assert (Hne : ~ same_key k e).
    { intros Hs. apply (key_matches_spec ty key_ok d k e) in Hs; [congruence|done|apply Hin; by left|done..]. }
    destruct (chain_unlink ty k c) as [[e' c']|].
    + destruct IH as [? Hp]; [intros; apply Hin; by right|]. split; [done|]. rewrite Hp. constructor.
    + intros e' [->|He']%elem_of_cons; [done|]. apply IH; [|done]. intros; apply Hin; by right.
Qed.

Lemma table_unlink_spec d h t k :
  dict_wf d -> h = ht0 d \/ h = ht1 d -> table h = Some t -> alias_ok d k -> key_ok (k_val k) ->
  exists r, table_unlink ty h k (dictHashKey ty k) = Ok r /\
    match r with
    | Some (e, h') => same_key k e /\ ht_wf h' /\ ht_entries h ≡ₚ e :: ht_entries h' /\
        size h' = size h /\
        exists t', table h' = Some t' /\ forall i c, t !! i = Some [] -> t' !! i = Some c -> c = []
    | None => forall e, e ∈ ht_entries h -> ~ same_key k e
    end.
Proof.
  intros Hd Hh Ht Ha Hk.
  assert (Hw : ht_wf h) by (destruct Hh as [->| ->]; apply Hd).
  assert (Hsub : forall e, e ∈ ht_entries h -> e ∈ entries d).
  { intros e He. unfold entries. destruct Hh as [->| ->]; set_solver. }
  unfold table_unlink. set (idx := Z.land (dictHashKey ty k) (sizemask h)).
  destruct (bucket_hash ty h t (dictHashKey ty k) Hw Ht) as (c&Hb&Hc&Hr).
  fold idx in Hb, Hc, Hr. rewrite Hb. cbn [res_bind].
  assert (Hcin : forall e, e ∈ c -> e ∈ ht_entries h).
  { intros e He. unfold ht_entries. rewrite Ht. apply elem_of_join_lookup. eauto. }
  assert (Hc' : Forall (fun e => key_ok (e_key e)) c).
  { apply Forall_forall. intros e He. pose proof (wf_keys _ _ d Hd) as Hks.
    rewrite Forall_forall in Hks. auto. }
  pose proof (chain_unlink_spec d k c Ha Hk Hc' ltac:(auto)) as Hu.
  destruct (chain_unlink ty k c) as [[e c']|].
  - destruct Hu as [Hs Hp].
    destruct (set_bucket_spec ty h t idx c c' Hw Ht) as (Hsb&Hw'&rest&Hp1&Hp2); [lia|done| |].
    { intros e' He'. unfold DictInv.ht_wf in Hw. rewrite Ht in Hw. destruct Hw as (_&_&_&_&Hpl).
      assert (Hec : e' ∈ c) by (rewrite Hp; by right). rewrite (Hpl _ _ _ Hc Hec). lia. }
    rewrite (Permutation_length_zlen _ _ Hp), zlen_cons in Hsb, Hw', Hp2.
    replace (used h - (1 + zlen c') + zlen c') with (used h - 1) in * by lia.
    assert (Hu : 1 <= used h <= zlen (entries d)).
    { assert (He1 : used h <= zlen (entries d)).
      { rewrite (ht_wf_used _ _ Hw). unfold entries. rewrite zlen_app.
        pose proof (zlen_nonneg (ht_entries (ht0 d))). pose proof (zlen_nonneg (ht_entries (ht1 d))).
        destruct Hh as [->| ->]; lia. }
      split; [|done]. rewrite (ht_wf_used _ _ Hw), (Permutation_length_zlen _ _ Hp1), zlen_app.
      rewrite (Permutation_length_zlen _ _ Hp), zlen_cons.
      pose proof (zlen_nonneg c'). pose proof (zlen_nonneg rest). lia. }
    pose proof (wf_count _ _ d Hd). unfold max_entries in *.
    rewrite u64_small by lia. rewrite Hsb. cbn [res_bind]. eexists. split; [done|].
    split_and!; [done|done| |done|].
    + rewrite Hp1, Hp2, Hp. done.
    + eexists. split; [done|]. intros i c0 Hi Hc0. destruct (decide (i = Z.to_nat idx)) as [->|].
      * rewrite Hc in Hi. injection Hi as ->. by apply Permutation_nil_cons in Hp.
      * rewrite list_lookup_insert_ne in Hc0 by done. congruence.
  - eexists. split; [done|]. intros e He Hs. apply (Hu e); [|done].
    destruct (ht_entries_place ty h t e Hw Ht He) as (c'&Hc2&Hec).
    unfold DictInv.hash_of, dictHashKey in Hc2. fold (e_key e) in Hc2. unfold same_key in Hs.
    rewrite <-Hs in Hc2. unfold idx, dictHashKey in Hc. congruence.
Qed.

(** Removing one entry keeps the invariant. *)
Lemma dict_wf_pop d d' e :
  dict_wf d -> ht_wf (ht0 d') -> ht_wf (ht1 d') -> entries d ≡ₚ e :: entries d' ->
  (if dictIsRehashing d' then migrated d' else table (ht1 d') = None) ->
  0 <= iterators d' -> dict_wf d'.
Proof.
  intros Hd H0 H1 Hp Hr Hi. constructor; auto.
  - pose proof (wf_keys _ _ d Hd) as Hk. rewrite Hp in Hk. by apply Forall_cons in Hk as [??].
  - pose proof (wf_nodup _ _ d Hd) as Hk. rewrite Hp, fmap_cons in Hk. by apply NoDup_cons in Hk as [??].
  - pose proof (wf_addrs _ _ d Hd) as Hk. rewrite Hp, fmap_cons in Hk. by apply NoDup_cons in Hk as [??].
  - pose proof (wf_count _ _ d Hd) as Hk. rewrite (Permutation_length_zlen _ _ Hp), zlen_cons in Hk. lia.
Qed.

Lemma dictGenericDelete_spec d k nofree :
  dict_wf d -> alias_ok d k -> key_ok (k_val k) ->
  exists d' r freed, dictGenericDelete ty d k nofree = Ok (d', r, freed) /\ dict_wf d' /\
    iterators d' = iterators d /\
    match r with
    | Some e => same_key k e /\ entries d ≡ₚ e :: entries d' /\
        freed = if nofree then [] else dictFreeKey ty e
    | None => freed = [] /\ entries d' ≡ₚ entries d /\ forall e, e ∈ entries d -> ~ same_key k e
    end.
Proof.
  intros Hd Ha Hk. unfold dictGenericDelete.
  pose proof (wf_used_le _ _ d Hd) as Hu.
  destruct (_ && _) eqn:E.
  { exists d, None, []. apply andb_true_iff in E as [E0%Z.eqb_eq E1%Z.eqb_eq].
    rewrite E0, E1 in Hu. unfold zlen in Hu. destruct (entries d); [|simpl in Hu; lia].
    split_and!; auto. by intros ? ?%elem_of_nil. }
  assert (Hne : entries d <> []).
  { intros Hn. rewrite Hn, zlen_nil in Hu.
    pose proof (zlen_nonneg (ht_entries (ht0 d))) as Hz0. pose proof (zlen_nonneg (ht_entries (ht1 d))) as Hz1.
    rewrite <-(ht_wf_used ty) in Hz0, Hz1 by apply Hd.
    destruct (Z.eqb_spec (used (ht0 d)) 0), (Z.eqb_spec (used (ht1 d)) 0); simpl in E; (done || lia). }
  destruct (step_if_rehashing_spec ty key_ok d Hd) as (d1&->&Hd1&Hp&Hi&Ht). cbn [res_bind].
  destruct (Ht (nonempty_table d Hd Hne)) as [t0 Ht0].
  pose proof (alias_ok_perm _ _ k Hp Ha) as Ha1.
  destruct (table_unlink_spec d1 (ht0 d1) t0 k) as (r&->&Hr); auto. cbn [res_bind].
  destruct r as [[e h']|].
  { destruct Hr as (Hs&Hw&Hpe&Hsz&t'&Ht'&Hemp).
    assert (Hpop : entries d1 ≡ₚ e :: entries (set_ht0 d1 h')) by (unfold entries; simpl; by rewrite Hpe).
    eexists _, _, _. split; [done|]. split_and!; [|done|done|by rewrite <-Hp|done].
    apply (dict_wf_pop d1 _ e); auto; [apply Hd1| |apply Hd1].
    pose proof (wf_rehash _ _ d1 Hd1) as Hrh. unfold dictIsRehashing, migrated in *; simpl.
    destruct (negb _); [|done]. rewrite Ht' in *. rewrite Ht0 in Hrh.
    destruct (table (ht1 d1)); [|done]. rewrite Hsz. destruct Hrh as [? Hrh]. split; [done|].
    intros i c Hi' Hc. destruct (t0 !! i) as [c0|] eqn:Hc0.
    - rewrite (Hrh i c0 Hi' Hc0) in Hc0. eauto.
    - exfalso. pose proof (wf_ht0 _ _ _ Hd1) as Hw0. unfold DictInv.ht_wf in Hw0, Hw.
      rewrite Ht0 in Hw0. rewrite Ht' in Hw. apply lookup_lt_Some in Hc. apply lookup_ge_None in Hc0.
      unfold zlen in *. destruct Hw0 as (_&_&?&_), Hw as (_&_&?&_). lia. }
  destruct (dictIsRehashing d1) eqn:Hr1; simpl.
  - destruct (rehashing_tables _ _ d1 Hd1 Hr1) as (_&t1&_&Ht1&_).
    destruct (table_unlink_spec d1 (ht1 d1) t1 k) as (r&->&Hr'); auto. cbn [res_bind].
    destruct r as [[e h']|].
    + destruct Hr' as (Hs&Hw&Hpe&Hsz&t'&Ht'&_).
      assert (Hpop : entries d1 ≡ₚ e :: entries (set_ht1 d1 h')).
      { unfold entries; simpl. rewrite Hpe. symmetry. apply Permutation_middle. }
      eexists _, _, _. split; [done|]. split_and!; [|done|done|by rewrite <-Hp|done].
      apply (dict_wf_pop d1 _ e); auto; [apply Hd1| |apply Hd1].
      pose proof (wf_rehash _ _ d1 Hd1) as Hrh. unfold dictIsRehashing, migrated in *; simpl.
      destruct (negb _); [|done]. rewrite Ht', Ht0. rewrite Ht0, Ht1 in Hrh. done.
    + eexists _, _, _. split; [done|]. split_and!; [done..|]. intros e. rewrite <-Hp. unfold entries. set_solver.
  - eexists _, _, _. split; [done|]. split_and!; [done..|]. intros e. rewrite <-Hp. unfold entries.
    rewrite (ht1_entries_nil ty key_ok) by done. set_solver.
Qed.

Lemma dictDelete_spec d k :
  dict_wf d -> alias_ok d k -> key_ok (k_val k) ->
  exists d' rc freed, dictDelete ty d k = Ok (d', rc, freed) /\ dict_wf d' /\
    iterators d' = iterators d /\
    rc = match dmodel d !! k_val k with Some _ => DICT_OK | None => DICT_ERR end /\
    dmodel d' = delete (k_val k) (dmodel d).
Proof.
  intros Hd Ha Hk. unfold dictDelete.
  destruct (dictGenericDelete_spec d k false) as (d1&r&fr&->&Hd1&Hi&Hr); [done..|].
  cbn [res_bind]. eexists _, _, _. split; [done|]. split; [done|]. split; [done|].
  destruct r as [e|].
  - destruct Hr as (Hs&Hp&_). rewrite Hs.
    assert (He : e ∈ entries d) by (rewrite Hp; by left).
    rewrite (dmodel_some ty key_ok d e Hd He). split; [done|]. by apply dmodel_pop.
  - destruct Hr as (_&Hp&Hn). rewrite (dmodel_none d k Hn). split; [done|].
    rewrite (dmodel_perm ty key_ok d1 d Hd1 Hp). symmetry. apply delete_id. by apply dmodel_none.
Qed.

(** *** Clearing *)
Lemma dict_wf_init : dict_wf (_dictCreate : dict K V).
Proof.
  constructor; simpl; try (unfold DictInv.ht_wf; simpl; by split_and!); try done;
    unfold entries, ht_entries; simpl; try constructor.
Qed.
Lemma dmodel_init : dmodel (_dictCreate : dict K V) = ∅.
Proof. done. Qed.

Lemma dictEmpty_init d : fst (dictEmpty ty d) = _dictCreate.
Proof. done. Qed.

(** Every key is freed when the destructor exists. *)
Lemma clear_buckets_all t u :
  u = zlen (mjoin t) -> zlen (mjoin t) < 2 ^ 64 ->
  clear_buckets ty t u = mjoin (dictFreeKey ty <$> mjoin t).
Proof.
  revert u. induction t as [|c t IH]; intros u Hu Hm; [done|]. cbn [clear_buckets].
  change (mjoin (c :: t)) with (c ++ mjoin t) in *. rewrite zlen_app in Hu, Hm.
  pose proof (zlen_nonneg c) as Hc. pose proof (zlen_nonneg (mjoin t)) as Ht.
  destruct (Z.eqb_spec u 0) as [Hz|Hz].
  - unfold zlen in *. destruct c; [|simpl in *; lia]. destruct (mjoin t); [done|simpl in *; lia].
  - rewrite (IH (u64 (u - zlen c))); [|rewrite u64_small; lia|lia].
    clear. induction c as [|e c IH]; [done|].
    change (mjoin (dictFreeKey ty <$> e :: c)) with (dictFreeKey ty e ++ mjoin (dictFreeKey ty <$> c)).
    change ((e :: c) ++ mjoin t) with (e :: (c ++ mjoin t)).
    change (mjoin (dictFreeKey ty <$> e :: (c ++ mjoin t)))
      with (dictFreeKey ty e ++ mjoin (dictFreeKey ty <$> (c ++ mjoin t))).
    by rewrite <-app_assoc, IH.
Qed.

Lemma dictResize_spec cr d :
  dict_wf d ->
  exists d' rc, dictResize cr d = (d', rc) /\ dict_wf d' /\ entries d' = entries d.
Proof.
  intros Hd. unfold dictResize. destruct (_ || _); [by exists d, DICT_ERR|].
  set (n := if _ <? _ then _ else _).
  destruct (dictExpand_spec ty key_ok d (u64 n) Hd) as (d'&rc&->&?&?&_); [|eauto].
  assert (0 <= n < 2147483648) by (unfold n, s32, DICT_HT_INITIAL_SIZE; case Z.ltb_spec; intros; Z.div_mod_to_equations; lia).
  rewrite u64_small by lia. unfold max_slots. lia.
Qed.

(** *** Sequences of calls *)
(** What the caller and the allocator owe each call: keys of the type, a key
    object distinct from the stored ones, fresh blocks from [malloc], a
    dictionary that fits the address space, no fetch of an unset value, a size
    that [calloc] can serve, and [n*10] within an [int]. *)
Definition key_pre d k : Prop := key_ok (k_val k) /\ alias_ok d k.
Definition alloc_pre d (ea : Z) : Prop := zlen (entries d) < max_entries /\ ea ∉ e_addr <$> entries d.
Definition cmd_ok d (c : cmd K V) : Prop :=
  match c with
  | CAdd k _ ea _ | CReplace k _ ea _ | CAddOrFind k ea _ => key_pre d k /\ alloc_pre d ea
  | CFind k | CDelete k => key_pre d k
  | CFetch k => key_pre d k /\ dmodel d !! k_val k <> Some None
  | CExpand n => 0 <= n <= max_slots
  | CRehash n => Z.of_nat n * 10 < 2147483648
  | _ => True
  end.
Fixpoint cmds_ok (s : dict K V * bool) (cs : list (cmd K V)) : Prop :=
  match cs with
  | [] => True
  | c :: cs => cmd_ok (fst s) c /\ forall s' o, exec ty s c = Ok (s', o) -> cmds_ok s' cs
  end.

Lemma exec_spec d cr (c : cmd K V) :
  dict_wf d -> cmd_ok d c ->
  exists d' cr' o, exec ty (d, cr) c = Ok (d', cr', o) /\ dict_wf d' /\
    spec ty (dmodel d) c = (dmodel d', o).
Proof.
  intros Hd Hc. destruct c as [k v ea ka|k v ea ka|k ea ka|k|k|k|n| |n| |b]; cbn [exec spec cmd_ok] in *.
  - destruct Hc as [[Hk Ha] [Hn Hea]].
    destruct (dictAdd_spec cr d k v ea ka) as (d'&rc&->&Hd'&_&Hm); [done..|].
    cbn [res_bind]. eexists d', cr, _. split_and!; [done..|].
    destruct (dmodel d !! k_val k); by injection Hm as -> ->.
  - destruct Hc as [[Hk Ha] [Hn Hea]].
    destruct (dictReplace_spec cr d k v ea ka) as (d'&rc&->&Hd'&_&->&Hm); [done..|].
    cbn [res_bind]. eexists d', cr, _. by rewrite Hm.
  - destruct Hc as [[Hk Ha] [Hn Hea]].
    destruct (dictAddOrFind_spec cr d k ea ka) as (d'&a&e&->&Hd'&_&_&_&_&Hm); [done..|].
    cbn [res_bind]. eexists d', cr, _. by rewrite Hm.
  - destruct Hc as [Hk Ha]. destruct (dictFind_spec d k) as (d'&r&->&Hd'&Hp&_&Hr); [done..|].
    cbn [res_bind]. eexists d', cr, _. split_and!; [done..|].
    rewrite (dmodel_lookup d k r Hd Hr), (dmodel_perm ty key_ok d' d Hd' Hp).
    destruct r as [e|]; [|done]. destruct Hr as [_ Hs]. simpl. by rewrite Hs.
  - destruct Hc as [[Hk Ha] Hset]. unfold dictFetchValue.
    destruct (dictFind_spec d k) as (d'&r&->&Hd'&Hp&_&Hr); [done..|]. cbn [res_bind].
    rewrite (dmodel_lookup d k r Hd Hr) in *. destruct r as [e|]; cbn [res_bind].
    + destruct (val e) as [v|] eqn:Hv; [|simpl in Hset; by rewrite Hv in Hset].
      cbn [of_option res_bind]. eexists d', cr, _. split_and!; [done..|].
      rewrite (dmodel_perm ty key_ok d' d Hd' Hp). simpl. by rewrite Hv.
    + eexists d', cr, _. split_and!; [done..|]. by rewrite (dmodel_perm ty key_ok d' d Hd' Hp).
  - destruct Hc as [Hk Ha]. destruct (dictDelete_spec d k) as (d'&rc&f&->&Hd'&_&->&Hm); [done..|].
    cbn [res_bind]. eexists d', cr, _. by rewrite Hm.
  - destruct (dictExpand_spec ty key_ok d n Hd Hc) as (d'&rc&->&Hd'&He&_).
    eexists d', cr, _. split_and!; [done..|]. unfold dmodel. by rewrite He.
  - destruct (dictResize_spec cr d Hd) as (d'&rc&->&Hd'&He).
    eexists d', cr, _. split_and!; [done..|]. unfold dmodel. by rewrite He.
  - destruct (dictRehash_spec ty key_ok d n Hd Hc) as (d'&r&->&Hd'&Hp&_). cbn [res_bind].
    eexists d', cr, _. split_and!; [done..|]. by rewrite (dmodel_perm ty key_ok d' d Hd' Hp).
  - eexists _, cr, _. split; [done|]. split; [apply dict_wf_init|done].
  - by eexists d, _, _.
Qed.

Lemma run_spec d cr (cs : list (cmd K V)) :
  dict_wf d -> cmds_ok (d, cr) cs ->
  exists d' cr' os, run ty (d, cr) cs = Ok (d', cr', os) /\ dict_wf d' /\
    spec_run ty (dmodel d) cs = (dmodel d', os).
Proof.
  revert d cr. induction cs as [|c cs IH]; intros d cr Hd Hok; cbn [run spec_run].
  { by eexists d, cr, _. }
  destruct Hok as [Hc Hok].
  destruct (exec_spec d cr c Hd Hc) as (d1&cr1&o&He&Hd1&->). rewrite He. cbn [res_bind].
  destruct (IH d1 cr1 Hd1 (Hok _ _ He)) as (d2&cr2&os&->&Hd2&->). cbn [res_bind].
  by eexists d2, cr2, _.
Qed.

(** The preconditions can be checked along an execution. *)
Context `{Hdec : forall kk, Decision (key_ok kk)} `{!EqDecision V}.
#[export] Instance alias_ok_dec d k : Decision (alias_ok d k).
Proof.
  refine (cast_if (decide (Forall (fun e => k_ptr k = k_ptr (key e) -> k_val k = e_key e) (entries d))));
    unfold alias_ok; by rewrite <-Forall_forall.
Defined.
#[export] Instance cmd_ok_dec d (c : cmd K V) : Decision (cmd_ok d c).
Proof. destruct c; simpl; unfold key_pre, alloc_pre; apply _. Defined.

Fixpoint cmds_check (s : dict K V * bool) (cs : list (cmd K V)) : bool :=
  match cs with
  | [] => true
  | c :: cs =>
      bool_decide (cmd_ok (fst s) c) &&
      match exec ty s c with Ok (s', _) => cmds_check s' cs | _ => true end
  end.
Lemma cmds_check_ok s cs : cmds_check s cs = true -> cmds_ok s cs.
Proof.
  revert s. induction cs as [|c cs IH]; intros s; [done|]. cbn [cmds_check cmds_ok].
  intros [?%bool_decide_eq_true He]%andb_true_iff. split; [done|].
  intros s' o Hs. rewrite Hs in He. auto.
Qed.
Lemma checked_run_wf cr cs d cr' os :
  cmds_check (_dictCreate, cr) cs = true -> run ty (_dictCreate, cr) cs = Ok (d, cr', os) -> dict_wf d.
Proof.
  intros Hc Hr. destruct (run_spec _dictCreate cr cs) as (d'&?&?&Hr'&?&_);
    [apply dict_wf_init|by apply cmds_check_ok|]. congruence.
Qed.
End Refine.

(** C3.  From [_dictCreate], any sequence of insertions, replacements,
    lookups, fetches, deletions, clearings, resizes and rehashing steps
    returns what the same sequence on a finite map returns, never goes out of
    bounds, and ends in a well-formed dictionary standing for the map, as long
    as the caller respects [cmd_ok]: an explicit size is one that can be
    allocated (2^59 slots), and ten times the number of rehashing steps asked
    for is an [int]. *)
Theorem dict_refines_map {K V} `{Countable K} (ty : dictType K V) (key_ok : K -> Prop)
    `{!DictTypeOk ty key_ok} (cr : bool) (cs : list (cmd K V)) :
  cmds_ok ty key_ok (_dictCreate, cr) cs ->
  exists d cr' os, run ty (_dictCreate, cr) cs = Ok (d, cr', os) /\ dict_wf ty key_ok d /\
    spec_run ty ∅ cs = (dmodel d, os).
Proof. intros Hc. apply (run_spec ty key_ok _dictCreate); [apply dict_wf_init|done]. Qed.

Definition demo_seed : list Z := replicate 16 0.
Definition demo_cmds : list (cmd Z Z) :=
  [CAdd (mk_dkey 1000 7) 70 1 2; CReplace (mk_dkey 1001 7) 71 3 4; CFetch (mk_dkey 1002 7);
   CDelete (mk_dkey 1003 7); CFind (mk_dkey 1004 7)].

Lemma dict_refines_map_witness :
  exists d cr os, run (IntIntDictType demo_seed) (_dictCreate, true) demo_cmds = Ok (d, cr, os) /\
    dict_wf (IntIntDictType demo_seed) int_key_ok d /\
    spec_run (IntIntDictType demo_seed) ∅ demo_cmds = (dmodel d, os).
Proof.
  apply (dict_refines_map (IntIntDictType demo_seed) int_key_ok true demo_cmds).
  apply (cmds_check_ok (IntIntDictType demo_seed) int_key_ok). vm_compute. reflexivity.
Defined.

(** A dictionary caught in the middle of a rehash from 4 to 8 slots. *)
Definition demo_fill : list (cmd Z Z) :=
  (fun i : nat => CAdd (mk_dkey (1000 + Z.of_nat i) (Z.of_nat i)) (10 * Z.of_nat i)
                       (2 * Z.of_nat i) (2 * Z.of_nat i + 1)) <$> seq 1 6.
Definition demo_dict : dict Z Z :=
  match run (IntIntDictType demo_seed) (_dictCreate, true) demo_fill with
  | Ok (d, _, _) => d
  | _ => _dictCreate
  end.
Lemma demo_dict_wf : dict_wf (IntIntDictType demo_seed) int_key_ok demo_dict.
Proof.
  destruct (run (IntIntDictType demo_seed) (_dictCreate, true) demo_fill) as [[[d cr] os]| |] eqn:E;
    [|by vm_compute in E..].
  apply (checked_run_wf (IntIntDictType demo_seed) int_key_ok true demo_fill demo_dict cr os);
    [by vm_compute|]. unfold demo_dict. by rewrite E.
Qed.
Example demo_dict_rehashing : dictIsRehashing demo_dict = true /\ zlen (entries demo_dict) = 6.
Proof. by vm_compute. Qed.
