(* ===== verification/DictScan.v ===== *)
(** * gp_dict.c: the reverse-binary cursor scan

    [rev], [dictScan] and why a scan interleaved with arbitrary changes,
    resizes included, misses no key that stays in the dictionary.  The key to
    it is the order of [rev] of the hashes: a bucket of a table of [2^n]
    slots is an interval of length [2^(64-n)] of that order, and a scan step
    moves [rev] of the cursor to the end of the interval it has emitted. *)

From S2P Require Import Prelude Hash Dict DictInv DictTypes DictRefine.
Local Open Scope Z_scope.

(** [~v] on an [unsigned long]. *)
Definition lnot64 (v : Z) : Z := u64 (Z.lnot v).

(** One round of the loop of [rev]. *)
Definition rev_step (s mask v : Z) : Z :=
  Z.lor (Z.land (Z.shiftr v s) mask) (Z.land (u64 (Z.shiftl v s)) (lnot64 mask)).
Fixpoint rev_loop (fuel : nat) (s mask v : Z) : Z :=
  match fuel with
  | O => v
  | S fuel =>
      let s := Z.shiftr s 1 in
      if 0 <? s then
        let mask := Z.lxor mask (u64 (Z.shiftl mask s)) in
        rev_loop fuel s mask (rev_step s mask v)
      else v
  end.
(** [s] runs through 32, 16, ..., 1: six rounds and the failing test. *)
Definition rev (v : Z) : Z := rev_loop 7 64 (lnot64 0) v.

(** [v |= ~m; v = rev(v); v++; v = rev(v);] *)
Definition scan_incr (v m : Z) : Z := rev (u64 (rev (Z.lor v (lnot64 m)) + 1)).

Section Scan.
Context {K V : Type}.

(** The [do ... while (v & (m0 ^ m1))] loop over the larger table; what [fn]
    is called with is accumulated in order. *)
Fixpoint scan_expansion (fuel : nat) (t1 : dictht K V) (m0 v : Z) : res (Z * list (dictEntry K V)) :=
  match fuel with
  | O => Ub
  | S fuel =>
      let m1 := sizemask t1 in
      let* c := bucket t1 (Z.land v m1) in
      let v := scan_incr v m1 in
      if Z.land v (Z.lxor m0 m1) =? 0 then Ok (v, c)
      else
        let* (v, es) := scan_expansion fuel t1 m0 v in
        Ok (v, c ++ es)
  end.

(** The next cursor and the entries passed to [fn]; [bucketfn] is NULL.  The
    loop visits each bucket of the larger table at most once. *)
Definition dictScan (d : dict K V) (v : Z) : res (Z * list (dictEntry K V)) :=
  if dictSize d =? 0 then Ok (0, [])
  else if negb (dictIsRehashing d) then
    let m0 := sizemask (ht0 d) in
    let* c := bucket (ht0 d) (Z.land v m0) in
    Ok (scan_incr v m0, c)
  else
    let swap := size (ht1 d) <? size (ht0 d) in
    let t0 := if swap then ht1 d else ht0 d in
    let t1 := if swap then ht0 d else ht1 d in
    let* c := bucket t0 (Z.land v (sizemask t0)) in
    let* (v, es) := scan_expansion (Z.to_nat (size t1)) t1 (sizemask t0) v in
    Ok (v, c ++ es).

(** A client's scan: each call continues from the previous cursor, on
    whatever the dictionary has become. *)
Fixpoint scan_run (ds : list (dict K V)) (v : Z) : res (Z * list (dictEntry K V)) :=
  match ds with
  | [] => Ok (v, [])
  | d :: ds =>
      let* (v, es) := dictScan d v in
      let* (v, es') := scan_run ds v in
      Ok (v, es ++ es')
  end.
End Scan.

(** ** [rev] reverses the 64 bits *)
Definition rev_src (s mask i : Z) : Z := if Z.testbit mask i then i + s else i - s.

Lemma rev_step_bit s mask v i :
  0 <= i < 64 -> 0 <= s -> 0 <= rev_src s mask i < 64 ->
  Z.testbit (rev_step s mask v) i = Z.testbit v (rev_src s mask i).
Proof.
  intros Hi Hs Hr. unfold rev_step, rev_src, lnot64, u64 in *.
  rewrite Z.lor_spec, !Z.land_spec. change 18446744073709551616 with (2 ^ 64).
  rewrite !Z.mod_pow2_bits_low by lia. rewrite Z.lnot_spec by lia.
  destruct (Z.testbit mask i).
  - rewrite Z.shiftr_spec by lia. by rewrite andb_true_r, andb_false_r, orb_false_r.
  - rewrite Z.shiftl_spec by lia. by rewrite andb_false_r, andb_true_r.
Qed.

Lemma rev_step_u64 s mask v : is_u64 mask -> is_u64 (rev_step s mask v).
Proof.
  intros Hm. unfold rev_step. apply lor_u64; apply is_u64_bits.
  - apply is_u64_bits in Hm as [? Hm]. split; [apply Z.land_nonneg; by right|].
    intros i Hi. by rewrite Z.land_spec, Hm, andb_false_r.
  - destruct (proj1 (is_u64_bits _) (u64_is_u64 (Z.shiftl v s))) as [? Hb].
    split; [apply Z.land_nonneg; by left|]. intros i Hi. by rewrite Z.land_spec, Hb.
Qed.

Definition rev_masks : list (Z * Z) :=
  [(32, 0x00000000FFFFFFFF); (16, 0x0000FFFF0000FFFF); (8, 0x00FF00FF00FF00FF);
   (4, 0x0F0F0F0F0F0F0F0F); (2, 0x3333333333333333); (1, 0x5555555555555555)].
Lemma rev_unfold v : rev v = foldl (fun v p => rev_step p.1 p.2 v) v rev_masks.
Proof. with_strategy opaque [rev_step] reflexivity. Qed.

(** Where bit [i] of the result comes from, round by round. *)
Fixpoint rev_trace (l : list (Z * Z)) (i : Z) : option Z :=
  match l with
  | [] => Some i
  | (s, mask) :: l =>
      j ← rev_trace l i;
      let k := rev_src s mask j in
      if (0 <=? j) && (j <? 64) && (0 <=? k) && (k <? 64) && (0 <=? s) then Some k else None
  end.
Lemma rev_trace_ok l v i j :
  rev_trace l i = Some j -> Z.testbit (foldl (fun v p => rev_step p.1 p.2 v) v l) i = Z.testbit v j.
Proof.
  revert v j. induction l as [|[s mask] l IH]; intros v j; simpl; [by intros [= ->]|].
  destruct (rev_trace l i) as [j'|]; simpl; [|done].
  destruct (_ && _) eqn:E; [|done]. intros [= <-].
  repeat rewrite andb_true_iff in E. rewrite !Z.leb_le, !Z.ltb_lt in E.
  rewrite (IH _ j') by done. apply rev_step_bit; lia.
Qed.
Lemma rev_trace_all :
  forallb (fun i : nat => match rev_trace rev_masks (Z.of_nat i) with
                          | Some j => j =? 63 - Z.of_nat i
                          | None => false
                          end) (seq 0 64) = true.
Proof. by vm_compute. Qed.

Lemma rev_testbit v i : 0 <= i < 64 -> Z.testbit (rev v) i = Z.testbit v (63 - i).
Proof.
  intros Hi. rewrite rev_unfold. apply rev_trace_ok.
  pose proof rev_trace_all as Ha. rewrite forallb_forall in Ha.
  specialize (Ha (Z.to_nat i)). rewrite Z2Nat.id, in_seq in Ha by lia. specialize (Ha ltac:(lia)).
  destruct (rev_trace rev_masks i) as [j|]; [|done]. apply Z.eqb_eq in Ha. by rewrite Ha.
Qed.
Lemma rev_u64 v : is_u64 (rev v).
Proof. rewrite rev_unfold. simpl. apply rev_step_u64. by vm_compute. Qed.

Lemma u64_ext x y : is_u64 x -> is_u64 y -> (forall i, 0 <= i < 64 -> Z.testbit x i = Z.testbit y i) -> x = y.
Proof.
  rewrite !is_u64_bits. intros [_ Hx] [_ Hy] H. apply Z.bits_inj'. intros i Hi.
  destruct (Z.lt_ge_cases i 64); [apply H; lia|by rewrite Hx, Hy].
Qed.
Lemma rev_involutive v : is_u64 v -> rev (rev v) = v.
Proof.
  intros Hv. apply u64_ext; [apply rev_u64|done|]. intros i Hi.
  rewrite !rev_testbit by lia. f_equal. lia.
Qed.

(** ** Cursor arithmetic *)
(** The length, in the order of [rev], of a bucket of a table of [2^n] slots. *)
Definition span (n : Z) : Z := 2 ^ (64 - n).

Lemma span_pos n : n <= 64 -> 0 < span n.
Proof. intros. apply Z.pow_pos_nonneg; lia. Qed.
Lemma span_split n : 0 <= n <= 64 -> 2 ^ 64 = 2 ^ n * span n.
Proof. intros. unfold span. rewrite <-Z.pow_add_r by lia. f_equal. lia. Qed.

Lemma lor_ones x k : 0 <= k -> 0 <= x -> Z.lor x (Z.ones k) = x / 2 ^ k * 2 ^ k + (2 ^ k - 1).
Proof.
  intros Hk Hx. assert (Z.lor x (Z.ones k) = Z.lor (Z.ones k) (Z.shiftl (Z.shiftr x k) k)) as ->.
  { apply Z.bits_inj'. intros i Hi. rewrite !Z.lor_spec, Z.shiftl_spec by lia.
    rewrite (orb_comm (Z.testbit x i)). destruct (Z.lt_ge_cases i k).
    - by rewrite Z.ones_spec_low by lia.
    - rewrite Z.ones_spec_high by lia. rewrite Z.shiftr_spec by lia. simpl. f_equal. lia. }
  assert (0 < 2 ^ k) by (apply Z.pow_pos_nonneg; lia).
  rewrite lor_shiftl_add; [|done|rewrite Z.ones_equiv; lia].
  rewrite Z.ones_equiv, Z.shiftr_div_pow2 by lia. lia.
Qed.

Lemma mask_testbit n i : 0 <= n -> 0 <= i -> Z.testbit (2 ^ n - 1) i = (i <? n).
Proof.
  intros Hn Hi. replace (2 ^ n - 1) with (Z.ones n) by (rewrite Z.ones_equiv; lia).
  destruct (Z.ltb_spec i n); [apply Z.ones_spec_low|apply Z.ones_spec_high]; lia.
Qed.

(** [v |= ~m] sets the low bits of [rev v]. *)
Lemma rev_lor_mask v n :
  is_u64 v -> 0 <= n <= 64 -> rev (Z.lor v (lnot64 (2 ^ n - 1))) = Z.lor (rev v) (Z.ones (64 - n)).
Proof.
  intros Hv Hn. apply u64_ext; [apply rev_u64| |].
  - apply lor_u64; [apply rev_u64|]. unfold is_u64. rewrite Z.ones_equiv.
    assert (2 ^ (64 - n) <= 2 ^ 64) by (apply Z.pow_le_mono_r; lia).
    pose proof (span_pos n). unfold span in *. lia.
  - intros i Hi. rewrite rev_testbit, !Z.lor_spec, rev_testbit by lia. f_equal.
    unfold lnot64, u64. change 18446744073709551616 with (2 ^ 64).
    rewrite Z.mod_pow2_bits_low by lia. rewrite Z.lnot_spec, mask_testbit by lia.
    destruct (Z.ltb_spec (63 - i) n); [rewrite Z.ones_spec_high|rewrite Z.ones_spec_low]; (done || lia).
Qed.

(** A step of the cursor: [rev] of it moves to the end of its interval. *)
Lemma scan_incr_spec v n :
  is_u64 v -> 1 <= n <= 63 ->
  is_u64 (scan_incr v (2 ^ n - 1)) /\
  rev (scan_incr v (2 ^ n - 1)) = ((rev v / span n + 1) * span n) mod 2 ^ 64.
Proof.
  intros Hv Hn. unfold scan_incr. split; [apply rev_u64|].
  rewrite rev_involutive by apply u64_is_u64. rewrite rev_lor_mask by (auto; lia).
  pose proof (rev_u64 v) as Hr. unfold is_u64 in Hr. rewrite lor_ones by lia. unfold u64.
  change 18446744073709551616 with (2 ^ 64). fold (span n). f_equal. lia.
Qed.

(** Two hashes share a bucket when their [rev] are in the same interval. *)
Lemma same_bucket h v n :
  is_u64 h -> is_u64 v -> 0 <= n <= 64 ->
  rev h / span n = rev v / span n <-> Z.land h (2 ^ n - 1) = Z.land v (2 ^ n - 1).
Proof.
  intros Hh Hv Hn. unfold span. rewrite <-!Z.shiftr_div_pow2 by lia.
  split; intros Heq; apply Z.bits_inj'; intros i Hi.
  - rewrite !Z.land_spec, mask_testbit by lia.
    destruct (Z.ltb_spec i n); [|by rewrite !andb_false_r]. f_equal.
    assert (Hb : Z.testbit (Z.shiftr (rev h) (64 - n)) (n - 1 - i) =
                 Z.testbit (Z.shiftr (rev v) (64 - n)) (n - 1 - i)) by (by rewrite Heq).
    rewrite !Z.shiftr_spec, !rev_testbit in Hb by lia.
    by replace (63 - (n - 1 - i + (64 - n))) with i in Hb by lia.
  - rewrite !Z.shiftr_spec by lia. destruct (Z.lt_ge_cases (i + (64 - n)) 64).
    + rewrite !rev_testbit by lia.
      assert (Hb : Z.testbit (Z.land h (2 ^ n - 1)) (63 - (i + (64 - n))) =
                   Z.testbit (Z.land v (2 ^ n - 1)) (63 - (i + (64 - n)))) by (by rewrite Heq).
      rewrite !Z.land_spec, mask_testbit in Hb by lia.
      destruct (Z.ltb_spec (63 - (i + (64 - n))) n); [|lia]. by rewrite !andb_true_r in Hb.
    + pose proof (rev_u64 h) as Hh'. pose proof (rev_u64 v) as Hv'.
      apply is_u64_bits in Hh' as [_ Hh'], Hv' as [_ Hv']. by rewrite Hh', Hv'.
Qed.

(** [v & (m0 ^ m1)] tests whether the cursor is at the end of the smaller
    table's interval. *)
Lemma expansion_test v n0 n1 :
  is_u64 v -> 0 <= n0 <= n1 -> n1 <= 64 -> rev v mod span n1 = 0 ->
  Z.land v (Z.lxor (2 ^ n0 - 1) (2 ^ n1 - 1)) = 0 <-> rev v mod span n0 = 0.
Proof.
  intros Hv Hn Hn1 H1. unfold span in *. rewrite <-!Z.land_ones in * by lia.
  assert (Hlow : forall j, 0 <= j < 64 - n1 -> Z.testbit (rev v) j = false).
  { intros j Hj. pose proof (Z.land_spec (rev v) (Z.ones (64 - n1)) j) as Hb.
    rewrite H1, Z.bits_0, Z.ones_spec_low, andb_true_r in Hb by lia. done. }
  split; intros Hz; apply Z.bits_inj'; intros i Hi; rewrite Z.land_spec, Z.bits_0.
  - destruct (Z.lt_ge_cases i (64 - n0)); [|rewrite Z.ones_spec_high by lia; apply andb_false_r].
    rewrite Z.ones_spec_low, andb_true_r by lia.
    destruct (Z.lt_ge_cases i (64 - n1)); [apply Hlow; lia|]. rewrite rev_testbit by lia.
    pose proof (Z.land_spec v (Z.lxor (2 ^ n0 - 1) (2 ^ n1 - 1)) (63 - i)) as Hb.
    rewrite Hz, Z.bits_0, Z.lxor_spec, !mask_testbit in Hb by lia.
    destruct (Z.ltb_spec (63 - i) n0); [lia|]. destruct (Z.ltb_spec (63 - i) n1); [|lia].
    by rewrite andb_true_r in Hb.
  - rewrite Z.lxor_spec, !mask_testbit by lia.
    destruct (Z.ltb_spec i n0), (Z.ltb_spec i n1); simpl; try apply andb_false_r; try lia.
    rewrite andb_true_r. pose proof (Z.land_spec (rev v) (Z.ones (64 - n0)) (63 - i)) as Hb.
    rewrite Hz, Z.bits_0, Z.ones_spec_low, andb_true_r, rev_testbit in Hb by lia.
    by replace (63 - (63 - i)) with i in Hb by lia.
Qed.

(** ** What a step emits *)
Section ScanSpec.
Context {K V : Type} `{Countable K}.
Context (ty : dictType K V) (key_ok : K -> Prop) `{Hty : !DictTypeOk ty key_ok}.

Implicit Types (e : dictEntry K V) (h : dictht K V) (d : dict K V).

Notation dict_wf := (dict_wf ty key_ok).
Notation ht_wf := (ht_wf ty).
Notation hash_of := (hash_of ty).

(** The place of an entry in the order of the scan. *)
Definition rank e : Z := rev (hash_of e).

Lemma ht_size h t : ht_wf h -> table h = Some t ->
  exists n, 2 <= n <= 63 /\ size h = 2 ^ n /\ sizemask h = 2 ^ n - 1.
Proof.
  unfold DictInv.ht_wf. intros Hw Ht. rewrite Ht in Hw. destruct Hw as ((n&Hn&Hs)&Hm&_).
  exists n. rewrite Hm, Hs. done.
Qed.

(** Hashes are words, and no entry is in a table twice. *)
Definition ranked h : Prop :=
  (forall e, e ∈ ht_entries h -> is_u64 (hash_of e)) /\ NoDup (ht_entries h).

Lemma dict_wf_ranked d : dict_wf d -> ranked (ht0 d) /\ ranked (ht1 d) /\ NoDup (entries d).
Proof.
  intros Hd. pose proof (wf_keys _ _ d Hd) as Hk. rewrite Forall_forall in Hk.
  pose proof (NoDup_fmap_1 _ _ (wf_addrs _ _ d Hd)) as Hn.
  assert (Hu : forall e, e ∈ entries d -> is_u64 (hash_of e)).
  { intros e He. apply (hash_range (ty := ty)), Hk, He. }
  split_and!; [| |done]; (split; [intros e He; apply Hu; unfold entries; set_solver|]);
    unfold entries in Hn; by apply NoDup_app in Hn as (?&_&?).
Qed.

Lemma NoDup_join_lookup {A} (t : list (list A)) i c : NoDup (mjoin t) -> t !! i = Some c -> NoDup c.
Proof.
  intros Hn Hc. destruct (join_insert_perm t i c Hc) as (rest&Hp&_).
  rewrite Hp in Hn. by apply NoDup_app in Hn as (?&_&_).
Qed.

(** The bucket of the cursor holds exactly the entries of its interval. *)
Lemma bucket_emits h t n v :
  ht_wf h -> ranked h -> table h = Some t -> 2 <= n <= 63 -> sizemask h = 2 ^ n - 1 -> is_u64 v ->
  exists c, bucket h (Z.land v (sizemask h)) = Ok c /\ NoDup c /\
    (forall e, e ∈ c <-> e ∈ ht_entries h /\ rank e / span n = rev v / span n).
Proof.
  intros Hw [Hh Hnd] Ht Hn Hm Hv. destruct (bucket_hash ty h t v Hw Ht) as (c&Hb&Hc&Hr).
  assert (Hin : forall e, e ∈ c -> e ∈ ht_entries h).
  { intros e He. unfold ht_entries. rewrite Ht. apply elem_of_join_lookup. eauto. }
  exists c. split; [done|]. split.
  { unfold ht_entries in Hnd. rewrite Ht in Hnd. by eapply NoDup_join_lookup. }
  intros e. split.
  - intros He. split; [by apply Hin|]. unfold rank. apply same_bucket; [by apply Hh, Hin|done|lia|].
    unfold DictInv.ht_wf in Hw. rewrite Ht in Hw. destruct Hw as (_&_&_&_&Hpl).
    rewrite <-Hm, (Hpl _ _ _ Hc He). lia.
  - intros [He Hre]. destruct (ht_entries_place ty h t e Hw Ht He) as (c'&Hc'&Hec).
    rewrite Hm in *. unfold rank in Hre. rewrite same_bucket in Hre by (auto; lia).
    rewrite Hre in Hc'. congruence.
Qed.

Lemma scan_expansion_spec fuel h t n0 n1 v :
  ht_wf h -> ranked h -> table h = Some t -> 2 <= n0 <= n1 -> n1 <= 63 -> sizemask h = 2 ^ n1 - 1 -> is_u64 v ->
  let q := rev v / span n1 in
  let k := (q / 2 ^ (n1 - n0) + 1) * 2 ^ (n1 - n0) in
  k - q <= Z.of_nat fuel ->
  exists v' es, scan_expansion fuel h (2 ^ n0 - 1) v = Ok (v', es) /\ is_u64 v' /\
    rev v' = (k * span n1) mod 2 ^ 64 /\
    NoDup es /\
    (forall e, e ∈ es <-> e ∈ ht_entries h /\ q * span n1 <= rank e < k * span n1).
Proof.
  intros Hw Hrk Ht Hn0 Hn1 Hm Hv. revert v Hv.
  assert (HB : 0 < span n1) by (apply span_pos; lia).
  assert (Hc : 0 < 2 ^ (n1 - n0)) by (apply Z.pow_pos_nonneg; lia).
  assert (HB0 : span n0 = 2 ^ (n1 - n0) * span n1).
  { unfold span. rewrite <-Z.pow_add_r by lia. f_equal. lia. }
  pose proof (span_split n1) as Hsp. pose proof (span_split n0) as Hsp0.
  assert (Hpos : 0 < 2 ^ n0) by (apply Z.pow_pos_nonneg; lia).
  set (c := 2 ^ (n1 - n0)) in *. set (B := span n1) in *.
  induction fuel as [|fuel IH]; intros v Hv q k Hf.
  { assert (q < k); [|lia]. unfold k. pose proof (Z.mod_pos_bound q c). pose proof (Z.div_mod q c). lia. }
  pose proof (rev_u64 v) as Hx. unfold is_u64 in Hx.
  assert (Hq : q * B <= rev v < (q + 1) * B).
  { unfold q. pose proof (Z.mod_pos_bound (rev v) B). pose proof (Z.div_mod (rev v) B). lia. }
  assert (Hk : q < k <= q + c).
  { unfold k. pose proof (Z.mod_pos_bound q c). pose proof (Z.div_mod q c). lia. }
  assert (Hq0 : 0 <= q) by (unfold q; apply Z.div_pos; lia).
  assert (HE : k * B <= 2 ^ 64).
  { assert (q / c < 2 ^ n0) by (apply Z.div_lt_upper_bound; [lia|]; rewrite Hsp0, HB0 in Hx by lia; nia).
    unfold k. rewrite Hsp0, HB0 by lia. nia. }
  cbn [scan_expansion].
  destruct (bucket_emits h t n1 v Hw Hrk Ht) as (b&Hb&Hbn&Hb2); [lia|done|done|]. rewrite Hb. cbn [res_bind].
  destruct (scan_incr_spec v n1 Hv) as [Hv1 Hr1]; [lia|]. fold B in Hr1, Hb2. fold q in Hr1, Hb2.
  rewrite Hm. set (v1 := scan_incr v (2 ^ n1 - 1)) in *.
  assert (Hfirst : forall e, e ∈ b <-> e ∈ ht_entries h /\ q * B <= rank e < (q + 1) * B).
  { intros e. rewrite Hb2. split; intros [He Hre]; (split; [done|]).
    - pose proof (Z.mod_pos_bound (rank e) B). pose proof (Z.div_mod (rank e) B). nia.
    - symmetry. apply Z.div_unique with (rank e - q * B); nia. }
  destruct (decide (q + 1 = k)) as [Hlast|Hmore].
  - rewrite Hlast in Hr1. assert (Htest : Z.land v1 (Z.lxor (2 ^ n0 - 1) (2 ^ n1 - 1)) = 0).
    { apply expansion_test; [done|lia|lia|..]; rewrite Hr1.
      - fold B. rewrite Hsp by lia. rewrite <-Znumtheory.Zmod_div_mod; [|lia|nia|by exists (2 ^ n1)].
        apply Z.mod_mul. lia.
      - rewrite Hsp0 by lia. rewrite <-Znumtheory.Zmod_div_mod; [|nia|nia|by exists (2 ^ n0)].
        rewrite HB0. unfold k. rewrite <-Z.mul_assoc. apply Z.mod_mul. nia. }
    rewrite Htest. change (0 =? 0) with true. cbv iota.
    eexists _, _. split; [done|]. split_and!; [done|done|done|].
    intros e. by rewrite Hfirst, Hlast.
  - assert (Hlt : (q + 1) * B < k * B) by nia.
    rewrite Z.mod_small in Hr1 by nia.
    assert (Hdiv : (q + 1) / c = q / c).
    { symmetry. apply Z.div_unique with (q + 1 - q / c * c). 2:lia. unfold k in *. left.
      pose proof (Z.mod_pos_bound q c). pose proof (Z.div_mod q c). lia. }
    assert (Htest : Z.land v1 (Z.lxor (2 ^ n0 - 1) (2 ^ n1 - 1)) <> 0).
    { rewrite expansion_test; [|done|lia|lia|rewrite Hr1; apply Z.mod_mul; fold B; lia].
      rewrite Hr1, HB0, Z.mul_mod_distr_r by lia. intros Hz.
      assert (Hz' : (q + 1) mod c = 0) by nia.
      pose proof (Z.div_mod (q + 1) c). pose proof (Z.mod_pos_bound q c). pose proof (Z.div_mod q c).
      rewrite Hdiv in *. lia. }
    destruct (Z.eqb_spec (Z.land v1 (Z.lxor (2 ^ n0 - 1) (2 ^ n1 - 1))) 0); [done|].
    assert (Hq1 : rev v1 / B = q + 1) by (rewrite Hr1; apply Z.div_mul; lia).
    specialize (IH v1 Hv1). cbv zeta in IH. rewrite Hq1, Hdiv in IH. fold k in IH.
    destruct IH as (v'&es&Hs&Hv'&Hr'&Hnd&He2); [lia|]. rewrite Hs. cbn [res_bind].
    eexists _, _. split; [done|]. split_and!; [done|done| |].
    + apply NoDup_app. split_and!; [done| |done]. intros e. rewrite Hfirst, He2. lia.
    + intros e. rewrite elem_of_app, Hfirst, He2.
      destruct (Z.lt_ge_cases (rank e) ((q + 1) * B)); (split; [intros [[? ?]|[? ?]]; (split; [done|nia])|]);
        intros [? ?]; [left|right]; (split; [done|nia]).
Qed.

(** How many calls a scan of an unchanging dictionary takes. *)
Definition scan_slots d : Z :=
  if dictIsRehashing d then Z.min (size (ht0 d)) (size (ht1 d)) else size (ht0 d).

(** The two tables of a rehashing dictionary, smaller one first. *)
Lemma scan_two_tables h0 h1 t0 t1 n0 n1 v :
  ht_wf h0 -> ht_wf h1 -> ranked h0 -> ranked h1 -> NoDup (ht_entries h0 ++ ht_entries h1) ->
  table h0 = Some t0 -> table h1 = Some t1 -> 2 <= n0 <= n1 -> n1 <= 63 ->
  sizemask h0 = 2 ^ n0 - 1 -> sizemask h1 = 2 ^ n1 - 1 -> size h1 = 2 ^ n1 -> is_u64 v ->
  let lo := rev v / span n0 * span n0 in
  let hi := (rev v / span n0 + 1) * span n0 in
  exists v' es, (let* c := bucket h0 (Z.land v (sizemask h0)) in
      let* (v', es) := scan_expansion (Z.to_nat (size h1)) h1 (sizemask h0) v in
      Ok (v', c ++ es)) = Ok (v', es) /\
    is_u64 v' /\ rev v' = hi mod 2 ^ 64 /\ NoDup es /\
    (forall e, e ∈ es -> e ∈ ht_entries h0 ++ ht_entries h1 /\ lo <= rank e < hi) /\
    (forall e, e ∈ ht_entries h0 ++ ht_entries h1 -> rev v <= rank e < hi -> e ∈ es).
Proof.
  intros Hw0 Hw1 Hr0 Hr1 Hnd Ht0 Ht1 Hn0 Hn1 Hm0 Hm1 Hs1 Hv lo hi.
  assert (HB : 0 < span n1) by (apply span_pos; lia).
  assert (HB0 : 0 < span n0) by (apply span_pos; lia).
  assert (Hc : 0 < 2 ^ (n1 - n0)) by (apply Z.pow_pos_nonneg; lia).
  assert (Hsp : span n0 = span n1 * 2 ^ (n1 - n0)).
  { unfold span. rewrite <-Z.pow_add_r by lia. f_equal. lia. }
  assert (Hq : rev v / span n1 / 2 ^ (n1 - n0) = rev v / span n0) by (rewrite Hsp, Z.div_div; lia).
  destruct (bucket_emits h0 t0 n0 v Hw0 Hr0 Ht0) as (b&->&Hbn&Hb); [lia|done|done|]. cbn [res_bind].
  rewrite Hm0. pose proof (rev_u64 v) as Hx. unfold is_u64 in Hx.
  destruct (scan_expansion_spec (Z.to_nat (size h1)) h1 t1 n0 n1 v Hw1 Hr1 Ht1)
    as (v'&es&->&Hv'&Hrv&Hesn&Hes); [lia|done|done|done| |].
  { rewrite Hq, Hs1. assert (2 ^ (n1 - n0) <= 2 ^ n1) by (apply Z.pow_le_mono_r; lia).
    pose proof (Z.mod_pos_bound (rev v / span n1) (2 ^ (n1 - n0))).
    pose proof (Z.div_mod (rev v / span n1) (2 ^ (n1 - n0))). rewrite Hq in *. lia. }
  cbn [res_bind]. rewrite Hq in *.
  assert (Hhi : (rev v / span n0 + 1) * 2 ^ (n1 - n0) * span n1 = hi).
  { unfold hi. rewrite <-Z.mul_assoc. f_equal. by rewrite Hsp, Z.mul_comm. }
  rewrite Hhi in Hrv, Hes. clear Hhi.
  assert (Hlo : lo <= rev v / span n1 * span n1 <= rev v).
  { unfold lo. rewrite <-Hq. pose proof (Z.mod_pos_bound (rev v) (span n1)).
    pose proof (Z.div_mod (rev v) (span n1)). rewrite Hsp.
    pose proof (Z.mod_pos_bound (rev v / span n1) (2 ^ (n1 - n0))).
    pose proof (Z.div_mod (rev v / span n1) (2 ^ (n1 - n0))). nia. }
  assert (Hblk : forall r, r / span n0 = rev v / span n0 <-> lo <= r < hi).
  { intros r. unfold lo, hi. pose proof (Z.mod_pos_bound r (span n0)). pose proof (Z.div_mod r (span n0)).
    split; [intros <-; nia|]. intros Hr. symmetry.
    apply Z.div_unique with (r - rev v / span n0 * span n0); nia. }
  eexists _, _. split; [done|]. split_and!; [done|done| | |].
  - apply NoDup_app. split_and!; [done| |done]. intros e. rewrite Hb, Hes. intros [? _] [? _].
    apply NoDup_app in Hnd as (_&Hd&_). by apply (Hd e).
  - intros e. rewrite !elem_of_app, Hb, Hes, Hblk. intros [[? ?]|[? ?]]; (split; [auto|lia]).
  - intros e. rewrite !elem_of_app, Hb, Hes, Hblk. intros [?|?] ?; [left|right]; (split; [done|lia]).
Qed.

Lemma dictScan_spec d v :
  dict_wf d -> is_u64 v -> entries d <> [] ->
  exists n v' es, dictScan d v = Ok (v', es) /\ 2 <= n <= 63 /\ scan_slots d = 2 ^ n /\
    is_u64 v' /\ NoDup es /\
    let lo := rev v / span n * span n in
    let hi := (rev v / span n + 1) * span n in
    rev v' = hi mod 2 ^ 64 /\
    (forall e, e ∈ es -> e ∈ entries d /\ lo <= rank e < hi) /\
    (forall e, e ∈ entries d -> rev v <= rank e < hi -> e ∈ es).
Proof.
  intros Hd Hv Hne. unfold dictScan, scan_slots.
  assert (Hsz : dictSize d =? 0 = false).
  { unfold dictSize. rewrite (wf_used_le ty key_ok d Hd). pose proof (wf_count _ _ d Hd).
    assert (0 < zlen (entries d)) by (unfold zlen; destruct (entries d); [done|simpl; lia]).
    unfold max_entries in *. rewrite u64_small by lia. apply Z.eqb_neq. lia. }
  rewrite Hsz. destruct (dict_wf_ranked d Hd) as (Hr0&Hr1&Hnd).
  pose proof (wf_ht0 _ _ d Hd) as Hw0. pose proof (wf_ht1 _ _ d Hd) as Hw1.
  destruct (dictIsRehashing d) eqn:Hr; simpl negb; cbv iota.
  - destruct (rehashing_tables _ _ d Hd Hr) as (t0&t1&Ht0&Ht1&_).
    destruct (ht_size _ _ Hw0 Ht0) as (n0&Hn0&Hs0&Hm0).
    destruct (ht_size _ _ Hw1 Ht1) as (n1&Hn1&Hs1&Hm1).
    destruct (Z.ltb_spec (size (ht1 d)) (size (ht0 d))) as [Hlt|Hge]; rewrite Hs0, Hs1 in *.
    + assert (n1 < n0) by (apply (Z.pow_lt_mono_r_iff 2); lia). rewrite Z.min_r by lia.
      destruct (scan_two_tables (ht1 d) (ht0 d) t1 t0 n1 n0 v) as (v'&es&He&Hv'&Hrv&Hn&H1&H2); try done; try lia.
      { rewrite Permutation_app_comm. done. }
      rewrite Hs0 in He. exists n1, v', es. split_and!; try done; try lia; unfold entries.
      * intros e He'. destruct (H1 e He'). split; [|done]. rewrite Permutation_app_comm. done.
      * intros e He'. apply H2. rewrite Permutation_app_comm. done.
    + assert (n0 <= n1) by (apply (Z.pow_le_mono_r_iff 2); lia). rewrite Z.min_l by lia.
      destruct (scan_two_tables (ht0 d) (ht1 d) t0 t1 n0 n1 v) as (v'&es&He&Hv'&Hrv&Hn&H1&H2); try done; try lia.
      rewrite Hs1 in He. exists n0, v', es. split_and!; try done; lia.
  - assert (He1 : ht_entries (ht1 d) = []) by by apply (ht1_entries_nil ty key_ok).
    unfold entries in *. rewrite He1, app_nil_r in *.
    destruct (table (ht0 d)) as [t|] eqn:Ht; [|unfold ht_entries in Hne; by rewrite Ht in Hne].
    destruct (ht_size _ _ Hw0 Ht) as (n&Hn&Hs&Hm).
    destruct (bucket_emits (ht0 d) t n v Hw0 Hr0 Ht) as (b&->&Hbn&Hb); [lia|done|done|]. cbn [res_bind].
    destruct (scan_incr_spec v n Hv) as [Hv1 Hrv]; [lia|]. rewrite Hm.
    assert (HB : 0 < span n) by (apply span_pos; lia).
    eexists n, _, _. split; [done|]. split_and!; try done; try lia.
    + intros e. rewrite Hb. intros [? <-]. split; [done|].
      pose proof (Z.mod_pos_bound (rank e) (span n)). pose proof (Z.div_mod (rank e) (span n)). nia.
    + intros e He Hre. rewrite Hb. split; [done|]. symmetry.
      pose proof (Z.mod_pos_bound (rev v) (span n)). pose proof (Z.div_mod (rev v) (span n)).
      apply Z.div_unique with (rank e - rev v / span n * span n); nia.
Qed.

(** *** Whole scans *)
Lemma rev_zero v : is_u64 v -> rev v = 0 <-> v = 0.
Proof.
  intros Hv. split; [|by intros ->]. intros Hr. rewrite <-(rev_involutive v Hv), Hr. done.
Qed.

(** The new cursor seen from a rank: it stays behind, or the scan is over. *)
Lemma step_covers v' hi r :
  is_u64 v' -> 0 < hi -> rev v' = hi mod 2 ^ 64 -> hi <= 2 ^ 64 -> 0 <= r < 2 ^ 64 ->
  r < hi \/ (v' <> 0 /\ rev v' <= r).
Proof.
  intros Hv' H0 Hrv Hhi Hr. destruct (decide (hi = 2 ^ 64)) as [->|]; [left; lia|].
  rewrite Z.mod_small in Hrv by lia. destruct (Z.lt_ge_cases r hi); [by left|right].
  split; [|lia]. intros Hz. apply (rev_zero v' Hv') in Hz. lia.
Qed.

Lemma hi_le v n : is_u64 v -> 2 <= n <= 63 ->
  0 < (rev v / span n + 1) * span n <= 2 ^ 64 /\ rev v < (rev v / span n + 1) * span n.
Proof.
  intros Hv Hn. pose proof (rev_u64 v) as Hx. unfold is_u64 in Hx.
  assert (HB : 0 < span n) by (apply span_pos; lia). pose proof (span_split n) as Hsp.
  assert (rev v / span n < 2 ^ n) by (apply Z.div_lt_upper_bound; lia).
  pose proof (Z.div_pos (rev v) (span n)).
  pose proof (Z.mod_pos_bound (rev v) (span n)). pose proof (Z.div_mod (rev v) (span n)). nia.
Qed.

Lemma rank_range d e : dict_wf d -> e ∈ entries d -> 0 <= rank e < 2 ^ 64.
Proof. intros _ _. apply (rev_u64 (hash_of e)). Qed.

(** A scan never fails. *)
Lemma scan_run_total ds v :
  Forall dict_wf ds -> is_u64 v -> exists v' es, scan_run ds v = Ok (v', es) /\ is_u64 v'.
Proof.
  intros Hds. revert v. induction Hds as [|d ds Hd _ IH]; intros v Hv; cbn [scan_run]; [by eexists _, _|].
  destruct (decide (entries d = [])) as [Hnil|Hnn].
  - unfold dictScan, dictSize. rewrite (wf_used_le ty key_ok d Hd), Hnil.
    change (u64 (zlen []) =? 0) with true. cbv iota. cbn [res_bind].
    destruct (IH 0) as (v'&es'&->&?); [by vm_compute|]. by eexists _, _.
  - destruct (dictScan_spec d v Hd Hv Hnn) as (n&v2&es&->&_&_&Hv2&_). cbn [res_bind].
    destruct (IH v2 Hv2) as (v'&es'&->&?). cbn [res_bind]. by eexists _, _.
Qed.

(** A key held throughout, at or past the cursor, is emitted. *)
Lemma scan_run_covers ds v k :
  Forall dict_wf ds -> ds <> [] -> is_u64 v ->
  (forall d, d ∈ ds -> exists e, e ∈ entries d /\ e_key e = k) ->
  rev v <= rev (hashFunction ty k) ->
  exists v' es, scan_run ds v = Ok (v', es) /\ is_u64 v' /\
    (v' = 0 -> exists e, e ∈ es /\ e_key e = k).
Proof.
  intros Hds. revert v. induction Hds as [|d ds Hd Hds IH]; intros v Hne Hv Hk Hle; [done|].
  destruct (Hk d) as (e&He&Hek); [by left|]. cbn [scan_run].
  destruct (dictScan_spec d v Hd Hv) as (n&v1&es&->&Hn&_&Hv1&_&Hrv&_&Hcov).
  { intros Hn. by rewrite Hn in He; apply elem_of_nil in He. }
  cbn [res_bind]. destruct (hi_le v n Hv Hn) as [Hhi _].
  assert (Hrank : rank e = rev (hashFunction ty k)) by (unfold rank, DictInv.hash_of, dictHashKey; fold (e_key e); by rewrite Hek).
  assert (Htail : exists v' es', scan_run ds v1 = Ok (v', es') /\ is_u64 v' /\
            (ds = [] -> v' = v1) /\
            (ds <> [] -> rev v1 <= rank e -> v' = 0 -> exists e', e' ∈ es' /\ e_key e' = k)).
  { destruct (decide (ds = [])) as [->|Hne']; [by exists v1, []|].
    destruct (decide (rev v1 <= rank e)) as [Hle'|Hgt].
    - destruct (IH v1) as (v'&es'&?&?&?); [done|done|intros; apply Hk; by right|by rewrite <-Hrank|].
      exists v', es'. split_and!; naive_solver.
    - destruct (scan_run_total ds v1 Hds Hv1) as (v'&es'&?&?).
      exists v', es'. split_and!; naive_solver. }
  destruct Htail as (v'&es'&->&Hv'&Hnil&Htl). cbn [res_bind].
  eexists _, _. split; [done|]. split; [done|]. intros Hz.
  destruct (step_covers v1 _ (rank e) Hv1 (proj1 Hhi) Hrv (proj2 Hhi) (rank_range d e Hd He)) as [Hlt|[Hnz Hge]].
  - exists e. split; [|done]. apply elem_of_app. left. apply Hcov; [done|]. rewrite Hrank in *. lia.
  - destruct (decide (ds = [])) as [Hd0|Hd0]; [rewrite (Hnil Hd0) in Hz; done|].
    destruct (Htl Hd0 Hge Hz) as (e'&?&?). exists e'. split; [|done]. apply elem_of_app. by right.
Qed.

Lemma scan_run_app (ds ds' : list (dict K V)) v v1 es1 :
  scan_run ds v = Ok (v1, es1) ->
  scan_run (ds ++ ds') v = let* (v2, es2) := scan_run ds' v1 in Ok (v2, es1 ++ es2).
Proof.
  revert v es1. induction ds as [|d ds IH]; intros v es1; cbn [scan_run app].
  { intros [= -> <-]. by destruct (scan_run ds' v1) as [[]| |]. }
  destruct (dictScan d v) as [[v0 es0]| |]; cbn [res_bind]; try discriminate.
  destruct (scan_run ds v0) as [[v2 es2]| |] eqn:E; cbn [res_bind]; try discriminate.
  intros [= <- <-]. rewrite (IH v0 es2 E).
  destruct (scan_run ds' v2) as [[]| |]; cbn [res_bind]; by rewrite ?app_assoc.
Qed.

(** After [j] calls on an unchanging dictionary. *)
Lemma scan_static d n (j : nat) :
  dict_wf d -> entries d <> [] -> scan_slots d = 2 ^ n -> 2 <= n <= 63 -> Z.of_nat j <= 2 ^ n ->
  exists v es, scan_run (replicate j d) 0 = Ok (v, es) /\ is_u64 v /\
    rev v = (Z.of_nat j * span n) mod 2 ^ 64 /\ NoDup es /\
    (forall e, e ∈ es <-> e ∈ entries d /\ rank e < Z.of_nat j * span n).
Proof.
  intros Hd Hne Hs Hn. assert (HB : 0 < span n) by (apply span_pos; lia).
  pose proof (span_split n) as Hsp.
  induction j as [|j IH]; intros Hj.
  { exists 0, []. split_and!; try done; [constructor|]. intros e. rewrite elem_of_nil.
    split; [done|]. intros [He Hr]. pose proof (rank_range d e Hd He). lia. }
  destruct IH as (v&es&Hrun&Hv&Hrv&Hnd&Hes); [lia|].
  replace (S j) with (j + 1)%nat by lia. rewrite replicate_add, (scan_run_app _ _ _ _ _ Hrun). cbn [replicate scan_run].
  rewrite Z.mod_small in Hrv by nia.
  destruct (dictScan_spec d v Hd Hv Hne) as (n'&v'&es'&->&Hn'&Hs'&Hv'&Hnd'&Hrv'&Hin&Hcov).
  assert (n' = n) as -> by (rewrite Hs in Hs'; apply (Z.pow_inj_r 2); lia).
  rewrite Hrv, Z.div_mul in Hrv', Hin, Hcov by lia. cbn [res_bind].
  exists v', (es ++ es' ++ []). rewrite app_nil_r. split; [done|]. split; [done|].
  split; [rewrite Hrv'; f_equal; lia|]. split.
  - apply NoDup_app. split_and!; [done| |done]. intros e [_ Hr]%Hes [_ Hr']%Hin. lia.
  - intros e. rewrite elem_of_app, Hes. split.
    + intros [[He Hr]|He]; [split; [done|nia]|]. destruct (Hin e He). split; [done|lia].
    + intros [He Hr]. destruct (Z.lt_ge_cases (rank e) (Z.of_nat j * span n)); [by left|right].
      apply Hcov; [done|lia].
Qed.
End ScanSpec.

(** C7.  The guarantee of [dictScan]: a scan that starts at cursor 0 and has
    come back to it, over dictionaries that changed arbitrarily between the
    calls (growing, shrinking and rehashing included), has emitted every key
    that was present at every call. *)
Theorem dictScan_misses_nothing {K V} `{Countable K} (ty : dictType K V) (key_ok : K -> Prop)
    `{!DictTypeOk ty key_ok} (ds : list (dict K V)) (k : K) :
  Forall (dict_wf ty key_ok) ds -> ds <> [] ->
  (forall d, d ∈ ds -> exists e, e ∈ entries d /\ e_key e = k) ->
  exists v es, scan_run ds 0 = Ok (v, es) /\ (v = 0 -> exists e, e ∈ es /\ e_key e = k).
Proof.
  intros Hds Hne Hk.
  destruct (scan_run_covers ty key_ok ds 0 k) as (v&es&Hr&_&Hc); eauto; [by vm_compute|].
  change (rev 0) with 0. apply rev_u64.
Qed.

Lemma dictScan_misses_nothing_witness :
  exists v es, scan_run (replicate 4 demo_dict) 0 = Ok (v, es) /\ (v = 0 -> exists e, e ∈ es /\ e_key e = 3).
Proof.
  apply (dictScan_misses_nothing (IntIntDictType demo_seed) int_key_ok (replicate 4 demo_dict) 3).
  - apply Forall_replicate, demo_dict_wf.
  - discriminate.
  - intros d Hd. apply elem_of_replicate in Hd as [-> _].
    assert (Hf : Exists (fun e => e_key e = 3) (entries demo_dict))
      by (apply (bool_decide_unpack _); vm_compute; exact I).
    apply Exists_exists in Hf as (e&?&?). by exists e.
Defined.

(** C28.  A scan of a dictionary nobody changes, rehashing or not, comes back
    to 0 after exactly as many calls as its smaller table has slots and emits
    every entry exactly once. *)
Theorem dictScan_static_exact {K V} `{Countable K} (ty : dictType K V) (key_ok : K -> Prop)
    `{!DictTypeOk ty key_ok} (d : dict K V) :
  dict_wf ty key_ok d -> entries d <> [] ->
  (exists es, scan_run (replicate (Z.to_nat (scan_slots d)) d) 0 = Ok (0, es) /\ es ≡ₚ entries d) /\
  (forall j, (0 < j < Z.to_nat (scan_slots d))%nat ->
     exists v es, scan_run (replicate j d) 0 = Ok (v, es) /\ v <> 0).
Proof.
  intros Hd Hne. destruct (dictScan_spec ty key_ok d 0 Hd) as (n&_&_&_&Hn&Hs&_); [by vm_compute|done|].
  assert (HB : 0 < span n) by (apply span_pos; lia). pose proof (span_split n) as Hsp.
  assert (0 < 2 ^ n) by (apply Z.pow_pos_nonneg; lia). split.
  - destruct (scan_static ty key_ok d n (Z.to_nat (scan_slots d)) Hd Hne Hs Hn) as (v&es&Hr&Hv&Hrv&Hnd&Hes); [lia|].
    rewrite Z2Nat.id, Hs, <-Hsp, Z.mod_same in Hrv by lia.
    assert (v = 0) as -> by (by apply rev_zero). exists es. split; [done|].
    apply NoDup_Permutation; [done|by apply (dict_wf_ranked ty key_ok)|]. intros e. rewrite Hes.
    split; [by intros [??]|]. intros He. split; [done|]. pose proof (rank_range ty key_ok d e Hd He).
    rewrite Z2Nat.id, Hs, <-Hsp by lia. lia.
  - intros j Hj. destruct (scan_static ty key_ok d n j Hd Hne Hs Hn) as (v&es&Hr&Hv&Hrv&_); [lia|].
    exists v, es. split; [done|]. intros ->. change (rev 0) with 0 in Hrv.
    rewrite Z.mod_small in Hrv by nia. nia.
Qed.

Lemma dictScan_static_exact_witness :
  exists es, scan_run (replicate 4 demo_dict) 0 = Ok (0, es) /\ es ≡ₚ entries demo_dict.
Proof.
  apply (dictScan_static_exact (IntIntDictType demo_seed) int_key_ok demo_dict demo_dict_wf).
  vm_compute. discriminate.
Defined.
