(* ===== verification/DictIter.v ===== *)
(** * gp_dict.c: iterators

    [dictGetIterator], [dictGetSafeIterator], [dictNext] and
    [dictReleaseIterator].  A running safe iterator stops the incremental
    rehash, so entries keep their table and their bucket, and the client may
    look up, insert and delete while it iterates; the only thing it must not
    delete is the entry whose address the iterator has saved as the next one.
    An unsafe iterator takes a fingerprint of the dictionary instead. *)

From S2P Require Import Prelude Hash Dict DictInv DictTypes DictRefine.
Local Open Scope Z_scope.

(** ** The iterator *)
Record dictIterator := mk_iter {
  index : Z;
  itable : Z;
  safe : bool;
  entry : option Z;
  nextEntry : option Z;
  fingerprint : option Z;
}.
Definition set_pos (it : dictIterator) (t i : Z) : dictIterator :=
  mk_iter i t (safe it) (entry it) (nextEntry it) (fingerprint it).
Definition set_entry (it : dictIterator) (e : option Z) : dictIterator :=
  mk_iter (index it) (itable it) (safe it) e (nextEntry it) (fingerprint it).
Definition set_next (it : dictIterator) (e : option Z) : dictIterator :=
  mk_iter (index it) (itable it) (safe it) (entry it) e (fingerprint it).
Definition set_fingerprint (it : dictIterator) (f : Z) : dictIterator :=
  mk_iter (index it) (itable it) (safe it) (entry it) (nextEntry it) (Some f).

(** [fingerprint] is not set. *)
Definition dictGetIterator : dictIterator := mk_iter (-1) 0 false None None None.
Definition dictGetSafeIterator : dictIterator := mk_iter (-1) 0 true None None None.

(** One round of the loop of [dictFingerprint].  The additions and shifts are
    those of a [long long] that wraps around. *)
Definition mix (hash n : Z) : Z :=
  let hash := s64 (hash + n) in
  let hash := s64 (Z.lnot hash + Z.shiftl hash 21) in
  let hash := Z.lxor hash (Z.shiftr hash 24) in
  let hash := s64 (hash + Z.shiftl hash 3 + Z.shiftl hash 8) in
  let hash := Z.lxor hash (Z.shiftr hash 14) in
  let hash := s64 (hash + Z.shiftl hash 2 + Z.shiftl hash 4) in
  let hash := Z.lxor hash (Z.shiftr hash 28) in
  s64 (hash + Z.shiftl hash 31).

Section Iter.
Context {K V : Type}.
Implicit Types (d : dict K V).

(** The addresses of the arrays of the two tables come in as [tp]. *)
Definition dictFingerprint (tp : Z * Z) (d : dict K V) : Z :=
  foldl mix 0 [tp.1; s64 (size (ht0 d)); s64 (used (ht0 d)); tp.2; s64 (size (ht1 d)); s64 (used (ht1 d))].

Definition ht_at (d : dict K V) (t : Z) : dictht K V := if t =? 0 then ht0 d else ht1 d.
Definition tab (h : dictht K V) : list (list (dictEntry K V)) := default [] (table h).

(** The chain from the object at address [a] on: nothing when no entry is
    there any more. *)
Fixpoint chain_from (a : Z) (c : list (dictEntry K V)) : list (dictEntry K V) :=
  match c with
  | [] => []
  | e :: c' => if e_addr e =? a then c else chain_from a c'
  end.
Definition at_address (d : dict K V) (a : Z) : list (dictEntry K V) :=
  mjoin (chain_from a <$> tab (ht0 d) ++ tab (ht1 d)).

(** [if (iter->index == -1 && iter->table == 0)]: the first call. *)
Definition begin_iteration (tp : Z * Z) (d : dict K V) (it : dictIterator) : dict K V * dictIterator :=
  if (index it =? -1) && (itable it =? 0) then
    if safe it then (set_iterators d (u64 (iterators d + 1)), it)
    else (d, set_fingerprint it (dictFingerprint tp d))
  else (d, it).
(** The block for [iter->entry == NULL]; [true]: [break]. *)
Definition next_bucket (tp : Z * Z) (d : dict K V) (it : dictIterator) : res (dict K V * dictIterator * bool) :=
  let (d, it) := begin_iteration tp d it in
  let it := set_pos it (itable it) (index it + 1) in
  if s64 (size (ht_at d (itable it))) <=? index it then
    if dictIsRehashing d && (itable it =? 0) then
      let it := set_pos it (itable it + 1) 0 in
      let* c := bucket (ht1 d) (index it) in
      Ok (d, set_entry it (e_addr <$> head c), false)
    else Ok (d, it, true)
  else
    let* c := bucket (ht_at d (itable it)) (index it) in
    Ok (d, set_entry it (e_addr <$> head c), false).
(** [while (1)]; each round but two goes on to another bucket. *)
Fixpoint next_loop (fuel : nat) (tp : Z * Z) (d : dict K V) (it : dictIterator)
    : res (dict K V * dictIterator * option (dictEntry K V)) :=
  match fuel with
  | O => Ub
  | S fuel =>
      let* (d, it, stop) :=
        match entry it with
        | None => next_bucket tp d it
        | Some _ => Ok (d, set_entry it (nextEntry it), false)
        end in
      if stop : bool then Ok (d, it, None)
      else
        match entry it with
        | Some a =>
            match at_address d a with
            | e :: c => Ok (d, set_next it (e_addr <$> head c), Some e)
            | [] => Ub
            end
        | None => next_loop fuel tp d it
        end
  end.
Definition dictNext (tp : Z * Z) (d : dict K V) (it : dictIterator)
    : res (dict K V * dictIterator * option (dictEntry K V)) :=
  next_loop (length (tab (ht0 d)) + length (tab (ht1 d)) + 3) tp d it.

(** The failing [assert] aborts. *)
Definition dictReleaseIterator (tp : Z * Z) (d : dict K V) (it : dictIterator) : res (dict K V) :=
  if negb ((index it =? -1) && (itable it =? 0)) then
    if safe it then Ok (set_iterators d (u64 (iterators d - 1)))
    else if bool_decide (fingerprint it = Some (dictFingerprint tp d)) then Ok d else Abort
  else Ok d.
End Iter.

(** ** A client that changes the dictionary while it iterates *)
Inductive icmd {K V : Type} :=
  | INext (tp : Z * Z)
  | ICmd (c : cmd K V).
Arguments icmd : clear implicits.

(** The entries [dictNext] has returned, and whether it has returned NULL,
    where the client stops. *)
Fixpoint iterate {K V} (ty : dictType K V) (s : dict K V * bool) (it : dictIterator) (cs : list (icmd K V))
    : res (dict K V * bool * dictIterator * list (dictEntry K V) * bool) :=
  match cs with
  | [] => Ok (s, it, [], false)
  | INext tp :: cs =>
      let* (d, it, r) := dictNext tp (fst s) it in
      match r with
      | None => Ok (d, snd s, it, [], true)
      | Some e =>
          let* (s, it, es, fin) := iterate ty (d, snd s) it cs in
          Ok (s, it, e :: es, fin)
      end
  | ICmd c :: cs => let* (s, _) := exec ty s c in iterate ty s it cs
  end.

Definition deleted {K V} (cs : list (icmd K V)) : list K :=
  omap (fun c => match c with ICmd (CDelete k) => Some (k_val k) | _ => None end) cs.
Definition inserted {K V} (cs : list (icmd K V)) : list K :=
  omap (fun c => match c with
                 | ICmd (CAdd k _ _ _) | ICmd (CReplace k _ _ _) | ICmd (CAddOrFind k _ _) => Some (k_val k)
                 | _ => None
                 end) cs.
Definition calls_of_next {K V} (cs : list (icmd K V)) : nat :=
  length (omap (fun c => match c with INext tp => Some tp | ICmd _ => None end) cs).

(** ** Where an iterator stands *)
Section Position.
Context {K V : Type} `{Countable K}.
Context (ty : dictType K V) (key_ok : K -> Prop) `{Hty : !DictTypeOk ty key_ok}.
Implicit Types (d : dict K V) (e : dictEntry K V) (c : list (dictEntry K V)) (it : dictIterator).

Definition tabs d (j : Z) : list (list (dictEntry K V)) := tab (ht_at d j).
(** The entries behind bucket [i] of table [j]. *)
Definition later d (j i : Z) : list (dictEntry K V) :=
  mjoin (drop (Z.to_nat (i + 1)) (tabs d j)) ++ (if j =? 0 then mjoin (tabs d 1) else []).
(** What the iterator has still to return. *)
Definition remaining d it : list (dictEntry K V) :=
  match nextEntry it with
  | None => []
  | Some a => chain_from a (default [] (tabs d (itable it) !! Z.to_nat (index it)))
  end ++ later d (itable it) (index it).
Record pos_ok d it : Prop := {
  po_table : itable it = 0 \/ itable it = 1 /\ dictIsRehashing d = true;
  po_index : 0 <= index it;
  po_entry : is_Some (entry it);
  po_next : exists c, tabs d (itable it) !! Z.to_nat (index it) = Some c /\
    forall a, nextEntry it = Some a -> a ∈ e_addr <$> c;
}.
(** The arrays of pointers fit into the address space. *)
Definition small d : Prop := size (ht0 d) < 2 ^ 61 /\ size (ht1 d) < 2 ^ 61.

Lemma ht_entries_tab (h : dictht K V) : ht_entries h = mjoin (tab h).
Proof. unfold ht_entries, tab. by destruct (table h). Qed.
Lemma entries_tabs d : entries d = mjoin (tabs d 0 ++ tabs d 1).
Proof. unfold entries. by rewrite !ht_entries_tab, join_app. Qed.
Lemma entries_later d : entries d = later d 0 (-1).
Proof. unfold later. cbn [Z.to_nat Z.add Z.eqb]. by rewrite drop_0, entries_tabs, join_app. Qed.

Lemma ht_at_wf d j : dict_wf ty key_ok d -> ht_wf ty (ht_at d j).
Proof. intros Hd. unfold ht_at. destruct (j =? 0); apply Hd. Qed.
Lemma zlen_tabs d j : dict_wf ty key_ok d -> zlen (tabs d j) = size (ht_at d j).
Proof.
  intros Hd. pose proof (ht_at_wf d j Hd) as Hw. unfold ht_wf in Hw. unfold tabs, tab.
  destruct (table (ht_at d j)); [by destruct Hw as (_&_&?&_)|by destruct Hw as (->&_)].
Qed.
Lemma bucket_tabs d j i c : tabs d j !! i = Some c -> bucket (ht_at d j) (Z.of_nat i) = Ok c.
Proof.
  unfold tabs, tab, bucket. intros Hc. destruct (table (ht_at d j)) as [t|]; [|done]. cbn in *.
  destruct (Z.leb_spec 0 (Z.of_nat i)); [|lia]. by rewrite Nat2Z.id, Hc.
Qed.
Lemma tabs_one d : dict_wf ty key_ok d -> dictIsRehashing d = false -> mjoin (tabs d 1) = [].
Proof. intros Hd Hr. rewrite <-(ht1_entries_nil _ _ d Hd Hr). by rewrite ht_entries_tab. Qed.

(** *** Addresses *)
Lemma chain_from_none a c : a ∉ e_addr <$> c -> chain_from a c = [].
Proof.
  induction c as [|e c IH]; [done|]. cbn. intros [Hne Hc]%not_elem_of_cons.
  destruct (Z.eqb_spec (e_addr e) a); [congruence|auto].
Qed.
Lemma chain_from_split pre e post :
  e_addr e ∉ e_addr <$> pre -> chain_from (e_addr e) (pre ++ e :: post) = e :: post.
Proof.
  induction pre as [|x pre IH]; cbn; [by rewrite Z.eqb_refl|]. intros [Hne Hp]%not_elem_of_cons.
  destruct (Z.eqb_spec (e_addr x) (e_addr e)); [congruence|auto].
Qed.
Lemma addrs_nodup d : dict_wf ty key_ok d -> NoDup (e_addr <$> mjoin (tabs d 0 ++ tabs d 1)).
Proof. intros Hd. rewrite <-entries_tabs. apply Hd. Qed.

Lemma chain_from_in a c x : x ∈ chain_from a c -> x ∈ c.
Proof. induction c as [|e c IH]; [done|]. cbn. destruct (_ =? _); [done|]. intros ?%IH. by right. Qed.
Lemma chain_from_join (cs : list (list (dictEntry K V))) n pre e post :
  NoDup (e_addr <$> mjoin cs) -> cs !! n = Some (pre ++ e :: post) ->
  mjoin (chain_from (e_addr e) <$> cs) = e :: post.
Proof.
  intros Hnd Hn. rewrite <-(take_drop_middle _ _ _ Hn) in Hnd |- *. revert Hnd.
  generalize (take n cs) (drop (S n) cs). intros l1 l2. rewrite !fmap_app, join_app, !fmap_app. cbn. rewrite !fmap_app. cbn.
  intros Hnd. rewrite join_app. cbn [mjoin list_join].
  assert (Hout : forall l : list (list (dictEntry K V)), e_addr e ∉ e_addr <$> mjoin l -> mjoin (chain_from (e_addr e) <$> l) = []).
  { intros l Hl. induction l as [|c l IH]; [done|]. change (mjoin (c :: l)) with (c ++ mjoin l) in Hl.
    rewrite fmap_app in Hl. change (chain_from (e_addr e) c ++ mjoin (chain_from (e_addr e) <$> l) = []).
    rewrite chain_from_none, IH by set_solver. done. }
  apply NoDup_app in Hnd as (_&H1&Hnd). rewrite <-app_assoc in Hnd. apply NoDup_app in Hnd as (_&H2&Hnd). apply NoDup_cons in Hnd as [H3 _].
  rewrite (Hout l1), chain_from_split; [|intros Hin; apply (H2 _ Hin); by left|intros Hin; apply (H1 _ Hin); set_solver].
  cbn [app]. rewrite Hout by set_solver. by rewrite app_nil_r.
Qed.
Lemma at_address_ok d j i pre e post :
  dict_wf ty key_ok d -> tabs d j !! i = Some (pre ++ e :: post) -> at_address d (e_addr e) = e :: post.
Proof.
  intros Hd Hc. unfold at_address.
  assert (exists n, (tab (ht0 d) ++ tab (ht1 d)) !! n = Some (pre ++ e :: post)) as [n Hn].
  { unfold tabs, ht_at in Hc. destruct (j =? 0).
    - exists i. by apply lookup_app_l_Some.
    - exists (length (tab (ht0 d)) + i)%nat. rewrite lookup_app_r by lia. by replace (_ + i - _)%nat with i by lia. }
  eapply chain_from_join; [apply (addrs_nodup d Hd)|exact Hn].
Qed.
Lemma chain_nodup d j i c : dict_wf ty key_ok d -> tabs d j !! i = Some c -> NoDup (e_addr <$> c).
Proof.
  intros Hd Hc. assert (Hsub : sublist c (mjoin (tabs d j))).
  { rewrite <-(take_drop_middle _ _ _ Hc), join_app. apply sublist_inserts_l. cbn [mjoin list_join]. by apply sublist_inserts_r. }
  pose proof (addrs_nodup d Hd) as Hnd. rewrite join_app, fmap_app in Hnd. apply NoDup_app in Hnd as (H0&_&H1).
  assert (Hj : NoDup (e_addr <$> mjoin (tabs d j))) by (unfold tabs, ht_at in *; destruct (j =? 0); done).
  eapply sublist_NoDup; [exact Hj|by apply fmap_sublist].
Qed.

(** *** One call of [dictNext] *)
Definition table_ok d (j : Z) : Prop := j = 0 \/ j = 1 /\ dictIsRehashing d = true.
(** Saving the next entry of a chain. *)
Lemma stand d it pre e post :
  dict_wf ty key_ok d -> table_ok d (itable it) -> 0 <= index it -> is_Some (entry it) ->
  tabs d (itable it) !! Z.to_nat (index it) = Some (pre ++ e :: post) ->
  pos_ok d (set_next it (e_addr <$> head post)) /\
  remaining d (set_next it (e_addr <$> head post)) = post ++ later d (itable it) (index it).
Proof.
  intros Hd Ht Hi He Hc. pose proof (chain_nodup _ _ _ _ Hd Hc) as Hnd. split.
  - split; cbn; [done..|]. eexists. split; [exact Hc|]. intros a Ha. destruct post as [|e2 post]; [done|].
    injection Ha as <-. apply list_elem_of_fmap. exists e2. split; [done|set_solver].
  - unfold remaining. cbn [nextEntry itable index set_next]. rewrite Hc. cbn [default from_option id].
    destruct post as [|e2 post]; [done|]. cbn [head fmap option_fmap option_map].
    replace (pre ++ e :: e2 :: post) with ((pre ++ [e]) ++ e2 :: post) in * by (by rewrite <-app_assoc).
    rewrite chain_from_split; [done|]. rewrite fmap_app in Hnd. apply NoDup_app in Hnd as (_&Hx&_).
    intros Hin. apply (Hx _ Hin). by left.
Qed.

Lemma dict_wf_iterators d n : dict_wf ty key_ok d -> 0 <= n -> dict_wf ty key_ok (set_iterators d n).
Proof. intros [] Hn. by split. Qed.
Lemma begin_spec tp d it d1 it1 :
  dict_wf ty key_ok d -> begin_iteration tp d it = (d1, it1) ->
  dict_wf ty key_ok d1 /\ (forall j, ht_at d1 j = ht_at d j) /\ dictIsRehashing d1 = dictIsRehashing d /\
  itable it1 = itable it /\ index it1 = index it /\ entry it1 = entry it /\ nextEntry it1 = nextEntry it /\ safe it1 = safe it.
Proof.
  intros Hd. unfold begin_iteration. destruct (_ && _); [destruct (safe it) eqn:Hs|]; intros [= <- <-]; [|done..].
  split; [|done]. apply dict_wf_iterators; [done|apply u64_range].
Qed.

Definition measure d (j i : Z) : nat :=
  (length (drop (Z.to_nat (i + 1)%Z) (tabs d j)) + (if (j =? 0)%Z then length (tabs d 1) else 0))%nat.
Lemma later_cons d j i c : -1 <= i -> tabs d j !! Z.to_nat (i + 1) = Some c ->
  later d j i = c ++ later d j (i + 1) /\ measure d j i = S (measure d j (i + 1)).
Proof.
  intros Hi Hc. unfold later, measure. rewrite (drop_S _ _ _ Hc).
  replace (S (Z.to_nat (i + 1))) with (Z.to_nat (i + 1 + 1)) by lia.
  cbn [mjoin list_join length]. by rewrite <-app_assoc.
Qed.
Lemma later_last d i : dict_wf ty key_ok d -> size (ht0 d) <= i + 1 ->
  later d 0 i = later d 1 (-1) /\ measure d 0 i = measure d 1 (-1).
Proof.
  intros Hd Hi. unfold later, measure. pose proof (zlen_tabs d 0 Hd) as Hz. unfold zlen in Hz. cbn [ht_at Z.eqb] in *.
  rewrite (drop_ge (tabs d 0)) by lia. change (Z.to_nat (-1 + 1)) with 0%nat. rewrite !drop_0. cbn [mjoin list_join app length Nat.add].
  by rewrite app_nil_r, Nat.add_0_r.
Qed.

Lemma bucket_in d j i : dict_wf ty key_ok d -> 0 <= i < size (ht_at d j) ->
  exists c, tabs d j !! Z.to_nat i = Some c /\ bucket (ht_at d j) i = Ok c.
Proof.
  intros Hd Hi. destruct (lookup_lt_is_Some_2 (tabs d j) (Z.to_nat i)) as [c Hc].
  { pose proof (zlen_tabs d j Hd) as Hz. unfold zlen in Hz. lia. }
  exists c. split; [done|]. rewrite <-(Z2Nat.id i) by lia. by apply bucket_tabs.
Qed.
Lemma small_size d j : dict_wf ty key_ok d -> small d -> s64 (size (ht_at d j)) = size (ht_at d j).
Proof.
  intros Hd [H0 H1]. pose proof (ht_wf_size _ _ (wf_ht0 _ _ _ Hd)). pose proof (ht_wf_size _ _ (wf_ht1 _ _ _ Hd)).
  apply s64_small. unfold ht_at. destruct (j =? 0); lia.
Qed.

(** Going on to another bucket, or to the end. *)
Lemma bucket_step tp d it d1 it1 :
  dict_wf ty key_ok d -> small d -> table_ok d (itable it) -> (itable it = 1 -> 0 <= index it) -> nextEntry it = None ->
  -1 <= index it < size (ht_at d (itable it)) \/ index it = -1 -> begin_iteration tp d it = (d1, it1) ->
  (exists j i c, next_bucket tp d it = Ok (d1, mk_iter i j (safe it) (e_addr <$> head c) None (fingerprint it1), false) /\
     table_ok d j /\ 0 <= i < size (ht_at d j) /\ tabs d j !! Z.to_nat i = Some c /\
     later d (itable it) (index it) = c ++ later d j i /\ measure d (itable it) (index it) = S (measure d j i)) \/
  (exists it2, next_bucket tp d it = Ok (d1, it2, true) /\ safe it2 = safe it /\ fingerprint it2 = fingerprint it1 /\
     0 <= index it2 /\ later d (itable it) (index it) = []).
Proof.
  intros Hd Hs Ht Hit Hn Hi Hb. unfold next_bucket. rewrite Hb.
  destruct (begin_spec _ _ _ _ _ Hd Hb) as (Hd1&Htab&Hr&Et&Ei&_&En&Es). cbn [itable index set_pos]. rewrite Et, Ei, Htab, Hr.
  assert (Hm1 : -1 <= index it) by (destruct Hi; lia). rewrite small_size by done.
  destruct (Z.leb_spec (size (ht_at d (itable it))) (index it + 1)) as [Hle|Hgt].
  - destruct Ht as [Ht|[Ht Hreh]]; rewrite Ht in *.
    + destruct (later_last d (index it) Hd Hle) as [Hl Hm]. destruct (dictIsRehashing d) eqn:Hreh; cbn [andb Z.eqb].
      * left. destruct (rehashing_tables _ _ d Hd Hreh) as (t0&t1&_&Ht1&_).
        pose proof (wf_ht1 _ _ _ Hd) as Hw1. unfold ht_wf in Hw1. rewrite Ht1 in Hw1. destruct Hw1 as ((n&Hrange&Hsz)&_).
        destruct (bucket_in d 1 0 Hd) as (c&Hc&Hbk); [cbn [ht_at Z.eqb]; rewrite Hsz; lia|].
        cbn [set_pos itable index]. change (ht1 d1) with (ht_at d1 1). rewrite Htab, Hbk. cbn [res_bind].
        destruct (later_cons d 1 (-1) c) as [Hl' Hm']; [lia|exact Hc|]. change (-1 + 1) with 0 in Hl', Hm'.
        exists 1, 0, c. split_and!; [|right; done|done|cbn [ht_at Z.eqb]; rewrite Hsz; lia|done|congruence|congruence].
        unfold set_entry, set_pos. cbn. by rewrite Es, En, Hn.
      * right. eexists. split; [done|]. cbn. rewrite Es. split_and!; [done|done|lia|].
        rewrite Hl. unfold later. cbn [Z.eqb]. change (Z.to_nat (-1 + 1)) with 0%nat. by rewrite drop_0, (tabs_one d Hd Hreh).
    + right. rewrite andb_false_r. eexists. split; [done|]. cbn. rewrite Es. split_and!; [done|done|lia|].
      unfold later. cbn [Z.eqb]. pose proof (zlen_tabs d 1 Hd) as Hz. unfold zlen in Hz. rewrite drop_ge by lia. done.
  - left. destruct (bucket_in d (itable it) (index it + 1) Hd) as (c&Hc&Hbk); [lia|]. rewrite Hbk. cbn [res_bind].
    destruct (later_cons d (itable it) (index it) c Hm1 Hc) as [Hl Hm].
    exists (itable it), (index it + 1), c. split_and!; [|done|lia|lia|done|done|done].
    unfold set_entry, set_pos. cbn. by rewrite Es, En, Hn.
Qed.

(** What one call gives, from where the iterator stands. *)
Definition outcome d it it' (l : list (dictEntry K V)) : Prop :=
  safe it' = safe it /\ fingerprint it' = fingerprint it /\ 0 <= index it' /\
  match l with [] => True | _ :: l => pos_ok d it' /\ remaining d it' = l end.

Lemma begin_positive tp d it : 0 <= index it -> begin_iteration tp d it = (d, it).
Proof. intros Hi. unfold begin_iteration. destruct (Z.eqb_spec (index it) (-1)); [lia|done]. Qed.
Lemma next_from fuel tp d it d1 it1 :
  dict_wf ty key_ok d -> small d -> table_ok d (itable it) -> (itable it = 1 -> 0 <= index it) ->
  entry it = None -> nextEntry it = None -> -1 <= index it < size (ht_at d (itable it)) \/ index it = -1 ->
  begin_iteration tp d it = (d1, it1) -> (measure d (itable it) (index it) < fuel)%nat ->
  exists it', next_loop fuel tp d it = Ok (d1, it', head (later d (itable it) (index it))) /\
    outcome d1 it1 it' (later d (itable it) (index it)).
Proof.
  revert d it d1 it1. induction fuel as [|fuel IH]; intros d it d1 it1 Hd Hs Ht Hit He Hn Hi Hb Hm; [lia|].
  destruct (begin_spec _ _ _ _ _ Hd Hb) as (Hd1&Htab&Hr&_&_&_&_&Es).
  cbn [next_loop]. rewrite He.
  destruct (bucket_step tp d it d1 it1 Hd Hs Ht Hit Hn Hi Hb) as [(j&i&c&->&Hj&Hir&Hc&Hl&Hmm)|(it2&->&H1&H2&H3&->)]; cbn [res_bind].
  2: { exists it2. split; [done|]. split_and!; [congruence|done|done|done]. }
  cbn [entry]. rewrite Hl. set (it2 := mk_iter _ _ _ _ _ _).
  assert (Hlat : forall j i, later d1 j i = later d j i) by (intros; unfold later, tabs; by rewrite !Htab).
  assert (Hmea : forall j i, measure d1 j i = measure d j i) by (intros; unfold measure, tabs; by rewrite !Htab).
  assert (Hc1 : tabs d1 j !! Z.to_nat i = Some c) by (unfold tabs in *; by rewrite Htab).
  assert (Hj1 : table_ok d1 j) by (unfold table_ok; by rewrite Hr).
  destruct c as [|e c]; cbn [head fmap option_fmap option_map app].
  - destruct (IH d1 it2 d1 it2) as (it'&Hrun&Hout); [done| |done| |done|done| |apply begin_positive; cbn; lia| |].
    + unfold small in *. change (ht0 d1) with (ht_at d1 0). change (ht1 d1) with (ht_at d1 1). by rewrite !Htab.
    + cbn. lia.
    + cbn. rewrite Htab. lia.
    + cbn. rewrite Hmea. lia.
    + cbn [itable index] in Hrun. rewrite Hlat in Hrun. exists it'. split; [exact Hrun|]. cbn [itable index it2] in Hout. rewrite Hlat in Hout.
      destruct Hout as (O1&O2&O3). split_and!; [by rewrite O1|done|apply O3..].
  - rewrite (at_address_ok d1 j (Z.to_nat i) [] e c Hd1 Hc1).
    destruct (stand d1 it2 [] e c Hd1) as [Hp Hrem]; [done|cbn; lia|by eexists|done|].
    eexists. split; [done|]. split_and!; [done|done|cbn; lia|done|]. cbn [itable index it2] in Hrem. by rewrite Hlat in Hrem.
Qed.

Definition fresh it : Prop := index it = -1 /\ itable it = 0 /\ entry it = None /\ nextEntry it = None.
Lemma dictNext_first tp d it d1 it1 :
  dict_wf ty key_ok d -> small d -> fresh it -> begin_iteration tp d it = (d1, it1) ->
  exists it', dictNext tp d it = Ok (d1, it', head (entries d)) /\ outcome d1 it1 it' (entries d).
Proof.
  intros Hd Hs (Hi&Ht&He&Hn) Hb. rewrite entries_later. unfold dictNext.
  destruct (next_from (length (tab (ht0 d)) + length (tab (ht1 d)) + 3) tp d it d1 it1) as (it'&Hrun&Hout); try done; rewrite ?Ht, ?Hi in *.
  - by left.
  - lia.
  - by right.
  - unfold measure. change (Z.to_nat (-1 + 1)) with 0%nat. rewrite drop_0. unfold tabs, ht_at. cbn [Z.eqb]. lia.
  - by exists it'.
Qed.
Lemma dictNext_running tp d it :
  dict_wf ty key_ok d -> small d -> pos_ok d it ->
  exists it', dictNext tp d it = Ok (d, it', head (remaining d it)) /\ outcome d it it' (remaining d it).
Proof.
  intros Hd Hs [Ht Hi [x Hx] (c&Hc&Hn)]. unfold dictNext, remaining. rewrite Hc. cbn [default from_option id].
  rewrite Nat.add_comm. cbn [Nat.add next_loop]. rewrite Hx. cbn [res_bind entry set_entry].
  destruct (nextEntry it) as [a|] eqn:Hne.
  - specialize (Hn a eq_refl). apply list_elem_of_fmap in Hn as (e&->&He). apply list_elem_of_split in He as (pre&post&->).
    rewrite (at_address_ok _ _ _ _ _ _ Hd Hc). pose proof (chain_nodup _ _ _ _ Hd Hc) as Hnd.
    rewrite chain_from_split; [|rewrite fmap_app in Hnd; apply NoDup_app in Hnd as (_&Hd1&_); intros Hin; apply (Hd1 _ Hin); by left].
    destruct (stand d (set_entry it (Some (e_addr e))) pre e post Hd) as [Hp Hr]; [done|done|by eexists|done|].
    eexists. split; [done|]. split_and!; [done..|exact (conj Hp Hr)].
  - pose proof (lookup_lt_Some _ _ _ Hc) as Hlt. pose proof (zlen_tabs d (itable it) Hd) as Hz. unfold zlen in Hz.
    set (it2 := set_entry it None). change (next_loop _ tp d it2) with (next_loop (S (S (length (tab (ht0 d)) + length (tab (ht1 d))))) tp d it2).
    destruct (next_from (S (S (length (tab (ht0 d)) + length (tab (ht1 d))))) tp d it2 d it2) as (it'&Hrun&Hout); try done.
    + left. cbn. lia.
    + by apply begin_positive.
    + cbn. unfold measure. rewrite length_drop. unfold tabs, ht_at. destruct Ht as [->|[-> _]]; cbn [Z.eqb Pos.eqb]; lia.
    + exists it'. split; [exact Hrun|exact Hout].
Qed.
End Position.

(** ** The property of an undisturbed iteration *)
Lemma iterate_next {K V} (ty : dictType K V) d cr it tp cs :
  iterate ty (d, cr) it (INext tp :: cs) =
  let* (d, it, r) := dictNext tp d it in
  match r with
  | None => Ok (d, cr, it, [], true)
  | Some e => let* (s, it, es, fin) := iterate ty (d, cr) it cs in Ok (s, it, e :: es, fin)
  end.
Proof. done. Qed.
Lemma iterate_running {K V} `{Countable K} (ty : dictType K V) (key_ok : K -> Prop) `{Hty : !DictTypeOk ty key_ok} tp d cr it l :
  dict_wf ty key_ok d -> small d -> pos_ok d it -> remaining d it = l ->
  exists it', iterate ty (d, cr) it (replicate (S (length l)) (INext tp)) = Ok (d, cr, it', l, true) /\
    safe it' = safe it /\ fingerprint it' = fingerprint it /\ 0 <= index it'.
Proof.
  intros Hd Hs. revert it. induction l as [|e l IH]; intros it Hp Hr;
    destruct (dictNext_running ty key_ok tp d it Hd Hs Hp) as (it'&Hn&O1&O2&O3&O4); rewrite Hr in *;
    cbn [length]; rewrite replicate_S, iterate_next, Hn; cbn [res_bind head].
  - by exists it'.
  - destruct O4 as [Hp' Hr']. destruct (IH it' Hp' Hr') as (it2&Hrun&S2&F2&?).
    rewrite Hrun. cbn [res_bind]. exists it2. by rewrite S2, F2.
Qed.

Lemma release_begun {K V} tp (d d1 : dict K V) it it1 it' :
  0 <= iterators d < 2 ^ 64 - 1 -> fresh it -> begin_iteration tp d it = (d1, it1) ->
  safe it' = safe it1 -> fingerprint it' = fingerprint it1 -> 0 <= index it' -> dictReleaseIterator tp d1 it' = Ok d.
Proof.
  intros Hi (Hx&Ht&_) Hb S F I. unfold dictReleaseIterator. destruct (Z.eqb_spec (index it') (-1)); [lia|].
  rewrite andb_false_l. cbn [negb]. rewrite S, F. revert Hb. unfold begin_iteration. rewrite Hx, Ht, !Z.eqb_refl. cbn [andb].
  destruct (safe it) eqn:Es; intros [= <- <-]; cbn [safe fingerprint set_fingerprint]; rewrite Es.
  - cbn [iterators set_iterators]. rewrite (u64_small (iterators d + 1)) by lia. rewrite u64_small by lia.
    replace (iterators d + 1 - 1) with (iterators d) by lia. by destruct d.
  - by rewrite bool_decide_eq_true_2.
Qed.

(** Iterating over a dictionary that nobody changes, in the middle of a
    rehash or not, returns every entry exactly once, in the order of the
    buckets, and then NULL; releasing the iterator then succeeds and leaves
    the dictionary as it was, rehashing enabled again.  It holds for the
    plain iterator, whose fingerprint matches, and for the safe one. *)
Theorem iterator_enumerates {K V} `{Countable K} (ty : dictType K V) (key_ok : K -> Prop) `{Hty : !DictTypeOk ty key_ok}
    (tp : Z * Z) (d : dict K V) (cr : bool) (it : dictIterator) :
  dict_wf ty key_ok d -> small d -> iterators d + 1 < 2 ^ 64 -> it = dictGetIterator \/ it = dictGetSafeIterator ->
  exists d' it', iterate ty (d, cr) it (replicate (S (length (entries d))) (INext tp)) = Ok (d', cr, it', entries d, true) /\
    dictReleaseIterator tp d' it' = Ok d.
Proof.
  intros Hd Hs Hi Hit. assert (Hf : fresh it) by (destruct Hit as [->| ->]; done).
  destruct (begin_iteration tp d it) as [d1 it1] eqn:Hb. pose proof (wf_iterators _ _ _ Hd) as Hi0.
  destruct (begin_spec ty key_ok _ _ _ _ _ Hd Hb) as (Hd1&Htab&_&_&_&_&_&Es).
  assert (Hrel : forall it', safe it' = safe it1 -> fingerprint it' = fingerprint it1 -> 0 <= index it' -> dictReleaseIterator tp d1 it' = Ok d)
    by (intros it'; apply (release_begun tp d d1 it it1); [lia|done..]).
  assert (Hs1 : small d1) by (unfold small; pose proof (Htab 0) as E0; pose proof (Htab 1) as E1; cbn in E0, E1; by rewrite E0, E1).
  destruct (dictNext_first ty key_ok tp d it d1 it1 Hd Hs Hf Hb) as (it2&Hn&O1&O2&O3&O4).
  exists d1. destruct (entries d) as [|e l] eqn:He; cbn [length]; rewrite replicate_S, iterate_next, Hn; cbn [res_bind head].
  - exists it2. auto.
  - destruct O4 as [Hp Hr]. destruct (iterate_running ty key_ok tp d1 cr it2 l Hd1 Hs1 Hp Hr) as (it3&Hrun&F1&F2&F3).
    rewrite Hrun. cbn [res_bind]. exists it3. split; [done|]. apply Hrel; congruence || done.
Qed.
Lemma iterator_enumerates_witness :
  exists d' it', iterate (IntIntDictType demo_seed) (demo_dict, true) dictGetIterator (replicate 7 (INext (100, 200))) =
      Ok (d', true, it', entries demo_dict, true) /\
    dictReleaseIterator (100, 200) d' it' = Ok demo_dict.
Proof.
  apply (iterator_enumerates (IntIntDictType demo_seed) int_key_ok (100, 200) demo_dict true dictGetIterator).
  - apply demo_dict_wf.
  - split; vm_compute; reflexivity.
  - vm_compute. reflexivity.
  - left. reflexivity.
Defined.
(** An insertion between two calls is noticed when the iterator is released. *)
Example misuse_is_noticed :
  (let* (s, it, _, _) := iterate (IntIntDictType demo_seed) (demo_dict, true) dictGetIterator
      [INext (100, 200); ICmd (CAdd (mk_dkey 1009 9) 90 90 91)] in
   dictReleaseIterator (100, 200) (fst s) it) = Abort.
Proof. vm_compute. reflexivity. Qed.
