(* ===== verification/DictIterSafe.v ===== *)
(** * gp_dict.c: changing a dictionary under a safe iterator

    What insertions, lookups and deletions do to the buckets of a dictionary
    whose rehash is stopped, and the theorem that a safe iteration misses and
    repeats nothing, whatever the client does between the calls. *)

From S2P Require Import Prelude Hash Dict DictInv DictTypes DictRefine DictIter.
Local Open Scope Z_scope.

Section Layout.
Context {K V : Type} `{Countable K}.
Context (ty : dictType K V) (key_ok : K -> Prop) `{Hty : !DictTypeOk ty key_ok}.
Implicit Types (d : dict K V) (e x : dictEntry K V) (c : list (dictEntry K V)) (it : dictIterator).
Notation dict_wf := (dict_wf ty key_ok).
Notation tabs := (@tabs K V).

Definition keys (l : list (dictEntry K V)) : list K := e_key <$> l.

(** *** Where an entry is *)
(** Bucket [n] of table [j] is still to come. *)
Definition ahead it (j : Z) (n : nat) : Prop := j = itable it /\ index it < Z.of_nat n \/ itable it = 0 /\ j = 1.
Definition chain_part d it : list (dictEntry K V) :=
  match nextEntry it with
  | None => []
  | Some a => chain_from a (default [] (tabs d (itable it) !! Z.to_nat (index it)))
  end.
Definition in_bucket d x (j : Z) (n : nat) : Prop := exists c, tabs d j !! n = Some c /\ x ∈ c.

Lemma elem_of_entries d x : x ∈ entries d <-> exists j n, (j = 0 \/ j = 1) /\ in_bucket d x j n.
Proof.
  rewrite entries_tabs, join_app, elem_of_app, !elem_of_join_lookup. unfold in_bucket. split.
  - intros [(n&?)|(n&?)]; [exists 0, n|exists 1, n]; auto.
  - intros (j&n&[->| ->]&?); [left|right]; by exists n.
Qed.
Lemma elem_of_remaining d it x : table_ok d (itable it) -> 0 <= index it ->
  x ∈ remaining d it <-> x ∈ chain_part d it \/ exists j n, (j = 0 \/ j = 1) /\ ahead it j n /\ in_bucket d x j n.
Proof.
  intros Ht Hi. unfold remaining. rewrite elem_of_app. fold (chain_part d it). unfold later, ahead, in_bucket.
  rewrite elem_of_app, elem_of_join_lookup. split.
  - intros [?|[(n&c&Hn&Hx)|Hx]]; [by left|right|right].
    + rewrite lookup_drop in Hn. exists (itable it), (Z.to_nat (index it + 1) + n)%nat.
      split; [destruct Ht as [|[? _]]; auto|]. split; [left; lia|eauto].
    + destruct (Z.eqb_spec (itable it) 0); [|by apply elem_of_nil in Hx]. apply elem_of_join_lookup in Hx as (n&c&Hn&Hx).
      exists 1, n. eauto 10.
  - intros [?|(j&n&Hj&Ha&c&Hc&Hx)]; [by left|right]. destruct Ha as [[-> Ha]|[Ht0 ->]].
    + left. exists (n - Z.to_nat (index it + 1))%nat, c. split; [|done]. rewrite lookup_drop.
      replace (_ + _)%nat with n by lia. done.
    + right. rewrite Ht0. cbn [Z.eqb]. apply elem_of_join_lookup. eauto.
Qed.
Lemma remaining_entries d it x : table_ok d (itable it) -> 0 <= index it -> x ∈ remaining d it -> x ∈ entries d.
Proof.
  intros Ht Hi. rewrite elem_of_remaining, elem_of_entries by done. intros [Hx|(j&n&?&_&?)]; [|eauto].
  unfold chain_part in Hx. destruct (nextEntry it) as [a|]; [|by apply elem_of_nil in Hx]. apply chain_from_in in Hx.
  exists (itable it), (Z.to_nat (index it)). split; [destruct Ht as [|[]]; auto|]. unfold in_bucket.
  destruct (tabs d (itable it) !! _) as [c|]; [eauto|by apply elem_of_nil in Hx].
Qed.

(** *** Replacing one chain *)
Record chain_at d d' (j : Z) (i : nat) c c' : Prop := {
  ca_side : j = 0 \/ j = 1;
  ca_chain : tabs d j !! i = Some c;
  ca_tabs : tabs d' j = <[i := c']> (tabs d j);
  ca_other : forall j', j' = 0 \/ j' = 1 -> j' <> j -> tabs d' j' = tabs d j';
  ca_rehash : dictIsRehashing d' = dictIsRehashing d;
}.
Lemma chain_at_lookup d d' j i c c' j' n : chain_at d d' j i c c' -> j' = 0 \/ j' = 1 ->
  tabs d' j' !! n = if decide (j' = j /\ n = i) then Some c' else tabs d j' !! n.
Proof.
  intros [Hj Hc Ht Ho _] Hj'. destruct (decide (j' = j)) as [->|Hne].
  - rewrite Ht. destruct (decide _) as [[_ ->]|Hn].
    + apply list_lookup_insert_eq. by eapply lookup_lt_Some.
    + apply list_lookup_insert_ne. naive_solver.
  - rewrite Ho by done. by rewrite decide_False by naive_solver.
Qed.
Lemma chain_at_bucket d d' j i c c' x j' n :
  chain_at d d' j i c c' -> (x ∈ c <-> x ∈ c') -> j' = 0 \/ j' = 1 -> in_bucket d x j' n <-> in_bucket d' x j' n.
Proof.
  intros Hca Hx Hj'. unfold in_bucket. rewrite (chain_at_lookup _ _ _ _ _ _ j' n Hca Hj').
  destruct (decide _) as [[-> ->]|_]; [|done]. rewrite (ca_chain _ _ _ _ _ _ Hca). naive_solver.
Qed.

(** [it] and [d'] go on where [it] and [d] were; [del] and [add] are the keys
    that may have been removed and inserted. *)
Record follows d d' it (del add : K -> Prop) : Prop := {
  fo_pos : pos_ok d' it;
  fo_keep : forall k, ~ del k -> k ∈ keys (entries d) ->
    k ∈ keys (entries d') /\ (k ∈ keys (remaining d it) <-> k ∈ keys (remaining d' it));
  fo_new : forall k, k ∈ keys (remaining d' it) -> k ∈ keys (remaining d it) \/ add k;
}.
Lemma follows_refl d it del add : pos_ok d it -> follows d d it del add.
Proof. intros Hp. split; [done|done|by left]. Qed.
Lemma follows_trans d1 d2 d3 it del add : follows d1 d2 it del add -> follows d2 d3 it del add -> follows d1 d3 it del add.
Proof.
  intros [P1 K1 N1] [P2 K2 N2]. split; [done| |].
  - intros k Hk Hin. destruct (K1 k Hk Hin) as [Hin2 E1]. destruct (K2 k Hk Hin2) as [Hin3 E2]. split; [done|]. by rewrite E1.
  - intros k Hk. destruct (N2 k Hk) as [Hk2|]; [apply (N1 k Hk2)|by right].
Qed.

Lemma chain_part_at d d' it j i c c' x :
  chain_at d d' j i c c' -> table_ok d (itable it) ->
  (forall a, nextEntry it = Some a -> j = itable it -> Z.to_nat (index it) = i -> x ∈ chain_from a c <-> x ∈ chain_from a c') ->
  x ∈ chain_part d it <-> x ∈ chain_part d' it.
Proof.
  intros Hca Ht Hx. unfold chain_part. destruct (nextEntry it) as [a|]; [|done].
  rewrite (chain_at_lookup _ _ _ _ _ _ (itable it) (Z.to_nat (index it)) Hca) by (destruct Ht as [|[]]; auto).
  destruct (decide _) as [[E1 E2]|_]; [|done]. specialize (Hx a eq_refl (eq_sym E1) E2). rewrite E1, E2, (ca_chain _ _ _ _ _ _ Hca). exact Hx.
Qed.
Lemma remaining_at d d' it j i c c' x :
  chain_at d d' j i c c' -> pos_ok d it -> (x ∈ c <-> x ∈ c') ->
  (forall a, nextEntry it = Some a -> j = itable it -> Z.to_nat (index it) = i -> x ∈ chain_from a c <-> x ∈ chain_from a c') ->
  x ∈ remaining d it <-> x ∈ remaining d' it.
Proof.
  intros Hca [Ht Hi _ _] Hx Hn. rewrite !elem_of_remaining; [| |done|done|done].
  2: { unfold table_ok in *. by rewrite (ca_rehash _ _ _ _ _ _ Hca). }
  rewrite (chain_part_at d d' it j i c c' x Hca Ht Hn). f_equiv. f_equiv; intros j'. f_equiv; intros n.
  split; intros (Hj&Ha&Hb); (split; [done|]); (split; [done|]); by apply (chain_at_bucket d d' j i c c' x j' n Hca Hx Hj).
Qed.
Lemma entries_at d d' j i c c' x :
  chain_at d d' j i c c' -> (x ∈ c <-> x ∈ c') -> x ∈ entries d <-> x ∈ entries d'.
Proof.
  intros Hca Hx. rewrite !elem_of_entries. f_equiv; intros j'. f_equiv; intros n.
  split; intros (Hj&Hb); (split; [done|]); by apply (chain_at_bucket d d' j i c c' x j' n Hca Hx Hj).
Qed.
Lemma pos_at d d' it j i c c' :
  chain_at d d' j i c c' -> pos_ok d it ->
  (forall a, nextEntry it = Some a -> a ∈ e_addr <$> c -> j = itable it -> Z.to_nat (index it) = i -> a ∈ e_addr <$> c') -> pos_ok d' it.
Proof.
  intros Hca [Ht Hi He (c0&Hc0&Hn)] Hx. split; [by rewrite (ca_rehash _ _ _ _ _ _ Hca)|done|done|].
  rewrite (chain_at_lookup _ _ _ _ _ _ (itable it) (Z.to_nat (index it)) Hca) by (destruct Ht as [|[]]; auto).
  destruct (decide _) as [[E1 E2]|_]; [|by exists c0]. exists c'. split; [done|]. intros a Ha.
  rewrite E1, E2, (ca_chain _ _ _ _ _ _ Hca) in Hc0. injection Hc0 as ->. apply Hx; [done|by apply Hn|done|done].
Qed.

Lemma elem_of_keys k (l : list (dictEntry K V)) : k ∈ keys l <-> exists x, x ∈ l /\ e_key x = k.
Proof. unfold keys. rewrite list_elem_of_fmap. naive_solver. Qed.
Lemma follows_at d d' it j i c c' y (del add : K -> Prop) :
  chain_at d d' j i c c' -> pos_ok d it -> pos_ok d' it -> (forall x, x <> y -> x ∈ c <-> x ∈ c') ->
  (forall x a, x <> y -> nextEntry it = Some a -> j = itable it -> Z.to_nat (index it) = i -> x ∈ chain_from a c <-> x ∈ chain_from a c') ->
  e_key y ∉ keys (entries d) \/ del (e_key y) -> add (e_key y) \/ y ∉ remaining d' it ->
  follows d d' it del add.
Proof.
  intros Hca Hp Hp' Hx Hn Hold Hadd.
  assert (Hrem : forall x, x <> y -> x ∈ remaining d it <-> x ∈ remaining d' it) by (intros; eapply remaining_at; eauto).
  split; [done| |].
  - intros k Hk Hin. assert (Hky : k <> e_key y) by (intros ->; by destruct Hold).
    assert (Hxy : forall x, e_key x = k -> x <> y) by (intros x <- ->; done). apply elem_of_keys in Hin as (x&Hx0&Hxk). split.
    + apply elem_of_keys. exists x. split; [|done]. by apply (entries_at d d' j i c c' x Hca (Hx x (Hxy x Hxk))).
    + rewrite !elem_of_keys. split; intros (z&Hz&Hzk); exists z; (split; [|done]); by apply (Hrem z (Hxy z Hzk)).
  - intros k (x&Hin&Hk)%elem_of_keys. destruct (decide (e_key x = e_key y)) as [E|Hne].
    + destruct Hadd as [Hadd|Hadd]; [right; by rewrite <-Hk, E|].
      left. apply elem_of_keys. exists x. split; [|done]. apply Hrem; [congruence|done].
    + left. apply elem_of_keys. exists x. split; [|done]. apply Hrem; [congruence|done].
Qed.
Lemma follows_push d d' it j i c x (del add : K -> Prop) :
  pos_ok d it -> chain_at d d' j i c (x :: c) -> e_key x ∉ keys (entries d) -> e_addr x ∉ e_addr <$> entries d ->
  add (e_key x) -> follows d d' it del add.
Proof.
  intros Hp Hca Hk Ha Hadd. apply (follows_at d d' it j i c (x :: c) x); try done.
  - apply (pos_at d d' it j i c (x :: c) Hca Hp). intros a _ Hin _ _. cbn. by right.
  - intros y Hy. rewrite elem_of_cons. naive_solver.
  - intros y a _ Hn Hj Hi. cbn. destruct (Z.eqb_spec (e_addr x) a) as [<-|]; [|done]. exfalso. apply Ha.
    destruct Hp as [Ht _ _ (c0&Hc0&Hin)]. specialize (Hin _ Hn). apply list_elem_of_fmap in Hin as (z&Hz&Hzin).
    apply list_elem_of_fmap. exists z. split; [done|]. apply elem_of_entries. exists (itable it), (Z.to_nat (index it)).
    split; [destruct Ht as [|[]]; auto|by exists c0].
  - by left.
  - by left.
Qed.
Lemma chain_from_skip a x y pre post : a <> e_addr x -> y <> x ->
  y ∈ chain_from a (pre ++ x :: post) <-> y ∈ chain_from a (pre ++ post).
Proof.
  intros Ha Hy. induction pre as [|z pre IH]; cbn; [destruct (Z.eqb_spec (e_addr x) a); [congruence|done]|].
  destruct (_ =? _); [|done]. rewrite !elem_of_cons, !elem_of_app, elem_of_cons. naive_solver.
Qed.
Lemma follows_unlink d d' it j i pre x post (del add : K -> Prop) :
  dict_wf d' -> entries d ≡ₚ x :: entries d' -> pos_ok d it -> chain_at d d' j i (pre ++ x :: post) (pre ++ post) ->
  nextEntry it <> Some (e_addr x) -> NoDup (entries d) -> del (e_key x) -> follows d d' it del add.
Proof.
  intros Hd' Hperm Hp Hca Hn Hnd Hdel.
  assert (Hp' : pos_ok d' it).
  { apply (pos_at d d' it j i _ _ Hca Hp). intros a Ha Hin _ _.
    apply list_elem_of_fmap in Hin as (z&->&Hz). apply list_elem_of_fmap. exists z. split; [done|].
    assert (z <> x) by congruence. set_solver. }
  apply (follows_at d d' it j i _ _ x _ _ Hca Hp Hp').
  - intros y Hy. rewrite !elem_of_app, elem_of_cons. naive_solver.
  - intros y a Hy Ha _ _. apply chain_from_skip; congruence.
  - by right.
  - right. intros Hin. destruct Hp' as [Ht Hi _ _]. apply remaining_entries in Hin; [|done..].
    rewrite Hperm in Hnd. by apply NoDup_cons in Hnd as [? _].
Qed.

(** *** Changes that leave the buckets alone *)
Definition ident e : K * Z := (e_key e, e_addr e).
Definition idents (t : list (list (dictEntry K V))) : list (list (K * Z)) :=
  (fun c : list (dictEntry K V) => ident <$> c) <$> t.
Record same_layout d d' : Prop := {
  sl_rehash : dictIsRehashing d = true -> dictIsRehashing d' = true;
  sl_tabs : forall j, idents (tabs d' j) = idents (tabs d j) \/ (tabs d j = [] /\ mjoin (tabs d' j) = []);
}.
Lemma chain_from_ident a c c' : ident <$> c' = ident <$> c -> ident <$> chain_from a c' = ident <$> chain_from a c.
Proof.
  revert c'. induction c as [|e c IH]; intros [|e' c'] Heq; try done. cbn in Heq. injection Heq as Hk Ha Heq. cbn.
  rewrite Ha. destruct (_ =? _); [|by apply IH]. rewrite !fmap_cons, Heq.
  unfold ident. by rewrite Ha, Hk.
Qed.
Lemma idents_join t t' : idents t = idents t' -> ident <$> mjoin t = ident <$> mjoin t'.
Proof.
  revert t'. induction t as [|c t IH]; intros [|c' t'] Ht; try done. unfold idents in Ht. cbn in Ht. injection Ht as Hc Ht.
  change (ident <$> (c ++ mjoin t) = ident <$> (c' ++ mjoin t')). by rewrite !fmap_app, Hc, (IH t' Ht).
Qed.
Lemma idents_drop t t' n : idents t = idents t' -> idents (drop n t) = idents (drop n t').
Proof. unfold idents. intros Ht. by rewrite !fmap_drop, Ht. Qed.
Lemma same_join d d' j : same_layout d d' -> ident <$> mjoin (tabs d' j) = ident <$> mjoin (tabs d j).
Proof. intros [_ Hs]. destruct (Hs j) as [Ht|[-> ->]]; [by apply idents_join|done]. Qed.
Lemma same_entries d d' : same_layout d d' -> ident <$> entries d' = ident <$> entries d.
Proof. intros Hs. rewrite !entries_tabs, !join_app, !fmap_app. by rewrite !(same_join d d'). Qed.
Lemma same_remaining d d' it : same_layout d d' -> pos_ok d it ->
  pos_ok d' it /\ ident <$> remaining d' it = ident <$> remaining d it.
Proof.
  intros Hs [Ht Hi He (c&Hc&Hn)]. pose proof (sl_tabs _ _ Hs (itable it)) as [Htab|[Htab _]]; [|by rewrite Htab in Hc].
  assert (exists c', tabs d' (itable it) !! Z.to_nat (index it) = Some c' /\ ident <$> c' = ident <$> c) as (c'&Hc'&Hid).
  { apply (f_equal (fun l => l !! Z.to_nat (index it))) in Htab. unfold idents in Htab. rewrite !list_lookup_fmap, Hc in Htab.
    destruct (tabs d' (itable it) !! _) as [c'|]; [|done]. cbn in Htab. exists c'. split; congruence. }
  split.
  - split; [destruct Ht as [|[? Hr]]; [by left|right; split; [done|by apply Hs]]|done|done|].
    exists c'. split; [done|]. intros a Ha. specialize (Hn a Ha).
    assert (Haddr : e_addr <$> c' = e_addr <$> c).
    { apply (f_equal (fmap snd)) in Hid. by rewrite <-!list_fmap_compose in Hid. }
    by rewrite Haddr.
  - unfold remaining, later. rewrite Hc, Hc'. cbn [default from_option id]. rewrite !fmap_app. f_equal.
    + destruct (nextEntry it); [by apply chain_from_ident|done].
    + f_equal; [by apply idents_join, idents_drop|]. destruct (_ =? _); [by apply same_join|done].
Qed.
Lemma keys_ident (l l' : list (dictEntry K V)) : ident <$> l = ident <$> l' -> keys l = keys l'.
Proof. intros Hid. apply (f_equal (fmap fst)) in Hid. by rewrite <-!list_fmap_compose in Hid. Qed.
Lemma follows_same d d' it del add : same_layout d d' -> pos_ok d it -> follows d d' it del add.
Proof.
  intros Hs Hp. destruct (same_remaining d d' it Hs Hp) as [Hp' Hr]. apply keys_ident in Hr.
  pose proof (keys_ident _ _ (same_entries d d' Hs)) as Hk. split; [done| |]; rewrite ?Hr, ?Hk; intros k; [done|by left].
Qed.

(** *** What each call does to the buckets *)
Lemma step_paused d : iterators d <> 0 -> step_if_rehashing ty d = Ok d.
Proof.
  intros Hi. unfold step_if_rehashing, _dictRehashStep. destruct (dictIsRehashing d); [|done].
  destruct (Z.eqb_spec (iterators d) 0); [done|done].
Qed.
Lemma same_set_val d a v : same_layout d (dictSetVal ty d a v).
Proof.
  split; [done|]. intros j. left. unfold DictIter.tabs, tab, ht_at, dictSetVal. cbn [ht0 ht1].
  assert (Hh : forall h : dictht K V, idents (default [] (table (ht_set_val a (dup_val ty v) h))) = idents (default [] (table h))).
  { intros h. unfold ht_set_val. cbn [table]. destruct (table h) as [t|]; [|done]. cbn. unfold idents.
    rewrite <-list_fmap_compose. apply list_fmap_ext. intros _ c _. cbn. rewrite <-list_fmap_compose. apply list_fmap_ext.
    intros _ e _. cbn. unfold ident. by rewrite entry_set_val_key, entry_set_val_addr. }
  destruct (j =? 0); apply Hh.
Qed.
Lemma same_refl d : same_layout d d.
Proof. split; [done|]. by left. Qed.
Lemma same_expand d n : dict_wf d -> same_layout d (fst (dictExpand d n)) /\ iterators (fst (dictExpand d n)) = iterators d.
Proof.
  intros Hd. unfold dictExpand. destruct (dictIsRehashing d) eqn:Hr; cbn [orb]; [by split; [apply same_refl|]|].
  destruct (_ <? _); [by split; [apply same_refl|]|]. destruct (_ =? _); [by split; [apply same_refl|]|].
  pose proof (wf_rehash _ _ _ Hd) as Ht1. rewrite Hr in Ht1.
  assert (Hj : forall n, mjoin (replicate n ([] : list (dictEntry K V))) = []).
  { intros m. apply join_nil. by intros i c [-> _]%lookup_replicate. }
  unfold calloc_table. destruct (_ <=? max_object), (table (ht0 d)) as [t0|] eqn:Ht0; cbn [fst]; (split; [|done]); (split; [by rewrite Hr|]);
    intros j; unfold DictIter.tabs, tab, ht_at; cbn [ht0 ht1 set_ht0 set_ht1 set_rehashidx]; destruct (j =? 0); cbn [table];
    rewrite ?Ht0, ?Ht1; (by left) || (right; split; [done|apply Hj]).
Qed.
Lemma same_expand_if_needed cr d d' rc : dict_wf d -> _dictExpandIfNeeded cr d = (d', rc) -> same_layout d d'.
Proof.
  intros Hd. unfold _dictExpandIfNeeded. destruct (dictIsRehashing d); [intros [= <- _]; apply same_refl|].
  destruct (_ =? _); [intros He; destruct (same_expand d DICT_HT_INITIAL_SIZE Hd) as [Hs _]; by rewrite He in Hs|].
  destruct (_ && _); [|intros [= <- _]; apply same_refl].
  intros He. destruct (same_expand d (u64 (used (ht0 d) * 2)) Hd) as [Hs _]. by rewrite He in Hs.
Qed.
Lemma same_resize cr d : dict_wf d -> same_layout d (fst (dictResize cr d)) /\ iterators (fst (dictResize cr d)) = iterators d.
Proof.
  intros Hd. unfold dictResize. destruct (_ || _); [by split; [apply same_refl|]|]. by apply same_expand.
Qed.

Definition set_at d (j : Z) (h : dictht K V) : dict K V := if j =? 0 then set_ht0 d h else set_ht1 d h.
Lemma set_bucket_chain d j i c c' u h :
  j = 0 \/ j = 1 -> bucket (ht_at d j) i = Ok c -> set_bucket (ht_at d j) i c' u = Ok h ->
  chain_at d (set_at d j h) j (Z.to_nat i) c c'.
Proof.
  intros Hj Hb Hs. unfold set_bucket in Hs. rewrite Hb in Hs. apply res_bind_ok in Hs as (t&Ht&Hs).
  apply of_option_ok in Ht. cbn [res_bind] in Hs. injection Hs as <-. unfold bucket in Hb. rewrite Ht in Hb. cbn [of_option res_bind] in Hb.
  assert (Hc : tabs d j !! Z.to_nat i = Some c).
  { unfold DictIter.tabs, tab. rewrite Ht. cbn. destruct (0 <=? i); [by apply of_option_ok in Hb|done]. }
  split; [done|done| | |].
  - unfold DictIter.tabs, tab. rewrite Ht. cbn [default from_option id]. unfold set_at, ht_at.
    destruct Hj as [->| ->]; cbn; done.
  - intros j' Hj' Hne. unfold DictIter.tabs, tab, set_at, ht_at. destruct Hj as [->| ->], Hj' as [->| ->]; done.
  - unfold dictIsRehashing, set_at. by destruct (j =? 0).
Qed.
Lemma chain_unlink_split k c x c' : chain_unlink ty k c = Some (x, c') ->
  exists pre post, c = pre ++ x :: post /\ c' = pre ++ post.
Proof.
  revert c'. induction c as [|e c IH]; intros c'; [done|]. cbn. destruct (key_matches ty k e).
  - intros [= -> ->]. by exists [], c'.
  - destruct (chain_unlink ty k c) as [[y c2]|]; [|done]. intros [= -> <-]. destruct (IH c2 eq_refl) as (pre&post&->&->).
    by exists (e :: pre), post.
Qed.
Lemma table_unlink_chain d j k hash x h : j = 0 \/ j = 1 -> table_unlink ty (ht_at d j) k hash = Ok (Some (x, h)) ->
  exists i pre post, chain_at d (set_at d j h) j i (pre ++ x :: post) (pre ++ post).
Proof.
  intros Hj. unfold table_unlink. intros Hu. inv_res. destruct (chain_unlink ty k a) as [[y c']|] eqn:Hc; [|done].
  apply chain_unlink_split in Hc as (pre&post&->&->). inv_res. eexists _, pre, post. by eapply set_bucket_chain.
Qed.
Lemma dictGenericDelete_chain d k nofree d' x freed :
  iterators d <> 0 -> dictGenericDelete ty d k nofree = Ok (d', Some x, freed) ->
  exists j i pre post, chain_at d d' j i (pre ++ x :: post) (pre ++ post).
Proof.
  intros Hi. unfold dictGenericDelete. destruct (_ && _); [done|]. rewrite step_paused by done. cbn [res_bind]. intros Hr.
  apply res_bind_ok in Hr as (r&H0&Hr). destruct r as [[e h0]|].
  { destruct (table_unlink_chain d 0 k (dictHashKey ty k) e h0) as (i&pre&post&Hca); [by left|exact H0|].
    injection Hr as <- <- _. by exists 0, i, pre, post. }
  destruct (negb _); [done|]. apply res_bind_ok in Hr as (r&H1&Hr). destruct r as [[e h1]|]; [|done].
  destruct (table_unlink_chain d 1 k (dictHashKey ty k) e h1) as (i&pre&post&Hca); [by right|exact H1|].
  injection Hr as <- <- _. by exists 1, i, pre, post.
Qed.
Lemma dictGenericDelete_none d k nofree d' freed :
  iterators d <> 0 -> dictGenericDelete ty d k nofree = Ok (d', None, freed) -> d' = d.
Proof.
  intros Hi. unfold dictGenericDelete. destruct (_ && _); [by intros [= <- _]|]. rewrite step_paused by done. cbn [res_bind]. intros Hr.
  apply res_bind_ok in Hr as (r&H0&Hr). destruct r as [[e h0]|]; [done|].
  destruct (negb _); [by injection Hr as <-|]. apply res_bind_ok in Hr as (r&H1&Hr). destruct r as [[e h1]|]; [done|].
  by injection Hr as <-.
Qed.

(** *** Every call lets the iterator go on *)
Lemma keys_spec d k : (forall e, e ∈ entries d -> ~ same_key k e) -> k_val k ∉ keys (entries d).
Proof. intros Hn (e&He&Hk)%elem_of_keys. by apply (Hn e He). Qed.
Lemma target_at d : target d = ht_at d (if dictIsRehashing d then 1 else 0) /\
  forall h, set_target d h = set_at d (if dictIsRehashing d then 1 else 0) h.
Proof. unfold target, set_target, ht_at, set_at. by destruct (dictIsRehashing d). Qed.
Lemma follows_add_raw cr d k ea ka d' r ex it (del add : K -> Prop) :
  dict_wf d -> iterators d <> 0 -> pos_ok d it -> key_pre key_ok d k -> alloc_pre d ea ->
  dictAddRaw ty cr d k ea ka = Ok (d', r, ex) -> add (k_val k) -> follows d d' it del add.
Proof.
  intros Hd Hi Hp [Hk Ha] [Hc Hea] Hrun Hadd. revert Hrun. unfold dictAddRaw. rewrite step_paused by done. cbn [res_bind].
  unfold _dictKeyIndex. destruct (_dictExpandIfNeeded_spec ty key_ok cr d Hd) as (d2&Hex&Hd2&He2&Hi2&Ht2).
  pose proof (same_expand_if_needed _ _ _ _ Hd Hex) as Hs. rewrite Hex. change (DICT_OK =? DICT_ERR) with false. cbv iota.
  pose proof (follows_same d d2 it del add Hs Hp) as Hf.
  destruct (find_both_spec ty key_ok d2 k Hd2 Ht2) as (f&->&Hfind); [by apply (alias_ok_perm d); rewrite ?He2|done|].
  cbn [res_bind]. destruct f as [e|]; [by intros [= <- _ _]|]. cbn [res_bind].
  destruct (s64 _ =? -1) eqn:Hm1; [by intros [= <- _ _]|].
  intros Hrun. apply res_bind_ok in Hrun as (c&Hb&Hrun). apply res_bind_ok in Hrun as (h&Hsb&Hrun). injection Hrun as <- _ _.
  fold (target d2) in Hb, Hsb. destruct (target_at d2) as [Et Es].
  change (if dictIsRehashing d2 then set_ht1 d2 h else set_ht0 d2 h) with (set_target d2 h). rewrite Es. rewrite Et in Hb, Hsb.
  eapply follows_trans; [exact Hf|].
  assert (Hj : (if dictIsRehashing d2 then 1 else 0) = 0 \/ (if dictIsRehashing d2 then 1 else 0) = 1) by (destruct (dictIsRehashing d2); auto).
  pose proof (set_bucket_chain _ _ _ _ _ _ _ Hj Hb Hsb) as Hca.
  eapply follows_push; [by apply Hf|exact Hca|..].
  - unfold e_key. cbn [key]. rewrite dup_contents. by apply keys_spec.
  - cbn [e_addr]. by rewrite He2.
  - unfold e_key. cbn [key]. by rewrite dup_contents.
Qed.

(** The saved entry is not deleted, and no rehash is forced. *)
Definition allowed d it (c : cmd K V) : Prop :=
  match c with
  | CDelete k => Forall (fun e => nextEntry it = Some (e_addr e) -> e_key e <> k_val k) (entries d)
  | CRehash _ | CEmpty => False
  | _ => True
  end.
Definition deletes (c : cmd K V) (k : K) : Prop := match c with CDelete k' => k = k_val k' | _ => False end.
#[export] Instance deletes_dec (c : cmd K V) k : Decision (deletes c k).
Proof. destruct c; cbn; apply _. Defined.
Definition inserts (c : cmd K V) (k : K) : Prop :=
  match c with CAdd k' _ _ _ | CReplace k' _ _ _ | CAddOrFind k' _ _ => k = k_val k' | _ => False end.

Lemma follows_set_val d d' it a v del add : follows d d' it del add -> follows d (dictSetVal ty d' a v) it del add.
Proof. intros Hf. eapply follows_trans; [exact Hf|]. apply follows_same; [apply same_set_val|apply Hf]. Qed.
Lemma dictFind_paused d k d' r : iterators d <> 0 -> dictFind ty d k = Ok (d', r) -> d' = d.
Proof.
  intros Hi. unfold dictFind. destruct (_ =? _); [by intros [= <- _]|]. rewrite step_paused by done. cbn [res_bind].
  intros Hr. apply res_bind_ok in Hr as (x&_&Hr). by injection Hr as <- _.
Qed.
Lemma entries_nodup d : dict_wf d -> NoDup (entries d).
Proof. intros Hd. apply (NoDup_fmap_1 e_key), Hd. Qed.
Lemma follows_delete d k d' r freed it del add :
  dict_wf d -> iterators d <> 0 -> pos_ok d it -> key_pre key_ok d k -> allowed d it (CDelete k) -> del (k_val k) ->
  dictGenericDelete ty d k false = Ok (d', r, freed) -> follows d d' it del add.
Proof.
  intros Hd Hi Hp [Hk Ha] Hall Hdel Hrun. destruct (dictGenericDelete_spec ty key_ok d k false) as (d1&r1&f1&E&Hd1&_&Hr); [done..|].
  rewrite E in Hrun. injection Hrun as -> -> ->. destruct r as [x|].
  - destruct Hr as (Hs&Hperm&_). destruct (dictGenericDelete_chain _ _ _ _ _ _ Hi E) as (j&i&pre&post&Hca).
    eapply follows_unlink; [exact Hd1|exact Hperm|done|exact Hca| |by apply entries_nodup|by rewrite <-Hs].
    intros Hn. unfold allowed in Hall. rewrite Forall_forall in Hall. apply (Hall x); [rewrite Hperm; by left|done|done].
  - rewrite (dictGenericDelete_none _ _ _ _ _ Hi E). by apply follows_refl.
Qed.

Lemma exec_follows d cr (c : cmd K V) it :
  dict_wf d -> iterators d <> 0 -> pos_ok d it -> cmd_ok key_ok d c -> allowed d it c ->
  exists d' cr' o, exec ty (d, cr) c = Ok (d', cr', o) /\ dict_wf d' /\ iterators d' = iterators d /\
    follows d d' it (deletes c) (inserts c).
Proof.
  intros Hd Hi Hp Hc Hall. destruct (exec_spec ty key_ok d cr c Hd Hc) as (d'&cr'&o&E&Hd'&_). exists d', cr', o.
  split; [done|]. split; [done|]. revert E.
  destruct c as [k v ea ka|k v ea ka|k ea ka|k|k|k|n| |n| |b]; cbn [exec cmd_ok] in *; intros E; try done.
  1-3: destruct Hc as [Hk Hal]; destruct (dictAddRaw_spec ty key_ok cr d k ea ka) as (d1&r&ex&E1&_&Hi1&Hr); [done|by apply Hk|by apply Hk|by apply Hal..|];
    pose proof (follows_add_raw cr d k ea ka d1 r ex it (fun _ => False) (fun k' => k' = k_val k) Hd Hi Hp Hk Hal E1 eq_refl) as Hf.
  - unfold dictAdd in E. rewrite E1 in E. cbn [res_bind] in E. destruct r; injection E as <- _ _; [|done].
    split; [done|by apply follows_set_val].
  - unfold dictReplace in E. rewrite E1 in E. cbn [res_bind] in E. destruct r; [injection E as <- _ _; split; [done|by apply follows_set_val]|].
    destruct Hr as (_&e&->&_). cbn in E. injection E as <- _ _. split; [done|by apply follows_set_val].
  - unfold dictAddOrFind in E. rewrite E1 in E. cbn [res_bind] in E. by injection E as <- _ _.
  - apply res_bind_ok in E as ([d1 r]&E1&E). injection E as <- _ _. rewrite (dictFind_paused _ _ _ _ Hi E1). split; [done|by apply follows_refl].
  - apply res_bind_ok in E as ([d1 r]&E1&E). injection E as <- _ _. unfold dictFetchValue in E1.
    apply res_bind_ok in E1 as ([d2 r2]&E2&E1). apply dictFind_paused in E2 as ->; [|done].
    assert (d1 = d) as ->; [|split; [done|by apply follows_refl]].
    destruct r2; [apply res_bind_ok in E1 as (w&_&E1)|]; by injection E1.
  - apply res_bind_ok in E as ([[d1 rc] fr]&E1&E). injection E as <- _ _. unfold dictDelete in E1.
    apply res_bind_ok in E1 as ([[d2 r2] fr2]&E2&E1). injection E1 as <- _ _.
    split; [|by eapply follows_delete].
    destruct (dictGenericDelete_spec ty key_ok d k false) as (d3&r3&f3&E3&_&Hi3&_); [done|by apply Hc..|]. congruence.
  - destruct (same_expand d n Hd) as [Hs Hit]. destruct (dictExpand d n). injection E as <- _ _. split; [done|by apply follows_same].
  - destruct (same_resize cr d Hd) as [Hs Hit]. destruct (dictResize cr d). injection E as <- _ _. split; [done|by apply follows_same].
  - injection E as <- _ _. split; [done|by apply follows_refl].
Qed.

(** *** The whole iteration *)
Definition occ (k : K) (l : list K) : nat := length (filter (eq k) l).
Lemma occ_cons k k' l : occ k (k' :: l) = ((if decide (k = k') then 1 else 0) + occ k l)%nat.
Proof. unfold occ. rewrite filter_cons. by destruct (decide (k = k')). Qed.

Lemma occ_eq k l : occ k (k :: l) = S (occ k l).
Proof. by rewrite occ_cons, decide_True. Qed.
Lemma occ_ne k k' l : k <> k' -> occ k (k' :: l) = occ k l.
Proof. intros. by rewrite occ_cons, decide_False. Qed.

(** What the client owes at each of its calls. *)
Fixpoint client_ok (s : dict K V * bool) it (cs : list (icmd K V)) : Prop :=
  match cs with
  | [] => True
  | INext tp :: cs =>
      small (fst s) /\ forall d it' e, dictNext tp (fst s) it = Ok (d, it', Some e) -> client_ok (d, snd s) it' cs
  | ICmd c :: cs =>
      cmd_ok key_ok (fst s) c /\ allowed (fst s) it c /\ forall s' o, exec ty s c = Ok (s', o) -> client_ok s' it cs
  end.

(** From keys [E] of which [R] are still to come: what is returned. *)
Record claims (E R : list K) (cs : list (icmd K V)) (es : list (dictEntry K V)) (fin : bool) : Prop := {
  cl_at_most : forall k, (occ k (keys es) <= (if decide (k ∈ E /\ k ∉ R) then 0 else 1) + occ k (deleted cs))%nat;
  cl_exactly : fin = true -> forall k, k ∈ E -> k ∉ deleted cs -> occ k (keys es) = (if decide (k ∈ R) then 1 else 0)%nat;
  cl_ends : fin = false -> (calls_of_next cs <= length R + length (inserted cs))%nat;
}.
Lemma claims_nil E R : claims E R [] [] false.
Proof. split; [intros k; cbn; lia|done|cbn; lia]. Qed.
Lemma claims_end E tp cs : claims E [] (INext tp :: cs) [] true.
Proof. split; [intros k; cbn; lia|intros _ k _ _; by rewrite decide_False by apply not_elem_of_nil|done]. Qed.
Lemma claims_next E e R tp cs es fin :
  NoDup (e_key e :: R) -> e_key e ∈ E -> claims E R cs es fin -> claims E (e_key e :: R) (INext tp :: cs) (e :: es) fin.
Proof.
  intros Hnd Hin [C1 C2 C3]. apply NoDup_cons in Hnd as [Hn Hnd]. split.
  - intros k. change (keys (e :: es)) with (e_key e :: keys es). rewrite occ_cons. specialize (C1 k).
    change (deleted (INext tp :: cs)) with (deleted cs). destruct (decide (k = e_key e)) as [->|Hne].
    + rewrite decide_True in C1 by done. rewrite decide_False by (intros [_ Hx]; apply Hx; by left). lia.
    + destruct (decide (k ∈ E /\ k ∉ e_key e :: R)) as [[? Hx]|Hx].
      * rewrite decide_True in C1; [lia|]. split; [done|]. intros ?. apply Hx. by right.
      * destruct (decide (k ∈ E /\ k ∉ R)); lia.
  - intros Hf k Hk Hd. change (keys (e :: es)) with (e_key e :: keys es). rewrite occ_cons, (C2 Hf k Hk Hd).
    destruct (decide (k = e_key e)) as [->|Hne].
    + rewrite decide_False by done. rewrite decide_True by (by left). done.
    + destruct (decide (k ∈ R)) as [Hr|Hr]; [rewrite decide_True by (by right)|rewrite decide_False by set_solver]; done.
  - intros Hf. specialize (C3 Hf). change (calls_of_next (INext tp :: cs)) with (S (calls_of_next cs)).
    change (inserted (INext tp :: cs)) with (inserted cs). cbn [length]. lia.
Qed.
Lemma claims_cmd d d' it (c : cmd K V) cs es fin :
  follows d d' it (deletes c) (inserts c) -> NoDup (keys (remaining d' it)) ->
  claims (keys (entries d')) (keys (remaining d' it)) cs es fin ->
  claims (keys (entries d)) (keys (remaining d it)) (ICmd c :: cs) es fin.
Proof.
  intros [_ Hkeep Hnew] Hnd [C1 C2 C3].
  assert (Hdel : deleted (ICmd c :: cs) = match c with CDelete k => [k_val k] | _ => [] end ++ deleted cs) by (by destruct c).
  assert (Hins : length (inserted (ICmd c :: cs)) =
    (match c with CAdd _ _ _ _ | CReplace _ _ _ _ | CAddOrFind _ _ _ => 1 | _ => 0 end + length (inserted cs))%nat) by (by destruct c).
  split.
  - intros k. specialize (C1 k). destruct (decide (deletes c k)) as [Hd|Hd].
    + destruct c as [| | | | |k'| | | | |]; try done. cbn in Hd. subst k. rewrite Hdel. cbn [app]. rewrite occ_eq.
      destruct (decide (_ /\ _)); destruct (decide (_ /\ _)); lia.
    + assert (occ k (deleted (ICmd c :: cs)) = occ k (deleted cs)) as ->.
      { rewrite Hdel. destruct c; try done. cbn [app]. by apply occ_ne. }
      destruct (decide (k ∈ keys (entries d) /\ k ∉ keys (remaining d it))) as [[Hx1 Hx2]|_]; [|destruct (decide (_ /\ _)); lia].
      destruct (Hkeep k Hd Hx1) as [Hy1 Hy2]. rewrite decide_True in C1; [lia|]. split; [done|by rewrite <-Hy2].
  - intros Hf k Hk Hx. rewrite Hdel in Hx. apply not_elem_of_app in Hx as [Hx0 Hx].
    assert (Hd : ~ deletes c k) by (destruct c; cbn; try tauto; intros ->; apply Hx0; by left).
    destruct (Hkeep k Hd Hk) as [Hy1 Hy2]. rewrite (C2 Hf k Hy1 Hx). destruct (decide (k ∈ keys (remaining d' it))), (decide (k ∈ keys (remaining d it))); tauto.
  - intros Hf. specialize (C3 Hf). rewrite Hins. change (calls_of_next (ICmd c :: cs)) with (calls_of_next cs).
    assert (Hl : (length (keys (remaining d' it)) <= match c with CAdd _ _ _ _ | CReplace _ _ _ _ | CAddOrFind _ _ _ => 1 | _ => 0 end + length (keys (remaining d it)))%nat); [|lia].
    set (new := match c with CAdd k _ _ _ | CReplace k _ _ _ | CAddOrFind k _ _ => [k_val k] | _ => [] end).
    replace (match c with CAdd _ _ _ _ | CReplace _ _ _ _ | CAddOrFind _ _ _ => 1 | _ => 0 end)%nat with (length new) by (by destruct c).
    rewrite <-length_app. apply submseteq_length, NoDup_submseteq; [done|]. intros k Hk. apply elem_of_app.
    destruct (Hnew k Hk) as [|Hi]; [by right|left]. unfold new. destruct c; try done; cbn in Hi; subst k; by left.
Qed.

Lemma keys_remaining d it : dict_wf d -> pos_ok d it -> NoDup (keys (remaining d it)) /\
  forall k, k ∈ keys (remaining d it) -> k ∈ keys (entries d).
Proof.
  intros Hd [Ht Hi _ (c&Hc&Hn)]. split.
  - eapply sublist_NoDup; [apply (wf_nodup _ _ _ Hd)|]. apply fmap_sublist.
    unfold remaining, later. rewrite entries_tabs, join_app, Hc. cbn [default from_option id].
    assert (Hs : sublist (match nextEntry it with Some a => chain_from a c | None => [] end ++ mjoin (drop (Z.to_nat (index it + 1)) (tabs d (itable it))))
      (mjoin (tabs d (itable it)))).
    { replace (Z.to_nat (index it + 1)) with (S (Z.to_nat (index it))) by lia. rewrite <-(take_drop_middle _ _ _ Hc) at 2.
      rewrite join_app. apply sublist_inserts_l. cbn [mjoin list_join]. apply sublist_app; [|done].
      destruct (nextEntry it) as [a|]; [|apply sublist_nil_l]. clear. induction c as [|e c IH]; [done|]. cbn.
      destruct (_ =? _); [done|by apply sublist_cons]. }
    rewrite app_assoc. destruct Ht as [Ht|[Ht _]]; rewrite Ht in *; cbn [Z.eqb].
    + by apply sublist_app.
    + rewrite app_nil_r. by apply sublist_inserts_l.
  - intros k (x&Hx&<-)%elem_of_keys. apply elem_of_keys. exists x. split; [|done]. by eapply remaining_entries.
Qed.

Lemma iterate_spec d cr it cs :
  dict_wf d -> iterators d <> 0 -> pos_ok d it -> client_ok (d, cr) it cs ->
  exists d' cr' it' es fin, iterate ty (d, cr) it cs = Ok (d', cr', it', es, fin) /\ dict_wf d' /\
    iterators d' = iterators d /\ safe it' = safe it /\ 0 <= index it' /\
    claims (keys (entries d)) (keys (remaining d it)) cs es fin.
Proof.
  revert d cr it. induction cs as [|c cs IH]; intros d cr it Hd Hi Hp Hok.
  { exists d, cr, it, [], false. split_and!; try done; [apply Hp|apply claims_nil]. }
  destruct c as [tp|c].
  - destruct Hok as [Hs Hok]. cbn [fst snd] in *. rewrite iterate_next.
    destruct (dictNext_running ty key_ok tp d it Hd Hs Hp) as (it1&Hn&O1&_&O3&O4). rewrite Hn in *. cbn [res_bind].
    destruct (keys_remaining d it Hd Hp) as [Hnd Hin].
    destruct (remaining d it) as [|e l]; cbn [head].
    + exists d, cr, it1, [], true. split_and!; try done. apply claims_end.
    + destruct O4 as [Hp1 Hr1]. destruct (IH d cr it1 Hd Hi Hp1 (Hok _ _ _ eq_refl)) as (d'&cr'&it'&es&fin&->&Hd'&Hi'&Hsf&Hx&Hcl).
      cbn [res_bind]. exists d', cr', it', (e :: es), fin. split_and!; try done; [congruence|]. rewrite Hr1 in Hcl.
      apply claims_next; [exact Hnd|apply Hin; by left|done].
  - destruct Hok as (Hc&Hall&Hok). cbn [fst snd iterate] in *.
    destruct (exec_follows d cr c it Hd Hi Hp Hc Hall) as (d1&cr1&o&E&Hd1&Hi1&Hf). rewrite E. cbn [res_bind].
    pose proof (fo_pos _ _ _ _ _ Hf) as Hp1.
    destruct (IH d1 cr1 it Hd1) as (d'&cr'&it'&es&fin&->&Hd'&Hi'&Hsf&Hx&Hcl); [by rewrite Hi1|done|by eapply Hok|].
    exists d', cr', it', es, fin. split_and!; try done; [congruence|].
    eapply claims_cmd; [exact Hf|by apply keys_remaining|done].
Qed.

(** The client's duties can be checked along an execution. *)
Context `{Hdec : forall kk, Decision (key_ok kk)} `{!EqDecision V}.
#[export] Instance small_dec d : Decision (small d).
Proof. unfold small. apply _. Defined.
#[export] Instance allowed_dec d it (c : cmd K V) : Decision (allowed d it c).
Proof. destruct c; cbn; apply _. Defined.
Fixpoint client_check (s : dict K V * bool) it (cs : list (icmd K V)) : bool :=
  match cs with
  | [] => true
  | INext tp :: cs =>
      bool_decide (small (fst s)) &&
      match dictNext tp (fst s) it with Ok (d, it', Some _) => client_check (d, snd s) it' cs | _ => true end
  | ICmd c :: cs =>
      bool_decide (cmd_ok key_ok (fst s) c) && bool_decide (allowed (fst s) it c) &&
      match exec ty s c with Ok (s', _) => client_check s' it cs | _ => true end
  end.
Lemma client_check_ok s it cs : client_check s it cs = true -> client_ok s it cs.
Proof.
  revert s it. induction cs as [|[tp|c] cs IH]; intros s it; [done|..]; cbn [client_check client_ok].
  - intros [?%bool_decide_eq_true Hrest]%andb_true_iff. split; [done|]. intros d it' e Hn. rewrite Hn in Hrest. auto.
  - intros [[?%bool_decide_eq_true ?%bool_decide_eq_true]%andb_true_iff Hrest]%andb_true_iff. split; [done|]. split; [done|].
    intros s' o He. rewrite He in Hrest. auto.
Qed.
End Layout.

(** C24. A client iterates with a safe iterator and between the calls of
    [dictNext] inserts, replaces, looks up, deletes and resizes as it likes,
    except that it does not delete the entry that the iterator has saved as the
    next one, force a rehash or empty the table.  Then no entry is missed and
    none is returned twice: a key that was there at the start and is not
    deleted is returned exactly once, any key at most once and once more for
    each time it was deleted, although an insertion may have started a rehash
    meanwhile.  The iteration ends once there have been more calls than
    entries at the start and insertions, and releasing the iterator restores
    the count of running iterators. *)
Theorem safe_iteration {K V} `{Countable K} (ty : dictType K V) (key_ok : K -> Prop) `{Hty : !DictTypeOk ty key_ok}
    (d : dict K V) (cr : bool) (tp : Z * Z) (cs : list (icmd K V)) :
  dict_wf ty key_ok d -> iterators d + 1 < 2 ^ 64 -> client_ok ty key_ok (d, cr) dictGetSafeIterator (INext tp :: cs) ->
  exists d' cr' it' es fin,
    iterate ty (d, cr) dictGetSafeIterator (INext tp :: cs) = Ok (d', cr', it', es, fin) /\ dict_wf ty key_ok d' /\
    (forall k, (occ k (keys es) <= 1 + occ k (deleted cs))%nat) /\
    (fin = true -> forall k, k ∈ keys (entries d) -> k ∉ deleted cs -> occ k (keys es) = 1%nat) /\
    (fin = false -> (calls_of_next cs < length (entries d) + length (inserted cs))%nat) /\
    forall tp', exists d'', dictReleaseIterator tp' d' it' = Ok d'' /\ iterators d'' = iterators d.
Proof.
  intros Hd Hi Hok. pose proof (wf_iterators _ _ _ Hd) as Hi0. destruct Hok as [Hs Hok]. cbn [fst snd] in *.
  set (d1 := set_iterators d (u64 (iterators d + 1))).
  assert (Hit1 : iterators d1 = iterators d + 1) by (cbn; apply u64_small; lia).
  destruct (dictNext_first ty key_ok tp d dictGetSafeIterator d1 dictGetSafeIterator Hd Hs) as (it1&Hn&O1&_&O3&O4); [done|done|].
  assert (Hrel : forall (d' : dict K V) it', iterators d' = iterators d1 -> safe it' = true -> 0 <= index it' ->
    forall tp', exists d'', dictReleaseIterator tp' d' it' = Ok d'' /\ iterators d'' = iterators d).
  { intros d' it' E S I tp'. unfold dictReleaseIterator. destruct (Z.eqb_spec (index it') (-1)); [lia|]. rewrite andb_false_l. cbn [negb].
    rewrite S. eexists. split; [done|]. cbn. rewrite E, Hit1, u64_small; lia. }
  rewrite iterate_next, Hn in *. cbn [res_bind]. pose proof (wf_nodup _ _ _ Hd) as Hnd. destruct (entries d) as [|e l] eqn:He; cbn [head].
  - exists d1, cr, it1, [], true. split_and!; [done|apply dict_wf_iterators; [done|apply u64_range]|intros k; cbn; lia| |done|by apply Hrel].
    intros _ k Hk. by apply elem_of_nil in Hk.
  - destruct O4 as [Hp Hr]. assert (Hd1 : dict_wf ty key_ok d1) by (apply dict_wf_iterators; [done|apply u64_range]).
    destruct (iterate_spec ty key_ok d1 cr it1 cs Hd1) as (d'&cr'&it'&es&fin&->&Hd'&Hi'&Hsf&Hx&Hcl); [lia|done|by eapply Hok|].
    cbn [res_bind]. exists d', cr', it', (e :: es), fin. change (entries d1) with (entries d) in Hcl. rewrite Hr, He in Hcl.
    destruct (claims_next ty key_ok (keys (e :: l)) e (keys l) tp cs es fin) as [C1 C2 C3]; [exact Hnd|by left|exact Hcl|]. change (deleted (INext tp :: cs)) with (deleted cs) in *.
    split_and!; [done|done| | | |apply Hrel; [done|by rewrite Hsf, O1|done]].
    + intros k. specialize (C1 k). destruct (decide (_ /\ _)); lia.
    + intros Hf k Hk Hdel. rewrite (C2 Hf k Hk Hdel). by rewrite decide_True.
    + intros Hf. specialize (C3 Hf). change (calls_of_next (INext tp :: cs)) with (S (calls_of_next cs)) in C3.
      change (inserted (INext tp :: cs)) with (inserted cs) in C3. unfold keys in C3. cbn [length fmap list_fmap] in *. rewrite length_fmap in C3. lia.
Qed.

(** ** A dictionary with a rehash under way *)
Definition demo_calls : list (icmd Z Z) :=
  [ICmd (CDelete (mk_dkey 1009 1)); ICmd (CAdd (mk_dkey 1010 8) 80 80 81); INext (1, 2); INext (1, 2);
   ICmd (CReplace (mk_dkey 1011 4) 44 90 91); ICmd (CDelete (mk_dkey 1012 5))] ++ replicate 8 (INext (1, 2)).
Lemma safe_iteration_witness :
  exists d cr it es fin,
    iterate (IntIntDictType demo_seed) (demo_dict, true) dictGetSafeIterator (INext (1, 2) :: demo_calls) = Ok (d, cr, it, es, fin) /\
    dict_wf (IntIntDictType demo_seed) int_key_ok d /\
    (forall k, (occ k (keys es) <= 1 + occ k [1%Z; 5%Z])%nat) /\
    (fin = true -> forall k, k ∈ keys (entries demo_dict) -> k ∉ [1; 5] -> occ k (keys es) = 1%nat) /\
    (fin = false -> (10 < 6 + 2)%nat) /\
    forall tp', exists d'', dictReleaseIterator tp' d it = Ok d'' /\ iterators d'' = iterators demo_dict.
Proof.
  apply (safe_iteration (IntIntDictType demo_seed) int_key_ok demo_dict true (1, 2) demo_calls).
  - apply demo_dict_wf.
  - vm_compute. reflexivity.
  - apply (client_check_ok (IntIntDictType demo_seed) int_key_ok). vm_compute. reflexivity.
Defined.
Example demo_returned :
  match iterate (IntIntDictType demo_seed) (demo_dict, true) dictGetSafeIterator (INext (1, 2) :: demo_calls) with
  | Ok (_, _, _, es, fin) => (keys es, fin)
  | _ => ([], false)
  end = ([1; 4; 6; 2; 8; 3], true).
Proof. vm_compute. reflexivity. Qed.
(** The third entry returned shares its bucket with the fourth, which the
    iterator has saved: deleting that one leaves a dangling pointer. *)
Example deleting_next_dangles :
  iterate (IntIntDictType demo_seed) (demo_dict, true) dictGetSafeIterator
    (replicate 3 (INext (1, 2)) ++ [ICmd (CDelete (mk_dkey 1009 2)); INext (1, 2)]) = Ub.
Proof. vm_compute. reflexivity. Qed.
