(* ===== verification/DictSample.v ===== *)
(** * gp_dict.c: random entries

    [dictGetRandomKey], [dictGetSomeKeys] and [dictGetFairRandomKey].  What
    [random] and [rand] return is a list; a call that still draws when the
    list is used up is [Ok None]. *)

From S2P Require Import Prelude Hash Dict DictInv DictTypes DictRefine DictIter DictIterSafe.
Local Open Scope Z_scope.

(** [a % m] on unsigned operands. *)
Definition umod (a m : Z) : res Z := if m =? 0 then Ub else Ok (a mod m).
Definition int_of_len {A} (c : list A) : res Z := if zlen c <? 2147483648 then Ok (zlen c) else Ub.

Section Sample.
Context {K V : Type} (ty : dictType K V).
Implicit Types (d : dict K V) (c : list (dictEntry K V)).

(** *** dictGetRandomKey *)
(** [do ... while (he == NULL)] over both tables, without the buckets that
    have been moved. *)
Fixpoint pick_rehashing (rnd : list Z) d : res (option (list (dictEntry K V) * list Z)) :=
  match rnd with
  | [] => Ok None
  | r :: rnd =>
      let* m := umod r (u64 (size (ht0 d) + size (ht1 d) - rehashidx d)) in
      let h := u64 (rehashidx d + m) in
      let* c := if size (ht0 d) <=? h then bucket (ht1 d) (u64 (h - size (ht0 d))) else bucket (ht0 d) h in
      match c with [] => pick_rehashing rnd d | _ => Ok (Some (c, rnd)) end
  end.
Fixpoint pick_plain (rnd : list Z) d : res (option (list (dictEntry K V) * list Z)) :=
  match rnd with
  | [] => Ok None
  | r :: rnd =>
      let* c := bucket (ht0 d) (Z.land r (sizemask (ht0 d))) in
      match c with [] => pick_plain rnd d | _ => Ok (Some (c, rnd)) end
  end.
Definition dictGetRandomKey (rnd : list Z) d : res (option (dict K V * option (dictEntry K V) * list Z)) :=
  if dictSize d =? 0 then Ok (Some (d, None, rnd))
  else
    let* d := step_if_rehashing ty d in
    let* p := if dictIsRehashing d then pick_rehashing rnd d else pick_plain rnd d in
    match p with
    | None | Some (_, []) => Ok None
    | Some (c, r :: rnd) =>
        let* listlen := int_of_len c in
        let* listele := umod r listlen in
        let* he := of_option (c !! Z.to_nat listele) in
        Ok (Some (d, Some he, rnd))
    end.

(** *** dictGetSomeKeys *)
Fixpoint rehash_steps (n : nat) d : res (dict K V) :=
  match n with
  | O => Ok d
  | S n => if dictIsRehashing d then let* d := _dictRehashStep ty d in rehash_steps n d else Ok d
  end.

(** [i], [emptylen], what has been stored in [des], the random numbers left. *)
Record sample := mk_sample { pos : Z; emptylen : Z; des : list (dictEntry K V); rnd_left : list Z }.
(** One round of the inner loop, [j] the table; [true]: [return stored]. *)
Definition visit d (tables count mask j : Z) (s : sample) : res (option (sample * bool)) :=
  let skip := (tables =? 2) && (j =? 0) && (pos s <? rehashidx d) in
  if skip && (pos s <? size (ht1 d)) then Ok (Some (s, false))
  else
    let i := if skip then rehashidx d else pos s in
    if size (ht_at d j) <=? i then Ok (Some (mk_sample i (emptylen s) (des s) (rnd_left s), false))
    else
      let* he := bucket (ht_at d j) i in
      match he with
      | [] =>
          let e := emptylen s + 1 in
          if (5 <=? e) && (count <? e) then
            match rnd_left s with
            | [] => Ok None
            | r :: rnd => Ok (Some (mk_sample (Z.land r mask) 0 (des s) rnd, false))
            end
          else Ok (Some (mk_sample i e (des s) (rnd_left s), false))
      | _ =>
          let stored := des s ++ take (Z.to_nat (count - zlen (des s))) he in
          Ok (Some (mk_sample i 0 stored (rnd_left s), zlen stored =? count))
      end.
(** [for (j = 0; j < tables; j++)] *)
Definition visit_tables d (tables count mask : Z) (s : sample) : res (option (sample * bool)) :=
  let* r := visit d tables count mask 0 s in
  match r with
  | Some (s, false) => if tables =? 2 then visit d tables count mask 1 s else Ok (Some (s, false))
  | _ => Ok r
  end.
Fixpoint sample_loop (maxsteps : nat) d (tables count mask : Z) (s : sample) : res (option sample) :=
  if zlen (des s) <? count then
    match maxsteps with
    | O => Ok (Some s)
    | S n =>
        let* r := visit_tables d tables count mask s in
        match r with
        | None => Ok None
        | Some (s, true) => Ok (Some s)
        | Some (s, false) =>
            sample_loop n d tables count mask (mk_sample (Z.land (pos s + 1) mask) (emptylen s) (des s) (rnd_left s))
        end
    end
  else Ok (Some s).
Definition dictGetSomeKeys (rnd : list Z) d (count : Z) : res (option (dict K V * list (dictEntry K V) * list Z)) :=
  let count := if dictSize d <? count then u32 (dictSize d) else count in
  let maxsteps := u32 (count * 10) in
  let* d := rehash_steps (Z.to_nat count) d in
  let tables := if dictIsRehashing d then 2 else 1 in
  let mask := sizemask (ht0 d) in
  let mask := if (1 <? tables) && (mask <? sizemask (ht1 d)) then sizemask (ht1 d) else mask in
  match rnd with
  | [] => Ok None
  | r :: rnd =>
      let* s := sample_loop (Z.to_nat maxsteps) d tables count mask (mk_sample (Z.land r mask) 0 [] rnd) in
      match s with
      | None => Ok None
      | Some s => Ok (Some (d, des s, rnd_left s))
      end
  end.

Definition GETFAIR_NUM_ENTRIES : Z := 15.
Definition dictGetFairRandomKey (rnd : list Z) d : res (option (dict K V * option (dictEntry K V) * list Z)) :=
  let* r := dictGetSomeKeys rnd d GETFAIR_NUM_ENTRIES in
  match r with
  | None => Ok None
  | Some (d, entries, rnd) =>
      let count := zlen entries in
      if count =? 0 then dictGetRandomKey rnd d
      else
        match rnd with
        | [] => Ok None
        | r :: rnd =>
            let* idx := umod r count in
            let* e := of_option (entries !! Z.to_nat idx) in
            Ok (Some (d, Some e, rnd))
        end
  end.
End Sample.

Arguments mk_sample {K V}.
Arguments pos {K V}.
Arguments emptylen {K V}.
Arguments des {K V}.
Arguments rnd_left {K V}.

(** ** What is drawn *)
Section Spec.
Context {K V : Type} `{Countable K}.
Context (ty : dictType K V) (key_ok : K -> Prop) `{Hty : !DictTypeOk ty key_ok}.
Implicit Types (d : dict K V) (e : dictEntry K V) (c : list (dictEntry K V)) (s : sample (K := K) (V := V)).
Notation dict_wf := (dict_wf ty key_ok).

(** A rehashing step keeps everything that matters here. *)
Record stepped d d' : Prop := {
  sp_wf : dict_wf d';
  sp_perm : entries d' ≡ₚ entries d;
  sp_small : small d';
}.
Lemma stepped_refl d : dict_wf d -> small d -> stepped d d.
Proof. by split. Qed.
Lemma step_stepped d : dict_wf d -> small d -> exists d', _dictRehashStep ty d = Ok d' /\ stepped d d'.
Proof.
  intros Hd Hs. unfold _dictRehashStep. destruct (iterators d =? 0); [|exists d; split; [done|by apply stepped_refl]].
  destruct (dictRehash_spec ty key_ok d 1 Hd eq_refl) as (d'&r&E&Hd'&Hp&_). rewrite E. cbn [res_bind]. exists d'. split; [done|]. split; [done..|].
  revert E. unfold dictRehash. rewrite int_ok_small by lia. cbn [res_bind]. destruct (dictIsRehashing d) eqn:Hr; cbn [negb]; [|by intros [= <- _]].
  destruct (rehash_loop_spec ty key_ok 1 (Z.of_nat 1 * 10) d Hd Hr) as (d1&stop&->&_&_&_&_&S0&S1&_); [by right|]. cbn [res_bind].
  assert (Hs1 : small d1) by (unfold small; by rewrite S0, S1).
  destruct stop; [by intros [= <- _]|]. destruct (used (ht0 d1) =? 0); intros [= <- _]; [|done].
  split; cbn; [apply Hs1|lia].
Qed.
Lemma rehash_steps_stepped n d : dict_wf d -> small d -> exists d', rehash_steps ty n d = Ok d' /\ stepped d d'.
Proof.
  revert d. induction n as [|n IH]; intros d Hd Hs; cbn [rehash_steps]; [exists d; split; [done|by apply stepped_refl]|].
  destruct (dictIsRehashing d); [|exists d; split; [done|by apply stepped_refl]].
  destruct (step_stepped d Hd Hs) as (d1&->&[W P S]). cbn [res_bind]. destruct (IH d1 W S) as (d2&->&[W2 P2 S2]).
  exists d2. split; [done|]. split; [done|by rewrite P2|done].
Qed.

Definition is_chain d c : Prop := exists j n, (j = 0 \/ j = 1) /\ tabs d j !! n = Some c.
Lemma chain_entries d c e : is_chain d c -> e ∈ c -> e ∈ entries d.
Proof. intros (j&n&Hj&Hc) He. apply elem_of_entries. exists j, n. split; [done|by exists c]. Qed.
Lemma chain_len d c : is_chain d c -> zlen c <= zlen (entries d).
Proof.
  intros (j&n&Hj&Hc). rewrite entries_tabs, join_app, zlen_app.
  assert (zlen c <= zlen (mjoin (tabs d j))).
  { rewrite <-(take_drop_middle _ _ _ Hc), join_app. change (mjoin (c :: drop (S n) (tabs d j))) with (c ++ mjoin (drop (S n) (tabs d j))).
    rewrite !zlen_app.
    pose proof (zlen_nonneg (mjoin (take n (tabs d j)))). pose proof (zlen_nonneg (mjoin (drop (S n) (tabs d j)))). lia. }
  pose proof (zlen_nonneg (mjoin (tabs d 0))). pose proof (zlen_nonneg (mjoin (tabs d 1))). destruct Hj as [->| ->]; lia.
Qed.
Lemma bucket_chain d j i : dict_wf d -> j = 0 \/ j = 1 -> 0 <= i < size (ht_at d j) ->
  exists c, tabs d j !! Z.to_nat i = Some c /\ bucket (ht_at d j) i = Ok c /\ is_chain d c.
Proof.
  intros Hd Hj Hi. destruct (bucket_in ty key_ok d j i Hd Hi) as (c&Hc&Hb). exists c. split; [done|]. split; [done|]. by exists j, (Z.to_nat i).
Qed.

(** While a rehash is going on: numbers [r] stand for the buckets from
    [rehashidx] on, first of the old table, then of the new one. *)
Lemma pick_rehashing_round d r rnd :
  dict_wf d -> small d -> dictIsRehashing d = true -> 0 <= r ->
  let h := rehashidx d + r mod (size (ht0 d) + size (ht1 d) - rehashidx d) in
  exists c, pick_rehashing (r :: rnd) d = (match c with [] => pick_rehashing rnd d | _ => Ok (Some (c, rnd)) end) /\ is_chain d c /\
    tabs d (if h <? size (ht0 d) then 0 else 1) !! Z.to_nat (if h <? size (ht0 d) then h else h - size (ht0 d)) = Some c.
Proof.
  intros Hd [Hs0 Hs1] Hr Hrn. cbn zeta. destruct (rehashing_tables _ _ d Hd Hr) as (t0&t1&Ht0&Ht1&Hri&_).
  assert (Hpos : 0 < size (ht1 d)).
  { pose proof (wf_ht1 _ _ _ Hd) as Hw. unfold ht_wf in Hw. rewrite Ht1 in Hw. destruct Hw as ((n&Hn&->)&_). apply Z.pow_pos_nonneg; lia. }
  cbn [pick_rehashing]. unfold umod. rewrite (u64_small (size (ht0 d) + size (ht1 d) - rehashidx d)) by lia.
  assert (Hm : 0 < size (ht0 d) + size (ht1 d) - rehashidx d) by lia. remember (size (ht0 d) + size (ht1 d) - rehashidx d) as m eqn:Em.
  destruct (Z.eqb_spec m 0); [lia|]. cbn [res_bind]. pose proof (Z.mod_pos_bound r m Hm). set (q := r mod m) in *. rewrite u64_small by lia. cbv zeta.
  destruct (Z.leb_spec (size (ht0 d)) (rehashidx d + q)); [rewrite (proj2 (Z.ltb_ge _ _)) by lia|rewrite (proj2 (Z.ltb_lt _ _)) by lia].
  - rewrite u64_small by lia. destruct (bucket_chain d 1 (rehashidx d + q - size (ht0 d)) Hd) as (c&Hc&Hb&Hch); [by right|cbn; lia|].
    cbn in Hb. rewrite Hb. by exists c.
  - destruct (bucket_chain d 0 (rehashidx d + q) Hd) as (c&Hc&Hb&Hch); [by left|cbn; lia|]. cbn in Hb. rewrite Hb. by exists c.
Qed.
Lemma pick_plain_round d r rnd :
  dict_wf d -> entries d <> [] -> dictIsRehashing d = false -> 0 <= r ->
  exists c, pick_plain (r :: rnd) d = (match c with [] => pick_plain rnd d | _ => Ok (Some (c, rnd)) end) /\ is_chain d c /\
    tabs d 0 !! Z.to_nat (r mod size (ht0 d)) = Some c.
Proof.
  intros Hd Hne Hr Hrn. destruct (nonempty_table ty key_ok d Hd Hne) as [t Ht].
  pose proof (wf_ht0 _ _ _ Hd) as Hw. unfold ht_wf in Hw. rewrite Ht in Hw. destruct Hw as ((n&Hn&Hsz)&Hm&_).
  cbn [pick_plain]. rewrite Hm, Hsz, land_mask by lia. assert (0 < 2 ^ n) by (apply Z.pow_pos_nonneg; lia).
  pose proof (Z.mod_pos_bound r (2 ^ n)). rewrite <-Hsz in *.
  destruct (bucket_chain d 0 (r mod size (ht0 d)) Hd) as (c&Hc&Hb&Hch); [by left|cbn; lia|]. cbn in Hb. rewrite Hb. by exists c.
Qed.

Definition pick (rnd : list Z) d := if dictIsRehashing d then pick_rehashing rnd d else pick_plain rnd d.
Lemma pick_sound rnd d :
  dict_wf d -> small d -> entries d <> [] -> Forall (fun r => 0 <= r) rnd ->
  exists o, pick rnd d = Ok o /\ forall c rest, o = Some (c, rest) -> is_chain d c /\ c <> [] /\ Forall (fun r => 0 <= r) rest.
Proof.
  intros Hd Hs Hne Hr. unfold pick. induction Hr as [|r rnd Hr Hrs IH]; [destruct (dictIsRehashing d); by exists None|].
  destruct (dictIsRehashing d) eqn:Hre.
  - destruct (pick_rehashing_round d r rnd Hd Hs Hre Hr) as (c&->&Hc&_). destruct c; [exact IH|]. eexists. split; [done|]. by intros c' rest [= <- <-].
  - destruct (pick_plain_round d r rnd Hd Hne Hre Hr) as (c&->&Hc&_). destruct c; [exact IH|]. eexists. split; [done|]. by intros c' rest [= <- <-].
Qed.

Lemma random_empty d : dict_wf d -> (dictSize d =? 0) = true <-> entries d = [].
Proof.
  intros Hd. rewrite (dictSize_spec ty key_ok d Hd), Z.eqb_eq. unfold zlen. destruct (entries d); [done|]. cbn. split; [lia|done].
Qed.
Lemma step_rehashing d : dict_wf d -> small d -> exists d', step_if_rehashing ty d = Ok d' /\ stepped d d'.
Proof.
  intros Hd Hs. unfold step_if_rehashing. destruct (dictIsRehashing d); [by apply step_stepped|]. exists d. split; [done|by apply stepped_refl].
Qed.
Lemma stepped_nonempty d d' : stepped d d' -> entries d <> [] -> entries d' <> [].
Proof. intros [_ Hp _] Hne He. rewrite He in Hp. by apply Permutation_nil in Hp. Qed.
Lemma int_of_len_ok d c : is_chain d c -> zlen (entries d) < 2147483648 -> int_of_len c = Ok (zlen c).
Proof. intros Hc Hl. pose proof (chain_len d c Hc). unfold int_of_len. by rewrite (proj2 (Z.ltb_lt _ _)) by lia. Qed.

Lemma dictGetRandomKey_sound rnd d :
  dict_wf d -> small d -> zlen (entries d) < 2147483648 -> Forall (fun r => 0 <= r) rnd ->
  exists o, dictGetRandomKey ty rnd d = Ok o /\ forall d' r rest, o = Some (d', r, rest) ->
    stepped d d' /\ (r = None <-> entries d = []) /\ forall e, r = Some e -> e ∈ entries d.
Proof.
  intros Hd Hs Hl Hr. unfold dictGetRandomKey. pose proof (random_empty d Hd) as Hem. destruct (dictSize d =? 0).
  { eexists. split; [done|]. intros d' r rest [= <- <- _]. split; [by apply stepped_refl|]. split; [split; [intros _; by apply Hem|done]|done]. }
  assert (Hne : entries d <> []) by (intros He; by apply Hem in He).
  destruct (step_rehashing d Hd Hs) as (d1&->&St). cbn [res_bind]. fold (pick rnd d1). pose proof St as [Hd1 Hp1 Hs1].
  destruct (pick_sound rnd d1 Hd1 Hs1 (stepped_nonempty _ _ St Hne) Hr) as (o&->&Ho). cbn [res_bind].
  destruct o as [[c [|r rest]]|]; [by exists None| |by exists None].
  destruct (Ho c (r :: rest) eq_refl) as (Hc&Hcn&Hrs). apply Forall_cons in Hrs as [Hr0 _].
  rewrite (int_of_len_ok d1) by (rewrite ?(Permutation_length_zlen _ _ Hp1); done). cbn [res_bind].
  assert (Hpos : 0 < zlen c) by (destruct c; [done|rewrite zlen_cons; pose proof (zlen_nonneg c); lia]).
  unfold umod. destruct (Z.eqb_spec (zlen c) 0); [lia|]. cbn [res_bind]. pose proof (Z.mod_pos_bound r (zlen c) Hpos).
  destruct (lookup_lt_is_Some_2 c (Z.to_nat (r mod zlen c))) as [e He]; [unfold zlen in *; lia|]. rewrite He. cbn [of_option res_bind].
  eexists. split; [done|]. intros d' r' rest' [= <- <- _]. split; [done|]. split; [by split|]. intros e' [= <-].
  rewrite <-Hp1. eapply chain_entries; [exact Hc|]. by eapply list_elem_of_lookup_2.
Qed.

(** The number that stands for a bucket. *)
Lemma pick_reaches d e : dict_wf d -> small d -> e ∈ entries d -> exists r c,
  0 <= r < size (ht0 d) + size (ht1 d) /\ e ∈ c /\ is_chain d c /\ forall rest, pick (r :: rest) d = Ok (Some (c, rest)).
Proof.
  intros Hd Hs He. assert (Hne : entries d <> []) by (intros Hn; rewrite Hn in He; by apply elem_of_nil in He).
  pose proof He as (j&n&Hj&c'&Hc&Hec)%elem_of_entries. pose proof (lookup_lt_Some _ _ _ Hc) as Hn.
  pose proof (zlen_tabs ty key_ok d j Hd) as Hz. unfold zlen in Hz. pose proof (ht_wf_size _ _ (wf_ht0 _ _ _ Hd)). pose proof (ht_wf_size _ _ (wf_ht1 _ _ _ Hd)).
  unfold pick. destruct (dictIsRehashing d) eqn:Hr.
  - destruct (rehashing_tables _ _ d Hd Hr) as (t0&t1&Ht0&_&Hri&Hemp).
    assert (Hlow : j = 0 -> rehashidx d <= Z.of_nat n).
    { intros ->. apply Z.nlt_ge. intros Hlt. unfold DictIter.tabs, tab in Hc. cbn in Hc. rewrite Ht0 in Hc. cbn in Hc.
      rewrite (Hemp n c' Hlt Hc) in Hec. by apply elem_of_nil in Hec. }
    set (r := if j =? 0 then Z.of_nat n - rehashidx d else size (ht0 d) + Z.of_nat n - rehashidx d).
    assert (Hrr : 0 <= r < size (ht0 d) + size (ht1 d) - rehashidx d) by (unfold r; destruct Hj as [->| ->]; cbn in *; [specialize (Hlow eq_refl)|]; lia).
    exists r, c'. split; [lia|]. split; [done|]. split; [by exists j, n|]. intros rest.
    destruct (pick_rehashing_round d r rest Hd Hs Hr) as (c2&->&_&Hc2); [lia|]. rewrite Z.mod_small in Hc2 by lia.
    assert (c2 = c') as ->; [|by destruct c'; [apply elem_of_nil in Hec|]].
    revert Hc2. unfold r. destruct Hj as [->| ->]; cbn [Z.eqb].
    + replace (rehashidx d + (Z.of_nat n - rehashidx d)) with (Z.of_nat n) by lia. rewrite (proj2 (Z.ltb_lt _ _)) by (cbn in Hz; lia).
      rewrite Nat2Z.id. congruence.
    + replace (rehashidx d + (size (ht0 d) + Z.of_nat n - rehashidx d)) with (size (ht0 d) + Z.of_nat n) by lia.
      rewrite (proj2 (Z.ltb_ge _ _)) by lia. replace (Z.to_nat _) with n by lia. congruence.
  - assert (j = 0) as ->.
    { destruct Hj as [->| ->]; [done|]. pose proof (tabs_one ty key_ok d Hd Hr) as Ho. rewrite join_nil in Ho. rewrite (Ho _ _ Hc) in Hec. by apply elem_of_nil in Hec. }
    exists (Z.of_nat n), c'. cbn in Hz. split; [lia|]. split; [done|]. split; [by exists 0, n|]. intros rest.
    destruct (pick_plain_round d (Z.of_nat n) rest Hd Hne Hr) as (c2&->&_&Hc2); [lia|]. rewrite Z.mod_small, Nat2Z.id in Hc2 by lia.
    assert (c2 = c') as -> by congruence. by destruct c'; [apply elem_of_nil in Hec|].
Qed.
Lemma dictGetRandomKey_reaches d e :
  dict_wf d -> small d -> zlen (entries d) < 2147483648 -> e ∈ entries d ->
  exists d' r1 r2, 0 <= r1 < 2 ^ 62 /\ 0 <= r2 < zlen (entries d) /\ stepped d d' /\
    forall rest, dictGetRandomKey ty (r1 :: r2 :: rest) d = Ok (Some (d', Some e, rest)).
Proof.
  intros Hd Hs Hl He. destruct (step_rehashing d Hd Hs) as (d1&Hst&St). pose proof St as [Hd1 Hp1 [Hs0 Hs1]].
  assert (He1 : e ∈ entries d1) by (by rewrite Hp1).
  destruct (pick_reaches d1 e Hd1 (conj Hs0 Hs1) He1) as (r1&c&Hr1&Hec&Hch&Hpick).
  apply list_elem_of_lookup in Hec as [i Hi]. pose proof (lookup_lt_Some _ _ _ Hi) as Hlt. pose proof (chain_len d1 c Hch) as Hcl.
  rewrite (Permutation_length_zlen _ _ Hp1) in Hcl. assert (Hzc : Z.of_nat i < zlen c) by (unfold zlen; lia).
  exists d1, r1, (Z.of_nat i). split; [lia|]. split; [lia|]. split; [done|]. intros rest. unfold dictGetRandomKey.
  pose proof (random_empty d Hd) as Hem. destruct (dictSize d =? 0); [rewrite (proj1 Hem eq_refl) in He; by apply elem_of_nil in He|].
  rewrite Hst. cbn [res_bind]. fold (pick (r1 :: Z.of_nat i :: rest) d1). rewrite Hpick. cbn [res_bind].
  rewrite (int_of_len_ok d1) by (rewrite ?(Permutation_length_zlen _ _ Hp1); done). cbn [res_bind].
  unfold umod. destruct (Z.eqb_spec (zlen c) 0); [lia|]. cbn [res_bind]. rewrite Z.mod_small, Nat2Z.id, Hi by lia. done.
Qed.

(** *** Sampling *)
Record sample_ok d (count : Z) s : Prop := {
  so_pos : 0 <= pos s;
  so_des : Forall (fun e => e ∈ entries d) (des s);
  so_count : zlen (des s) <= count;
  so_rnd : Forall (fun r => 0 <= r) (rnd_left s);
}.
(** At most [k] numbers are drawn; [None]: there were fewer. *)
Definition visit_post d (count : Z) s (k : nat) (o : option (sample (K := K) (V := V) * bool)) : Prop :=
  match o with
  | Some (s', b) => sample_ok d count s' /\ (length (rnd_left s) <= length (rnd_left s') + k)%nat /\ (b = false -> zlen (des s') < count)
  | None => (length (rnd_left s) < k)%nat
  end.
Lemma visit_spec d tables count mask j s :
  dict_wf d -> j = 0 \/ j = 1 -> 0 <= mask -> (tables = 2 -> dictIsRehashing d = true) ->
  sample_ok d count s -> zlen (des s) < count ->
  exists o, visit d tables count mask j s = Ok o /\ visit_post d count s 1 o.
Proof.
  intros Hd Hj Hm Ht [Hp Hde Hc Hr] Hlt. unfold visit. set (skip := _ && (pos s <? rehashidx d)).
  destruct (skip && _); [eexists; split; [done|]; split_and!; [done|lia|done]|].
  assert (Hi : 0 <= (if skip then rehashidx d else pos s)).
  { destruct skip eqn:Es; [|done]. apply andb_true_iff in Es as [Es _]. apply andb_true_iff in Es as [Es%Z.eqb_eq _].
    destruct (rehashing_tables _ _ d Hd (Ht Es)) as (_&_&_&_&?&_). lia. }
  set (i := if skip then _ else _) in *. destruct (Z.leb_spec (size (ht_at d j)) i).
  { eexists. split; [done|]. split_and!; [done|cbn; lia|done]. }
  destruct (bucket_chain d j i Hd Hj) as (c&_&->&Hch); [lia|]. cbn [res_bind]. destruct c as [|e c].
  - destruct ((5 <=? _) && _); [|eexists; split; [done|]; split_and!; [by split|cbn; lia|done]].
    destruct (rnd_left s) as [|r rnd] eqn:Er; [exists None; split; [done|]; cbn; rewrite Er; cbn; lia|].
    apply Forall_cons in Hr as [Hr0 Hr]. eexists. split; [done|]. split_and!; [split; [cbn; apply Z.land_nonneg; by right|done..]| |done].
    cbn. rewrite Er. cbn. lia.
  - set (l := take _ (e :: c)). eexists. split; [done|].
    assert (Hl : zlen l <= count - zlen (des s)) by (unfold l, zlen in *; rewrite length_take; lia).
    split_and!; [split; [done| |cbn; rewrite zlen_app; lia|done]|cbn; lia|].
    + cbn. apply Forall_app. split; [done|]. apply Forall_take, Forall_forall. intros x Hx. by eapply chain_entries.
    + intros Hb%Z.eqb_neq. cbn. rewrite zlen_app in *. lia.
Qed.
Lemma visit_tables_spec d tables count mask s :
  dict_wf d -> 0 <= mask -> (tables = 2 -> dictIsRehashing d = true) -> sample_ok d count s -> zlen (des s) < count ->
  exists o, visit_tables d tables count mask s = Ok o /\ visit_post d count s 2 o.
Proof.
  intros Hd Hm Ht Hs Hlt. unfold visit_tables.
  destruct (visit_spec d tables count mask 0 s Hd) as (o&->&Ho); [by left|done..|]. cbn [res_bind].
  destruct o as [[s1 []]|].
  - destruct Ho as (?&?&?). eexists. split; [done|]. split_and!; [done|lia|done].
  - destruct Ho as (Hs1&Hl1&Hc1). specialize (Hc1 eq_refl). destruct (tables =? 2).
    + destruct (visit_spec d tables count mask 1 s1 Hd) as (o&->&Ho); [by right|done..|]. exists o. split; [done|].
      destruct o as [[s2 b]|]; cbn in *; [destruct Ho as (?&?&?); split_and!; [done|lia|done]|lia].
    + eexists. split; [done|]. split_and!; [done|lia|done].
  - exists None. split; [done|]. cbn in *. lia.
Qed.
Lemma sample_loop_spec n d tables count mask s :
  dict_wf d -> 0 <= mask -> (tables = 2 -> dictIsRehashing d = true) -> sample_ok d count s ->
  exists o, sample_loop n d tables count mask s = Ok o /\
    match o with Some s' => sample_ok d count s' | None => (length (rnd_left s) < 2 * n)%nat end.
Proof.
  intros Hd Hm Ht. revert s. induction n as [|n IH]; intros s Hs; cbn [sample_loop];
    (destruct (Z.ltb_spec (zlen (des s)) count) as [Hlt|_]; [|by exists (Some s)]); [by exists (Some s)|].
  destruct (visit_tables_spec d tables count mask s Hd Hm Ht Hs Hlt) as (o&->&Ho). cbn [res_bind].
  destruct o as [[s1 []]|]; cbn in Ho; [exists (Some s1); split; [done|apply Ho]| |exists None; split; [done|lia]].
  destruct Ho as (Hs1&Hl1&_). destruct (IH (mk_sample (Z.land (pos s1 + 1) mask) (emptylen s1) (des s1) (rnd_left s1))) as (o&->&Ho).
  { destruct Hs1. split; [cbn; apply Z.land_nonneg; by right|done..]. }
  exists o. split; [done|]. destruct o; [done|]. cbn in Ho. lia.
Qed.
Lemma sizemask_nonneg (h : dictht K V) : ht_wf ty h -> 0 <= sizemask h.
Proof.
  unfold ht_wf. destruct (table h); [|lia]. intros ((n&Hn&Hs)&->&_). assert (0 < 2 ^ n) by (apply Z.pow_pos_nonneg; lia). lia.
Qed.
Lemma dictGetSomeKeys_spec rnd d count :
  dict_wf d -> small d -> 0 <= count < 2 ^ 32 -> Forall (fun r => 0 <= r) rnd ->
  exists o, dictGetSomeKeys ty rnd d count = Ok o /\
    match o with
    | Some (d', es, rest) => stepped d d' /\ zlen es <= count /\ zlen es <= zlen (entries d) /\
        Forall (fun e => e ∈ entries d) es /\ Forall (fun r => 0 <= r) rest
    | None => zlen rnd <= 20 * count
    end.
Proof.
  intros Hd Hs Hc Hr. unfold dictGetSomeKeys. rewrite (dictSize_spec ty key_ok d Hd). pose proof (zlen_nonneg (entries d)) as Hz.
  set (n := if _ <? _ then _ else count).
  assert (Hn : 0 <= n <= count /\ n <= zlen (entries d)).
  { unfold n. destruct (Z.ltb_spec (zlen (entries d)) count); [rewrite u32_small|]; lia. }
  destruct (rehash_steps_stepped (Z.to_nat n) d Hd Hs) as (d1&->&St). cbn [res_bind]. pose proof St as [Hd1 Hp1 Hs1].
  set (tables := if dictIsRehashing d1 then 2 else 1). set (mask := if (1 <? tables) && _ then _ else _).
  assert (Hmask : 0 <= mask) by (unfold mask; destruct (_ && _); apply sizemask_nonneg, Hd1).
  destruct rnd as [|r rnd]; [exists None; split; [done|]; rewrite zlen_nil; lia|]. apply Forall_cons in Hr as [Hr0 Hr].
  destruct (sample_loop_spec (Z.to_nat (u32 (n * 10))) d1 tables n mask (mk_sample (Z.land r mask) 0 [] rnd) Hd1 Hmask) as (o&->&Ho).
  - unfold tables. by destruct (dictIsRehashing d1).
  - split; cbn; [apply Z.land_nonneg; by right|constructor|rewrite zlen_nil; lia|done].
  - cbn [res_bind]. destruct o as [s|].
    + destruct Ho as [_ Hde Hcn Hrn]. eexists. split; [done|]. cbn. split_and!; [done|lia|lia| |done].
      eapply Forall_impl; [exact Hde|]. intros e. cbn. by rewrite Hp1.
    + exists None. split; [done|]. cbn [rnd_left] in Ho. rewrite zlen_cons. unfold zlen.
      assert (u32 (n * 10) <= n * 10) by (apply Z.mod_le; lia). pose proof (u32_range (n * 10)). lia.
Qed.
Lemma dictGetFairRandomKey_sound rnd d :
  dict_wf d -> small d -> zlen (entries d) < 2147483648 -> Forall (fun r => 0 <= r) rnd ->
  exists o, dictGetFairRandomKey ty rnd d = Ok o /\ forall d' r rest, o = Some (d', r, rest) ->
    stepped d d' /\ (r = None <-> entries d = []) /\ forall e, r = Some e -> e ∈ entries d.
Proof.
  intros Hd Hs Hl Hr. unfold dictGetFairRandomKey.
  destruct (dictGetSomeKeys_spec rnd d GETFAIR_NUM_ENTRIES Hd Hs) as (o&->&Ho); [done|done|]. cbn [res_bind].
  destruct o as [[[d1 es] rest]|]; [|by exists None]. destruct Ho as (St&_&_&Hes&Hrest). pose proof St as [Hd1 Hp1 Hs1].
  pose proof (zlen_nonneg es). destruct (Z.eqb_spec (zlen es) 0) as [Hz|Hz].
  - destruct (dictGetRandomKey_sound rest d1 Hd1 Hs1) as (o&->&Ho); [by rewrite (Permutation_length_zlen _ _ Hp1)|done|].
    exists o. split; [done|]. intros d' r rest' ->. destruct (Ho _ _ _ eq_refl) as ([W2 P2 S2]&Hn&He). split_and!.
    + split; [done|by rewrite P2|done].
    + rewrite Hn. split; intros Hx; rewrite Hx in Hp1; [by apply Permutation_nil in Hp1|by symmetry in Hp1; apply Permutation_nil in Hp1].
    + intros e ->. rewrite <-Hp1. by apply He.
  - destruct rest as [|r rest]; [by exists None|]. unfold umod. destruct (Z.eqb_spec (zlen es) 0); [done|]. cbn [res_bind].
    pose proof (Z.mod_pos_bound r (zlen es)). destruct (lookup_lt_is_Some_2 es (Z.to_nat (r mod zlen es))) as [e He]; [unfold zlen in *; lia|].
    rewrite He. cbn [of_option res_bind]. eexists. split; [done|]. rewrite Forall_forall in Hes.
    assert (Hin : e ∈ entries d) by (by eapply Hes, list_elem_of_lookup_2).
    intros d' r' rest' [= <- <- _]. split_and!; [done|split; [done|]|intros e' [= <-]; done].
    intros Hx. rewrite Hx in Hin. by apply elem_of_nil in Hin.
Qed.
End Spec.

(** [dictGetRandomKey] gives an entry of the dictionary, NULL exactly for
    the empty one, whatever [random] returns and whether a rehash is going on
    or not; and every entry can be drawn: there are two numbers in range for
    which it is the result. *)
Theorem random_key_is_any_entry {K V} `{Countable K} (ty : dictType K V) (key_ok : K -> Prop) `{Hty : !DictTypeOk ty key_ok}
    (d : dict K V) (rnd : list Z) :
  dict_wf ty key_ok d -> small d -> zlen (entries d) < 2147483648 -> Forall (fun r => 0 <= r) rnd ->
  (exists o, dictGetRandomKey ty rnd d = Ok o /\ forall d' r rest, o = Some (d', r, rest) ->
     entries d' ≡ₚ entries d /\ (r = None <-> entries d = []) /\ forall e, r = Some e -> e ∈ entries d) /\
  forall e, e ∈ entries d -> exists d' r1 r2, 0 <= r1 < 2 ^ 62 /\ 0 <= r2 < zlen (entries d) /\
    forall rest, dictGetRandomKey ty (r1 :: r2 :: rest) d = Ok (Some (d', Some e, rest)).
Proof.
  intros Hd Hs Hl Hr. split.
  - destruct (dictGetRandomKey_sound ty key_ok rnd d Hd Hs Hl Hr) as (o&->&Ho). exists o. split; [done|].
    intros d' r rest Hx. destruct (Ho d' r rest Hx) as ([_ Hp _]&?&?). done.
  - intros e He. destruct (dictGetRandomKey_reaches ty key_ok d e Hd Hs Hl He) as (d'&r1&r2&?&?&_&?). by exists d', r1, r2.
Qed.
(** C30. [dictGetSomeKeys] never writes more than [count] entries to the
    caller's array, nor more than there are, whatever the tables look like;
    what it writes are entries of the dictionary; and it ends: twenty
    random numbers for each entry asked for are enough. *)
Theorem some_keys_fit {K V} `{Countable K} (ty : dictType K V) (key_ok : K -> Prop) `{Hty : !DictTypeOk ty key_ok}
    (d : dict K V) (rnd : list Z) (count : Z) :
  dict_wf ty key_ok d -> small d -> 0 <= count < 2 ^ 32 -> Forall (fun r => 0 <= r) rnd -> 20 * count < zlen rnd ->
  exists d' es rest, dictGetSomeKeys ty rnd d count = Ok (Some (d', es, rest)) /\ dict_wf ty key_ok d' /\
    entries d' ≡ₚ entries d /\ zlen es <= Z.min count (zlen (entries d)) /\ Forall (fun e => e ∈ entries d) es.
Proof.
  intros Hd Hs Hc Hr Hl. destruct (dictGetSomeKeys_spec ty key_ok rnd d count Hd Hs Hc Hr) as (o&->&Ho).
  destruct o as [[[d' es] rest]|]; [|lia]. destruct Ho as ([W P S]&H1&H2&H3&_). exists d', es, rest. split_and!; [done..|lia|done].
Qed.

(** ** Six entries in the middle of a rehash *)
Lemma random_key_is_any_entry_witness :
  (exists o, dictGetRandomKey (IntIntDictType demo_seed) [4; 0] demo_dict = Ok o /\ forall d' r rest, o = Some (d', r, rest) ->
     entries d' ≡ₚ entries demo_dict /\ (r = None <-> entries demo_dict = []) /\ forall e, r = Some e -> e ∈ entries demo_dict) /\
  forall e, e ∈ entries demo_dict -> exists d' r1 r2, 0 <= r1 < 2 ^ 62 /\ 0 <= r2 < zlen (entries demo_dict) /\
    forall rest, dictGetRandomKey (IntIntDictType demo_seed) (r1 :: r2 :: rest) demo_dict = Ok (Some (d', Some e, rest)).
Proof.
  apply (random_key_is_any_entry (IntIntDictType demo_seed) int_key_ok demo_dict [4; 0]).
  - apply demo_dict_wf.
  - split; vm_compute; reflexivity.
  - vm_compute. reflexivity.
  - repeat constructor; discriminate.
Defined.
Lemma some_keys_fit_witness :
  exists d' es rest, dictGetSomeKeys (IntIntDictType demo_seed) (replicate 81 5) demo_dict 4 = Ok (Some (d', es, rest)) /\
    dict_wf (IntIntDictType demo_seed) int_key_ok d' /\
    entries d' ≡ₚ entries demo_dict /\ zlen es <= Z.min 4 (zlen (entries demo_dict)) /\ Forall (fun e => e ∈ entries demo_dict) es.
Proof.
  apply (some_keys_fit (IntIntDictType demo_seed) int_key_ok demo_dict (replicate 81 5) 4).
  - apply demo_dict_wf.
  - split; vm_compute; reflexivity.
  - lia.
  - repeat constructor; discriminate.
  - vm_compute. reflexivity.
Defined.
Example demo_drawn :
  match dictGetSomeKeys (IntIntDictType demo_seed) (replicate 81 5) demo_dict 4 with
  | Ok (Some (_, es, _)) => e_key <$> es
  | _ => []
  end = [1; 6; 2; 5].
Proof. vm_compute. reflexivity. Qed.
