(* ===== verification/GpList.v ===== *)
(** * gp_list.c: the intrusive doubly linked list, pointer by pointer

    Memory maps the address of every [gp_list_node] to its two links and the
    address of every [gp_list] (which is the address of its [ll_head], the
    first member) to its [ll_offset].  NULL is 0; an access outside the map is
    undefined.  [rep] relates a memory to the lists it holds and to the nodes
    that are on no list; every operation is shown to act on the lists as the
    list operation its name says. *)

From S2P Require Import Prelude.
From stdpp Require Import gmap.
Local Open Scope Z_scope.

Record gp_list_node := mk_node { ln_next : Z; ln_prev : Z }.
Definition null_node : gp_list_node := mk_node 0 0.

Record mem := mk_mem { nodes : gmap Z gp_list_node; offsets : gmap Z Z }.

Definition load (m : mem) (a : Z) : res gp_list_node := of_option (nodes m !! a).
Definition ll_offset (m : mem) (l : Z) : res Z := of_option (offsets m !! l).
Definition next (m : mem) (a : Z) : res Z := let* n := load m a in Ok (ln_next n).
Definition prev (m : mem) (a : Z) : res Z := let* n := load m a in Ok (ln_prev n).
Definition set_next (m : mem) (a v : Z) : res mem :=
  let* n := load m a in Ok (mk_mem (<[a := mk_node v (ln_prev n)]> (nodes m)) (offsets m)).
Definition set_prev (m : mem) (a v : Z) : res mem :=
  let* n := load m a in Ok (mk_mem (<[a := mk_node (ln_next n) v]> (nodes m)) (offsets m)).

(** [NODE(list, item)] and [ITEM(list, node)] *)
Definition NODE (m : mem) (l item : Z) : res Z := let* o := ll_offset m l in Ok (item + o).
Definition ITEM (m : mem) (l node : Z) : res Z := let* o := ll_offset m l in Ok (node - o).

Definition gp_list_init_offset (m : mem) (l offset : Z) : mem :=
  mk_mem (<[l := mk_node l l]> (nodes m)) (<[l := offset]> (offsets m)).

Definition gp_list_first (m : mem) (l : Z) : res Z :=
  let* node := next m l in if node =? l then Ok 0 else ITEM m l node.
Definition gp_list_last (m : mem) (l : Z) : res Z :=
  let* node := prev m l in if node =? l then Ok 0 else ITEM m l node.

(** The warning printed when the node is active leaves the memory alone; the
    node's links are read for it. *)
Definition gp_list_append (m : mem) (l item : Z) : res mem :=
  let* node := NODE m l item in
  let* _ := load m node in
  let* p := prev m l in
  let* m := set_prev m node p in
  let* m := set_next m node l in
  let* nn := next m node in let* m := set_prev m nn node in
  let* np := prev m node in set_next m np node.

Definition gp_list_prepend (m : mem) (l item : Z) : res mem :=
  let* node := NODE m l item in
  let* _ := load m node in
  let* n := next m l in
  let* m := set_next m node n in
  let* m := set_prev m node l in
  let* nn := next m node in let* m := set_prev m nn node in
  let* np := prev m node in set_next m np node.

Definition gp_list_insert_before (m : mem) (l item before : Z) : res mem :=
  let* node := NODE m l item in
  let* where_ := NODE m l before in
  let* _ := load m node in
  let* m := set_next m node where_ in
  let* p := prev m where_ in
  let* m := set_prev m node p in
  let* nn := next m node in let* m := set_prev m nn node in
  let* np := prev m node in set_next m np node.

Definition gp_list_insert_after (m : mem) (l item after : Z) : res mem :=
  let* node := NODE m l item in
  let* where_ := NODE m l after in
  let* _ := load m node in
  let* m := set_prev m node where_ in
  let* n := next m where_ in
  let* m := set_next m node n in
  let* nn := next m node in let* m := set_prev m nn node in
  let* np := prev m node in set_next m np node.

Definition gp_list_next (m : mem) (l item : Z) : res Z :=
  if item =? 0 then Ok 0
  else
    let* node := NODE m l item in
    let* n := next m node in
    if n =? 0 then Ok 0 else if n =? l then Ok 0 else ITEM m l n.

Definition gp_list_prev (m : mem) (l item : Z) : res Z :=
  let* node := NODE m l item in
  let* p := prev m node in
  if p =? l then Ok 0 else ITEM m l p.

(** The four stores shared by the two removal functions. *)
Definition unlink (m : mem) (node : Z) : res mem :=
  let* p := prev m node in
  let* n := next m node in
  let* m := set_next m p n in
  let* n := next m node in
  let* p := prev m node in
  let* m := set_prev m n p in
  let* m := set_next m node 0 in
  set_prev m node 0.

Definition gp_list_remove (m : mem) (l item : Z) : res mem :=
  let* node := NODE m l item in unlink m node.

Definition gp_list_replace (m : mem) (old new : Z) : res mem :=
  let* n := next m old in
  let* m := set_next m new n in
  let* n := next m new in let* m := set_prev m n new in
  let* p := prev m old in
  let* m := set_prev m new p in
  let* p := prev m new in let* m := set_next m p new in
  let* o := ll_offset m old in
  Ok (mk_mem (nodes m) (<[new := o]> (offsets m))).

Definition gp_list_active (m : mem) (l item : Z) : res Z :=
  let* node := NODE m l item in
  let* n := next m node in Ok (if n =? 0 then 0 else 1).
Definition gp_list_empty (m : mem) (l : Z) : res bool :=
  let* n := next m l in Ok ((n =? 0) || (n =? l)).
Definition gp_list_node_active (m : mem) (node : Z) : res Z :=
  let* n := next m node in Ok (if n =? 0 then 0 else 1).
Definition gp_list_node_remove (m : mem) (node : Z) : res mem :=
  let* n := next m node in if n =? 0 then Ok m else unlink m node.

(** [GP_LIST_FOREACH(l, it)] with a body that leaves the memory alone: the
    items visited. *)
Fixpoint foreach (fuel : nat) (m : mem) (l it : Z) : res (list Z) :=
  if it =? 0 then Ok []
  else match fuel with
       | O => Ub
       | S fuel =>
           let* it' := gp_list_next m l it in
           let* its := foreach fuel m l it' in Ok (it :: its)
       end.
Definition GP_LIST_FOREACH (fuel : nat) (m : mem) (l : Z) : res (list Z) :=
  let* it := gp_list_first m l in foreach fuel m l it.

(** [GP_LIST_FOREACH_SAFE(l, tmp, it)]: the successor is read before the body
    runs. *)
Fixpoint foreach_safe (fuel : nat) (body : mem -> Z -> res mem) (m : mem) (l it tmp : Z) : res mem :=
  if it =? 0 then Ok m
  else match fuel with
       | O => Ub
       | S fuel =>
           let* m := body m it in
           let* tmp' := gp_list_next m l tmp in
           foreach_safe fuel body m l tmp tmp'
       end.
Definition GP_LIST_FOREACH_SAFE (fuel : nat) (body : mem -> Z -> res mem) (m : mem) (l : Z) : res mem :=
  let* it := gp_list_first m l in
  let* tmp := gp_list_next m l it in
  foreach_safe fuel body m l it tmp.

(** ** Links as functions *)
Definition valid (m : mem) (a : Z) : Prop := is_Some (nodes m !! a).
Definition nx (m : mem) (a : Z) : Z := default 0 (ln_next <$> nodes m !! a).
Definition pv (m : mem) (a : Z) : Z := default 0 (ln_prev <$> nodes m !! a).
Definition upd_next (a v : Z) (m : mem) : mem :=
  mk_mem (alter (fun n => mk_node v (ln_prev n)) a (nodes m)) (offsets m).
Definition upd_prev (a v : Z) (m : mem) : mem :=
  mk_mem (alter (fun n => mk_node (ln_next n) v) a (nodes m)) (offsets m).

Lemma valid_upd_next a v m x : valid (upd_next a v m) x <-> valid m x.
Proof. unfold valid; simpl. destruct (decide (a = x)) as [->|]; [|by rewrite lookup_alter_ne].
  rewrite lookup_alter_eq. apply fmap_is_Some. Qed.
Lemma valid_upd_prev a v m x : valid (upd_prev a v m) x <-> valid m x.
Proof. unfold valid; simpl. destruct (decide (a = x)) as [->|]; [|by rewrite lookup_alter_ne].
  rewrite lookup_alter_eq. apply fmap_is_Some. Qed.

Lemma nx_upd_next a v m x : valid m a -> nx (upd_next a v m) x = if decide (x = a) then v else nx m x.
Proof.
  intros [n Hn]. unfold nx; simpl. destruct (decide (x = a)) as [->|].
  - rewrite lookup_alter_eq, Hn. done.
  - by rewrite lookup_alter_ne.
Qed.
Lemma pv_upd_prev a v m x : valid m a -> pv (upd_prev a v m) x = if decide (x = a) then v else pv m x.
Proof.
  intros [n Hn]. unfold pv; simpl. destruct (decide (x = a)) as [->|].
  - rewrite lookup_alter_eq, Hn. done.
  - by rewrite lookup_alter_ne.
Qed.
Lemma nx_upd_prev a v m x : nx (upd_prev a v m) x = nx m x.
Proof.
  unfold nx; simpl. destruct (decide (a = x)) as [->|]; [|by rewrite lookup_alter_ne].
  rewrite lookup_alter_eq. by destruct (nodes m !! x).
Qed.
Lemma pv_upd_next a v m x : pv (upd_next a v m) x = pv m x.
Proof.
  unfold pv; simpl. destruct (decide (a = x)) as [->|]; [|by rewrite lookup_alter_ne].
  rewrite lookup_alter_eq. by destruct (nodes m !! x).
Qed.

Lemma load_ok m a : valid m a -> load m a = Ok (mk_node (nx m a) (pv m a)).
Proof. unfold load, nx, pv. intros [[] ->]. done. Qed.
Lemma next_ok m a : valid m a -> next m a = Ok (nx m a).
Proof. intros Hv. unfold next. by rewrite load_ok. Qed.
Lemma prev_ok m a : valid m a -> prev m a = Ok (pv m a).
Proof. intros Hv. unfold prev. by rewrite load_ok. Qed.
Lemma set_next_ok m a v : valid m a -> set_next m a v = Ok (upd_next a v m).
Proof.
  unfold set_next, load, upd_next. intros [n Hn]. rewrite Hn. cbn [of_option res_bind]. do 2 f_equal.
  apply map_eq. intros i. destruct (decide (a = i)) as [->|].
  - by rewrite lookup_insert_eq, lookup_alter_eq, Hn.
  - by rewrite lookup_insert_ne, lookup_alter_ne.
Qed.
Lemma set_prev_ok m a v : valid m a -> set_prev m a v = Ok (upd_prev a v m).
Proof.
  unfold set_prev, load, upd_prev. intros [n Hn]. rewrite Hn. cbn [of_option res_bind]. do 2 f_equal.
  apply map_eq. intros i. destruct (decide (a = i)) as [->|].
  - by rewrite lookup_insert_eq, lookup_alter_eq, Hn.
  - by rewrite lookup_insert_ne, lookup_alter_ne.
Qed.

Lemma offsets_upd_next a v m : offsets (upd_next a v m) = offsets m.
Proof. done. Qed.
Lemma offsets_upd_prev a v m : offsets (upd_prev a v m) = offsets m.
Proof. done. Qed.

Lemma nx_offsets m o x : nx (mk_mem (nodes m) o) x = nx m x.
Proof. done. Qed.
Lemma pv_offsets m o x : pv (mk_mem (nodes m) o) x = pv m x.
Proof. done. Qed.
Lemma valid_offsets m o x : valid (mk_mem (nodes m) o) x <-> valid m x.
Proof. done. Qed.

#[export] Hint Rewrite nx_offsets pv_offsets valid_offsets offsets_upd_next offsets_upd_prev nx_upd_prev pv_upd_next valid_upd_next valid_upd_prev : links.
#[export] Hint Rewrite nx_upd_next pv_upd_prev using (autorewrite with links; assumption) : links.

(** Runs a load or a store whose address is known to be valid. *)
Ltac mstep :=
  first [rewrite load_ok by (autorewrite with links; assumption)
        |rewrite next_ok by (autorewrite with links; assumption)
        |rewrite prev_ok by (autorewrite with links; assumption)
        |rewrite set_next_ok by (autorewrite with links; assumption)
        |rewrite set_prev_ok by (autorewrite with links; assumption)];
  cbn [res_bind]; autorewrite with links.
Ltac decide_all := repeat (case_decide; subst; try done).

(** The memory after node [n] is put between [p] and [q]. *)
Definition spliced (m : mem) (n p q : Z) (m' : mem) : Prop :=
  (forall x, valid m' x <-> valid m x) /\ offsets m' = offsets m /\
  (forall x, nx m' x = if decide (x = p) then n else if decide (x = n) then q else nx m x) /\
  (forall x, pv m' x = if decide (x = q) then n else if decide (x = n) then p else pv m x).

Definition finish_insert (m : mem) (node : Z) : res mem :=
  let* nn := next m node in let* m := set_prev m nn node in
  let* np := prev m node in set_next m np node.

Lemma finish_insert_spliced m m0 n p q :
  valid m n -> valid m p -> valid m q -> n <> p -> n <> q ->
  (forall x, valid m x <-> valid m0 x) -> offsets m = offsets m0 ->
  (forall x, nx m x = if decide (x = n) then q else nx m0 x) ->
  (forall x, pv m x = if decide (x = n) then p else pv m0 x) ->
  exists m', finish_insert m n = Ok m' /\ spliced m0 n p q m'.
Proof.
  intros Hn Hp Hq Hnp Hnq Hv Ho Hnx Hpv. unfold finish_insert.
  assert (nx m n = q) as Hnn by (rewrite Hnx; by case_decide).
  assert (pv m n = p) as Hpn by (rewrite Hpv; by case_decide).
  mstep. rewrite Hnn. mstep. mstep. destruct (decide (n = q)); [done|]. rewrite Hpn. mstep.
  eexists. split; [done|]. split_and!.
  - intros x. autorewrite with links. apply Hv.
  - done.
  - intros x. autorewrite with links. rewrite Hnx. decide_all.
  - intros x. autorewrite with links. rewrite Hpv. decide_all.
Qed.

Lemma set_prev_next_spliced m n p q :
  valid m n -> valid m p -> valid m q -> n <> p -> n <> q ->
  exists m', (let* m := set_prev m n p in let* m := set_next m n q in finish_insert m n) = Ok m' /\
    spliced m n p q m'.
Proof.
  intros. mstep. mstep. apply (finish_insert_spliced _ m n p q); autorewrite with links; try done;
    intros x; by autorewrite with links.
Qed.
Lemma set_next_prev_spliced m n p q :
  valid m n -> valid m p -> valid m q -> n <> p -> n <> q ->
  exists m', (let* m := set_next m n q in let* m := set_prev m n p in finish_insert m n) = Ok m' /\
    spliced m n p q m'.
Proof.
  intros. mstep. mstep. apply (finish_insert_spliced _ m n p q); autorewrite with links; try done;
    intros x; by autorewrite with links.
Qed.

(** The memory after [n], between [p] and [q], is unlinked. *)
Definition unspliced (m : mem) (n p q : Z) (m' : mem) : Prop :=
  (forall x, valid m' x <-> valid m x) /\ offsets m' = offsets m /\
  (forall x, nx m' x = if decide (x = n) then 0 else if decide (x = p) then q else nx m x) /\
  (forall x, pv m' x = if decide (x = n) then 0 else if decide (x = q) then p else pv m x).

Lemma unlink_ok m n p q :
  valid m n -> valid m p -> valid m q -> n <> p -> n <> q -> nx m n = q -> pv m n = p ->
  exists m', unlink m n = Ok m' /\ unspliced m n p q m'.
Proof.
  intros Hn Hp Hq Hnp Hnq Hnx Hpv. unfold unlink. mstep. mstep. rewrite Hnx, Hpv. mstep. mstep.
  destruct (decide (n = p)); [done|]. mstep. rewrite Hnx, Hpv. mstep. mstep. mstep.
  eexists. split; [done|]. split_and!.
  - intros x. by autorewrite with links.
  - done.
  - intros x. autorewrite with links. decide_all.
  - intros x. autorewrite with links. decide_all.
Qed.

(** ** Chains of nodes *)
Fixpoint chain (m : mem) (l : list Z) : Prop :=
  match l with
  | a :: ((b :: _) as l') => nx m a = b /\ pv m b = a /\ chain m l'
  | _ => True
  end.

Lemma chain_join m l1 p q l2 :
  chain m (l1 ++ p :: q :: l2) <-> chain m (l1 ++ [p]) /\ nx m p = q /\ pv m q = p /\ chain m (q :: l2).
Proof.
  induction l1 as [|a l1 IH]; [simpl; naive_solver|].
  destruct l1 as [|b l1]; [simpl; naive_solver|].
  simpl app in IH |- *. cbn [chain]. cbn [chain] in IH. tauto.
Qed.

Lemma chain_frame m m' l :
  chain m l -> (forall x, x ∈ removelast l -> nx m' x = nx m x) ->
  (forall x, x ∈ tail l -> pv m' x = pv m x) -> chain m' l.
Proof.
  induction l as [|a [|b l] IH]; [done..|]. intros (Hn&Hp&Hc) Hnx Hpv. cbn [chain].
  split; [|split].
  - rewrite Hnx; [done|]. simpl. set_solver.
  - rewrite Hpv; [done|]. simpl. set_solver.
  - apply IH; [done| |].
    + intros x Hx. apply Hnx. cbn [removelast]. set_solver.
    + intros x Hx. apply Hpv. simpl in *. set_solver.
Qed.

(** The circular list of the nodes [ns] from the head at [hd]. *)
Record dll (m : mem) (hd : Z) (ns : list Z) : Prop := {
  dll_nodup : NoDup (hd :: ns);
  dll_valid : forall x, x ∈ hd :: ns -> valid m x /\ x <> 0;
  dll_chain : chain m (hd :: ns ++ [hd]);
}.

(** Where a list can be cut: after [l1 ++ [p]], before [q :: l2]. *)
Definition cut (hd : Z) (xs ys : list Z) (p q : Z) : Prop :=
  exists l1 l2, hd :: xs = l1 ++ [p] /\ ys ++ [hd] = q :: l2.
Lemma cut_exists hd xs ys : exists p q, cut hd xs ys p q.
Proof.
  destruct (exists_last (l := hd :: xs)) as (l1&p&Hp); [done|].
  destruct ys as [|q ys]; [exists p, hd, l1, []|exists p, q, l1, (ys ++ [hd])]; auto.
Qed.

Section Cut.
Context (m : mem) (hd : Z) (xs ys : list Z) (p q : Z).
Context (Hd : dll m hd (xs ++ ys)) (Hcut : cut hd xs ys p q).

Lemma cut_in : p ∈ hd :: xs /\ q ∈ hd :: ys /\ nx m p = q /\ pv m q = p.
Proof using Hd Hcut.
  destruct Hcut as (l1&l2&Hl1&Hl2).
  pose proof (dll_chain _ _ _ Hd) as Hc. rewrite <-app_assoc, app_comm_cons, Hl1, Hl2, <-app_assoc in Hc.
  apply chain_join in Hc as (_&?&?&_). split_and!; [rewrite Hl1; set_solver| |done|done].
  assert (q ∈ ys ++ [hd]) by (rewrite Hl2; by left). set_solver.
Qed.

Lemma cut_valid : valid m p /\ valid m q.
Proof using Hd Hcut. destruct cut_in as (Hp&Hq&_). split; apply (dll_valid _ _ _ Hd); set_solver. Qed.

(** The two halves, in a memory that changed only around the cut. *)
Lemma cut_frame m' :
  (forall x, x ∈ hd :: xs ++ ys -> x <> p -> nx m' x = nx m x) ->
  (forall x, x ∈ hd :: xs ++ ys -> x <> q -> pv m' x = pv m x) ->
  chain m' (hd :: xs) /\ chain m' (ys ++ [hd]).
Proof using Hd Hcut.
  intros Hnx Hpv. destruct Hcut as (l1&l2&Hl1&Hl2).
  pose proof (dll_chain _ _ _ Hd) as Hc. rewrite <-app_assoc, app_comm_cons, Hl1, Hl2, <-app_assoc in Hc.
  apply chain_join in Hc as (Hc1&_&_&Hc2). rewrite Hl1, Hl2.
  pose proof (dll_nodup _ _ _ Hd) as Hnd.
  assert (Hnd1 : NoDup (l1 ++ [p])).
  { rewrite <-Hl1. change (hd :: xs ++ ys) with ((hd :: xs) ++ ys) in Hnd.
    by apply NoDup_app in Hnd as (?&_&_). }
  assert (Hnd2 : NoDup (q :: l2)).
  { rewrite <-Hl2. rewrite Permutation_app_comm. simpl. apply NoDup_cons in Hnd as [Hn1 Hn2].
    apply NoDup_cons. apply NoDup_app in Hn2 as (_&_&?). set_solver. }
  apply NoDup_app in Hnd1 as (_&Hpl&_). apply NoDup_cons in Hnd2 as [Hql _].
  assert (Hdis : forall x, x ∈ xs -> x ∈ ys ++ [hd] -> False).
  { apply NoDup_cons in Hnd as [Hn1 Hn2]. apply NoDup_app in Hn2 as (_&Hn2&_). set_solver. }
  split; (eapply chain_frame; [eassumption|..]).
  - intros x. rewrite removelast_last. intros Hx. apply Hnx; [|set_solver].
    assert (x ∈ hd :: xs) by (rewrite Hl1; set_solver). set_solver.
  - rewrite <-Hl1. simpl. intros x Hx. apply Hpv; [set_solver|]. intros ->.
    apply (Hdis q); [done|]. rewrite Hl2. by left.
  - intros x Hx. apply Hnx.
    + assert (x ∈ removelast (ys ++ [hd])) as Hx' by by rewrite Hl2. rewrite removelast_last in Hx'. set_solver.
    + intros ->. assert (p ∈ removelast (ys ++ [hd])) as Hx' by by rewrite Hl2.
      rewrite removelast_last in Hx'. assert (p ∈ hd :: xs) as Hpx by (rewrite Hl1; set_solver).
      apply elem_of_cons in Hpx as [->|Hpx]; [|apply (Hdis p); set_solver].
      apply NoDup_cons in Hnd as [Hn1 _]. set_solver.
  - intros x. simpl. intros Hx. apply Hpv; [|set_solver].
    assert (x ∈ ys ++ [hd]) by (rewrite Hl2; by right). set_solver.
Qed.
End Cut.

(** Inserting a node at a cut, and removing it again. *)
Lemma dll_insert m hd xs ys p q n m' :
  dll m hd (xs ++ ys) -> cut hd xs ys p q -> n ∉ hd :: xs ++ ys -> n <> 0 -> valid m n ->
  spliced m n p q m' -> dll m' hd (xs ++ n :: ys).
Proof.
  intros Hd Hcut Hn H0 Hvn (Hv&_&Hnx&Hpv).
  destruct (cut_in m hd xs ys p q Hd Hcut) as (Hp&Hq&_).
  assert (n <> p) by set_solver. assert (n <> q) by set_solver.
  destruct (cut_frame m hd xs ys p q Hd Hcut m') as [Hc1 Hc2].
  { intros x Hx Hxp. rewrite Hnx. rewrite decide_False by done. rewrite decide_False; set_solver. }
  { intros x Hx Hxp. rewrite Hpv. rewrite decide_False by done. rewrite decide_False; set_solver. }
  constructor.
  - rewrite app_comm_cons, <-Permutation_middle. simpl. apply NoDup_cons. split; [done|apply Hd].
  - intros x Hx. rewrite Hv. destruct (decide (x = n)) as [->|]; [done|]. apply (dll_valid _ _ _ Hd). set_solver.
  - destruct Hcut as (l1&l2&Hl1&Hl2). rewrite <-app_assoc, app_comm_cons, Hl1. simpl. rewrite Hl2.
    rewrite Hl1 in Hc1. rewrite Hl2 in Hc2.
    rewrite <-app_assoc. simpl. apply chain_join. split; [done|]. split; [|split].
    + rewrite Hnx. by rewrite decide_True.
    + rewrite Hpv, decide_False, decide_True by done. done.
    + cbn [chain]. split; [|split; [|done]].
      * rewrite Hnx, decide_False, decide_True by done. done.
      * by rewrite Hpv, decide_True.
Qed.

Lemma dll_remove m hd xs ys p q n m' :
  dll m hd (xs ++ n :: ys) -> cut hd xs ys p q -> unspliced m n p q m' -> dll m' hd (xs ++ ys).
Proof.
  intros Hd Hcut (Hv&_&Hnx&Hpv).
  assert (Hnd : NoDup (n :: hd :: xs ++ ys)).
  { change (n :: hd :: xs ++ ys) with (n :: (hd :: xs) ++ ys). rewrite Permutation_middle. apply Hd. }
  apply NoDup_cons in Hnd as [Hn Hnd].
  pose proof (dll_chain _ _ _ Hd) as Hc. destruct Hcut as (l1&l2&Hl1&Hl2).
  rewrite <-app_assoc, app_comm_cons, Hl1 in Hc. simpl in Hc. rewrite Hl2, <-app_assoc in Hc.
  apply chain_join in Hc as (Hc1&_&_&Hc2). destruct Hc2 as (_&_&Hc2).
  assert (Hnp : n ∉ l1 ++ [p]) by (rewrite <-Hl1; set_solver).
  assert (Hnq : n ∉ q :: l2) by (rewrite <-Hl2; set_solver).
  assert (Hnd1 : p ∉ l1).
  { change (hd :: xs ++ ys) with ((hd :: xs) ++ ys) in Hnd. rewrite Hl1 in Hnd.
    apply NoDup_app in Hnd as (Hnd&_&_). apply NoDup_app in Hnd as (_&?&_). set_solver. }
  assert (Hnd2 : q ∉ l2).
  { assert (Hnd' : NoDup (ys ++ [hd])).
    { rewrite Permutation_app_comm. simpl. apply NoDup_cons in Hnd as [? Hnd]. apply NoDup_app in Hnd as (_&_&?).
      apply NoDup_cons. set_solver. }
    rewrite Hl2 in Hnd'. by apply NoDup_cons in Hnd' as [? _]. }
  assert (Hqx : q ∉ xs).
  { intros Hq. assert (q ∈ ys ++ [hd]) by (rewrite Hl2; by left). apply NoDup_cons in Hnd as [? Hnd].
    apply NoDup_app in Hnd as (_&Hnd&_). set_solver. }
  assert (Hpy : p ∉ ys).
  { intros Hp. assert (p ∈ hd :: xs) by (rewrite Hl1; set_solver). apply NoDup_cons in Hnd as [? Hnd].
    apply NoDup_app in Hnd as (_&Hnd&_). set_solver. }
  constructor; [done| |].
  - intros x Hx. rewrite Hv. apply (dll_valid _ _ _ Hd). set_solver.
  - rewrite <-app_assoc, app_comm_cons, Hl1, Hl2, <-app_assoc. apply chain_join. split; [|split; [|split]].
    + eapply chain_frame; [exact Hc1|..]; intros x.
      * rewrite removelast_last. intros Hx. rewrite Hnx, !decide_False; set_solver.
      * rewrite <-Hl1. simpl. intros Hx. rewrite Hpv, !decide_False; [done|set_solver|].
        intros ->. apply Hnp. rewrite <-Hl1. by right.
    + rewrite Hnx, decide_False, decide_True by set_solver. done.
    + rewrite Hpv, decide_False, decide_True by set_solver. done.
    + eapply chain_frame; [exact Hc2|..]; intros x; [|simpl; intros Hx; rewrite Hpv, !decide_False; set_solver].
      rewrite <-Hl2, removelast_last. intros Hx. rewrite Hnx, !decide_False; [done|set_solver|].
      intros ->. apply Hnq. rewrite <-Hl2. set_solver.
Qed.

Lemma dll_frame m m' hd ns :
  dll m hd ns -> (forall x, x ∈ hd :: ns -> nx m' x = nx m x /\ pv m' x = pv m x) ->
  (forall x, valid m' x <-> valid m x) -> dll m' hd ns.
Proof.
  intros Hd Hx Hv. constructor; [apply Hd|intros x; rewrite Hv; apply Hd|].
  eapply chain_frame; [apply Hd|..]; intros x Hin; apply Hx.
  - change (hd :: ns ++ [hd]) with ((hd :: ns) ++ [hd]) in Hin. by rewrite removelast_last in Hin.
  - simpl in Hin. set_solver.
Qed.

(** The neighbours of a node of a list. *)
Lemma dll_neighbours m hd xs ys n :
  dll m hd (xs ++ n :: ys) ->
  exists p q, cut hd xs ys p q /\ p ∈ hd :: xs /\ q ∈ hd :: ys /\ nx m n = q /\ pv m n = p /\
    nx m p = n /\ pv m q = n /\ n <> p /\ n <> q.
Proof.
  intros Hd. destruct (cut_exists hd xs ys) as (p&q&Hcut). exists p, q.
  assert (Hnd : n ∉ hd :: xs ++ ys).
  { pose proof (dll_nodup _ _ _ Hd) as Hnd. rewrite app_comm_cons, <-Permutation_middle in Hnd.
    by apply NoDup_cons in Hnd as [? _]. }
  pose proof (dll_chain _ _ _ Hd) as Hc. pose proof Hcut as (l1&l2&Hl1&Hl2).
  rewrite <-app_assoc, app_comm_cons, Hl1 in Hc. simpl in Hc. rewrite Hl2, <-app_assoc in Hc.
  apply chain_join in Hc as (_&Hpn&Hnp&Hc). destruct Hc as (Hnq&Hqn&_).
  assert (p ∈ hd :: xs) by (rewrite Hl1; set_solver).
  assert (q ∈ ys ++ [hd]) by (rewrite Hl2; by left).
  split_and!; try done; [set_solver|intros ->; set_solver|intros ->; set_solver].
Qed.

(** ** Memories holding several lists *)
(** Each list, by the address of its head: its offset and its nodes; and the
    initialised nodes that are on no list. *)
Record lists := mk_lists { ll : gmap Z (Z * list Z); idle : gset Z }.

Definition put (l o : Z) (ns : list Z) (s : lists) : lists := mk_lists (<[l := (o, ns)]> (ll s)) (idle s).
Definition grab (n : Z) (s : lists) : lists := mk_lists (ll s) (idle s ∖ {[n]}).
Definition release (n : Z) (s : lists) : lists := mk_lists (ll s) ({[n]} ∪ idle s).

Record rep (m : mem) (s : lists) : Prop := {
  rep_dll : forall l o ns, ll s !! l = Some (o, ns) ->
    dll m l ns /\ offsets m !! l = Some o /\ forall n, n ∈ ns -> n - o <> 0;
  rep_disj : forall l o ns l' o' ns' x, ll s !! l = Some (o, ns) -> ll s !! l' = Some (o', ns') ->
    x ∈ l :: ns -> x ∈ l' :: ns' -> l = l';
  rep_idle : forall n, n ∈ idle s -> valid m n /\ n <> 0 /\ nx m n = 0 /\ pv m n = 0;
  rep_free : forall l o ns n, ll s !! l = Some (o, ns) -> n ∈ l :: ns -> n ∉ idle s;
}.

Lemma elem_of_middle (l n x : Z) xs ys : x ∈ l :: xs ++ n :: ys <-> x = n \/ x ∈ l :: xs ++ ys.
Proof. rewrite !elem_of_cons, !elem_of_app, elem_of_cons. tauto. Qed.

Lemma rep_insert m s l o xs ys p q n m' :
  rep m s -> ll s !! l = Some (o, xs ++ ys) -> n ∈ idle s -> n - o <> 0 -> cut l xs ys p q ->
  spliced m n p q m' -> rep m' (put l o (xs ++ n :: ys) (grab n s)).
Proof.
  intros Hr Hl Hn Hno Hcut Hsp. destruct (rep_dll _ _ Hr l o _ Hl) as (Hd&Ho&Hnz).
  destruct (rep_idle _ _ Hr n Hn) as (Hvn&Hn0&_).
  assert (Hnl : forall l' o' ns', ll s !! l' = Some (o', ns') -> n ∉ l' :: ns').
  { intros l' o' ns' Hl' Hin. by apply (rep_free _ _ Hr l' o' ns' n). }
  destruct (cut_in _ _ _ _ _ _ Hd Hcut) as (Hp&Hq&_).
  assert (Hpq : p ∈ l :: xs ++ ys /\ q ∈ l :: xs ++ ys) by set_solver.
  pose proof Hsp as (Hv&Hoff&Hnx&Hpv).
  constructor; simpl.
  - intros l' o' ns' Hl'. rewrite Hoff. destruct (decide (l' = l)) as [->|Hne].
    + rewrite lookup_insert_eq in Hl'. injection Hl' as <- <-. split; [|split; [done|set_solver]].
      eapply dll_insert; try done. by eapply Hnl.
    + rewrite lookup_insert_ne in Hl' by done. destruct (rep_dll _ _ Hr l' o' _ Hl') as (Hd'&Ho'&?).
      split; [|done]. eapply dll_frame; [exact Hd'| |exact Hv]. intros x Hx.
      assert (x <> n) by (intros ->; by eapply Hnl).
      assert (x <> p /\ x <> q) as [Hxp Hxq].
      { split; intros ->; apply Hne; eapply (rep_disj _ _ Hr); eauto; tauto. }
      rewrite Hnx, Hpv, !decide_False by done. done.
  - intros l1 o1 ns1 l2 o2 ns2 x Hl1 Hl2 Hx1 Hx2.
    apply lookup_insert_Some in Hl1 as [[<- [= <- <-]]|[? Hl1]];
      apply lookup_insert_Some in Hl2 as [[<- [= <- <-]]|[? Hl2]]; [done|..];
      [..|by eapply (rep_disj _ _ Hr)];
      (destruct (decide (x = n)) as [->|]; [exfalso; by eapply Hnl|]);
      [apply elem_of_middle in Hx1 as [?|Hx1]|apply elem_of_middle in Hx2 as [?|Hx2]]; try done;
      by eapply (rep_disj _ _ Hr _ _ _ _ _ _ x).
  - intros x Hx. apply elem_of_difference in Hx as [Hx Hxn]. rewrite elem_of_singleton in Hxn.
    destruct (rep_idle _ _ Hr x Hx) as (?&?&?&?). rewrite Hv, Hnx, Hpv.
    assert (Hxf : forall y, y ∈ l :: xs ++ ys -> x <> y)
      by (intros y Hy ->; by apply (rep_free _ _ Hr l o _ y Hl Hy)).
    destruct Hpq. rewrite !decide_False by auto. done.
  - intros l' o' ns' x Hl' Hx. destruct (decide (l' = l)) as [->|].
    + rewrite lookup_insert_eq in Hl'. injection Hl' as <- <-.
      rewrite elem_of_difference, elem_of_singleton. intros [Hi Hxn].
      apply elem_of_middle in Hx as [?|Hx]; [done|]. by apply (rep_free _ _ Hr l o _ x Hl Hx).
    + rewrite lookup_insert_ne in Hl' by done. pose proof (rep_free _ _ Hr l' o' _ x Hl' Hx). set_solver.
Qed.

Lemma rep_remove m s l o xs ys p q n m' :
  rep m s -> ll s !! l = Some (o, xs ++ n :: ys) -> cut l xs ys p q ->
  unspliced m n p q m' -> rep m' (put l o (xs ++ ys) (release n s)).
Proof.
  intros Hr Hl Hcut Hsp. destruct (rep_dll _ _ Hr l o _ Hl) as (Hd&Ho&Hnz).
  destruct (dll_neighbours _ _ _ _ _ Hd) as (p'&q'&Hcut'&Hp&Hq&_&_&_&_&Hnp&Hnq).
  assert (p' = p /\ q' = q) as [-> ->].
  { destruct Hcut as (l1&l2&Hl1&Hl2), Hcut' as (l1'&l2'&Hl1'&Hl2').
    rewrite Hl1 in Hl1'. rewrite Hl2 in Hl2'. apply app_inj_tail in Hl1' as [_ ?]. by injection Hl2' as ? _. }
  pose proof Hsp as (Hv&Hoff&Hnx&Hpv).
  assert (Hnd : n ∉ l :: xs ++ ys).
  { pose proof (dll_nodup _ _ _ Hd) as Hnd. rewrite app_comm_cons, <-Permutation_middle in Hnd.
    by apply NoDup_cons in Hnd as [? _]. }
  constructor; simpl.
  - intros l' o' ns' Hl'. rewrite Hoff. destruct (decide (l' = l)) as [->|Hne].
    + rewrite lookup_insert_eq in Hl'. injection Hl' as <- <-. split; [|split; [done|set_solver]].
      by eapply dll_remove.
    + rewrite lookup_insert_ne in Hl' by done. destruct (rep_dll _ _ Hr l' o' _ Hl') as (Hd'&Ho'&?).
      split; [|done]. eapply dll_frame; [exact Hd'| |exact Hv]. intros x Hx.
      assert (Hxf : forall y, y ∈ l :: xs ++ n :: ys -> x <> y).
      { intros y Hy ->. apply Hne. by eapply (rep_disj _ _ Hr). }
      rewrite Hnx, Hpv, !decide_False; [done|apply Hxf; set_solver..].
  - intros l1 o1 ns1 l2 o2 ns2 x Hl1 Hl2 Hx1 Hx2.
    apply lookup_insert_Some in Hl1 as [[<- [= <- <-]]|[? Hl1]];
      apply lookup_insert_Some in Hl2 as [[<- [= <- <-]]|[? Hl2]]; [done|..];
      [..|by eapply (rep_disj _ _ Hr)];
      eapply (rep_disj _ _ Hr _ _ _ _ _ _ x); eauto; apply elem_of_middle; by right.
  - intros x Hx. apply elem_of_union in Hx as [Hx|Hx].
    + apply elem_of_singleton in Hx as ->.
      destruct (dll_valid _ _ _ Hd n) as [? ?]; [set_solver|].
      rewrite Hv, Hnx, Hpv, !decide_True by done. done.
    + destruct (rep_idle _ _ Hr x Hx) as (?&?&?&?). rewrite Hv, Hnx, Hpv.
      assert (Hxf : forall y, y ∈ l :: xs ++ n :: ys -> x <> y)
        by (intros y Hy ->; by apply (rep_free _ _ Hr l o _ y Hl Hy)).
      rewrite !decide_False; [done|apply Hxf; set_solver..].
  - intros l' o' ns' x Hl' Hx. destruct (decide (l' = l)) as [->|].
    + rewrite lookup_insert_eq in Hl'. injection Hl' as <- <-.
      pose proof (rep_free _ _ Hr l o _ x Hl). set_solver.
    + rewrite lookup_insert_ne in Hl' by done. pose proof (rep_free _ _ Hr l' o' _ x Hl' Hx).
      assert (x <> n); [|set_solver]. intros ->. apply n0.
      eapply (rep_disj _ _ Hr l' _ _ l _ _ n Hl' Hl Hx). set_solver.
Qed.

(** ** Calls, and what they mean for the lists *)
Inductive lcmd :=
  | LInit (l o : Z)
  | LAppend (l item : Z)
  | LPrepend (l item : Z)
  | LInsertBefore (l item before : Z)
  | LInsertAfter (l item after : Z)
  | LRemove (l item : Z)
  | LNodeRemove (node : Z)
  | LReplace (old new : Z)
  | LFirst (l : Z)
  | LLast (l : Z)
  | LNext (l item : Z)
  | LPrev (l item : Z)
  | LActive (l item : Z)
  | LNodeActive (node : Z)
  | LEmpty (l : Z)
  | LForeach (l : Z) (fuel : nat).

Inductive lout := OMem | OPtr (p : Z) | OInt (z : Z) | OBool (b : bool) | OItems (l : list Z).

Definition lexec (m : mem) (c : lcmd) : res (mem * lout) :=
  let just r := let* m := r in Ok (m, OMem) in
  match c with
  | LInit l o => Ok (gp_list_init_offset m l o, OMem)
  | LAppend l i => just (gp_list_append m l i)
  | LPrepend l i => just (gp_list_prepend m l i)
  | LInsertBefore l i b => just (gp_list_insert_before m l i b)
  | LInsertAfter l i a => just (gp_list_insert_after m l i a)
  | LRemove l i => just (gp_list_remove m l i)
  | LNodeRemove n => just (gp_list_node_remove m n)
  | LReplace old new => just (gp_list_replace m old new)
  | LFirst l => let* p := gp_list_first m l in Ok (m, OPtr p)
  | LLast l => let* p := gp_list_last m l in Ok (m, OPtr p)
  | LNext l i => let* p := gp_list_next m l i in Ok (m, OPtr p)
  | LPrev l i => let* p := gp_list_prev m l i in Ok (m, OPtr p)
  | LActive l i => let* z := gp_list_active m l i in Ok (m, OInt z)
  | LNodeActive n => let* z := gp_list_node_active m n in Ok (m, OInt z)
  | LEmpty l => let* b := gp_list_empty m l in Ok (m, OBool b)
  | LForeach l fuel => let* its := GP_LIST_FOREACH fuel m l in Ok (m, OItems its)
  end.

(** A node as an item of a list of offset [o], or NULL. *)
Definition item_of (o : Z) (n : option Z) : Z := match n with Some n => n - o | None => 0 end.

Inductive lstep (s : lists) : lcmd -> lists -> lout -> Prop :=
  | S_init l o :
      l <> 0 -> l ∉ idle s -> (forall l' o' ns, ll s !! l' = Some (o', ns) -> l ∉ l' :: ns) ->
      lstep s (LInit l o) (put l o [] s) OMem
  | S_append l o ns n :
      ll s !! l = Some (o, ns) -> n ∈ idle s -> n - o <> 0 ->
      lstep s (LAppend l (n - o)) (put l o (ns ++ [n]) (grab n s)) OMem
  | S_prepend l o ns n :
      ll s !! l = Some (o, ns) -> n ∈ idle s -> n - o <> 0 ->
      lstep s (LPrepend l (n - o)) (put l o (n :: ns) (grab n s)) OMem
  | S_insert_before l o xs w ys n :
      ll s !! l = Some (o, xs ++ w :: ys) -> n ∈ idle s -> n - o <> 0 ->
      lstep s (LInsertBefore l (n - o) (w - o)) (put l o (xs ++ n :: w :: ys) (grab n s)) OMem
  | S_insert_after l o xs w ys n :
      ll s !! l = Some (o, xs ++ w :: ys) -> n ∈ idle s -> n - o <> 0 ->
      lstep s (LInsertAfter l (n - o) (w - o)) (put l o ((xs ++ [w]) ++ n :: ys) (grab n s)) OMem
  | S_remove l o xs n ys :
      ll s !! l = Some (o, xs ++ n :: ys) ->
      lstep s (LRemove l (n - o)) (put l o (xs ++ ys) (release n s)) OMem
  | S_node_remove l o xs n ys :
      ll s !! l = Some (o, xs ++ n :: ys) ->
      lstep s (LNodeRemove n) (put l o (xs ++ ys) (release n s)) OMem
  | S_node_remove_idle n : n ∈ idle s -> lstep s (LNodeRemove n) s OMem
  | S_first l o ns : ll s !! l = Some (o, ns) -> lstep s (LFirst l) s (OPtr (item_of o (head ns)))
  | S_last l o ns : ll s !! l = Some (o, ns) -> lstep s (LLast l) s (OPtr (item_of o (last ns)))
  | S_next l o xs n ys :
      ll s !! l = Some (o, xs ++ n :: ys) -> lstep s (LNext l (n - o)) s (OPtr (item_of o (head ys)))
  | S_next_null l : lstep s (LNext l 0) s (OPtr 0)
  | S_prev l o xs n ys :
      ll s !! l = Some (o, xs ++ n :: ys) -> lstep s (LPrev l (n - o)) s (OPtr (item_of o (last xs)))
  | S_active l o xs n ys :
      ll s !! l = Some (o, xs ++ n :: ys) -> lstep s (LActive l (n - o)) s (OInt 1)
  | S_node_active l o xs n ys :
      ll s !! l = Some (o, xs ++ n :: ys) -> lstep s (LNodeActive n) s (OInt 1)
  | S_node_inactive n : n ∈ idle s -> lstep s (LNodeActive n) s (OInt 0)
  | S_empty l o ns :
      ll s !! l = Some (o, ns) -> lstep s (LEmpty l) s (OBool (bool_decide (ns = [])))
  | S_foreach l o ns fuel :
      ll s !! l = Some (o, ns) -> (length ns <= fuel)%nat ->
      lstep s (LForeach l fuel) s (OItems ((fun n => n - o) <$> ns))
  (** Everything on [old] moves to [new]; [old] must be initialised again. *)
  | S_replace old o ns new o' :
      ll s !! old = Some (o, ns) -> ll s !! new = Some (o', []) -> old <> new ->
      lstep s (LReplace old new) (mk_lists (delete old (<[new := (o, ns)]> (ll s))) (idle s)) OMem.

(** *** The reading operations *)
Lemma dll_first m l ns : dll m l ns -> valid m l /\ nx m l = default l (head ns).
Proof.
  intros Hd. split; [apply (dll_valid _ _ _ Hd); by left|].
  pose proof (dll_chain _ _ _ Hd) as Hc. destruct ns as [|n ns]; by destruct Hc as [-> _].
Qed.
Lemma dll_last m l ns : dll m l ns -> pv m l = default l (last ns).
Proof.
  intros Hd. pose proof (dll_chain _ _ _ Hd) as Hc.
  destruct (decide (ns = [])) as [->|Hne]; [by destruct Hc as (_&->&_)|].
  destruct (exists_last Hne) as (xs&x&->). rewrite last_snoc. simpl.
  rewrite <-app_assoc in Hc.
  change (l :: xs ++ [x] ++ [l]) with ((l :: xs) ++ x :: l :: []) in Hc.
  by apply chain_join in Hc as (_&_&?&_).
Qed.
Lemma dll_at m l xs n ys :
  dll m l (xs ++ n :: ys) ->
  valid m n /\ n <> 0 /\ nx m n = default l (head ys) /\ pv m n = default l (last xs) /\ l ∉ xs ++ n :: ys.
Proof.
  intros Hd. destruct (dll_valid _ _ _ Hd n) as [? ?]; [set_solver|]. split_and!; try done.
  - destruct (dll_neighbours _ _ _ _ _ Hd) as (p&q&(l1&l2&Hl1&Hl2)&_&_&->&_).
    destruct ys; by injection Hl2 as ? _.
  - destruct (dll_neighbours _ _ _ _ _ Hd) as (p&q&(l1&l2&Hl1&Hl2)&_&_&_&->&_).
    destruct (decide (xs = [])) as [->|Hne].
    + change [l] with ([] ++ [l]) in Hl1. by apply app_inj_tail in Hl1 as [_ ->].
    + destruct (exists_last Hne) as (zs&x&->). rewrite last_snoc, app_comm_cons in *.
      by apply app_inj_tail in Hl1 as [_ ->].
  - by pose proof (dll_nodup _ _ _ Hd) as [? _]%NoDup_cons.
Qed.

Lemma NODE_ok m l o n : offsets m !! l = Some o -> NODE m l (n - o) = Ok n.
Proof. intros Ho. unfold NODE, ll_offset. rewrite Ho. cbn [of_option res_bind]. f_equal. lia. Qed.
Lemma ITEM_ok m l o n : offsets m !! l = Some o -> ITEM m l n = Ok (n - o).
Proof. intros Ho. unfold ITEM, ll_offset. by rewrite Ho. Qed.

Section Reading.
Context (m : mem) (s : lists) (Hr : rep m s) (l o : Z).

Lemma first_ok ns : ll s !! l = Some (o, ns) -> gp_list_first m l = Ok (item_of o (head ns)).
Proof using Hr.
  intros Hl. destruct (rep_dll _ _ Hr _ _ _ Hl) as (Hd&Ho&_).
  destruct (dll_first _ _ _ Hd) as [Hv Hn]. unfold gp_list_first. rewrite next_ok by done. cbn [res_bind].
  rewrite Hn. destruct ns as [|n ns]; simpl; [by rewrite Z.eqb_refl|].
  pose proof (dll_nodup _ _ _ Hd) as [Hl' _]%NoDup_cons.
  destruct (Z.eqb_spec n l); [set_solver|]. by apply ITEM_ok.
Qed.
Lemma last_ok ns : ll s !! l = Some (o, ns) -> gp_list_last m l = Ok (item_of o (last ns)).
Proof using Hr.
  intros Hl. destruct (rep_dll _ _ Hr _ _ _ Hl) as (Hd&Ho&_).
  destruct (dll_first _ _ _ Hd) as [Hv _]. unfold gp_list_last. rewrite prev_ok by done. cbn [res_bind].
  rewrite (dll_last _ _ _ Hd). destruct (last ns) as [n|] eqn:E; simpl; [|by rewrite Z.eqb_refl].
  pose proof (dll_nodup _ _ _ Hd) as [Hl' _]%NoDup_cons. apply last_Some_elem_of in E.
  destruct (Z.eqb_spec n l); [set_solver|]. by apply ITEM_ok.
Qed.
Lemma next_item_ok xs n ys :
  ll s !! l = Some (o, xs ++ n :: ys) -> gp_list_next m l (n - o) = Ok (item_of o (head ys)).
Proof using Hr.
  intros Hl. destruct (rep_dll _ _ Hr _ _ _ Hl) as (Hd&Ho&Hnz).
  destruct (dll_at _ _ _ _ _ Hd) as (Hv&_&Hn&_&Hln). unfold gp_list_next.
  destruct (Z.eqb_spec (n - o) 0); [exfalso; apply (Hnz n); set_solver|].
  rewrite (NODE_ok _ _ _ _ Ho). cbn [res_bind]. rewrite next_ok by done. cbn [res_bind]. rewrite Hn.
  destruct (dll_valid _ _ _ Hd (default l (head ys))) as [_ H0].
  { destruct ys; simpl; set_solver. }
  destruct (Z.eqb_spec (default l (head ys)) 0); [done|].
  destruct ys as [|y ys]; simpl; [by rewrite Z.eqb_refl|].
  destruct (Z.eqb_spec y l); [set_solver|]. by apply ITEM_ok.
Qed.
Lemma prev_item_ok xs n ys :
  ll s !! l = Some (o, xs ++ n :: ys) -> gp_list_prev m l (n - o) = Ok (item_of o (last xs)).
Proof using Hr.
  intros Hl. destruct (rep_dll _ _ Hr _ _ _ Hl) as (Hd&Ho&Hnz).
  destruct (dll_at _ _ _ _ _ Hd) as (Hv&_&_&Hp&Hln). unfold gp_list_prev.
  rewrite (NODE_ok _ _ _ _ Ho). cbn [res_bind]. rewrite prev_ok by done. cbn [res_bind]. rewrite Hp.
  destruct (last xs) as [x|] eqn:E; simpl; [|by rewrite Z.eqb_refl].
  apply last_Some_elem_of in E. destruct (Z.eqb_spec x l); [set_solver|]. by apply ITEM_ok.
Qed.

Lemma foreach_ok ns xs fuel :
  ll s !! l = Some (o, xs ++ ns) -> (length ns <= fuel)%nat ->
  foreach fuel m l (item_of o (head ns)) = Ok ((fun n => n - o) <$> ns).
Proof using Hr.
  revert xs fuel. induction ns as [|n ns IH]; intros xs fuel Hl Hf; [by destruct fuel|].
  destruct (rep_dll _ _ Hr _ _ _ Hl) as (_&_&Hnz).
  destruct fuel as [|fuel]; simpl in Hf; [lia|]. cbn [foreach head item_of].
  destruct (Z.eqb_spec (n - o) 0); [exfalso; apply (Hnz n); set_solver|].
  rewrite (next_item_ok _ _ _ Hl). cbn [res_bind].
  rewrite (IH (xs ++ [n]) fuel); [done|by rewrite <-app_assoc|lia].
Qed.
End Reading.

(** *** The operations that write *)
Section Writing.
Context (m : mem) (s : lists) (Hr : rep m s).

(** Everything an insertion needs at a cut of list [l]. *)
Lemma insert_setup l o xs ys n :
  ll s !! l = Some (o, xs ++ ys) -> n ∈ idle s ->
  exists p q, cut l xs ys p q /\ NODE m l (n - o) = Ok n /\ valid m n /\ valid m p /\ valid m q /\
    n <> p /\ n <> q /\ nx m p = q /\ pv m q = p.
Proof using Hr.
  intros Hl Hn. destruct (cut_exists l xs ys) as (p&q&Hcut). exists p, q.
  destruct (rep_dll _ _ Hr _ _ _ Hl) as (Hd&Ho&_).
  destruct (cut_in _ _ _ _ _ _ Hd Hcut) as (Hp&Hq&?&?).
  destruct (cut_valid _ _ _ _ _ _ Hd Hcut) as [??].
  destruct (rep_idle _ _ Hr n Hn) as (?&_).
  assert (n ∉ l :: xs ++ ys) by (intros Hin; by apply (rep_free _ _ Hr l o _ n Hl Hin)).
  split_and!; try done; [by apply NODE_ok|set_solver..].
Qed.

Lemma append_ok l o ns n :
  ll s !! l = Some (o, ns) -> n ∈ idle s -> n - o <> 0 ->
  exists m', gp_list_append m l (n - o) = Ok m' /\ rep m' (put l o (ns ++ [n]) (grab n s)).
Proof using Hr.
  intros Hl Hn Hno. rewrite <-(app_nil_r ns) in Hl.
  destruct (insert_setup l o ns [] n Hl Hn) as (p&q&Hcut&HN&Hvn&Hvp&Hvq&Hnp&Hnq&Hpq&Hqp).
  pose proof Hcut as (_&l2&_&[= <- <-]). unfold gp_list_append. rewrite HN. cbn [res_bind]. mstep. mstep. rewrite Hqp.
  destruct (set_prev_next_spliced m n p l Hvn Hvp Hvq Hnp Hnq) as (m'&Hm'&Hsp).
  exists m'. split; [exact Hm'|]. by eapply rep_insert.
Qed.

Lemma prepend_ok l o ns n :
  ll s !! l = Some (o, ns) -> n ∈ idle s -> n - o <> 0 ->
  exists m', gp_list_prepend m l (n - o) = Ok m' /\ rep m' (put l o (n :: ns) (grab n s)).
Proof using Hr.
  intros Hl Hn Hno.
  destruct (insert_setup l o [] ns n Hl Hn) as (p&q&Hcut&HN&Hvn&Hvp&Hvq&Hnp&Hnq&Hpq&Hqp).
  assert (p = l) as ->.
  { destruct Hcut as (l1&_&Hl1&_). change [l] with ([] ++ [l]) in Hl1. by apply app_inj_tail in Hl1 as [_ ->]. }
  unfold gp_list_prepend. rewrite HN. cbn [res_bind]. mstep. mstep. rewrite Hpq.
  destruct (set_next_prev_spliced m n l q Hvn Hvp Hvq Hnp Hnq) as (m'&Hm'&Hsp).
  exists m'. split; [exact Hm'|]. by eapply (rep_insert _ _ _ _ []).
Qed.

Lemma insert_before_ok l o xs w ys n :
  ll s !! l = Some (o, xs ++ w :: ys) -> n ∈ idle s -> n - o <> 0 ->
  exists m', gp_list_insert_before m l (n - o) (w - o) = Ok m' /\
    rep m' (put l o (xs ++ n :: w :: ys) (grab n s)).
Proof using Hr.
  intros Hl Hn Hno.
  destruct (insert_setup l o xs (w :: ys) n Hl Hn) as (p&q&Hcut&HN&Hvn&Hvp&Hvq&Hnp&Hnq&Hpq&Hqp).
  pose proof Hcut as (_&l2&_&[= <- _]). destruct (rep_dll _ _ Hr _ _ _ Hl) as (_&Ho&_).
  unfold gp_list_insert_before. rewrite HN. cbn [res_bind]. rewrite (NODE_ok _ _ _ w Ho). cbn [res_bind].
  mstep. destruct (set_next_prev_spliced m n p w Hvn Hvp Hvq Hnp Hnq) as (m'&Hm'&Hsp).
  exists m'. split; [|by eapply rep_insert]. rewrite <-Hm'. mstep. mstep. by rewrite Hqp.
Qed.

Lemma insert_after_ok l o xs w ys n :
  ll s !! l = Some (o, xs ++ w :: ys) -> n ∈ idle s -> n - o <> 0 ->
  exists m', gp_list_insert_after m l (n - o) (w - o) = Ok m' /\
    rep m' (put l o ((xs ++ [w]) ++ n :: ys) (grab n s)).
Proof using Hr.
  intros Hl Hn Hno. destruct (rep_dll _ _ Hr _ _ _ Hl) as (_&Ho&_).
  replace (xs ++ w :: ys) with ((xs ++ [w]) ++ ys) in Hl by (by rewrite <-app_assoc).
  destruct (insert_setup l o (xs ++ [w]) ys n Hl Hn) as (p&q&Hcut&HN&Hvn&Hvp&Hvq&Hnp&Hnq&Hpq&Hqp).
  assert (p = w) as ->.
  { destruct Hcut as (l1&_&Hl1&_). rewrite app_comm_cons in Hl1. by apply app_inj_tail in Hl1 as [_ ->]. }
  unfold gp_list_insert_after. rewrite HN. cbn [res_bind]. rewrite (NODE_ok _ _ _ w Ho). cbn [res_bind].
  mstep. destruct (set_prev_next_spliced m n w q Hvn Hvp Hvq Hnp Hnq) as (m'&Hm'&Hsp).
  exists m'. split; [|by eapply rep_insert]. rewrite <-Hm'. mstep. mstep. by rewrite Hpq.
Qed.

Lemma unlink_node_ok l o xs n ys :
  ll s !! l = Some (o, xs ++ n :: ys) ->
  exists m', unlink m n = Ok m' /\ rep m' (put l o (xs ++ ys) (release n s)).
Proof using Hr.
  intros Hl. destruct (rep_dll _ _ Hr _ _ _ Hl) as (Hd&_&_).
  destruct (dll_neighbours _ _ _ _ _ Hd) as (p&q&Hcut&Hp&Hq&?&?&_&_&?&?).
  destruct (unlink_ok m n p q) as (m'&?&?); try done; try (apply (dll_valid _ _ _ Hd); set_solver).
  exists m'. split; [done|]. by eapply rep_remove.
Qed.
End Writing.

Lemma init_ok m s l o :
  rep m s -> l <> 0 -> l ∉ idle s -> (forall l' o' ns, ll s !! l' = Some (o', ns) -> l ∉ l' :: ns) ->
  rep (gp_list_init_offset m l o) (put l o [] s).
Proof.
  intros Hr H0 Hi Hf.
  assert (Hout : forall x, x <> l -> nodes (gp_list_init_offset m l o) !! x = nodes m !! x)
    by (intros; simpl; by rewrite lookup_insert_ne).
  constructor; simpl.
  - intros l' o' ns Hl'. destruct (decide (l' = l)) as [->|Hne].
    + rewrite lookup_insert_eq in Hl'. injection Hl' as <- <-. rewrite lookup_insert_eq. split; [|set_solver].
      constructor; [apply NoDup_singleton| |].
      * intros x ->%list_elem_of_singleton. split; [|done]. unfold valid; simpl. rewrite lookup_insert_eq. eauto.
      * simpl. unfold nx, pv; simpl. by rewrite lookup_insert_eq.
    + rewrite lookup_insert_ne in Hl' by done. rewrite lookup_insert_ne by done.
      destruct (rep_dll _ _ Hr _ _ _ Hl') as (Hd&?&?). split; [|done].
      specialize (Hf _ _ _ Hl'). constructor; [apply Hd| |].
      * intros x Hx. unfold valid. rewrite Hout by set_solver. by apply (dll_valid _ _ _ Hd).
      * eapply chain_frame; [apply Hd|..]; intros x Hx; unfold nx, pv; rewrite Hout; try done.
        { change (l' :: ns ++ [l']) with ((l' :: ns) ++ [l']) in Hx. rewrite removelast_last in Hx. set_solver. }
        { simpl in Hx. set_solver. }
  - intros l1 o1 ns1 l2 o2 ns2 x Hl1 Hl2 Hx1 Hx2.
    apply lookup_insert_Some in Hl1 as [[<- [= <- <-]]|[? Hl1]];
      apply lookup_insert_Some in Hl2 as [[<- [= <- <-]]|[? Hl2]]; [done| | |by eapply (rep_disj _ _ Hr)].
    + apply list_elem_of_singleton in Hx1 as ->. by destruct (Hf _ _ _ Hl2).
    + apply list_elem_of_singleton in Hx2 as ->. by destruct (Hf _ _ _ Hl1).
  - intros n Hn. assert (n <> l) by (by intros ->). unfold valid, nx, pv. rewrite Hout by done. by apply (rep_idle _ _ Hr).
  - intros l' o' ns n Hl' Hn. apply lookup_insert_Some in Hl' as [[<- [= <- <-]]|[? Hl']].
    + by apply list_elem_of_singleton in Hn as ->.
    + by eapply (rep_free _ _ Hr).
Qed.

(** One list, empty, and initialised nodes. *)
Definition blank_mem (l : Z) (ts : list Z) : mem :=
  gp_list_init_offset (mk_mem (list_to_map ((fun t => (t, null_node)) <$> (l :: ts))) ∅) l 0.
Lemma blank_rep l ts :
  NoDup (l :: ts) -> 0 ∉ l :: ts -> rep (blank_mem l ts) (mk_lists (<[l := (0, [])]> ∅) (list_to_set ts)).
Proof.
  intros Hnd H0. pose proof Hnd as [Hl Hn]%NoDup_cons. rewrite not_elem_of_cons in H0.
  apply (init_ok (mk_mem (list_to_map ((fun t => (t, null_node)) <$> (l :: ts))) ∅) (mk_lists ∅ (list_to_set ts)) l 0);
    [|destruct H0; congruence|cbn; by rewrite elem_of_list_to_set|done].
  constructor; try done. intros t Ht. cbn in Ht. rewrite elem_of_list_to_set in Ht. unfold valid, nx, pv. cbn [nodes].
  assert (Hlk : (list_to_map ((fun t => (t, null_node)) <$> (l :: ts)) : gmap Z gp_list_node) !! t = Some null_node).
  { apply elem_of_list_to_map_1; [|apply list_elem_of_fmap; exists t; split; [done|by right]].
    rewrite <-list_fmap_compose. change (NoDup ((fun t : Z => t) <$> (l :: ts))). by rewrite list_fmap_id. }
  rewrite Hlk. split; [by eexists|]. split; [|done]. intros Hz. destruct H0 as [_ H0]. apply H0. by rewrite <-Hz.
Qed.

Lemma replace_links m old new ns o :
  dll m old ns -> dll m new [] -> (forall x, x ∈ old :: ns -> x <> new) -> offsets m !! old = Some o ->
  exists m', gp_list_replace m old new = Ok m' /\ dll m' new ns /\
    offsets m' = <[new := o]> (offsets m) /\ (forall x, valid m' x <-> valid m x) /\
    (forall x, x <> new -> x ∉ old :: ns -> nx m' x = nx m x /\ pv m' x = pv m x).
Proof.
  intros Hd Hn Hne Ho. destruct (dll_first _ _ _ Hd) as [Hvo Hfo].
  destruct (dll_first _ _ _ Hn) as [Hvn _]. pose proof (dll_last _ _ _ Hd) as Hlo.
  assert (old <> new) by (apply Hne; by left).
  unfold gp_list_replace, ll_offset. mstep. mstep. mstep. destruct (decide (new = new)); [|done].
  destruct (decide (ns = [])) as [->|Hns].
  - simpl in Hfo, Hlo. rewrite Hfo. mstep. mstep. destruct (decide (old = old)); [|done]. mstep. mstep.
    destruct (decide (new = new)); [|done]. mstep. autorewrite with links. rewrite Ho. cbn [of_option res_bind].
    eexists. split; [done|]. split; [|split; [done|split]].
    + constructor; [apply NoDup_singleton| |].
      * intros x ->%list_elem_of_singleton. autorewrite with links. split; [done|].
        apply (dll_valid _ _ _ Hn). by left.
      * cbn [chain app]. autorewrite with links. by repeat (rewrite decide_True by done).
    + intros x. by autorewrite with links.
    + intros x Hx Hxo. autorewrite with links. assert (x <> old) by set_solver.
      by repeat (rewrite decide_False by done).
  - destruct ns as [|h ns']; [done|]. simpl in Hfo.
    destruct (exists_last (l := h :: ns')) as (zs&t&Hzt); [done|].
    rewrite Hzt, last_snoc in Hlo. simpl in Hlo. rewrite Hfo.
    assert (Hvh : valid m h) by (apply (dll_valid _ _ _ Hd); set_solver).
    assert (Htn : t ∈ h :: ns') by (rewrite Hzt; set_solver).
    assert (Hvt : valid m t) by (apply (dll_valid _ _ _ Hd); set_solver).
    assert (Hoh : old <> h /\ old <> t).
    { pose proof (dll_nodup _ _ _ Hd) as [Hni _]%NoDup_cons. split; intros ->; [apply Hni; by left|done]. }
    assert (Hnh : h <> new) by (apply Hne; right; by left). assert (Hnt : t <> new) by (apply Hne; by right).
    mstep. mstep. destruct (decide (old = h)); [tauto|]. rewrite Hlo. mstep. mstep.
    destruct (decide (new = new)); [|done]. mstep. autorewrite with links. rewrite Ho. cbn [of_option res_bind].
    set (m1 := upd_next t new _).
    eexists. split; [done|].
    assert (Hnx : forall x, nx (mk_mem (nodes m1) (<[new:=o]> (offsets m1))) x =
              if decide (x = t) then new else if decide (x = new) then h else nx m x).
    { intros x. autorewrite with links. unfold m1. by autorewrite with links. }
    assert (Hpv : forall x, pv (mk_mem (nodes m1) (<[new:=o]> (offsets m1))) x =
              if decide (x = new) then t else if decide (x = h) then new else pv m x).
    { intros x. autorewrite with links. unfold m1. by autorewrite with links. }
    assert (Hvv : forall x, valid (mk_mem (nodes m1) (<[new:=o]> (offsets m1))) x <-> valid m x).
    { intros x. autorewrite with links. unfold m1. by autorewrite with links. }
    set (m2 := mk_mem _ _) in *. split; [|split; [done|split; [done|]]].
    + pose proof (dll_nodup _ _ _ Hd) as [Hoin Hndn]%NoDup_cons.
      constructor.
      * apply NoDup_cons. split; [|done]. intros Hin. by apply (Hne new); [right|].
      * intros x Hx. rewrite Hvv. apply elem_of_cons in Hx as [->|Hx].
        { apply (dll_valid _ _ _ Hn). by left. }
        apply (dll_valid _ _ _ Hd). by right.
      * pose proof (dll_chain _ _ _ Hd) as Hc.
        change (old :: (h :: ns') ++ [old]) with ([] ++ old :: h :: (ns' ++ [old])) in Hc.
        apply chain_join in Hc as (_&_&_&Hc).
        change (h :: ns' ++ [old]) with ((h :: ns') ++ [old]) in Hc. rewrite Hzt, <-app_assoc in Hc.
        apply chain_join in Hc as (Hc&_).
        change (new :: (h :: ns') ++ [new]) with ([] ++ new :: h :: (ns' ++ [new])).
        apply chain_join. split; [done|]. split; [|split].
        { rewrite Hnx, decide_False, decide_True by done. done. }
        { rewrite Hpv, decide_False, decide_True by done. done. }
        change (h :: ns' ++ [new]) with ((h :: ns') ++ [new]). rewrite Hzt, <-app_assoc.
        apply chain_join. split; [|split; [|split; [|done]]].
        { eapply chain_frame; [exact Hc|..]; intros x.
          - rewrite removelast_last. intros Hx. rewrite Hnx. rewrite Hzt in Hndn, Hne.
            apply NoDup_app in Hndn as (_&Hndn&_). rewrite !decide_False; [done|..].
            + intros ->. apply (Hne new); set_solver.
            + intros ->. apply (Hndn t); set_solver.
          - rewrite <-Hzt. simpl. intros Hx. rewrite Hpv. apply NoDup_cons in Hndn as [? _].
            rewrite !decide_False; [done|..]; intros ->; [done|]. apply (Hne new); set_solver. }
        { rewrite Hnx, decide_True by done. done. }
        { rewrite Hpv, decide_True by done. done. }
    + intros x Hx Hxo. rewrite Hnx, Hpv. rewrite !decide_False; [done|..]; intros ->; set_solver.
Qed.

Lemma replace_ok m s old o ns new o' :
  rep m s -> ll s !! old = Some (o, ns) -> ll s !! new = Some (o', []) -> old <> new ->
  exists m', gp_list_replace m old new = Ok m' /\
    rep m' (mk_lists (delete old (<[new := (o, ns)]> (ll s))) (idle s)).
Proof.
  intros Hr Hold Hnew Hne. destruct (rep_dll _ _ Hr _ _ _ Hold) as (Hd&Ho&Hnz).
  destruct (rep_dll _ _ Hr _ _ _ Hnew) as (Hn&_&_).
  assert (Hsep : forall x, x ∈ old :: ns -> x <> new).
  { intros x Hx ->. apply Hne. eapply (rep_disj _ _ Hr); eauto. by left. }
  destruct (replace_links m old new ns o Hd Hn Hsep Ho) as (m'&->&Hd'&Hoff&Hv&Hfr).
  exists m'. split; [done|].
  assert (Hll : forall l o1 ns1, delete old (<[new:=(o, ns)]> (ll s)) !! l = Some (o1, ns1) ->
            l <> old /\ (l = new /\ o1 = o /\ ns1 = ns \/ l <> new /\ ll s !! l = Some (o1, ns1))).
  { intros l o1 ns1 [? Hl]%lookup_delete_Some. split; [done|].
    apply lookup_insert_Some in Hl as [[<- [= <- <-]]|[? Hl]]; [by left|by right]. }
  assert (Hother : forall l o1 ns1 x, ll s !! l = Some (o1, ns1) -> l <> old -> l <> new -> x ∈ l :: ns1 ->
            x <> new /\ x ∉ old :: ns).
  { intros l o1 ns1 x Hl Hlo Hln Hx. split.
    - intros ->. apply Hln. eapply (rep_disj _ _ Hr _ _ _ _ _ _ new Hl Hnew); [done|by left].
    - intros Hin. apply Hlo. by eapply (rep_disj _ _ Hr _ _ _ _ _ _ x Hl Hold). }
  constructor; simpl.
  - intros l o1 ns1 Hl. destruct (Hll _ _ _ Hl) as [Hlo [(->&->&->)|[Hln Hl']]].
    + split; [done|]. split; [|done]. by rewrite Hoff, lookup_insert_eq.
    + destruct (rep_dll _ _ Hr _ _ _ Hl') as (Hdl&Hol&?). rewrite Hoff, lookup_insert_ne by done.
      split; [|done]. eapply dll_frame; [exact Hdl| |exact Hv].
      intros x Hx. destruct (Hother _ _ _ x Hl' Hlo Hln Hx). by apply Hfr.
  - intros l1 o1 ns1 l2 o2 ns2 x Hl1 Hl2 Hx1 Hx2.
    destruct (Hll _ _ _ Hl1) as [Hlo1 [(->&->&->)|[Hln1 Hl1']]];
      destruct (Hll _ _ _ Hl2) as [Hlo2 [(->&->&->)|[Hln2 Hl2']]]; [done|..].
    + exfalso. destruct (Hother _ _ _ x Hl2' Hlo2 Hln2 Hx2). set_solver.
    + exfalso. destruct (Hother _ _ _ x Hl1' Hlo1 Hln1 Hx1). set_solver.
    + by eapply (rep_disj _ _ Hr).
  - intros n Hi. destruct (rep_idle _ _ Hr n Hi) as (?&?&?&?).
    destruct (Hfr n) as [-> ->]; [| |by rewrite Hv].
    + intros ->. eapply (rep_free _ _ Hr new _ _ new); [done|by left|done].
    + intros Hin. by eapply (rep_free _ _ Hr old).
  - intros l o1 ns1 x Hl Hx. destruct (Hll _ _ _ Hl) as [Hlo [(->&->&->)|[Hln Hl']]].
    + apply elem_of_cons in Hx as [->|Hx]; [eapply (rep_free _ _ Hr new); [done|by left]|].
      eapply (rep_free _ _ Hr old); [done|by right].
    + by eapply (rep_free _ _ Hr l).
Qed.

(** *** Every call *)
Lemma lexec_ok m s c s' out :
  rep m s -> lstep s c s' out -> exists m', lexec m c = Ok (m', out) /\ rep m' s'.
Proof.
  intros Hr Hs. destruct Hs; cbn [lexec].
  - eexists. split; [done|]. by apply init_ok.
  - destruct (append_ok m s Hr _ _ _ _ H H0 H1) as (m'&->&?). cbn [res_bind]. eauto.
  - destruct (prepend_ok m s Hr _ _ _ _ H H0 H1) as (m'&->&?). cbn [res_bind]. eauto.
  - destruct (insert_before_ok m s Hr _ _ _ _ _ _ H H0 H1) as (m'&->&?). cbn [res_bind]. eauto.
  - destruct (insert_after_ok m s Hr _ _ _ _ _ _ H H0 H1) as (m'&->&?). cbn [res_bind]. eauto.
  - destruct (rep_dll _ _ Hr _ _ _ H) as (_&Ho&_). unfold gp_list_remove. rewrite (NODE_ok _ _ _ _ Ho). cbn [res_bind].
    destruct (unlink_node_ok m s Hr _ _ _ _ _ H) as (m'&->&?). cbn [res_bind]. eauto.
  - destruct (rep_dll _ _ Hr _ _ _ H) as (Hd&_&_). destruct (dll_neighbours _ _ _ _ _ Hd) as (p&q&_&_&Hq&Hn&_).
    unfold gp_list_node_remove. rewrite next_ok by (apply (dll_valid _ _ _ Hd); set_solver). cbn [res_bind].
    destruct (dll_valid _ _ _ Hd q) as [_ ?]; [set_solver|]. rewrite Hn. destruct (Z.eqb_spec q 0); [done|].
    destruct (unlink_node_ok m s Hr _ _ _ _ _ H) as (m'&->&?). cbn [res_bind]. eauto.
  - destruct (rep_idle _ _ Hr _ H) as (Hv&_&Hn&_). unfold gp_list_node_remove. rewrite next_ok by done.
    cbn [res_bind]. rewrite Hn. simpl. eauto.
  - rewrite (first_ok m s Hr _ _ _ H). simpl. eauto.
  - rewrite (last_ok m s Hr _ _ _ H). simpl. eauto.
  - rewrite (next_item_ok m s Hr _ _ _ _ _ H). simpl. eauto.
  - simpl. eauto.
  - rewrite (prev_item_ok m s Hr _ _ _ _ _ H). simpl. eauto.
  - destruct (rep_dll _ _ Hr _ _ _ H) as (Hd&Ho&_). unfold gp_list_active. rewrite (NODE_ok _ _ _ _ Ho). cbn [res_bind].
    destruct (dll_neighbours _ _ _ _ _ Hd) as (p&q&_&_&Hq&Hn&_).
    rewrite next_ok by (apply (dll_valid _ _ _ Hd); set_solver). cbn [res_bind]. rewrite Hn.
    destruct (dll_valid _ _ _ Hd q) as [_ ?]; [set_solver|]. destruct (Z.eqb_spec q 0); [done|]. eauto.
  - destruct (rep_dll _ _ Hr _ _ _ H) as (Hd&_&_). unfold gp_list_node_active.
    destruct (dll_neighbours _ _ _ _ _ Hd) as (p&q&_&_&Hq&Hn&_).
    rewrite next_ok by (apply (dll_valid _ _ _ Hd); set_solver). cbn [res_bind]. rewrite Hn.
    destruct (dll_valid _ _ _ Hd q) as [_ ?]; [set_solver|]. destruct (Z.eqb_spec q 0); [done|]. eauto.
  - destruct (rep_idle _ _ Hr _ H) as (Hv&_&Hn&_). unfold gp_list_node_active. rewrite next_ok by done.
    cbn [res_bind]. rewrite Hn. simpl. eauto.
  - destruct (rep_dll _ _ Hr _ _ _ H) as (Hd&_&_). destruct (dll_first _ _ _ Hd) as [Hv Hn].
    unfold gp_list_empty. rewrite next_ok by done. cbn [res_bind]. rewrite Hn. eexists. split; [|done].
    do 3 f_equal. destruct (dll_valid _ _ _ Hd (default l (head ns))) as [_ ?]; [destruct ns; set_solver|].
    destruct (Z.eqb_spec (default l (head ns)) 0); [done|]. simpl.
    destruct ns as [|n0 ns]; simpl; [by rewrite Z.eqb_refl|].
    pose proof (dll_nodup _ _ _ Hd) as [? _]%NoDup_cons. destruct (Z.eqb_spec n0 l); [set_solver|done].
  - unfold GP_LIST_FOREACH. rewrite (first_ok m s Hr _ _ _ H). cbn [res_bind].
    rewrite (foreach_ok m s Hr l o ns [] fuel) by done. cbn [res_bind]. eauto.
  - destruct (replace_ok m s _ _ _ _ _ Hr H H0 H1) as (m'&->&?). cbn [res_bind]. eauto.
Qed.

Fixpoint lrun (m : mem) (cs : list lcmd) : res (mem * list lout) :=
  match cs with
  | [] => Ok (m, [])
  | c :: cs => let* (m, o) := lexec m c in let* (m, os) := lrun m cs in Ok (m, o :: os)
  end.
Inductive lsteps : lists -> list lcmd -> lists -> list lout -> Prop :=
  | lsteps_nil s : lsteps s [] s []
  | lsteps_cons s c s1 o cs s2 os : lstep s c s1 o -> lsteps s1 cs s2 os -> lsteps s (c :: cs) s2 (o :: os).

(** C11.  The pointer manipulations implement lists: whatever sequence of
    calls is legal on the abstract lists, run on a memory that represents
    them, stays within valid memory, returns what the lists say (items,
    activity, emptiness, traversal order), and leaves a memory representing
    the resulting lists; lists not named are untouched. *)
Theorem gp_list_refines_lists (m : mem) (s s' : lists) (cs : list lcmd) (os : list lout) :
  rep m s -> lsteps s cs s' os -> exists m', lrun m cs = Ok (m', os) /\ rep m' s'.
Proof.
  intros Hr Hs. revert m Hr. induction Hs as [s|s c s1 o cs s2 os Hc _ IH]; intros m Hr; [by exists m|].
  cbn [lrun]. destruct (lexec_ok m s c s1 o Hr Hc) as (m1&->&Hr1). cbn [res_bind].
  destruct (IH m1 Hr1) as (m2&->&?). cbn [res_bind]. eauto.
Qed.

(** A memory with two initialised nodes and no list. *)
Definition demo_mem : mem := mk_mem {[ 208 := null_node; 308 := null_node ]} ∅.
Definition demo_lists : lists := mk_lists ∅ {[ 208; 308 ]}.
Lemma demo_rep : rep demo_mem demo_lists.
Proof.
  constructor; simpl.
  - intros l o ns Hl. by rewrite lookup_empty in Hl.
  - intros l o ns l' o' ns' x Hl. by rewrite lookup_empty in Hl.
  - intros n Hn. assert (n = 208 \/ n = 308) as [-> | ->] by set_solver; (split; [by vm_compute; eexists|]; by vm_compute).
  - intros l o ns n Hl. by rewrite lookup_empty in Hl.
Qed.

Lemma demo_no_list l o ns : ll demo_lists !! l = Some (o, ns) -> False.
Proof. simpl. by rewrite lookup_empty. Qed.

Lemma gp_list_refines_lists_witness :
  exists m', lrun demo_mem [LInit 1000 8; LAppend 1000 200; LPrepend 1000 300; LForeach 1000 2; LNodeRemove 208] =
      Ok (m', [OMem; OMem; OMem; OItems [300; 200]; OMem]) /\
    rep m' (put 1000 8 [308] (release 208 (put 1000 8 [308; 208] (grab 308
             (put 1000 8 [208] (grab 208 (put 1000 8 [] demo_lists))))))).
Proof.
  apply (gp_list_refines_lists demo_mem demo_lists); [apply demo_rep|].
  eapply lsteps_cons; [apply (S_init _ 1000 8); [done|set_solver|intros ??? Hl; by apply demo_no_list in Hl]|].
  eapply lsteps_cons; [apply (S_append _ 1000 8 [] 208); [done|set_solver|done]|].
  eapply lsteps_cons; [apply (S_prepend _ 1000 8 [208] 308); [done|set_solver|done]|].
  eapply lsteps_cons; [apply (S_foreach _ 1000 8 [308; 208]); [done|simpl; lia]|].
  eapply lsteps_cons; [apply (S_node_remove _ 1000 8 [308] 208 []); done|].
  apply lsteps_nil.
Defined.

(** *** Removing during a traversal *)
Definition drained (l o : Z) (ns : list Z) (s : lists) : lists :=
  mk_lists (<[l := (o, [])]> (ll s)) (list_to_set ns ∪ idle s).

Lemma foreach_safe_drains m s l o ns fuel :
  rep m s -> ll s !! l = Some (o, ns) -> (length ns <= fuel)%nat ->
  exists m', foreach_safe fuel (fun m i => gp_list_remove m l i) m l (item_of o (head ns))
      (item_of o (head (tail ns))) = Ok m' /\ rep m' (drained l o ns s).
Proof.
  revert m s fuel. induction ns as [|n ns IH]; intros m s fuel Hr Hl Hf.
  { exists m. split; [by destruct fuel|]. unfold drained. simpl.
    rewrite (insert_id _ _ _ Hl), (left_id_L ∅ union). by destruct s. }
  destruct (rep_dll _ _ Hr _ _ _ Hl) as (_&Ho&Hnz).
  destruct fuel as [|fuel]; simpl in Hf; [lia|]. cbn [foreach_safe head item_of tail].
  destruct (Z.eqb_spec (n - o) 0); [exfalso; apply (Hnz n); [by left|done]|].
  unfold gp_list_remove at 1. rewrite (NODE_ok _ _ _ _ Ho). cbn [res_bind].
  destruct (unlink_node_ok m s Hr l o [] n ns Hl) as (m1&->&Hr1). cbn [res_bind app] in *.
  set (s1 := put l o ns (release n s)) in *.
  assert (Hl1 : ll s1 !! l = Some (o, ns)) by (simpl; by rewrite lookup_insert_eq).
  assert (Hnx : gp_list_next m1 l (item_of o (head ns)) = Ok (item_of o (head (tail ns)))).
  { destruct ns as [|n' ns]; [done|]. apply (next_item_ok m1 s1 Hr1 l o [] n' ns Hl1). }
  rewrite Hnx. cbn [res_bind].
  destruct (IH m1 s1 fuel Hr1 Hl1) as (m'&->&Hr'); [lia|]. exists m'. split; [done|].
  unfold drained in *. simpl in *. rewrite insert_insert_eq in Hr'.
  by replace ({[n]} ∪ list_to_set ns ∪ idle s) with (list_to_set ns ∪ ({[n]} ∪ idle s)) by set_solver.
Qed.

(** [GP_LIST_FOREACH_SAFE] visits every item even though its body removes
    the item it is given: the list ends empty, every node it held is reusable,
    and the other lists are as before. *)
Theorem foreach_safe_removes_all (m : mem) (s : lists) (l o : Z) (ns : list Z) (fuel : nat) :
  rep m s -> ll s !! l = Some (o, ns) -> (length ns <= fuel)%nat ->
  exists m', GP_LIST_FOREACH_SAFE fuel (fun m i => gp_list_remove m l i) m l = Ok m' /\
    rep m' (drained l o ns s).
Proof.
  intros Hr Hl Hf. unfold GP_LIST_FOREACH_SAFE. rewrite (first_ok m s Hr _ _ _ Hl). cbn [res_bind].
  assert (gp_list_next m l (item_of o (head ns)) = Ok (item_of o (head (tail ns)))) as ->.
  { destruct ns as [|n ns]; [done|]. by apply (next_item_ok m s Hr l o [] n ns). }
  cbn [res_bind]. by apply foreach_safe_drains.
Qed.

Lemma foreach_safe_removes_all_witness :
  exists m', GP_LIST_FOREACH_SAFE 5 (fun m i => gp_list_remove m 1000 i)
               (gp_list_init_offset demo_mem 1000 8) 1000 = Ok m' /\
    rep m' (drained 1000 8 [] (put 1000 8 [] demo_lists)).
Proof.
  apply (foreach_safe_removes_all _ _ 1000 8 [] 5).
  - apply init_ok; [apply demo_rep|done|set_solver|]. intros ??? Hl. by apply demo_no_list in Hl.
  - reflexivity.
  - simpl. lia.
Defined.
