(* ===== verification/Module.v ===== *)
(** * gp_module.c: the list of modules and their initialisation

    A module is known by its address, which is that of its list node, the
    first member.  [called] records the calls of the modules' [init] and
    [early_init] functions, whose own effects are the program's. *)

From S2P Require Import Prelude GpList.
Local Open Scope Z_scope.

Definition MODULE_INIT_FIRST : Z := 0.
(** Functions are numbered; [None] is NULL. *)
Record gp_module_desc := mk_module {
  type : Z;
  priority : Z;
  init : option nat;
  early_init : option nat;
  stat_init : Z;
}.
Definition set_stat (d : gp_module_desc) : gp_module_desc := mk_module (type d) (priority d) (init d) (early_init d) 1.
Record modules := mk_modules { memory : mem; descs : gmap Z gp_module_desc; called : list nat }.
Definition desc_at (w : modules) (a : Z) : res gp_module_desc := of_option (descs w !! a).
Definition set_mem (w : modules) (m : mem) : modules := mk_modules m (descs w) (called w).
Definition call (w : modules) (f : nat) : modules := mk_modules (memory w) (descs w) (called w ++ [f]).

Section Modules.
(** The address of [first_list]. *)
Context (first_list : Z).

(** [init_moudle_list] runs before [main]. *)
Definition init_moudle_list (w : modules) : modules := set_mem w (gp_list_init_offset (memory w) first_list 0).

(** [GP_LIST_FOREACH(list, pos)] with the body of each function; [fuel]: the
    list is no longer than there are nodes in memory. *)
Fixpoint init_loop (fuel : nat) (w : modules) (pos : Z) : res modules :=
  if pos =? 0 then Ok w
  else
    match fuel with
    | O => Ub
    | S fuel =>
        let* d := desc_at w pos in
        let w := match init d with
                 | Some f => call (mk_modules (memory w) (<[pos := set_stat d]> (descs w)) (called w)) f
                 | None => w
                 end in
        let* next := gp_list_next (memory w) first_list pos in
        init_loop fuel w next
    end.
Definition nodes_fuel (w : modules) : nat := size (nodes (memory w)).
Definition gp_init_module (w : modules) : res modules :=
  let* pos := gp_list_first (memory w) first_list in init_loop (nodes_fuel w) w pos.

Fixpoint register_loop (fuel : nat) (w : modules) (module pos : Z) : res modules :=
  if pos =? 0 then let* m := gp_list_append (memory w) first_list module in Ok (set_mem w m)
  else
    match fuel with
    | O => Ub
    | S fuel =>
        let* p := desc_at w pos in
        let* d := desc_at w module in
        if priority d <? priority p then
          let* m := gp_list_insert_after (memory w) first_list module pos in Ok (set_mem w m)
        else let* next := gp_list_next (memory w) first_list pos in register_loop fuel w module next
    end.
Definition gp_register_module_main (w : modules) (module : Z) : res modules :=
  let* pos := gp_list_first (memory w) first_list in register_loop (nodes_fuel w) w module pos.
Definition gp_register_module (w : modules) (module : Z) : res modules :=
  let* d := desc_at w module in
  if type d =? MODULE_INIT_FIRST then gp_register_module_main w module else Ok w.
Definition gp_init_modules (w : modules) : res (modules * Z) := let* w := gp_init_module w in Ok (w, 0).

(** The constructor that [gp_module_init(module, ...)] defines.  [module] is
    a local variable of it, at address [a]: its priority is not set, and it
    ceases to exist when the constructor returns. *)
Definition gp_module_init (a ty junk_priority : Z) (func1 func2 : option nat) (w : modules) : res modules :=
  let w := match func2 with Some f => call w f | None => w end in
  let module := mk_module ty junk_priority func1 func2 0 in
  let w := mk_modules (mk_mem (<[a := null_node]> (nodes (memory w))) (offsets (memory w))) (<[a := module]> (descs w)) (called w) in
  let* w := gp_register_module w a in
  Ok (mk_modules (mk_mem (delete a (nodes (memory w))) (offsets (memory w))) (delete a (descs w)) (called w)).
End Modules.

(** ** Where a module goes *)
Section Place.
Context (prio : Z -> Z).
(** Behind the first one with a larger priority number, or to the end. *)
Fixpoint place (a : Z) (l : list Z) : list Z :=
  match l with
  | [] => [a]
  | w :: l => if prio a <? prio w then w :: a :: l else w :: place a l
  end.
Lemma place_perm a l : place a l ≡ₚ a :: l.
Proof.
  induction l as [|w l IH]; [done|]. cbn. destruct (_ <? _); [apply Permutation_swap|]. rewrite IH. apply Permutation_swap.
Qed.
End Place.

Section Props.
Context (fl : Z).
Implicit Types (w : modules) (ns xs ys : list Z).

(** Modules that stay where they are: registered ones are in [ns], in order. *)
Record registered w ns (idles : gset Z) : Prop := {
  rg_rep : rep (memory w) (mk_lists (<[fl := (0, ns)]> ∅) idles);
  rg_descs : forall a, a ∈ ns \/ a ∈ idles -> is_Some (descs w !! a);
}.
Definition prio_of w (a : Z) : Z := default 0 (priority <$> descs w !! a).

Lemma registered_dll w ns idles : registered w ns idles -> dll (memory w) fl ns /\ forall a, a ∈ ns -> a <> 0.
Proof.
  intros [Hr _]. destruct (rep_dll _ _ Hr fl 0 ns) as (Hd&_&Hz); [cbn; by rewrite lookup_insert_eq|]. split; [done|].
  intros a Ha ->. by apply (Hz 0).
Qed.
Lemma nodes_enough w ns idles : registered w ns idles -> (length ns <= nodes_fuel w)%nat.
Proof.
  intros Hr. destruct (registered_dll _ _ _ Hr) as [Hd _]. pose proof (dll_nodup _ _ _ Hd) as [_ Hnd]%NoDup_cons.
  unfold nodes_fuel. rewrite <-(size_list_to_set (C := gset Z) ns) by done. rewrite <-(size_dom (D := gset Z)). apply subseteq_size.
  intros a Ha%elem_of_list_to_set. apply elem_of_dom. destruct (dll_valid _ _ _ Hd a) as [Hv _]; [by right|exact Hv].
Qed.
Lemma item_zero a : item_of 0 (Some a) = a.
Proof. cbn. lia. Qed.
Lemma next_in w xs a ys idles :
  registered w (xs ++ a :: ys) idles -> gp_list_next (memory w) fl a = Ok (item_of 0 (head ys)).
Proof.
  intros [Hr _]. pose proof (next_item_ok _ _ Hr fl 0 xs a ys) as Hn. rewrite Z.sub_0_r in Hn. apply Hn.
  cbn. by rewrite lookup_insert_eq.
Qed.

Lemma append_in w ns idles a : registered w ns idles -> a ∈ idles ->
  exists m, gp_list_append (memory w) fl a = Ok m /\ registered (set_mem w m) (ns ++ [a]) (idles ∖ {[a]}).
Proof.
  intros [Hr Hd] Ha. destruct (rep_idle _ _ Hr a Ha) as (_&H0&_).
  destruct (append_ok _ _ Hr fl 0 ns a) as (m&Hm&Hr'); [cbn; by rewrite lookup_insert_eq|done|lia|]. rewrite Z.sub_0_r in Hm.
  exists m. split; [done|]. unfold put, grab in Hr'. cbn [ll idle] in Hr'. rewrite insert_insert_eq in Hr'.
  split; [exact Hr'|]. cbn. intros x [Hx|Hx]; apply Hd; set_solver.
Qed.
Lemma insert_in w xs p ys idles a : registered w (xs ++ p :: ys) idles -> a ∈ idles ->
  exists m, gp_list_insert_after (memory w) fl a p = Ok m /\ registered (set_mem w m) (xs ++ p :: a :: ys) (idles ∖ {[a]}).
Proof.
  intros [Hr Hd] Ha. destruct (rep_idle _ _ Hr a Ha) as (_&H0&_).
  destruct (insert_after_ok _ _ Hr fl 0 xs p ys a) as (m&Hm&Hr'); [cbn; by rewrite lookup_insert_eq|done|lia|].
  rewrite !Z.sub_0_r in Hm. exists m. split; [done|]. unfold put, grab in Hr'. cbn [ll idle] in Hr'.
  rewrite insert_insert_eq, <-app_assoc in Hr'. split; [exact Hr'|]. cbn. intros x Hx. apply Hd.
  rewrite elem_of_app, !elem_of_cons in Hx. rewrite elem_of_app, elem_of_cons. set_solver.
Qed.

(** Registering puts the module in its place. *)
Lemma register_loop_ok fuel w xs ys idles a :
  registered w (xs ++ ys) idles -> a ∈ idles -> (length ys <= fuel)%nat ->
  exists m, register_loop fl fuel w a (item_of 0 (head ys)) = Ok (set_mem w m) /\
    registered (set_mem w m) (xs ++ place (prio_of w) a ys) (idles ∖ {[a]}).
Proof.
  revert xs ys. induction fuel as [|fuel IH]; intros xs ys Hreg Ha Hf.
  { destruct ys; [|simpl in Hf; lia]. rewrite app_nil_r in Hreg. cbn.
    destruct (append_in w xs idles a Hreg Ha) as (m&->&Hm). cbn [res_bind]. by exists m. }
  destruct ys as [|p ys]; cbn [register_loop head].
  { rewrite app_nil_r in Hreg. cbn. destruct (append_in w xs idles a Hreg Ha) as (m&->&Hm). cbn [res_bind]. by exists m. }
  rewrite item_zero. destruct (registered_dll _ _ _ Hreg) as [_ Hnz]. destruct (Z.eqb_spec p 0) as [->|_]; [by destruct (Hnz 0); [set_solver|]|].
  destruct (rg_descs _ _ _ Hreg p) as [dp Hdp]; [left; set_solver|]. destruct (rg_descs _ _ _ Hreg a) as [da Hda]; [by right|].
  unfold desc_at. rewrite Hdp, Hda. cbn [of_option res_bind place]. unfold prio_of at 1 2. rewrite Hdp, Hda. cbn [fmap option_fmap option_map default from_option id].
  destruct (priority da <? priority dp).
  - destruct (insert_in w xs p ys idles a Hreg Ha) as (m&->&Hm). cbn [res_bind]. by exists m.
  - rewrite (next_in _ _ _ _ _ Hreg). cbn [res_bind]. replace (xs ++ p :: ys) with ((xs ++ [p]) ++ ys) in Hreg by (by rewrite <-app_assoc).
    destruct (IH (xs ++ [p]) ys Hreg Ha) as (m&->&Hm); [simpl in Hf; lia|]. exists m. split; [done|].
    by rewrite <-app_assoc in Hm.
Qed.
Lemma module_register_ok w ns idles a d :
  registered w ns idles -> a ∈ idles -> descs w !! a = Some d -> type d = MODULE_INIT_FIRST ->
  exists m, gp_register_module fl w a = Ok (set_mem w m) /\ registered (set_mem w m) (place (prio_of w) a ns) (idles ∖ {[a]}).
Proof.
  intros Hreg Ha Hd Ht. unfold gp_register_module, desc_at. rewrite Hd. cbn [of_option res_bind]. rewrite Ht, Z.eqb_refl.
  unfold gp_register_module_main. destruct Hreg as [Hr Hds] eqn:E. rewrite (first_ok _ _ Hr fl 0 ns) by (cbn; by rewrite lookup_insert_eq).
  cbn [res_bind]. apply (register_loop_ok _ w [] ns idles a); [done|done|]. by eapply nodes_enough.
Qed.

(** Initialising calls every registered module's function. *)
Definition inits (ds : gmap Z gp_module_desc) (l : list Z) : list nat := omap (fun a => d ← ds !! a; init d) l.
Definition marked w : gmap Z gp_module_desc -> list Z -> Prop := fun ds l =>
  forall a, ds !! a = (if decide (a ∈ l) then (fun d => match init d with Some _ => set_stat d | None => d end) <$> descs w !! a else descs w !! a).
Lemma init_loop_ok fuel w xs ys idles :
  registered w (xs ++ ys) idles -> NoDup ys -> (length ys <= fuel)%nat ->
  exists ds, init_loop fl fuel w (item_of 0 (head ys)) = Ok (mk_modules (memory w) ds (called w ++ inits (descs w) ys)) /\ marked w ds ys.
Proof.
  revert w xs ys. induction fuel as [|fuel IH]; intros w xs ys Hreg Hnd Hf.
  { destruct ys; [|simpl in Hf; lia]. exists (descs w). cbn. rewrite app_nil_r. split; [by destruct w|by intros a]. }
  destruct ys as [|p ys]; [exists (descs w); cbn; rewrite app_nil_r; split; [by destruct w|by intros a]|].
  cbn [init_loop head]. rewrite item_zero. destruct (registered_dll _ _ _ Hreg) as [_ Hnz].
  destruct (Z.eqb_spec p 0) as [->|_]; [by destruct (Hnz 0); [set_solver|]|].
  destruct (rg_descs _ _ _ Hreg p) as [dp Hdp]; [left; set_solver|]. unfold desc_at. rewrite Hdp. cbn [of_option res_bind].
  apply NoDup_cons in Hnd as [Hp Hnd]. set (w1 := match init dp with Some f => _ | None => w end).
  assert (Hw1 : memory w1 = memory w /\ called w1 = called w ++ option_list (init dp) /\
    forall a, descs w1 !! a = if decide (a = p) then Some (match init dp with Some _ => set_stat dp | None => dp end) else descs w !! a).
  { unfold w1. destruct (init dp) as [f|]; cbn; (split_and!; [done|by rewrite ?app_nil_r|]); intros a;
      destruct (decide (a = p)) as [->|]; rewrite ?lookup_insert_eq, ?lookup_insert_ne by done; done. }
  destruct Hw1 as (Hm1&Hc1&Hd1). rewrite Hm1, (next_in _ _ _ _ _ Hreg). cbn [res_bind].
  assert (Hreg1 : registered w1 ((xs ++ [p]) ++ ys) idles).
  { rewrite <-app_assoc. destruct Hreg as [Hr Hds]. split; [by rewrite Hm1|]. intros a Ha. rewrite Hd1. destruct (decide _); [by eexists|by apply Hds]. }
  destruct (IH w1 (xs ++ [p]) ys Hreg1 Hnd) as (ds&->&Hmk); [simpl in Hf; lia|]. exists ds.
  assert (Hin : inits (descs w1) ys = inits (descs w) ys).
  { unfold inits. apply list_omap_ext, Forall_Forall2_diag, Forall_forall. intros a Ha. rewrite Hd1, decide_False; [done|set_solver]. }
  rewrite Hm1, Hc1, Hin. split.
  - do 2 f_equal. cbn [inits omap list_omap]. rewrite Hdp. cbn. rewrite <-app_assoc. by destruct (init dp).
  - intros a. rewrite Hmk, Hd1. destruct (decide (a = p)) as [->|Hne].
    + rewrite decide_False by done. rewrite decide_True by (by left). by rewrite Hdp.
    + destruct (decide (a ∈ ys)); [rewrite decide_True by (by right)|rewrite decide_False by set_solver]; done.
Qed.
End Props.

(** The head of the list is read, whatever becomes of another node. *)
Lemma first_delete m a fl : a <> fl -> gp_list_first (mk_mem (delete a (nodes m)) (offsets m)) fl = gp_list_first m fl.
Proof. intros Hne. unfold gp_list_first, next, load. cbn [nodes]. by rewrite lookup_delete_ne. Qed.
Lemma first_insert m a fl : a <> fl -> gp_list_first (mk_mem (<[a := null_node]> (nodes m)) (offsets m)) fl = gp_list_first m fl.
Proof. intros Hne. unfold gp_list_first, next, load. cbn [nodes]. by rewrite lookup_insert_ne. Qed.

(** ** The properties *)
Fixpoint register_all (fl : Z) (w : modules) (l : list Z) : res modules :=
  match l with [] => Ok w | a :: l => let* w := gp_register_module fl w a in register_all fl w l end.
(** Static modules, before anything has run. *)
Definition static (fl : Z) (mods : list (Z * gp_module_desc)) : modules :=
  mk_modules (mk_mem (list_to_map ((fun t => (t, null_node)) <$> (fl :: mods.*1))) ∅) (list_to_map mods) [].
Definition order (prio : Z -> Z) (l : list Z) : list Z := foldl (fun ns a => place prio a ns) [] l.
Definition mod_prio (mods : list (Z * gp_module_desc)) (a : Z) : Z := default 0 (priority <$> (list_to_map mods : gmap Z gp_module_desc) !! a).

Lemma register_all_ok fl l w ns idles :
  registered fl w ns idles -> NoDup l -> (forall a, a ∈ l -> a ∈ idles /\ exists d, descs w !! a = Some d /\ type d = MODULE_INIT_FIRST) ->
  exists m idles', register_all fl w l = Ok (set_mem w m) /\
    registered fl (set_mem w m) (foldl (fun ns a => place (prio_of w) a ns) ns l) idles'.
Proof.
  revert w ns idles. induction l as [|a l IH]; intros w ns idles Hr Hnd Hl; cbn [register_all foldl].
  { exists (memory w), idles. by destruct w. }
  destruct (Hl a) as (Ha&d&Hd&Ht); [by left|]. apply NoDup_cons in Hnd as [Hal Hnd].
  destruct (module_register_ok fl w ns idles a d Hr Ha Hd Ht) as (m&->&Hm). cbn [res_bind].
  destruct (IH (set_mem w m) _ _ Hm Hnd) as (m'&idles'&->&Hm'); [|by exists m', idles'].
  intros b Hb. destruct (Hl b) as (Hbi&?); [by right|]. split; [set_solver|done].
Qed.
Lemma order_perm prio l ns : foldl (fun ns a => place prio a ns) ns l ≡ₚ l ++ ns.
Proof.
  revert ns. induction l as [|a l IH]; intros ns; [done|]. cbn. rewrite IH, place_perm. symmetry. apply Permutation_middle.
Qed.

(** C27. Modules in static storage that are registered one after another are
    all initialised by [gp_init_modules]: each [init] that is not NULL is
    called exactly once, in the order of the list, in which a module stands
    behind the first one with a larger priority number, or else last; and
    its [stat.init] is set. *)
Theorem modules_initialised_once (fl : Z) (mods : list (Z * gp_module_desc)) :
  NoDup (fl :: mods.*1) -> 0 ∉ fl :: mods.*1 -> Forall (fun m => type m.2 = MODULE_INIT_FIRST) mods ->
  exists w w', register_all fl (init_moudle_list fl (static fl mods)) mods.*1 = Ok w /\ gp_init_modules fl w = Ok (w', 0) /\
    called w' = inits (list_to_map mods) (order (mod_prio mods) mods.*1) /\ called w' ≡ₚ omap (fun m => init m.2) mods /\
    forall a d, (a, d) ∈ mods -> descs w' !! a = Some (match init d with Some _ => set_stat d | None => d end).
Proof.
  intros Hnd H0 Hty. pose proof Hnd as [_ Hnd']%NoDup_cons. set (w0 := init_moudle_list fl (static fl mods)).
  assert (Hlk : forall a d, (a, d) ∈ mods -> descs w0 !! a = Some d) by (intros; by apply elem_of_list_to_map_1).
  assert (Hr0 : registered fl w0 [] (list_to_set mods.*1)).
  { split; [by apply blank_rep|]. intros a [Ha|Ha]; [by apply not_elem_of_nil in Ha|].
    apply elem_of_list_to_set, list_elem_of_fmap in Ha as ([a' d]&->&Ha). exists d. by apply Hlk. }
  destruct (register_all_ok fl mods.*1 w0 [] _ Hr0 Hnd') as (m&idles&Hreg&Hr).
  { intros a Ha. split; [by apply elem_of_list_to_set|]. apply list_elem_of_fmap in Ha as ([a' d]&->&Ha). exists d.
    split; [by apply Hlk|]. rewrite Forall_forall in Hty. by apply (Hty (a', d)). }
  pose proof (order_perm (prio_of w0) mods.*1 []) as Hperm. rewrite app_nil_r in Hperm. set (ns := foldl _ [] _) in *.
  exists (set_mem w0 m). unfold gp_init_modules, gp_init_module. destruct (Hr) as [Hrep _].
  rewrite (first_ok _ _ Hrep fl 0 ns) by (cbn; by rewrite lookup_insert_eq). cbn [res_bind].
  destruct (init_loop_ok fl (nodes_fuel (set_mem w0 m)) (set_mem w0 m) [] ns idles Hr) as (ds&->&Hmk); [by rewrite Hperm|by eapply nodes_enough|].
  cbn [res_bind]. eexists. split_and!; [done|done|done| |].
  - cbn [called set_mem app]. unfold inits. rewrite Hperm. change (called w0) with (@nil nat). cbn [app].
    erewrite list_omap_ext; [reflexivity|]. apply Forall2_fmap_l, Forall_Forall2_diag, Forall_forall.
    intros [a d] Ha. change (((descs w0 !! a) ≫= fun d0 => init d0) = init d). by rewrite (Hlk a d Ha).
  - intros a d Ha. cbn [descs]. rewrite Hmk. rewrite decide_True.
    + cbn [descs set_mem]. by rewrite (Hlk a d Ha).
    + rewrite Hperm. apply list_elem_of_fmap. by exists (a, d).
Qed.

(** A module declared with [gp_module_init] is a local variable of its
    constructor: once that has returned, the list holds a dangling pointer,
    and both [gp_init_modules] and the constructor of another module follow
    it. *)
Theorem declared_module_dangles (fl a a' ty ty' prio prio' : Z) (f1 f2 f1' f2' : option nat) :
  NoDup [fl; a] -> 0 ∉ [fl; a] -> a' <> a -> a' <> fl -> ty = MODULE_INIT_FIRST -> ty' = MODULE_INIT_FIRST ->
  exists w, gp_module_init fl a ty prio f1 f2 (init_moudle_list fl (static fl [])) = Ok w /\
    gp_init_modules fl w = Ub /\ gp_module_init fl a' ty' prio' f1' f2' w = Ub.
Proof.
  intros Hnd H0 Ha' Ha'f -> ->. set (d := mk_module MODULE_INIT_FIRST prio f1 f2 0).
  set (w0 := mk_modules (blank_mem fl [a]) {[a := d]} (option_list f2)).
  assert (Hfa : a <> fl) by (apply NoDup_cons in Hnd as [? _]; set_solver).
  assert (Hr0 : registered fl w0 [] {[a]}).
  { pose proof (blank_rep fl [a] Hnd H0) as Hb. cbn [list_to_set] in Hb. rewrite union_empty_r_L in Hb. split; [exact Hb|].
    intros x [Hx|Hx]; [by apply not_elem_of_nil in Hx|]. apply elem_of_singleton in Hx as ->. exists d. apply lookup_singleton_eq. }
  destruct (module_register_ok fl w0 [] {[a]} a d Hr0) as (m&Hreg&Hr); [set_solver|apply lookup_singleton_eq|done|].
  destruct (registered_dll fl _ _ _ Hr) as [_ Hnz]. specialize (Hnz a ltac:(set_solver)).
  assert (Hfirst : gp_list_first m fl = Ok a).
  { destruct Hr as [Hrep _]. pose proof (first_ok _ _ Hrep fl 0 [a]) as Hf. cbn [head] in Hf. rewrite item_zero in Hf. apply Hf.
    cbn. by rewrite lookup_insert_eq. }
  set (w1 := mk_modules (mk_mem (delete a (nodes m)) (offsets m)) (delete a {[a := d]}) (option_list f2)).
  exists w1. assert (Hgone : desc_at w1 a = Ub) by (unfold desc_at; cbn; by rewrite lookup_delete_eq).
  assert (Hf1 : gp_list_first (memory w1) fl = Ok a) by (cbn [memory w1]; by rewrite first_delete).
  split_and!.
  - unfold gp_module_init. assert (Hw : (match f2 with Some f => call (init_moudle_list fl (static fl [])) f | None => init_moudle_list fl (static fl []) end)
      = mk_modules (memory (init_moudle_list fl (static fl []))) ∅ (option_list f2)) by (by destruct f2).
    rewrite Hw. cbn [memory descs called]. fold d.
    assert (Hblank : mk_mem (<[a:=null_node]> (nodes (memory (init_moudle_list fl (static fl []))))) (offsets (memory (init_moudle_list fl (static fl []))))
      = blank_mem fl [a]).
    { unfold blank_mem, gp_list_init_offset. cbn. f_equal. by rewrite insert_insert_ne, (insert_insert_ne _ a fl) by done. }
    rewrite Hblank. change (<[a:=d]> ∅) with ({[a := d]} : gmap Z gp_module_desc). fold w0. rewrite Hreg. done.
  - unfold gp_init_modules, gp_init_module. rewrite Hf1. cbn [res_bind]. destruct (nodes_fuel w1) as [|fuel]; cbn [init_loop];
      (destruct (Z.eqb_spec a 0); [done|]); [done|]. by rewrite Hgone.
  - unfold gp_module_init. assert (Hw : exists cs, (match f2' with Some f => call w1 f | None => w1 end) = mk_modules (memory w1) (descs w1) cs)
      by (destruct f2'; by eexists). destruct Hw as [cs Hw]. rewrite Hw. cbn [memory descs called].
    unfold gp_register_module, desc_at. cbn [descs]. rewrite lookup_insert_eq. cbn [of_option res_bind type]. rewrite Z.eqb_refl.
    unfold gp_register_module_main. cbn [memory]. rewrite (first_insert _ a' fl) by done. rewrite Hf1. cbn [res_bind].
    destruct (nodes_fuel _) as [|fuel]; cbn [register_loop]; (destruct (Z.eqb_spec a 0); [done|]); [done|].
    unfold desc_at in Hgone |- *. cbn [descs]. rewrite lookup_insert_ne by done. by rewrite Hgone.
Qed.

(** ** Three static modules, and a declared one *)
Definition demo_mods : list (Z * gp_module_desc) :=
  [(16, mk_module 0 1 (Some 1%nat) None 0); (32, mk_module 0 3 None None 0); (48, mk_module 0 2 (Some 2%nat) None 0)].
(** The third one comes behind the second, whose priority number is larger. *)
Example demo_order : order (mod_prio demo_mods) demo_mods.*1 = [16; 32; 48].
Proof. vm_compute. reflexivity. Qed.
Lemma modules_initialised_once_witness :
  exists w w', register_all 8 (init_moudle_list 8 (static 8 demo_mods)) [16; 32; 48] = Ok w /\ gp_init_modules 8 w = Ok (w', 0) /\
    called w' = inits (list_to_map demo_mods) (order (mod_prio demo_mods) [16; 32; 48]) /\ called w' ≡ₚ [1; 2]%nat /\
    forall a d, (a, d) ∈ demo_mods -> descs w' !! a = Some (match init d with Some _ => set_stat d | None => d end).
Proof.
  apply (modules_initialised_once 8 demo_mods).
  - apply (bool_decide_unpack _). vm_compute. exact I.
  - apply (bool_decide_unpack _). vm_compute. exact I.
  - repeat constructor.
Defined.
Lemma declared_module_dangles_witness :
  exists w, gp_module_init 8 16 0 5 (Some 1%nat) None (init_moudle_list 8 (static 8 [])) = Ok w /\
    gp_init_modules 8 w = Ub /\ gp_module_init 8 32 0 5 None None w = Ub.
Proof.
  apply (declared_module_dangles 8 16 32 0 0 5 5 (Some 1%nat) None None None); [| |discriminate|discriminate|reflexivity|reflexivity];
    apply (bool_decide_unpack _); vm_compute; exact I.
Defined.
