(* ===== verification/Timer.v ===== *)
(** * gp_timer.c: the hierarchical timer wheel

    [tv1] has a list of timers for each of the next 256 jiffies; [tv2] ...
    [tv5] have 64 lists each, of 2^8, 2^14, 2^20 and 2^26 jiffies.  A timer is
    its address; [objs] holds the live timer objects.  The lists are the
    abstract lists of the list component.  A call of a timer's callback is
    recorded in [calls], with the jiffy the wheel stands at. *)

From S2P Require Import Prelude.
From stdpp Require Import gmap.
Local Open Scope Z_scope.

Definition TVN_BITS : Z := 6.
Definition TVR_BITS : Z := 8.
Definition TVN_SIZE : Z := Z.shiftl 1 TVN_BITS.
Definition TVR_SIZE : Z := Z.shiftl 1 TVR_BITS.
Definition TVN_MASK : Z := TVN_SIZE - 1.
Definition TVR_MASK : Z := TVR_SIZE - 1.
Definition MAX_TVAL : Z := u64 (Z.shiftl 1 (TVR_BITS + 4 * TVN_BITS) - 1).

(** [loop]: whether the pointer is set (to the loop that owns the wheel). *)
Record gp_timer_list := mk_timer {
  loop : bool;
  expires : Z;
  interval : Z;
  repeat : Z;
  callback : option Z;
  data : Z;
  state : Z;
}.

Record gp_timer_base := mk_base {
  timer_jiffies : Z;
  next_timer : Z;
  tv1 : list (list Z);
  tv2 : list (list Z);
  tv3 : list (list Z);
  tv4 : list (list Z);
  tv5 : list (list Z);
}.

Definition INDEX (b : gp_timer_base) (n : Z) : Z :=
  Z.land (Z.shiftr (timer_jiffies b) (TVR_BITS + n * TVN_BITS)) TVN_MASK.

(** The vectors by level: [tv1] is level 0. *)
Definition vec (b : gp_timer_base) (k : nat) : list (list Z) :=
  match k with 0%nat => tv1 b | 1%nat => tv2 b | 2%nat => tv3 b | 3%nat => tv4 b | _ => tv5 b end.
Definition set_vec (b : gp_timer_base) (k : nat) (v : list (list Z)) : gp_timer_base :=
  let 'mk_base j n v1 v2 v3 v4 v5 := b in
  match k with
  | 0%nat => mk_base j n v v2 v3 v4 v5
  | 1%nat => mk_base j n v1 v v3 v4 v5
  | 2%nat => mk_base j n v1 v2 v v4 v5
  | 3%nat => mk_base j n v1 v2 v3 v v5
  | _ => mk_base j n v1 v2 v3 v4 v
  end.
Definition set_jiffies (b : gp_timer_base) (j : Z) : gp_timer_base :=
  mk_base j (next_timer b) (tv1 b) (tv2 b) (tv3 b) (tv4 b) (tv5 b).
Definition set_next_timer (b : gp_timer_base) (n : Z) : gp_timer_base :=
  mk_base (timer_jiffies b) n (tv1 b) (tv2 b) (tv3 b) (tv4 b) (tv5 b).

(** The list at [vec + i]. *)
Definition slot (b : gp_timer_base) (k : nat) (i : Z) : list Z := default [] (vec b k !! Z.to_nat i).
Definition set_slot (b : gp_timer_base) (k : nat) (i : Z) (c : list Z) : gp_timer_base :=
  set_vec b k (<[Z.to_nat i := c]> (vec b k)).

Record call := mk_call { c_timer : Z; c_fn : Z; c_data : Z; c_jiffies : Z }.
Record wheel := mk_wheel { base : gp_timer_base; objs : gmap Z gp_timer_list; calls : list call }.
Definition set_base (w : wheel) (b : gp_timer_base) : wheel := mk_wheel b (objs w) (calls w).
Definition set_obj (w : wheel) (t : Z) (o : gp_timer_list) : wheel :=
  mk_wheel (base w) (<[t := o]> (objs w)) (calls w).
Definition get_timer (w : wheel) (t : Z) : res gp_timer_list := of_option (objs w !! t).

Definition init_gp_timer (fn : option Z) (data expires interval repeat : Z) : gp_timer_list :=
  mk_timer false (u32 expires) (s32 interval) (s32 repeat) fn data 0.
(** [a]: the address [malloc] returned. *)
Definition create_gp_timer (w : wheel) (a : Z) (fn : option Z) (data expires interval repeat : Z) : wheel :=
  set_obj w a (init_gp_timer fn data expires interval repeat).

(** [gp_list_node_remove(&timer->node)]: off the list it is on, if any. *)
Definition without (t : Z) (v : list (list Z)) : list (list Z) := filter (fun x => x <> t) <$> v.
Definition node_remove (b : gp_timer_base) (t : Z) : gp_timer_base :=
  mk_base (timer_jiffies b) (next_timer b) (without t (tv1 b)) (without t (tv2 b)) (without t (tv3 b))
          (without t (tv4 b)) (without t (tv5 b)).

Definition destruct_gp_timer (w : wheel) (t : Z) : res wheel :=
  let* _ := get_timer w t in
  Ok (mk_wheel (node_remove (base w) t) (delete t (objs w)) (calls w)).

(** *** [gp_next_timer] *)
(** The scan of [tv1]: the slot of the first timer found and its expiry. *)
Fixpoint tv1_scan (fuel : nat) (w : wheel) (slt index : Z) : res (option (Z * Z)) :=
  match fuel with
  | O => Ok None
  | S fuel =>
      match slot (base w) 0 slt with
      | t :: _ => let* tm := get_timer w t in Ok (Some (slt, expires tm))
      | [] =>
          let slt := Z.land (slt + 1) TVR_MASK in
          if slt =? index then Ok None else tv1_scan fuel w slt index
      end
  end.

(** [GP_LIST_FOREACH] over one slot: [found] and the least expiry, compared
    as 64-bit values. *)
Fixpoint least_expiry (w : wheel) (c : list Z) (found : bool) (ex : Z) : res (bool * Z) :=
  match c with
  | [] => Ok (found, ex)
  | t :: c =>
      let* tm := get_timer w t in
      least_expiry w c true (if expires tm - ex <? 0 then expires tm else ex)
  end.

(** The scan of one of [tv2] ... [tv5]; [true]: [return expires]. *)
Fixpoint level_scan (fuel : nat) (w : wheel) (k : nat) (slt index : Z) (found : bool) (ex : Z)
    : res (bool * Z * bool) :=
  match fuel with
  | O => Ok (found, ex, false)
  | S fuel =>
      let* (found, ex) := least_expiry w (slot (base w) k slt) found ex in
      if found : bool then
        if (index =? 0) || (slt <? index) then Ok (found, ex, false) else Ok (found, ex, true)
      else
        let slt := Z.land (slt + 1) TVN_MASK in
        if slt =? index then Ok (found, ex, false) else level_scan fuel w k slt index found ex
  end.

Fixpoint levels_scan (w : wheel) (ks : list nat) (jiffies : Z) (found : bool) (ex : Z) : res Z :=
  match ks with
  | [] => Ok ex
  | k :: ks =>
      let index := Z.land jiffies TVN_MASK in
      let* (found, ex, ret) := level_scan 64 w k index index found ex in
      if ret : bool then Ok ex
      else
        let jiffies := if index =? 0 then jiffies else u32 (jiffies + TVN_SIZE - index) in
        levels_scan w ks (Z.shiftr jiffies TVN_BITS) found ex
  end.

Definition gp_next_timer (w : wheel) : res Z :=
  let jiffies := timer_jiffies (base w) in
  let index := Z.land jiffies TVR_MASK in
  let* r := tv1_scan 256 w index index in
  let cascade found ex :=
    let jiffies := if index =? 0 then jiffies else u32 (jiffies + TVR_SIZE - index) in
    levels_scan w [1%nat; 2%nat; 3%nat; 4%nat] (Z.shiftr jiffies TVR_BITS) found ex in
  match r with
  | Some (slt, ex) => if (index =? 0) || (slt <? index) then cascade true ex else Ok ex
  | None => cascade false (u32 MAX_TVAL)
  end.

(** *** Adding and removing *)
(** The list chosen by [gp_timer_internal_add]; the test [(int64_t) idx < 0]
    is on an unsigned 32-bit value. *)
Definition timer_slot (jiffies expires : Z) : nat * Z :=
  let idx := u32 (expires - jiffies) in
  if idx <? TVR_SIZE then (0%nat, Z.land expires TVR_MASK)
  else if idx <? Z.shiftl 1 (TVR_BITS + TVN_BITS) then
    (1%nat, Z.land (Z.shiftr expires TVR_BITS) TVN_MASK)
  else if idx <? Z.shiftl 1 (TVR_BITS + 2 * TVN_BITS) then
    (2%nat, Z.land (Z.shiftr expires (TVR_BITS + TVN_BITS)) TVN_MASK)
  else if idx <? Z.shiftl 1 (TVR_BITS + 3 * TVN_BITS) then
    (3%nat, Z.land (Z.shiftr expires (TVR_BITS + 2 * TVN_BITS)) TVN_MASK)
  else if s64 idx <? 0 then (0%nat, Z.land jiffies TVR_MASK)
  else
    let expires := if MAX_TVAL <? idx then u32 (u32 MAX_TVAL + jiffies) else expires in
    (4%nat, Z.land (Z.shiftr expires (TVR_BITS + 3 * TVN_BITS)) TVN_MASK).

Definition gp_timer_internal_add (w : wheel) (t : Z) : res wheel :=
  let* tm := get_timer w t in
  let b := base w in
  let (k, i) := timer_slot (timer_jiffies b) (expires tm) in
  let w := set_base w (set_slot b k i (slot b k i ++ [t])) in
  let* n := gp_next_timer w in
  Ok (set_base w (set_next_timer (base w) n)).

Definition gp_timer_add (w : wheel) (t : Z) : res wheel :=
  let* _ := get_timer w t in
  gp_timer_internal_add (set_base w (node_remove (base w) t)) t.

Definition gp_timer_del (w : wheel) (t : Z) : res wheel :=
  let* _ := get_timer w t in Ok (set_base w (node_remove (base w) t)).

Definition gp_timer_mod (w : wheel) (t : Z) (ex iv rp : Z) : res wheel :=
  let* w := gp_timer_del w t in
  let* tm := get_timer w t in
  gp_timer_add (set_obj w t (mk_timer (loop tm) (u32 ex) (s32 iv) (s32 rp) (callback tm) (data tm) (state tm))) t.

Definition init_gp_timer_base (jiffies : Z) : gp_timer_base :=
  let n := replicate (Z.to_nat TVN_SIZE) [] in
  mk_base (u32 jiffies) (u32 MAX_TVAL) (replicate (Z.to_nat TVR_SIZE) []) n n n n.
Definition create_gp_timer_base (jiffies : Z) : wheel := mk_wheel (init_gp_timer_base jiffies) ∅ [].

(** *** Running *)
(** [gp_list_next] on a node of the list [c]; a node that has left the list
    has links that lead elsewhere. *)
Fixpoint next_of (c : list Z) (t : Z) : res (option Z) :=
  match c with
  | [] => Ub
  | x :: c => if x =? t then Ok (head c) else next_of c t
  end.
Definition next_item (c : list Z) (it : option Z) : res (option Z) :=
  match it with None => Ok None | Some t => next_of c t end.

(** [GP_LIST_FOREACH_SAFE(vec + i, tmp, it)]; [false]: still running when the
    fuel is used up. *)
Section Foreach.
Context (body : Z -> wheel -> res wheel) (k : nat) (i : Z).
Fixpoint foreach_safe (fuel : nat) (it tmp : option Z) (w : wheel) : res (wheel * bool) :=
  match it with
  | None => Ok (w, true)
  | Some t =>
      match fuel with
      | O => Ok (w, false)
      | S fuel =>
          let* w := body t w in
          let* tmp' := next_item (slot (base w) k i) tmp in
          foreach_safe fuel tmp tmp' w
      end
  end.
Definition GP_LIST_FOREACH_SAFE (fuel : nat) (w : wheel) : res (wheel * bool) :=
  let it := head (slot (base w) k i) in
  let* tmp := next_item (slot (base w) k i) it in
  foreach_safe fuel it tmp w.
End Foreach.

(** [destruct_gp_timer_base]: every list of [tv1], then index by index those of
    [tv2] to [tv5]; the timers on them are freed. *)
Fixpoint destruct_slots (fuel : nat) (l : list (nat * Z)) (w : wheel) : res (wheel * bool) :=
  match l with
  | [] => Ok (w, true)
  | (k, i) :: l =>
      let* (w, fin) := GP_LIST_FOREACH_SAFE (fun t w => destruct_gp_timer w t) k i fuel w in
      if negb fin then Ok (w, false) else destruct_slots fuel l w
  end.
Definition destruct_gp_timer_base (fuel : nat) (w : wheel) : res (wheel * bool) :=
  let tv1_slots := (fun i => (0%nat, Z.of_nat i)) <$> seq 0 (Z.to_nat TVR_SIZE) in
  let tvn_slots := i ← seq 0 (Z.to_nat TVN_SIZE); (fun k => (k, Z.of_nat i)) <$> [1%nat; 2%nat; 3%nat; 4%nat] in
  destruct_slots fuel (tv1_slots ++ tvn_slots) w.

(** [timer->loop->timer_base] needs the loop pointer. *)
Definition cascade_one (t : Z) (w : wheel) : res wheel :=
  let* tm := get_timer w t in
  let w := set_base w (node_remove (base w) t) in
  if loop tm then gp_timer_internal_add w t else Ub.
Definition cascade (fuel : nat) (k : nat) (i : Z) (w : wheel) : res (wheel * bool) :=
  GP_LIST_FOREACH_SAFE cascade_one k i fuel w.

(** The nested [if (i == 0)]: level [k] and those above it. *)
Fixpoint cascades (fuel : nat) (ks : list nat) (w : wheel) : res (wheel * bool) :=
  match ks with
  | [] => Ok (w, true)
  | k :: ks =>
      let i := INDEX (base w) (Z.of_nat k - 1) in
      let* (w, fin) := cascade fuel k i w in
      if negb fin then Ok (w, false) else if i =? 0 then cascades fuel ks w else Ok (w, true)
  end.

(** The callback, as the record of its call. *)
Definition invoke (t : Z) (tm : gp_timer_list) (w : wheel) : wheel :=
  match callback tm with
  | None => w
  | Some fn => mk_wheel (base w) (objs w) (calls w ++ [mk_call t fn (data tm) (timer_jiffies (base w))])
  end.
Definition expire_one (t : Z) (w : wheel) : res wheel :=
  let* tm := get_timer w t in
  let w := invoke t tm w in
  let* w := gp_timer_del w t in
  let* w :=
    if repeat tm =? 1 then
      gp_timer_add (set_obj w t (mk_timer (loop tm) (u32 (expires tm + interval tm)) (interval tm) (repeat tm)
                                          (callback tm) (data tm) (state tm))) t
    else destruct_gp_timer w t in
  let* n := gp_next_timer w in
  Ok (set_base w (set_next_timer (base w) n)).

(** One round of the [while] loop. *)
Definition run_tick (fuel : nat) (w : wheel) : res (wheel * bool) :=
  let index := Z.land (timer_jiffies (base w)) TVR_MASK in
  let* (w, fin) := if index =? 0 then cascades fuel [1%nat; 2%nat; 3%nat; 4%nat] w else Ok (w, true) in
  if negb fin then Ok (w, false)
  else
    let w := set_base w (set_jiffies (base w) (u32 (timer_jiffies (base w) + 1))) in
    GP_LIST_FOREACH_SAFE expire_one 0 index fuel w.

(** [(int32_t)jiffies - (int32_t)base->timer_jiffies]: signed overflow is
    undefined. *)
Definition jiffies_left (jiffies tj : Z) : res Z :=
  let x := s32 jiffies - s32 tj in
  if (-2147483648 <=? x) && (x <? 2147483648) then Ok x else Ub.

(** [fuel] bounds the rounds of each loop. *)
Fixpoint gp_run_timers (ticks fuel : nat) (w : wheel) (jiffies : Z) : res (wheel * bool) :=
  let* x := jiffies_left jiffies (timer_jiffies (base w)) in
  if x <? 0 then Ok (w, true)
  else match ticks with
       | O => Ok (w, false)
       | S ticks =>
           let* (w, fin) := run_tick fuel w in
           if negb fin then Ok (w, false) else gp_run_timers ticks fuel w jiffies
       end.
