(* ===== verification/TimerInv.v ===== *)
(** * gp_timer.c: timers fire exactly when they are due

    The wheel works with 32-bit jiffies; the proofs give every pending timer
    its unbounded expiry.  [inv] ties the slots to those expiries, [at_rest]
    is [inv] between two calls, and the theorems say which callbacks
    [gp_run_timers] makes at which jiffy. *)

From stdpp Require Import gmap.
From S2P Require Import Prelude Timer.
Local Open Scope Z_scope.

(** ** Levels and slots *)
(** Level [k] covers [2^sh (S k)] jiffies in slots of [2^sh k]. *)
Definition sh (k : nat) : Z := match k with O => 0 | S k => 8 + 6 * Z.of_nat k end.
Definition fl (k : nat) (E : Z) : Z := E / 2 ^ sh k * 2 ^ sh k.
Definition idx_of (k : nat) (E : Z) : Z := (E / 2 ^ sh k) mod 2 ^ (sh (S k) - sh k).
Definition slots (k : nat) : Z := 2 ^ (sh (S k) - sh k).

Lemma sh_range k : (k < 5)%nat -> 0 <= sh k /\ sh k < sh (S k) <= 32.
Proof. destruct k as [|[|[|[|[|k]]]]]; simpl; lia. Qed.
Lemma pow_sh k : (k < 5)%nat -> 0 < 2 ^ sh k /\ 0 < slots k /\ 2 ^ sh (S k) = 2 ^ sh k * slots k.
Proof.
  intros Hk. pose proof (sh_range k Hk). unfold slots. rewrite <-Z.pow_add_r by lia.
  split_and!; [apply Z.pow_pos_nonneg; lia..|f_equal; lia].
Qed.
Lemma idx_0 E : idx_of 0 E = E mod 256.
Proof. unfold idx_of. change (2 ^ sh 0) with 1. by rewrite Z.div_1_r. Qed.
Lemma fl_0 E : fl 0 E = E.
Proof. unfold fl. change (2 ^ sh 0) with 1. rewrite Z.div_1_r. lia. Qed.
Lemma fl_bounds k E : (k < 5)%nat -> fl k E <= E < fl k E + 2 ^ sh k.
Proof.
  intros Hk. destruct (pow_sh k Hk) as [Hp _]. unfold fl.
  pose proof (Z.mod_pos_bound E (2 ^ sh k) Hp). pose proof (Z.div_mod E (2 ^ sh k)). lia.
Qed.
Lemma fl_mod k E : (k < 5)%nat -> fl k E mod 2 ^ sh k = 0.
Proof. intros Hk. destruct (pow_sh k Hk). unfold fl. apply Z.mod_mul. lia. Qed.
Lemma idx_range k E : (k < 5)%nat -> 0 <= idx_of k E < slots k.
Proof. intros Hk. apply Z.mod_pos_bound. apply (pow_sh k Hk). Qed.

(** Within one turn of a level, the slot tells the block. *)
Lemma idx_inj k J A B :
  (k < 5)%nat -> idx_of k A = idx_of k B ->
  J <= fl k A < J + 2 ^ sh (S k) -> J <= fl k B < J + 2 ^ sh (S k) -> fl k A = fl k B.
Proof.
  intros Hk Hi HA HB. destruct (pow_sh k Hk) as (Hp&Hs&Hps). rewrite Hps in *. unfold idx_of, fl in *.
  fold (slots k) in Hi. set (a := A / 2 ^ sh k) in *. set (b := B / 2 ^ sh k) in *.
  pose proof (Z.div_mod a (slots k)) as Ha. pose proof (Z.div_mod b (slots k)) as Hb. rewrite Hi in Ha.
  assert (a / slots k = b / slots k); [|f_equal; lia].
  assert (Hd : - slots k < a - b < slots k) by nia. nia.
Qed.

(** Index computations on the wrapped expiry. *)
Lemma land_shift_idx k E :
  (k < 5)%nat -> Z.land (Z.shiftr (u32 E) (sh k)) (slots k - 1) = idx_of k E.
Proof.
  intros Hk. pose proof (sh_range k Hk). unfold slots. rewrite land_mask, Z.shiftr_div_pow2 by lia.
  unfold idx_of, u32. change 4294967296 with (2 ^ 32).
  apply Z.bits_inj'. intros i Hi. destruct (Z.lt_ge_cases i (sh (S k) - sh k)) as [Hlt|Hge].
  - rewrite !Z.mod_pow2_bits_low, !Z.div_pow2_bits by lia. apply Z.mod_pow2_bits_low. lia.
  - by rewrite !Z.mod_pow2_bits_high by lia.
Qed.
Lemma masks : TVR_MASK = slots 0 - 1 /\ forall k, (1 <= k < 5)%nat -> TVN_MASK = slots k - 1.
Proof. split; [done|]. intros [|[|[|[|[|k]]]]] Hk; (done || lia). Qed.
Lemma INDEX_spec b J k :
  timer_jiffies b = u32 J -> (k < 4)%nat -> INDEX b (Z.of_nat k) = idx_of (S k) J.
Proof.
  intros Hj Hk. unfold INDEX. rewrite Hj. rewrite (proj2 masks (S k)) by lia.
  rewrite <-land_shift_idx by lia. do 2 f_equal. unfold sh, TVR_BITS, TVN_BITS. lia.
Qed.
Lemma tv1_index J : Z.land (u32 J) TVR_MASK = idx_of 0 J.
Proof. rewrite (proj1 masks), <-land_shift_idx by lia. by rewrite Z.shiftr_0_r. Qed.

(** Where a timer due at [E] is put at jiffy [J]. *)
Lemma timer_slot_spec J E :
  0 <= J <= E -> E < J + 2 ^ 32 ->
  exists k, timer_slot (u32 J) (u32 E) = (k, idx_of k E) /\ (k < 5)%nat /\ E - J < 2 ^ sh (S k) /\
    ((0 < k)%nat -> 2 ^ sh k <= E - J).
Proof.
  intros HJ HE. unfold timer_slot.
  assert (Hidx : u32 (u32 E - u32 J) = E - J) by wrap_lia. rewrite Hidx.
  change TVR_SIZE with (2 ^ sh 1).
  change (Z.shiftl 1 (TVR_BITS + TVN_BITS)) with (2 ^ sh 2).
  change (Z.shiftl 1 (TVR_BITS + 2 * TVN_BITS)) with (2 ^ sh 3).
  change (Z.shiftl 1 (TVR_BITS + 3 * TVN_BITS)) with (2 ^ sh 4).
  change TVR_BITS with (sh 1). change (sh 1 + TVN_BITS) with (sh 2).
  change (sh 1 + 2 * TVN_BITS) with (sh 3). change (sh 1 + 3 * TVN_BITS) with (sh 4).
  destruct (Z.ltb_spec (E - J) (2 ^ sh 1)).
  { exists 0%nat. rewrite tv1_index. split_and!; [done|lia|done|lia]. }
  destruct (Z.ltb_spec (E - J) (2 ^ sh 2)).
  { exists 1%nat. rewrite (proj2 masks 1%nat), land_shift_idx by lia. split_and!; [done|lia|done|done]. }
  destruct (Z.ltb_spec (E - J) (2 ^ sh 3)).
  { exists 2%nat. rewrite (proj2 masks 2%nat), land_shift_idx by lia. split_and!; [done|lia|done|done]. }
  destruct (Z.ltb_spec (E - J) (2 ^ sh 4)).
  { exists 3%nat. rewrite (proj2 masks 3%nat), land_shift_idx by lia. split_and!; [done|lia|done|done]. }
  rewrite s64_small by lia. destruct (Z.ltb_spec (E - J) 0); [lia|].
  change MAX_TVAL with (2 ^ 32 - 1). destruct (Z.ltb_spec (2 ^ 32 - 1) (E - J)); [lia|].
  exists 4%nat. rewrite (proj2 masks 4%nat), land_shift_idx by lia.
  split_and!; [done|lia|change (2 ^ sh 5) with (2 ^ 32); lia|done].
Qed.
Lemma slot_place J E k :
  (k < 5)%nat -> J <= E -> E - J < 2 ^ sh (S k) -> ((0 < k)%nat -> 2 ^ sh k <= E - J) ->
  J <= fl k E < J + 2 ^ sh (S k) /\ ((0 < k)%nat -> J < fl k E).
Proof.
  intros Hk HJE HE Hl. pose proof (fl_bounds k E Hk). destruct k as [|k].
  - unfold fl in *. simpl in *. rewrite Z.div_1_r, Z.mul_1_r in *. lia.
  - specialize (Hl ltac:(lia)). lia.
Qed.

(** ** Slots after updates *)
Definition sized (b : gp_timer_base) : Prop := forall k, (k < 5)%nat -> zlen (vec b k) = slots k.

Lemma vec_set_vec b k v k' : (k < 5)%nat -> (k' < 5)%nat ->
  vec (set_vec b k v) k' = if decide (k' = k) then v else vec b k'.
Proof. destruct b. intros Hk Hk'. destruct k as [|[|[|[|[|k]]]]], k' as [|[|[|[|[|k']]]]]; (done || lia). Qed.
Lemma jiffies_set_vec b k v : timer_jiffies (set_vec b k v) = timer_jiffies b.
Proof. destruct b. by destruct k as [|[|[|[|k]]]]. Qed.

Lemma slot_set_slot b k i c k' i' :
  sized b -> (k < 5)%nat -> (k' < 5)%nat -> 0 <= i < slots k -> 0 <= i' ->
  slot (set_slot b k i c) k' i' = if decide (k' = k /\ i' = i) then c else slot b k' i'.
Proof.
  intros Hb Hk Hk' Hi Hi'. unfold slot, set_slot. rewrite vec_set_vec by done.
  destruct (decide (k' = k)) as [->|]; [|by rewrite decide_False by tauto].
  pose proof (Hb k Hk) as Hl. unfold zlen in Hl. destruct (decide (i' = i)) as [->|].
  - rewrite decide_True by done. by rewrite list_lookup_insert_eq by lia.
  - rewrite decide_False by tauto. rewrite list_lookup_insert_ne by lia. done.
Qed.
Lemma sized_set_slot b k i c : sized b -> (k < 5)%nat -> sized (set_slot b k i c).
Proof.
  intros Hb Hk k' Hk'. unfold set_slot. rewrite vec_set_vec by done.
  destruct (decide (k' = k)) as [->|]; [|by apply Hb].
  unfold zlen. rewrite length_insert. by apply Hb.
Qed.
Lemma slot_node_remove b t k i : slot (node_remove b t) k i = filter (fun x => x <> t) (slot b k i).
Proof.
  unfold slot, node_remove, without.
  assert (Hg : forall v : list (list Z), default [] (((fun c : list Z => filter (fun x => x <> t) c) <$> v) !! Z.to_nat i) =
                     filter (fun x => x <> t) (default [] (v !! Z.to_nat i))).
  { intros v. rewrite list_lookup_fmap. by destruct (v !! Z.to_nat i). }
  destruct k as [|[|[|[|k]]]]; apply Hg.
Qed.
Lemma sized_node_remove b t : sized b -> sized (node_remove b t).
Proof.
  intros Hb k Hk. specialize (Hb k Hk). unfold zlen in *.
  destruct k as [|[|[|[|k]]]]; simpl in *; unfold without; by rewrite length_fmap.
Qed.

(** ** [gp_next_timer] always has an answer *)
Definition closed (w : wheel) : Prop :=
  forall k i t, (k < 5)%nat -> t ∈ slot (base w) k i -> is_Some (objs w !! t).

Lemma tv1_scan_total w fuel slt index : closed w -> exists r, tv1_scan fuel w slt index = Ok r.
Proof.
  intros Hc. revert slt. induction fuel as [|fuel IH]; intros slt; cbn [tv1_scan]; [eauto|].
  destruct (slot (base w) 0 slt) as [|t c] eqn:E.
  - destruct (_ =? _); eauto.
  - destruct (Hc 0%nat slt t) as [tm Htm]; [lia|rewrite E; by left|].
    unfold get_timer. rewrite Htm. simpl. eauto.
Qed.
Lemma least_expiry_total w c found ex :
  (forall t, t ∈ c -> is_Some (objs w !! t)) -> exists r, least_expiry w c found ex = Ok r.
Proof.
  revert found ex. induction c as [|t c IH]; intros found ex Hc; cbn [least_expiry]; [eauto|].
  destruct (Hc t) as [tm Htm]; [by left|]. unfold get_timer. rewrite Htm. cbn [of_option res_bind].
  apply IH. intros; apply Hc; by right.
Qed.
Lemma level_scan_total w k fuel slt index found ex :
  closed w -> (k < 5)%nat -> exists r, level_scan fuel w k slt index found ex = Ok r.
Proof.
  intros Hc Hk. revert slt found ex. induction fuel as [|fuel IH]; intros slt found ex; cbn [level_scan]; [eauto|].
  destruct (least_expiry_total w (slot (base w) k slt) found ex) as [[f e] ->]; [intros; eauto|].
  cbn [res_bind]. destruct f; [destruct (_ || _); eauto|]. destruct (_ =? _); eauto.
Qed.
Lemma levels_scan_total w ks j found ex :
  closed w -> Forall (fun k => (k < 5)%nat) ks -> exists r, levels_scan w ks j found ex = Ok r.
Proof.
  intros Hc Hks. revert j found ex. induction Hks as [|k ks Hk _ IH]; intros j found ex; cbn [levels_scan]; [eauto|].
  destruct (level_scan_total w k 64 (Z.land j TVN_MASK) (Z.land j TVN_MASK) found ex Hc Hk) as [[[f e] r] ->].
  cbn [res_bind]. destruct r; eauto.
Qed.
Lemma gp_next_timer_total w : closed w -> exists n, gp_next_timer w = Ok n.
Proof.
  intros Hc. unfold gp_next_timer.
  destruct (tv1_scan_total w 256 (Z.land (timer_jiffies (base w)) TVR_MASK) (Z.land (timer_jiffies (base w)) TVR_MASK) Hc)
    as [r ->].
  cbn [res_bind].
  assert (Forall (fun k => (k < 5)%nat) [1%nat; 2%nat; 3%nat; 4%nat]) by (rewrite !Forall_cons, Forall_nil; lia).
  destruct r as [[s e]|]; [destruct (_ || _); [|eauto]|]; by apply levels_scan_total.
Qed.

(** ** The invariant *)
Definition with_expires (tm : gp_timer_list) (E : Z) : gp_timer_list :=
  mk_timer (loop tm) (u32 E) (interval tm) (Timer.repeat tm) (callback tm) (data tm) (state tm).

Section Wheel.
(** What is fixed about every timer: all but [expires]. *)
Context (info : Z -> gp_timer_list).

(** A due timer may stand one jiffy behind while its slot is being run. *)
Definition place (J E : Z) (k : nat) : Prop :=
  J <= fl k E < J + 2 ^ sh (S k) \/ (k = 0%nat /\ E = J - 1).

Record inv (w : wheel) (J : Z) (P : gmap Z Z) : Prop := {
  inv_jiffies : timer_jiffies (base w) = u32 J;
  inv_pos : 0 <= J;
  inv_sized : sized (base w);
  inv_objs : forall t E, P !! t = Some E ->
    objs w !! t = Some (with_expires (info t) E) /\ loop (info t) = true;
  inv_placed : forall t E, P !! t = Some E ->
    exists k, (k < 5)%nat /\ t ∈ slot (base w) k (idx_of k E) /\ place J E k;
  inv_dom : forall k i t, (k < 5)%nat -> 0 <= i -> t ∈ slot (base w) k i -> is_Some (P !! t);
  inv_uniq : forall k i k' i' t, (k < 5)%nat -> (k' < 5)%nat -> 0 <= i -> 0 <= i' ->
    t ∈ slot (base w) k i -> t ∈ slot (base w) k' i' -> k = k' /\ i = i';
  inv_nodup : forall k i, (k < 5)%nat -> 0 <= i -> NoDup (slot (base w) k i);
}.

(** Between two calls nothing is overdue. *)
Definition at_rest (w : wheel) (J : Z) (P : gmap Z Z) : Prop :=
  inv w J P /\ forall t E, P !! t = Some E -> J <= E < J + 2 ^ 32.

Lemma slot_neg b k i : i < 0 -> slot b k i = slot b k 0.
Proof. intros. unfold slot. by replace (Z.to_nat i) with 0%nat by lia. Qed.

Lemma inv_closed w J P : inv w J P -> closed w.
Proof.
  intros Hi k i t Hk Ht. assert (exists i', 0 <= i' /\ t ∈ slot (base w) k i') as (i'&Hi'&Ht').
  { destruct (Z.lt_ge_cases i 0); [exists 0; rewrite slot_neg in Ht by done|exists i]; done. }
  destruct (inv_dom _ _ _ Hi k i' t Hk Hi' Ht') as [E HE].
  destruct (inv_objs _ _ _ Hi t E HE) as [-> _]. eauto.
Qed.

(** A timer in a slot is there because of its expiry. *)
Lemma inv_at w J P k i t :
  inv w J P -> (k < 5)%nat -> 0 <= i -> t ∈ slot (base w) k i ->
  exists E, P !! t = Some E /\ i = idx_of k E /\ place J E k.
Proof.
  intros Hi Hk H0 Ht. destruct (inv_dom _ _ _ Hi k i t Hk H0 Ht) as [E HE]. exists E. split; [done|].
  destruct (inv_placed _ _ _ Hi t E HE) as (k'&Hk'&Ht'&Hp).
  pose proof (idx_range k' E Hk').
  destruct (inv_uniq _ _ _ Hi k i k' (idx_of k' E) t) as [<- ->]; (done || lia).
Qed.

Lemma inv_set_next w J P n : inv w J P -> inv (set_base w (set_next_timer (base w) n)) J P.
Proof.
  intros [? ? ? ? ? ? ? ?]. by constructor.
Qed.

Lemma inv_calls w J P cs : inv w J P -> inv (mk_wheel (base w) (objs w) cs) J P.
Proof. intros [? ? ? ? ? ? ? ?]. by constructor. Qed.

Lemma inv_remove w J P t : inv w J P -> inv (set_base w (node_remove (base w) t)) J (delete t P).
Proof.
  intros Hi. constructor; simpl; try apply Hi.
  - by apply sized_node_remove, Hi.
  - intros t' E [? HE]%lookup_delete_Some. by apply (inv_objs _ _ _ Hi).
  - intros t' E [Hne HE]%lookup_delete_Some. destruct (inv_placed _ _ _ Hi t' E HE) as (k&Hk&Ht&Hp).
    exists k. split; [done|]. split; [|done]. rewrite slot_node_remove. apply list_elem_of_filter. auto.
  - intros k i t' Hk H0. rewrite slot_node_remove. intros [Hne Ht]%list_elem_of_filter.
    rewrite lookup_delete_ne by done. by apply (inv_dom _ _ _ Hi k i).
  - intros k i k' i' t' Hk Hk' H0 H0'. rewrite !slot_node_remove.
    intros [_ ?]%list_elem_of_filter [_ ?]%list_elem_of_filter. by eapply (inv_uniq _ _ _ Hi).
  - intros k i Hk H0. rewrite slot_node_remove. apply NoDup_filter. by apply Hi.
Qed.

(** Objects that are not pending may change. *)
Lemma inv_objs_change w J P os :
  inv w J P -> (forall t E, P !! t = Some E -> os !! t = objs w !! t) -> inv (mk_wheel (base w) os (calls w)) J P.
Proof.
  intros Hi Ho. constructor; simpl; try apply Hi.
  intros t E HE. rewrite (Ho t E HE). by apply (inv_objs _ _ _ Hi).
Qed.

(** Adding a timer that is on no list. *)
Lemma internal_add_spec w J P t E :
  inv w J P -> P !! t = None -> objs w !! t = Some (with_expires (info t) E) -> loop (info t) = true ->
  J <= E < J + 2 ^ 32 ->
  exists w' k, gp_timer_internal_add w t = Ok w' /\ inv w' J (<[t := E]> P) /\
    objs w' = objs w /\ calls w' = calls w /\ (k < 5)%nat /\
    E - J < 2 ^ sh (S k) /\ ((0 < k)%nat -> 2 ^ sh k <= E - J) /\
    (forall k' i', (k' < 5)%nat -> 0 <= i' -> slot (base w') k' i' =
       if decide (k' = k /\ i' = idx_of k E) then slot (base w) k' i' ++ [t] else slot (base w) k' i').
Proof.
  intros Hi HP Ho Hl HE. pose proof (inv_pos _ _ _ Hi) as HJ. pose proof (inv_sized _ _ _ Hi) as Hs.
  destruct (timer_slot_spec J E) as (k&Hts&Hk&Hhi&Hlo); [lia|lia|].
  unfold gp_timer_internal_add, get_timer. rewrite Ho. cbn [of_option res_bind with_expires expires].
  rewrite (inv_jiffies _ _ _ Hi), Hts. set (i := idx_of k E).
  pose proof (idx_range k E Hk) as Hir. fold i in Hir.
  set (w1 := set_base w (set_slot (base w) k i (slot (base w) k i ++ [t]))).
  assert (Hsl : forall k' i', (k' < 5)%nat -> 0 <= i' -> slot (base w1) k' i' =
       if decide (k' = k /\ i' = i) then slot (base w) k' i' ++ [t] else slot (base w) k' i').
  { intros k' i' Hk' Hi'. simpl. rewrite slot_set_slot by done.
    destruct (decide (k' = k /\ i' = i)) as [[-> ->]|]; done. }
  assert (Hnin : forall k' i', (k' < 5)%nat -> 0 <= i' -> t ∉ slot (base w) k' i').
  { intros k' i' Hk' Hi' Hin. destruct (inv_dom _ _ _ Hi k' i' t Hk' Hi' Hin) as [? ?]. congruence. }
  assert (Hmem : forall k' i' x, (k' < 5)%nat -> 0 <= i' -> x ∈ slot (base w1) k' i' <->
            x ∈ slot (base w) k' i' \/ x = t /\ k' = k /\ i' = i).
  { intros k' i' x Hk' Hi'. rewrite Hsl by done. case_decide; [|naive_solver].
    rewrite elem_of_app, list_elem_of_singleton. naive_solver. }
  destruct (slot_place J E k) as [Hp1 Hp2]; try done; [lia|].
  assert (Hi1 : inv w1 J (<[t:=E]> P)).
  { constructor.
    - simpl. unfold set_slot. by rewrite jiffies_set_vec, (inv_jiffies _ _ _ Hi).
    - done.
    - by apply sized_set_slot.
    - intros t' E' [[<- <-]|[? HE']]%lookup_insert_Some; [done|]. by apply (inv_objs _ _ _ Hi).
    - intros t' E' [[<- <-]|[? HE']]%lookup_insert_Some.
      + exists k. split; [done|]. split; [apply Hmem; [done|lia|naive_solver]|by left].
      + destruct (inv_placed _ _ _ Hi t' E' HE') as (k'&Hk'&Ht'&Hp). exists k'. split; [done|].
        split; [|done]. apply Hmem; [done|apply idx_range, Hk'|by left].
    - intros k' i' x Hk' Hi' [Hx|[-> _]]%Hmem; [|rewrite lookup_insert_eq; eauto|done|done].
      destruct (decide (x = t)) as [->|]; [rewrite lookup_insert_eq; eauto|].
      rewrite lookup_insert_ne by done. by apply (inv_dom _ _ _ Hi k' i').
    - intros k1 i1 k2 i2 x ? ? ? ? Hx1 Hx2. apply Hmem in Hx1; [|done..]. apply Hmem in Hx2; [|done..].
      destruct Hx1 as [Hx1|(->&->&->)], Hx2 as [Hx2|(Hxt&->&->)]; try done.
      + by eapply (inv_uniq _ _ _ Hi).
      + subst x. by apply Hnin in Hx1.
      + by apply Hnin in Hx2.
    - intros k' i' Hk' Hi'. rewrite Hsl by done. case_decide; [|by apply Hi].
      apply NoDup_app. split; [by apply Hi|]. split; [|apply NoDup_singleton].
      intros x Hx ->%list_elem_of_singleton. by apply Hnin in Hx. }
  destruct (gp_next_timer_total w1) as [n ->]; [by eapply inv_closed|]. cbn [res_bind].
  eexists _, k. split; [done|]. split; [by apply inv_set_next|]. split_and!; try done.
Qed.

(** ** Cascading *)
(** The levels from 1 up to (not including) [m] have nothing left to move. *)
Definition strict (w : wheel) (J : Z) (P : gmap Z Z) (m : nat) : Prop :=
  forall j t E, (1 <= j < m)%nat -> (j < 5)%nat -> P !! t = Some E ->
    t ∈ slot (base w) j (idx_of j E) -> J < fl j E.

(** [J] is at the start of a slot of level [k]. *)
Definition aligned (k : nat) (J : Z) : Prop := J mod 2 ^ sh k = 0.

Lemma aligned_fl k J : (k < 5)%nat -> aligned k J -> fl k J = J.
Proof. intros Hk Ha. destruct (pow_sh k Hk) as [Hp _]. unfold fl, aligned in *. pose proof (Z.div_mod J (2 ^ sh k)). lia. Qed.
Lemma aligned_S k J : (k < 5)%nat -> aligned k J -> aligned (S k) J <-> idx_of k J = 0.
Proof.
  intros Hk Ha. destruct (pow_sh k Hk) as (Hp&Hs&Hps). unfold aligned, idx_of in *. rewrite Hps. fold (slots k).
  rewrite Z.rem_mul_r by lia. rewrite Ha. pose proof (Z.mod_pos_bound (J / 2 ^ sh k) (slots k)). nia.
Qed.
Lemma aligned_le k m J : (k <= m < 5)%nat -> aligned m J -> aligned k J.
Proof.
  intros Hk. destruct (pow_sh k) as [Hp _]; [lia|]. unfold aligned.
  assert (sh k <= sh m) by (destruct k, m; simpl; lia). pose proof (sh_range k ltac:(lia)).
  replace (sh m) with (sh k + (sh m - sh k)) by lia. rewrite Z.pow_add_r, Z.rem_mul_r by lia.
  pose proof (Z.mod_pos_bound J (2 ^ sh k) Hp).
  assert (0 < 2 ^ (sh m - sh k)) by (apply Z.pow_pos_nonneg; lia).
  pose proof (Z.mod_pos_bound (J / 2 ^ sh k) (2 ^ (sh m - sh k)) ltac:(done)). nia.
Qed.

(** A pending timer of a higher level is not overdue. *)
Lemma at_level w J P k t E :
  inv w J P -> (1 <= k < 5)%nat -> P !! t = Some E -> t ∈ slot (base w) k (idx_of k E) ->
  J <= fl k E < J + 2 ^ sh (S k).
Proof.
  intros Hi Hk HE Ht. destruct (inv_at _ _ _ k _ t Hi ltac:(lia) (proj1 (idx_range k E ltac:(lia))) Ht)
    as (E'&HE'&_&[Hp|[-> _]]); [|lia]. congruence.
Qed.

Lemma strict_unaligned w J P k m :
  inv w J P -> (1 <= k)%nat -> ~ aligned k J -> strict w J P k -> (k <= m <= 5)%nat -> strict w J P m.
Proof.
  intros Hi H1 Ha Hs Hm j t E Hj Hj5 HE Ht. destruct (decide (j < k)%nat); [eapply Hs; eauto; lia|].
  pose proof (at_level _ _ _ j t E Hi ltac:(lia) HE Ht) as Hp.
  destruct (decide (fl j E = J)) as [Heq|]; [|lia]. exfalso. apply Ha.
  apply (aligned_le k j); [lia|]. unfold aligned. rewrite <-Heq. by apply fl_mod.
Qed.

Lemma next_of_head (t : Z) c : next_of (t :: c) t = Ok (head c).
Proof. simpl. by rewrite Z.eqb_refl. Qed.
Lemma next_item_head (c : list Z) : next_item c (head c) = Ok (head (tail c)).
Proof. destruct c; [done|]. apply next_of_head. Qed.

Lemma filter_notin (t : Z) (c : list Z) : t ∉ c -> filter (fun x => x <> t) c = c.
Proof.
  induction c as [|x c IH]; [done|]. intros [? Hn]%not_elem_of_cons.
  rewrite filter_cons_True by done. by rewrite IH.
Qed.
Lemma filter_head_nodup (t : Z) (c : list Z) : NoDup (t :: c) -> filter (fun x => x <> t) (t :: c) = c.
Proof.
  intros [Hn _]%NoDup_cons. rewrite filter_cons_False by (intros Hx; by apply Hx). by apply filter_notin.
Qed.

(** One timer moves down: nothing else about the wheel changes. *)
Lemma cascade_one_spec w J P k t c :
  inv w J P -> (1 <= k < 5)%nat -> aligned k J -> (forall t E, P !! t = Some E -> J <= E < J + 2 ^ 32) ->
  strict w J P k -> slot (base w) k (idx_of k J) = t :: c ->
  exists w', cascade_one t w = Ok w' /\ inv w' J P /\ strict w' J P k /\ calls w' = calls w /\
    objs w' = objs w /\ slot (base w') k (idx_of k J) = c.
Proof.
  intros Hi Hk Hal Hdue Hst Hsl.
  pose proof (idx_range k J ltac:(lia)) as Hir.
  destruct (inv_at _ _ _ k (idx_of k J) t Hi) as (E&HE&Hidx&Hp); [lia|lia|rewrite Hsl; by left|].
  assert (Hfl : fl k E = J).
  { destruct Hp as [Hp|[-> _]]; [|lia]. rewrite <-(aligned_fl k J) by (done || lia).
    destruct (pow_sh k) as (?&?&?); [lia|].
    apply (idx_inj k J); [lia|done|done|]. rewrite aligned_fl by (done || lia). nia. }
  destruct (inv_objs _ _ _ Hi t E HE) as [Ho Hlp].
  unfold cascade_one, get_timer. rewrite Ho. cbn [of_option res_bind with_expires loop]. rewrite Hlp.
  set (w0 := set_base w (node_remove (base w) t)).
  pose proof (inv_remove w J P t Hi) as Hi0. fold w0 in Hi0.
  destruct (internal_add_spec w0 J (delete t P) t E Hi0) as (w'&k'&->&Hi'&Ho'&Hc'&Hk'&Hlo&Hhi&Hsl');
    [by rewrite lookup_delete_eq|done|done|by apply (Hdue t)|].
  rewrite insert_delete_id in Hi' by done. exists w'. split; [done|]. split; [done|].
  pose proof (fl_bounds k E ltac:(lia)) as Hb.
  assert (Hk'k : (k' < k)%nat).
  { destruct (decide (k' < k)%nat); [done|]. exfalso. specialize (Hhi ltac:(lia)).
    assert (2 ^ sh k <= 2 ^ sh k'); [|lia]. apply Z.pow_le_mono_r; [lia|]. destruct k, k'; simpl; lia. }
  split; [|split; [done|split; [done|]]].
  - intros j x Ex Hj Hj5 HEx Hx. rewrite Hsl' in Hx by (done || apply idx_range, Hj5).
    simpl in Hx. rewrite slot_node_remove in Hx.
    assert (Hold : x ∈ slot (base w) j (idx_of j Ex) -> J < fl j Ex) by (intros; by apply (Hst j x Ex)).
    case_decide as Hd.
    + apply elem_of_app in Hx as [[_ Hx]%list_elem_of_filter|Hx]; [auto|].
      apply list_elem_of_singleton in Hx as ->. assert (Ex = E) as -> by congruence. destruct Hd as [-> _].
      apply (slot_place J E k'); try done; [apply (Hdue t E HE)|lia].
    + apply list_elem_of_filter in Hx as [_ Hx]. auto.
  - rewrite Hsl' by lia. rewrite decide_False by lia. simpl. rewrite slot_node_remove, Hsl.
    apply filter_head_nodup. rewrite <-Hsl. apply Hi; lia.
Qed.

Lemma cascade_loop fuel w J P k c :
  inv w J P -> (1 <= k < 5)%nat -> aligned k J -> (forall t E, P !! t = Some E -> J <= E < J + 2 ^ 32) ->
  strict w J P k -> slot (base w) k (idx_of k J) = c -> (length c <= fuel)%nat ->
  exists w', foreach_safe cascade_one k (idx_of k J) fuel (head c) (head (tail c)) w = Ok (w', true) /\
    inv w' J P /\ strict w' J P k /\ calls w' = calls w /\ objs w' = objs w /\
    slot (base w') k (idx_of k J) = [].
Proof.
  intros Hi Hk Hal Hdue. revert w c Hi. induction fuel as [|fuel IH]; intros w c Hi Hst Hsl Hf.
  - destruct c; [|simpl in Hf; lia]. exists w. by split_and!.
  - destruct c as [|t c]; [exists w; by split_and!|]. cbn [foreach_safe head tail].
    destruct (cascade_one_spec w J P k t c Hi Hk Hal Hdue Hst Hsl) as (w1&->&Hi1&Hst1&Hc1&Ho1&Hs1).
    cbn [res_bind]. rewrite Hs1, next_item_head. cbn [res_bind].
    destruct (IH w1 c Hi1 Hst1 Hs1) as (w'&->&?&?&?&?&?); [simpl in Hf; lia|].
    exists w'. split_and!; (done || congruence).
Qed.

(** A slot holds no more timers than are pending. *)
Lemma slot_length w J P k i : inv w J P -> (k < 5)%nat -> 0 <= i -> (length (slot (base w) k i) <= size P)%nat.
Proof.
  intros Hi Hk H0. pose proof (inv_nodup _ _ _ Hi k i Hk H0) as Hn.
  rewrite <-size_dom, <-(size_list_to_set (C := gset Z)) by exact Hn.
  apply subseteq_size. intros t Ht%elem_of_list_to_set. apply elem_of_dom. by eapply (inv_dom _ _ _ Hi).
Qed.

Lemma cascades_spec fuel w J P k n :
  inv w J P -> (1 <= k)%nat -> (k + n = 5)%nat -> aligned k J ->
  (forall t E, P !! t = Some E -> J <= E < J + 2 ^ 32) -> strict w J P k -> (size P <= fuel)%nat ->
  exists w', cascades fuel (seq k n) w = Ok (w', true) /\ inv w' J P /\ strict w' J P 5 /\
    calls w' = calls w /\ objs w' = objs w.
Proof.
  revert w k. induction n as [|n IH]; intros w k Hi H1 Hkn Hal Hdue Hst Hf.
  { exists w. replace k with 5%nat in * by lia. by split_and!. }
  cbn [seq cascades]. destruct k as [|k]; [lia|].
  replace (Z.of_nat (S k) - 1) with (Z.of_nat k) by lia.
  rewrite (INDEX_spec (base w) J k) by (apply Hi || lia).
  pose proof (idx_range (S k) J ltac:(lia)) as Hir.
  unfold cascade, GP_LIST_FOREACH_SAFE. rewrite next_item_head. cbn [res_bind].
  destruct (cascade_loop fuel w J P (S k) (slot (base w) (S k) (idx_of (S k) J)) Hi) as (w1&->&Hi1&Hst1&Hc1&Ho1&Hs1); try done; try lia.
  { etransitivity; [apply (slot_length w J P); (done || lia)|done]. }
  cbn [res_bind negb].
  assert (Hst' : strict w1 J P (S (S k))).
  { intros j t E Hj Hj5 HE Ht. destruct (decide (j < S k)%nat); [apply (Hst1 j t E); (done || lia)|].
    assert (j = S k) as -> by lia. pose proof (at_level _ _ _ (S k) t E Hi1 ltac:(lia) HE Ht) as Hp.
    destruct (decide (fl (S k) E = J)) as [Heq|]; [|lia]. exfalso.
    assert (idx_of (S k) E = idx_of (S k) J) as Hid.
    { destruct (pow_sh (S k)) as [? _]; [lia|]. unfold idx_of. f_equal. unfold fl in Heq.
      rewrite <-Heq, Z.div_mul by lia. done. }
    rewrite Hid, Hs1 in Ht. by apply elem_of_nil in Ht. }
  destruct (Z.eqb_spec (idx_of (S k) J) 0) as [Hz|Hz].
  - destruct (decide (n = 0)%nat) as [->|Hn].
    { exists w1. replace (S (S k)) with 5%nat in * by lia. by split_and!. }
    destruct (IH w1 (S (S k))) as (w'&->&?&?&?&?); try done; try lia.
    { apply aligned_S; (done || lia). }
    exists w'. split_and!; (done || congruence).
  - exists w1. split_and!; try done. apply (strict_unaligned w1 J P (S (S k)) 5); try done; try lia.
    destruct (decide (n = 0)%nat) as [->|Hn]; [|rewrite (aligned_S (S k) J) by (done || lia); done].
    intros Ha. apply Hz. apply (aligned_S (S k)); (done || lia).
Qed.

(** ** One jiffy *)
(** A repeating timer's next interval. *)
Definition again (t : Z) : option Z :=
  if Timer.repeat (info t) =? 1 then Some (interval (info t)) else None.
(** An interval the wheel handles: positive, and not the length of [tv1]
    (see [interval_256_fires_twice]). *)
Definition good (t : Z) : Prop := forall iv, again t = Some iv -> 1 <= iv < 2 ^ 31 /\ iv <> 256.

Definition after_fire (J t : Z) (P : gmap Z Z) : gmap Z Z :=
  match again t with Some iv => <[t := J + iv]> P | None => delete t P end.
Definition call_of (J t : Z) : list call :=
  match callback (info t) with
  | Some fn => [mk_call t fn (data (info t)) (u32 (J + 1))]
  | None => []
  end.

Lemma invoke_spec w J P t :
  inv w (J + 1) P -> P !! t = Some J ->
  exists w', invoke t (with_expires (info t) J) w = w' /\ inv w' (J + 1) P /\ base w' = base w /\
    objs w' = objs w /\ calls w' = calls w ++ call_of J t.
Proof.
  intros Hi HP. unfold invoke, call_of. simpl. destruct (callback (info t)) as [fn|].
  - eexists. split; [done|]. split; [by apply inv_calls|]. by rewrite (inv_jiffies _ _ _ Hi).
  - exists w. by rewrite app_nil_r.
Qed.

Lemma expire_one_spec w J P t c :
  0 <= J -> inv w (J + 1) P -> slot (base w) 0 (idx_of 0 J) = t :: c -> P !! t = Some J -> good t ->
  exists w', expire_one t w = Ok w' /\ inv w' (J + 1) (after_fire J t P) /\
    calls w' = calls w ++ call_of J t /\ slot (base w') 0 (idx_of 0 J) = c.
Proof.
  intros HJ Hi Hsl HP Hg. destruct (inv_objs _ _ _ Hi t J HP) as [Ho Hlp].
  pose proof (idx_range 0 J ltac:(lia)) as Hir.
  assert (Hnd : NoDup (t :: c)) by (rewrite <-Hsl; apply Hi; lia).
  unfold expire_one, get_timer at 1. rewrite Ho. cbn [of_option res_bind].
  destruct (invoke_spec w J P t Hi HP) as (w1&->&Hi1&Hb1&Ho1&Hc1). rewrite <-Hc1.
  unfold gp_timer_del, get_timer at 1. rewrite Ho1, Ho. cbn [of_option res_bind with_expires Timer.repeat].
  set (w2 := set_base w1 (node_remove (base w1) t)).
  pose proof (inv_remove w1 _ _ t Hi1) as Hi2. fold w2 in Hi2.
  assert (Hs2 : slot (base w2) 0 (idx_of 0 J) = c).
  { simpl. rewrite slot_node_remove, Hb1, Hsl. by apply filter_head_nodup. }
  assert (Htc : t ∉ c) by (by apply NoDup_cons in Hnd as [? _]).
  unfold after_fire. pose proof (Hg) as Hg'. unfold good, again in *. destruct (Timer.repeat (info t) =? 1) eqn:Hrep.
  - destruct (Hg' _ eq_refl) as [Hiv H256].
    set (E := J + interval (info t)).
    assert (Hobj : mk_timer (loop (with_expires (info t) J))
        (u32 (expires (with_expires (info t) J) + interval (with_expires (info t) J)))
        (interval (with_expires (info t) J)) (Timer.repeat (info t))
        (callback (with_expires (info t) J)) (data (with_expires (info t) J))
        (state (with_expires (info t) J)) = with_expires (info t) E).
    { unfold with_expires; simpl. f_equal. unfold E. wrap_lia. }
    rewrite Hobj.
    set (w3 := set_obj w2 t _).
    assert (Hi3 : inv w3 (J + 1) (delete t P)).
    { apply (inv_objs_change w2); [done|]. intros t' E' [? _]%lookup_delete_Some. by apply lookup_insert_ne. }
    unfold gp_timer_add, get_timer. simpl objs at 1. rewrite lookup_insert_eq. cbn [of_option res_bind].
    set (w4 := set_base w3 _).
    pose proof (inv_remove w3 _ _ t Hi3) as Hi4. fold w4 in Hi4.
    destruct (internal_add_spec w4 (J + 1) _ t E Hi4) as (w5&k&->&Hi5&Ho5&Hc5&Hk&Hlo&Hhi&Hsl5);
      [by rewrite lookup_delete_eq|simpl; by rewrite lookup_insert_eq|done|unfold E; lia|].
    rewrite !insert_delete_eq in Hi5. cbn [res_bind].
    destruct (gp_next_timer_total w5) as [n ->]; [by eapply inv_closed|]. cbn [res_bind].
    eexists. split; [done|]. split; [by apply inv_set_next|]. split; [by simpl; rewrite Hc5|].
    change (slot (base w5) 0 (idx_of 0 J) = c). rewrite Hsl5 by lia. rewrite decide_False.
    + simpl. rewrite slot_node_remove. simpl in Hs2. rewrite Hs2. by apply filter_notin.
    + intros [<- Hid]. rewrite !idx_0 in Hid. change (2 ^ sh 1) with 256 in Hlo.
      unfold E in *. pose proof (Z.div_mod J 256). pose proof (Z.div_mod (J + interval (info t)) 256). lia.
  - unfold destruct_gp_timer, get_timer. simpl objs at 1. rewrite Ho1, Ho. cbn [of_option res_bind].
    set (w3 := mk_wheel _ _ _).
    assert (Hi3 : inv w3 (J + 1) (delete t P)).
    { pose proof (inv_remove w2 _ _ t Hi2) as Hi3. rewrite delete_delete_eq in Hi3.
      apply (inv_objs_change (set_base w2 (node_remove (base w2) t))); [done|].
      intros t' E' [? _]%lookup_delete_Some. simpl. by apply lookup_delete_ne. }
    destruct (gp_next_timer_total w3) as [n ->]; [by eapply inv_closed|]. cbn [res_bind].
    eexists. split; [done|]. split; [by apply inv_set_next|]. split; [done|].
    change (slot (base w3) 0 (idx_of 0 J) = c). simpl. rewrite slot_node_remove. simpl in Hs2.
    rewrite Hs2. by apply filter_notin.
Qed.

Definition fire_all (J : Z) (ts : list Z) (P : gmap Z Z) : gmap Z Z :=
  foldl (fun P t => after_fire J t P) P ts.

Lemma after_fire_ne J t t' P : t' <> t -> after_fire J t P !! t' = P !! t'.
Proof.
  intros. unfold after_fire. destruct (again t); [by rewrite lookup_insert_ne|by rewrite lookup_delete_ne].
Qed.
Lemma after_fire_eq J t P : after_fire J t P !! t = (fun iv => J + iv) <$> again t.
Proof. unfold after_fire. destruct (again t); [by rewrite lookup_insert_eq|by rewrite lookup_delete_eq]. Qed.

Lemma expire_loop fuel w J P c :
  0 <= J -> inv w (J + 1) P -> slot (base w) 0 (idx_of 0 J) = c ->
  (forall t, t ∈ c -> P !! t = Some J /\ good t) -> (length c <= fuel)%nat ->
  exists w', foreach_safe expire_one 0 (idx_of 0 J) fuel (head c) (head (tail c)) w = Ok (w', true) /\
    inv w' (J + 1) (fire_all J c P) /\ calls w' = calls w ++ mjoin (call_of J <$> c) /\
    slot (base w') 0 (idx_of 0 J) = [].
Proof.
  intros HJ. revert w P c. induction fuel as [|fuel IH]; intros w P c Hi Hsl Hc Hf.
  - destruct c; [|simpl in Hf; lia]. exists w. rewrite app_nil_r. by split_and!.
  - destruct c as [|t c]; [exists w; rewrite app_nil_r; by split_and!|]. cbn [foreach_safe head tail].
    destruct (Hc t) as [HP Hg]; [by left|].
    assert (Hnd : NoDup (t :: c)).
    { rewrite <-Hsl. pose proof (idx_range 0 J ltac:(lia)). apply Hi; lia. }
    apply NoDup_cons in Hnd as [Htc _].
    destruct (expire_one_spec w J P t c HJ Hi Hsl HP Hg) as (w1&->&Hi1&Hc1&Hs1).
    cbn [res_bind]. rewrite Hs1, next_item_head. cbn [res_bind].
    destruct (IH w1 (after_fire J t P) c Hi1 Hs1) as (w'&->&Hi'&Hc'&Hs'); [|simpl in Hf; lia|].
    { intros t' Ht'. rewrite after_fire_ne by (by intros ->). apply Hc. by right. }
    exists w'. split; [done|]. split; [done|]. split; [|done].
    rewrite Hc', Hc1, <-app_assoc. done.
Qed.

(** What is pending after jiffy [J]. *)
Definition tick_pending (J : Z) (P : gmap Z Z) : gmap Z Z :=
  map_imap (fun t E => if E =? J then (fun iv => J + iv) <$> again t else Some E) P.

Lemma fire_all_lookup J ts P t :
  NoDup ts -> fire_all J ts P !! t = if decide (t ∈ ts) then (fun iv => J + iv) <$> again t else P !! t.
Proof.
  intros Hn. revert P. induction Hn as [|x ts Hx Hn IH]; intros P.
  - rewrite decide_False; [done|]. by intros ?%elem_of_nil.
  - cbn [fire_all foldl]. fold (fire_all J ts (after_fire J x P)). rewrite IH.
    destruct (decide (t ∈ ts)).
    + rewrite decide_True; [done|by right].
    + destruct (decide (t = x)) as [->|].
      * rewrite decide_True by (by left). apply after_fire_eq.
      * rewrite decide_False by (rewrite elem_of_cons; tauto). by apply after_fire_ne.
Qed.
Lemma fire_all_tick J ts P :
  NoDup ts -> (forall t, t ∈ ts <-> P !! t = Some J) -> fire_all J ts P = tick_pending J P.
Proof.
  intros Hn Hts. apply map_eq. intros t. rewrite fire_all_lookup by done.
  unfold tick_pending. rewrite map_lookup_imap. destruct (P !! t) as [E|] eqn:HE; simpl.
  - destruct (Z.eqb_spec E J) as [->|Hne].
    + by rewrite decide_True by (by apply Hts).
    + rewrite decide_False; [done|]. rewrite Hts. congruence.
  - rewrite decide_False; [done|]. rewrite Hts. congruence.
Qed.

Lemma tick_pending_dom J P t : is_Some (tick_pending J P !! t) -> is_Some (P !! t).
Proof. unfold tick_pending. rewrite map_lookup_imap. destruct (P !! t); [eauto|]. by intros [? ?]. Qed.
Lemma tick_pending_size J P : (size (tick_pending J P) <= size P)%nat.
Proof.
  rewrite <-!size_dom. apply subseteq_size. intros t. rewrite !elem_of_dom. apply tick_pending_dom.
Qed.

(** Standing at [J + 1] with the slot of [J] still to be run. *)
Lemma inv_next_jiffy w J P :
  inv w J P -> (forall t E, P !! t = Some E -> J <= E) -> strict w J P 5 ->
  inv (set_base w (set_jiffies (base w) (u32 (timer_jiffies (base w) + 1)))) (J + 1) P.
Proof.
  intros Hi Hdue Hst. constructor; simpl; try apply Hi.
  - rewrite (inv_jiffies _ _ _ Hi). wrap_lia.
  - pose proof (inv_pos _ _ _ Hi). lia.
  - intros t E HE. destruct (inv_placed _ _ _ Hi t E HE) as (k&Hk&Ht&Hp). exists k. split; [done|].
    split; [exact Ht|]. specialize (Hdue t E HE). destruct Hp as [Hp|[_ ?]]; [|lia].
    destruct (decide (k = 0)%nat) as [->|Hk0].
    + unfold place, fl in *. change (2 ^ sh 0) with 1 in *. rewrite Z.div_1_r, Z.mul_1_r in *.
      destruct (decide (E = J)); [right; lia|left; lia].
    + left. pose proof (Hst k t E ltac:(lia) Hk HE Ht). lia.
Qed.

(** The timers of the later levels that belong to this turn move down first. *)
Lemma tick_cascade fuel w J P :
  at_rest w J P -> (size P <= fuel)%nat ->
  exists w1, (if idx_of 0 J =? 0 then cascades fuel [1%nat; 2%nat; 3%nat; 4%nat] w else Ok (w, true)) = Ok (w1, true) /\
    inv w1 J P /\ strict w1 J P 5 /\ calls w1 = calls w.
Proof.
  intros [Hi Hdue] Hf. pose proof (inv_pos _ _ _ Hi) as HJ.
  assert (Hst0 : strict w J P 1) by (intros j t E Hj; lia).
  destruct (Z.eqb_spec (idx_of 0 J) 0) as [Hz|Hz].
  - destruct (cascades_spec fuel w J P 1 4) as (w1&?&?&?&?&?); try done; try lia; [|eauto].
    apply (aligned_S 0); [lia| |done]. unfold aligned. change (2 ^ sh 0) with 1. apply Z.mod_1_r.
  - exists w. split_and!; try done. apply (strict_unaligned w J P 1 5); try done; try lia.
    rewrite (aligned_S 0 J); [done|lia|]. unfold aligned. change (2 ^ sh 0) with 1. apply Z.mod_1_r.
Qed.
Lemma run_tick_spec fuel w J P :
  at_rest w J P -> (forall t, is_Some (P !! t) -> good t) -> (size P <= fuel)%nat ->
  exists w' ts, run_tick fuel w = Ok (w', true) /\ at_rest w' (J + 1) (tick_pending J P) /\
    NoDup ts /\ (forall t, t ∈ ts <-> P !! t = Some J) /\ calls w' = calls w ++ mjoin (call_of J <$> ts).
Proof.
  intros [Hi Hdue] Hg Hf. unfold run_tick. rewrite (inv_jiffies _ _ _ Hi), tv1_index.
  pose proof (inv_pos _ _ _ Hi) as HJ. pose proof (idx_range 0 J ltac:(lia)) as Hir.
  destruct (tick_cascade fuel w J P (conj Hi Hdue) Hf) as (w1&->&Hi1&Hst1&Hc1). cbn [res_bind negb].
  assert (Hdue' : forall t E, P !! t = Some E -> J <= E) by (intros t E HE; by apply (Hdue t E)).
  pose proof (inv_next_jiffy w1 J P Hi1 Hdue' Hst1) as Hi2. set (w2 := set_base w1 _) in *.
  set (ts := slot (base w2) 0 (idx_of 0 J)).
  assert (Hts : forall t, t ∈ ts <-> P !! t = Some J).
  { intros t. split.
    - intros Ht. destruct (inv_at _ _ _ 0 (idx_of 0 J) t Hi1) as (E&HE&Hid&Hp); [lia|lia|exact Ht|].
      rewrite HE. f_equal. specialize (Hdue' t E HE). destruct Hp as [Hp|[_ ?]]; [|lia].
      rewrite !idx_0 in Hid. rewrite fl_0 in Hp. change (2 ^ sh 1) with 256 in Hp.
      pose proof (Z.div_mod J 256). pose proof (Z.div_mod E 256). lia.
    - intros HE. destruct (inv_placed _ _ _ Hi2 t J HE) as (k&Hk&Ht&Hp).
      destruct (decide (k = 0)%nat) as [->|]; [done|]. exfalso.
      destruct Hp as [Hp|[? _]]; [|lia]. pose proof (fl_bounds k J Hk). lia. }
  assert (Hnd : NoDup ts) by (apply Hi2; lia).
  unfold GP_LIST_FOREACH_SAFE. cbv zeta. rewrite next_item_head. cbn [res_bind]. fold ts.
  destruct (expire_loop fuel w2 J P ts HJ Hi2 eq_refl) as (w'&->&Hi'&Hc'&_).
  { intros t Ht. apply Hts in Ht. split; [done|]. apply Hg. by rewrite Ht. }
  { etransitivity; [apply (slot_length w2 (J + 1) P); (done || lia)|done]. }
  exists w', ts. split; [done|]. rewrite (fire_all_tick J ts P Hnd Hts) in Hi'.
  split; [split; [done|]|split; [done|split; [done|]]].
  - intros t E. unfold tick_pending. rewrite map_lookup_imap. destruct (P !! t) as [E0|] eqn:HE0; simpl; [|done].
    specialize (Hdue t E0 HE0). destruct (Z.eqb_spec E0 J); [|intros [= <-]; lia].
    destruct (again t) as [iv|] eqn:Hiv; simpl; [|done]. intros [= <-].
    destruct (Hg t) with iv; [by rewrite HE0|done|]. lia.
  - rewrite Hc'. simpl. by rewrite Hc1.
Qed.

(** ** Running up to a jiffy *)
Fixpoint pending_after (n : nat) (J : Z) (P : gmap Z Z) : gmap Z Z :=
  match n with O => P | S n => pending_after n (J + 1) (tick_pending J P) end.

Lemma jiffies_left_spec T J :
  T / 2 ^ 31 = J / 2 ^ 31 \/ J = T + 1 /\ T / 2 ^ 31 = J / 2 ^ 31 -> jiffies_left (u32 T) (u32 J) = Ok (T - J).
Proof.
  intros Hh. assert (Hh' : T / 2 ^ 31 = J / 2 ^ 31) by tauto. change (2 ^ 31) with 2147483648 in Hh'.
  unfold jiffies_left. assert (s32 (u32 T) - s32 (u32 J) = T - J) as -> by wrap_lia.
  assert (-2147483648 < T - J < 2147483648).
  { pose proof (Z.div_mod T 2147483648). pose proof (Z.div_mod J 2147483648).
    pose proof (Z.mod_pos_bound T 2147483648). pose proof (Z.mod_pos_bound J 2147483648). lia. }
  destruct (Z.leb_spec (-2147483648) (T - J)); [|lia]. by destruct (Z.ltb_spec (T - J) 2147483648); [|lia].
Qed.

Lemma run_timers_spec ticks fuel n w J P :
  at_rest w J P -> (forall t, is_Some (P !! t) -> good t) -> (size P <= fuel)%nat -> (n <= ticks)%nat ->
  J / 2 ^ 31 = (J + Z.of_nat n) / 2 ^ 31 -> (J + Z.of_nat n - 1) / 2 ^ 31 = (J + Z.of_nat n) / 2 ^ 31 ->
  exists w' css, gp_run_timers ticks fuel w (u32 (J + Z.of_nat n - 1)) = Ok (w', true) /\
    at_rest w' (J + Z.of_nat n) (pending_after n J P) /\
    calls w' = calls w ++ mjoin css /\ length css = n /\
    forall i cs, css !! i = Some cs -> exists ts, cs = mjoin (call_of (J + Z.of_nat i) <$> ts) /\ NoDup ts /\
      forall t, t ∈ ts <-> pending_after i J P !! t = Some (J + Z.of_nat i).
Proof.
  revert ticks w J P. induction n as [|n IH]; intros ticks w J P Hw Hg Hf Hn Hh Hh'.
  - replace (J + Z.of_nat 0) with J in * by lia. exists w, [].
    assert (Hx : forall r : wheel -> res (wheel * bool),
              (let* x := jiffies_left (u32 (J - 1)) (timer_jiffies (base w)) in
               if x <? 0 then Ok (w, true) else r w) = Ok (w, true)).
    { intros r. rewrite (inv_jiffies _ _ _ (proj1 Hw)), jiffies_left_spec by (right; lia). cbn [res_bind].
      by replace (J - 1 - J) with (-1) by lia. }
    split; [destruct ticks; apply (Hx (fun _ => _))|]. rewrite app_nil_r. by split_and!.
  - destruct ticks as [|ticks]; [lia|]. cbn [gp_run_timers]. rewrite (inv_jiffies _ _ _ (proj1 Hw)).
    rewrite jiffies_left_spec by (left; congruence). cbn [res_bind].
    destruct (Z.ltb_spec (J + Z.of_nat (S n) - 1 - J) 0); [lia|].
    destruct (run_tick_spec fuel w J P Hw Hg Hf) as (w1&ts&->&Hw1&Hnd&Hts&Hc1). cbn [res_bind negb].
    destruct (IH ticks w1 (J + 1) (tick_pending J P)) as (w'&css&Hr&Hw'&Hc'&Hl&Hcs); try done; try lia.
    + intros t Ht. apply Hg. by eapply tick_pending_dom.
    + pose proof (tick_pending_size J P). lia.
    + replace (J + 1 + Z.of_nat n) with (J + Z.of_nat (S n)) by lia.
      apply Z.le_antisymm; [apply Z.div_le_mono; lia|]. rewrite <-Hh. apply Z.div_le_mono; lia.
    + by replace (J + 1 + Z.of_nat n) with (J + Z.of_nat (S n)) by lia.
    + replace (J + 1 + Z.of_nat n) with (J + Z.of_nat (S n)) in * by lia.
      exists w', (mjoin (call_of J <$> ts) :: css). split; [done|]. split; [done|]. split.
      { rewrite Hc', Hc1, <-app_assoc. done. }
      split; [simpl; lia|]. intros [|i] cs Hi.
      { injection Hi as <-. exists ts. by replace (J + Z.of_nat 0) with J by lia. }
      destruct (Hcs i cs Hi) as (ts'&->&?&?). exists ts'.
      by replace (J + Z.of_nat (S i)) with (J + 1 + Z.of_nat i) by lia.
Qed.

(** ** Setting up, adding, deleting *)
Lemma create_at_rest J : 0 <= J -> at_rest (create_gp_timer_base J) J ∅.
Proof.
  intros HJ. assert (Hsl : forall k i, slot (init_gp_timer_base J) k i = []).
  { intros k i. unfold slot, init_gp_timer_base.
    assert (Hr : forall n, default [] ((replicate n [] : list (list Z)) !! Z.to_nat i) = []).
    { intros n. destruct (replicate n [] !! Z.to_nat i) eqn:E; [|done]. by apply lookup_replicate in E as [-> _]. }
    destruct k as [|[|[|[|k]]]]; apply Hr. }
  split; [|intros t E HE; by rewrite lookup_empty in HE].
  constructor; try done; simpl.
  - intros k Hk. destruct k as [|[|[|[|[|k]]]]]; (done || lia).
  - intros k i t _ _. rewrite Hsl. by intros ?%elem_of_nil.
  - intros k i k' i' t _ _ _ _. rewrite Hsl. by intros ?%elem_of_nil.
  - intros k i _ _. rewrite Hsl. constructor.
Qed.

Lemma add_at_rest w J P t E :
  at_rest w J P -> objs w !! t = Some (with_expires (info t) E) -> loop (info t) = true ->
  J <= E < J + 2 ^ 32 ->
  exists w', gp_timer_add w t = Ok w' /\ at_rest w' J (<[t := E]> P) /\ calls w' = calls w /\ objs w' = objs w.
Proof.
  intros [Hi Hdue] Ho Hl HE. unfold gp_timer_add, get_timer. rewrite Ho. cbn [of_option res_bind].
  set (w1 := set_base w _). pose proof (inv_remove w J P t Hi) as Hi1. fold w1 in Hi1.
  destruct (internal_add_spec w1 J _ t E Hi1) as (w'&k&->&Hi'&Ho'&Hc'&_); try done; [apply lookup_delete_eq|].
  rewrite insert_delete_eq in Hi'. exists w'. split; [done|]. split; [|done]. split; [done|].
  intros t' E' [[<- <-]|[_ ?]]%lookup_insert_Some; [done|by apply (Hdue t')].
Qed.

Lemma del_at_rest w J P t :
  at_rest w J P -> is_Some (objs w !! t) ->
  exists w', gp_timer_del w t = Ok w' /\ at_rest w' J (delete t P) /\ calls w' = calls w /\ objs w' = objs w.
Proof.
  intros [Hi Hdue] [tm Ho]. unfold gp_timer_del, get_timer. rewrite Ho. cbn [of_option res_bind].
  eexists. split; [done|]. split; [|done]. split; [by apply inv_remove|].
  intros t' E' [_ ?]%lookup_delete_Some. by apply (Hdue t').
Qed.

Lemma set_obj_at_rest w J P t tm :
  at_rest w J P -> P !! t = None -> at_rest (set_obj w t tm) J P.
Proof.
  intros [Hi Hdue] HP. split; [|done]. apply (inv_objs_change w); [done|].
  intros t' E' HE. apply lookup_insert_ne. by intros ->; congruence.
Qed.
End Wheel.

Lemma at_rest_info info info' w J P :
  at_rest info w J P -> (forall t, is_Some (P !! t) -> info t = info' t) -> at_rest info' w J P.
Proof.
  intros [Hi Hdue] Heq. split; [|done]. destruct Hi. constructor; try done.
  intros t E HE. rewrite <-Heq by eauto. eauto.
Qed.

Lemma mod_at_rest (info : Z -> gp_timer_list) (w : wheel) (J : Z) (P : gmap Z Z)
    (t E0 E iv rp : Z) :
  at_rest info w J P -> objs w !! t = Some (with_expires (info t) E0) -> loop (info t) = true ->
  J <= E < J + 2 ^ 32 ->
  let tm := mk_timer (loop (info t)) (u32 E) (s32 iv) (s32 rp) (callback (info t)) (data (info t)) (state (info t)) in
  exists w', gp_timer_mod w t (u32 E) iv rp = Ok w' /\
    at_rest (fun x => if decide (x = t) then tm else info x) w' J (<[t := E]> P) /\ calls w' = calls w.
Proof.
  intros Hw Ho Hl HE tm. unfold gp_timer_mod.
  destruct (del_at_rest info w J P t Hw) as (w1&->&Hw1&Hc1&Ho1); [eauto|]. cbn [res_bind].
  unfold get_timer at 1. rewrite Ho1, Ho. cbn [of_option res_bind with_expires].
  cbn [loop expires interval Timer.repeat callback data state].
  assert (u32 (u32 E) = u32 E) as -> by wrap_lia.
  change (mk_timer (loop (with_expires (info t) E0)) _ _ _ _ _ _) with tm.
  set (info' := fun x => if decide (x = t) then tm else info x).
  assert (Hw2 : at_rest info' (set_obj w1 t tm) J (delete t P)).
  { apply at_rest_info with info.
    - apply set_obj_at_rest; [done|apply lookup_delete_eq].
    - intros t' Ht'. unfold info'. rewrite decide_False; [done|]. intros ->.
      rewrite lookup_delete_eq in Ht'. by destruct Ht'. }
  destruct (add_at_rest info' (set_obj w1 t tm) J (delete t P) t E) as (w'&->&Hw'&Hc'&_); try done.
  - simpl. rewrite lookup_insert_eq. unfold info'. by rewrite decide_True.
  - unfold info'. by rewrite decide_True.
  - exists w'. rewrite insert_delete_eq in Hw'. split_and!; [done|done|]. simpl in Hc'. congruence.
Qed.

(** C9.  Timers fire on time: running the wheel from jiffy [J] through [T]
    calls, at every jiffy in between, the callbacks of exactly the timers due
    at it, once each, whatever levels they started on; repeating timers are
    due again [interval] later, the others are gone.  The bounds exclude
    crossing a multiple of 2^31 jiffies and repeat intervals of 256. *)
Theorem timers_fire_on_time (info : Z -> gp_timer_list) (ticks fuel n : nat) (w : wheel) (J : Z) (P : gmap Z Z) :
  at_rest info w J P -> (forall t, is_Some (P !! t) -> good info t) ->
  (size P <= fuel)%nat -> (n <= ticks)%nat ->
  J / 2 ^ 31 = (J + Z.of_nat n) / 2 ^ 31 -> (J + Z.of_nat n - 1) / 2 ^ 31 = (J + Z.of_nat n) / 2 ^ 31 ->
  exists w' css, gp_run_timers ticks fuel w (u32 (J + Z.of_nat n - 1)) = Ok (w', true) /\
    at_rest info w' (J + Z.of_nat n) (pending_after info n J P) /\
    calls w' = calls w ++ mjoin css /\ length css = n /\
    forall i cs, css !! i = Some cs ->
      exists ts, cs = mjoin (call_of info (J + Z.of_nat i) <$> ts) /\ NoDup ts /\
        forall t, t ∈ ts <-> pending_after info i J P !! t = Some (J + Z.of_nat i).
Proof. apply run_timers_spec. Qed.

(** [gp_timer_add] schedules: a timer whose expiry is not past, pending
    before or not, becomes due at its expiry and no other timer is affected;
    [gp_timer_del] makes it due never. *)
Theorem timer_add_del_schedule (info : Z -> gp_timer_list) (w : wheel) (J : Z) (P : gmap Z Z) (t E : Z) :
  at_rest info w J P -> objs w !! t = Some (with_expires (info t) E) -> loop (info t) = true ->
  J <= E < J + 2 ^ 32 ->
  (exists w', gp_timer_add w t = Ok w' /\ at_rest info w' J (<[t := E]> P) /\ calls w' = calls w) /\
  (exists w', gp_timer_del w t = Ok w' /\ at_rest info w' J (delete t P) /\ calls w' = calls w).
Proof.
  intros Hw Ho Hl HE. split.
  - destruct (add_at_rest info w J P t E) as (w'&?&?&?&_); eauto.
  - destruct (del_at_rest info w J P t) as (w'&?&?&?&_); eauto.
Qed.

(** [gp_timer_mod] gives a timer a new expiry, interval and repeat flag
    whether or not it was pending, and leaves the others alone. *)
Theorem timer_mod_reschedules (info : Z -> gp_timer_list) (w : wheel) (J : Z) (P : gmap Z Z)
    (t E0 E iv rp : Z) :
  at_rest info w J P -> objs w !! t = Some (with_expires (info t) E0) -> loop (info t) = true ->
  J <= E < J + 2 ^ 32 ->
  let tm := mk_timer (loop (info t)) (u32 E) (s32 iv) (s32 rp) (callback (info t)) (data (info t)) (state (info t)) in
  exists w', gp_timer_mod w t (u32 E) iv rp = Ok w' /\
    at_rest (fun x => if decide (x = t) then tm else info x) w' J (<[t := E]> P) /\ calls w' = calls w.
Proof. apply mod_at_rest. Qed.

(** The test [(int64_t) idx < 0] never holds on the unsigned [idx]: a
    timer added after its expiry does not fire at the next jiffy but a whole
    turn of the 32-bit clock later. *)
Theorem expired_timer_waits_a_full_turn (info : Z -> gp_timer_list) (w : wheel) (J : Z) (P : gmap Z Z) (t E : Z) :
  at_rest info w J P -> objs w !! t = Some (with_expires (info t) E) -> loop (info t) = true ->
  J - 2 ^ 32 <= E < J ->
  exists w', gp_timer_add w t = Ok w' /\ at_rest info w' J (<[t := E + 2 ^ 32]> P).
Proof.
  intros Hw Ho Hl HE.
  assert (Heq : with_expires (info t) E = with_expires (info t) (E + 2 ^ 32)).
  { unfold with_expires. f_equal. change (2 ^ 32) with 4294967296. wrap_lia. }
  rewrite Heq in Ho. destruct (add_at_rest info w J P t (E + 2 ^ 32)) as (w'&?&?&_); try done; [lia|]. eauto.
Qed.

(** *** Concrete wheels *)
Definition demo_timer (ex iv rp : Z) : gp_timer_list := mk_timer true (u32 ex) iv rp (Some 9) 7 0.
Definition demo_info (iv : Z) (_ : Z) : gp_timer_list := demo_timer 0 iv 1.
Definition demo_wheel (ex iv : Z) : wheel := set_obj (create_gp_timer_base 1000) 1 (demo_timer ex iv 1).
Lemma demo_wheel_at_rest ex iv : at_rest (demo_info iv) (demo_wheel ex iv) 1000 ∅.
Proof. apply set_obj_at_rest; [by apply create_at_rest|done]. Qed.

Definition demo_added : wheel := match gp_timer_add (demo_wheel 1003 5) 1 with Ok w => w | _ => demo_wheel 1003 5 end.
Lemma demo_added_at_rest : at_rest (demo_info 5) demo_added 1000 {[1 := 1003]}.
Proof.
  destruct (add_at_rest (demo_info 5) (demo_wheel 1003 5) 1000 ∅ 1 1003) as (w'&Hw'&Hr&_);
    [apply demo_wheel_at_rest|done|done|lia|].
  unfold demo_added. rewrite Hw'. exact Hr.
Qed.

Lemma timers_fire_on_time_witness :
  exists w' css, gp_run_timers 10 1 demo_added (u32 (1000 + Z.of_nat 10 - 1)) = Ok (w', true) /\
    at_rest (demo_info 5) w' (1000 + Z.of_nat 10) (pending_after (demo_info 5) 10 1000 {[1 := 1003]}) /\
    calls w' = calls demo_added ++ mjoin css /\ length css = 10%nat /\
    forall i cs, css !! i = Some cs ->
      exists ts, cs = mjoin (call_of (demo_info 5) (1000 + Z.of_nat i) <$> ts) /\ NoDup ts /\
        forall t, t ∈ ts <-> pending_after (demo_info 5) i 1000 {[1 := 1003]} !! t = Some (1000 + Z.of_nat i).
Proof.
  apply (timers_fire_on_time (demo_info 5) 10 1 10 demo_added 1000 {[1 := 1003]}).
  - apply demo_added_at_rest.
  - intros t _ iv Hiv. vm_compute in Hiv. injection Hiv as <-. lia.
  - rewrite map_size_singleton. lia.
  - lia.
  - reflexivity.
  - reflexivity.
Defined.

Lemma timer_add_del_schedule_witness :
  exists w', gp_timer_add (demo_wheel 1003 5) 1 = Ok w' /\ at_rest (demo_info 5) w' 1000 {[1 := 1003]} /\
    calls w' = calls (demo_wheel 1003 5).
Proof.
  apply (timer_add_del_schedule (demo_info 5) (demo_wheel 1003 5) 1000 ∅ 1 1003).
  - apply demo_wheel_at_rest.
  - reflexivity.
  - reflexivity.
  - lia.
Defined.

Lemma timer_mod_reschedules_witness :
  exists w', gp_timer_mod demo_added 1 (u32 2000) 7 0 = Ok w' /\
    at_rest (fun x => if decide (x = 1) then mk_timer true (u32 2000) (s32 7) (s32 0) (Some 9) 7 0 else demo_info 5 x)
      w' 1000 (<[1 := 2000]> {[1 := 1003]}) /\ calls w' = calls demo_added.
Proof.
  apply (timer_mod_reschedules (demo_info 5) demo_added 1000 {[1 := 1003]} 1 1003 2000 7 0).
  - apply demo_added_at_rest.
  - vm_compute. reflexivity.
  - reflexivity.
  - lia.
Defined.

Lemma expired_timer_waits_a_full_turn_witness :
  exists w', gp_timer_add (demo_wheel 999 5) 1 = Ok w' /\
    at_rest (demo_info 5) w' 1000 (<[1 := 999 + 2 ^ 32]> ∅).
Proof.
  apply (expired_timer_waits_a_full_turn (demo_info 5) (demo_wheel 999 5) 1000 ∅ 1 999).
  - apply demo_wheel_at_rest.
  - reflexivity.
  - reflexivity.
  - lia.
Defined.

(** Two timers of interval 256 due at jiffy 1003. *)
Definition twin_wheel : res wheel :=
  let* w := gp_timer_add (demo_wheel 1003 256) 1 in
  gp_timer_add (set_obj w 2 (demo_timer 1003 256 1)) 2.

(** With interval 256 a fired timer is appended to the very slot being
    traversed: two such timers, each due once at jiffy 1003, are both called
    twice at it. *)
Theorem interval_256_fires_twice :
  match twin_wheel with
  | Ok w =>
      match gp_run_timers 10 10 w 1003 with
      | Ok (w', fin) => fin = true /\ map c_timer (calls w') = [1; 2; 1; 2] /\
          map c_jiffies (calls w') = [1004; 1004; 1004; 1004] /\
          expires <$> (objs w' !! 1) = Some 1515
      | _ => False
      end
  | _ => False
  end.
Proof. vm_compute. by split_and!. Qed.
