(* ===== verification/TimerNext.v ===== *)
(** * gp_timer.c: [gp_next_timer] finds the earliest expiry

    The scan goes from the jiffy the wheel stands at through the slots of each
    level, and stops as soon as no later slot can hold an earlier timer.  It
    is compared with the least expiry of the pending timers. *)

From stdpp Require Import gmap.
From S2P Require Import Prelude Timer TimerInv.
Local Open Scope Z_scope.

(** ** Rounding up to the slots of a level *)
(** [j * p] is the first multiple of [p] not before [J]. *)
Definition is_ceil (J p j : Z) : Prop := J <= j * p < J + p.
Lemma ceil_self J : is_ceil J 1 J.
Proof. unfold is_ceil. lia. Qed.
Definition round_up (j q : Z) : Z := (if j mod q =? 0 then j else j + q - j mod q) / q.
Lemma round_up_mul j q : 0 < q -> j <= round_up j q * q < j + q.
Proof.
  intros Hq. unfold round_up. pose proof (Z.mod_pos_bound j q Hq). pose proof (Z.div_mod j q ltac:(lia)) as Hd.
  destruct (Z.eqb_spec (j mod q) 0) as [E|E]; [nia|].
  replace (j + q - j mod q) with ((j / q + 1) * q) by nia. rewrite Z.div_mul by lia. nia.
Qed.
Lemma ceil_up J p q j : 0 < p -> 0 < q -> is_ceil J p j -> is_ceil J (p * q) (round_up j q).
Proof. intros Hp Hq [H1 H2]. pose proof (round_up_mul j q Hq). unfold is_ceil. nia. Qed.

Section Next.
Context (info : Z -> gp_timer_list) (w : wheel) (J : Z) (P : gmap Z Z).
Context (Hrest : at_rest info w J P) (Hsmall : map_Forall (fun _ E => E < 4294967295) P) (HJ : J + 256 <= 4294967296).
Set Default Proof Using "Hrest Hsmall HJ".

(** A timer of level [k] that is due at [E]. *)
Definition at_level (k : nat) (E : Z) : Prop :=
  exists t, P !! t = Some E /\ t ∈ slot (base w) k (idx_of k E) /\ J <= fl k E < J + 2 ^ sh (S k).
Lemma level_of t E : P !! t = Some E -> exists k, (k < 5)%nat /\ at_level k E.
Proof.
  intros Ht. destruct Hrest as [Hi He]. destruct (inv_placed _ _ _ _ Hi t E Ht) as (k&Hk&Hs&[Hp|[_ Hp]]).
  - exists k. split; [done|]. by exists t.
  - specialize (He t E Ht). lia.
Qed.
(** What is in a slot. *)
Lemma in_slot k i t : (k < 5)%nat -> 0 <= i -> t ∈ slot (base w) k i ->
  exists E tm, P !! t = Some E /\ objs w !! t = Some tm /\ expires tm = E /\ i = idx_of k E /\ at_level k E.
Proof.
  intros Hk H0 Ht. destruct Hrest as [Hi He]. destruct (inv_at _ _ _ _ k i t Hi Hk H0 Ht) as (E&HE&->&Hp).
  destruct (inv_objs _ _ _ _ Hi t E HE) as [Ho _]. exists E, (with_expires (info t) E). specialize (He t E HE). specialize (Hsmall t E HE). cbn in Hsmall.
  split_and!; try done; [cbn; apply u32_small; pose proof (inv_pos _ _ _ _ Hi); lia|]. exists t. split; [done|]. split; [done|].
  destruct Hp as [Hp|[_ Hp]]; [done|lia].
Qed.
(** Its block lies in the turn that begins at the jiffy. *)
Lemma at_level_block k E j : (k < 5)%nat -> is_ceil J (2 ^ sh k) j -> at_level k E -> j <= E / 2 ^ sh k < j + slots k.
Proof.
  intros Hk [Hj1 Hj2] (t&_&_&H1&H2). destruct (pow_sh k Hk) as (Hp&Hs&Hps). rewrite Hps in H2. unfold fl in *.
  set (b := E / 2 ^ sh k) in *. assert (j - 1 < b) by (apply (Z.mul_lt_mono_pos_r (2 ^ sh k)); lia).
  assert (b < j + slots k) by (apply (Z.mul_lt_mono_pos_r (2 ^ sh k)); lia). lia.
Qed.
Lemma block_bounds k E : (k < 5)%nat -> E / 2 ^ sh k * 2 ^ sh k <= E < (E / 2 ^ sh k + 1) * 2 ^ sh k.
Proof. intros Hk. destruct (pow_sh k Hk) as (Hp&_). pose proof (Z.div_mod E (2 ^ sh k)). pose proof (Z.mod_pos_bound E (2 ^ sh k)). nia. Qed.

(** *** One slot *)
Lemma least_expiry_spec k i c found ex : (k < 5)%nat -> 0 <= i -> (forall t, t ∈ c -> t ∈ slot (base w) k i) ->
  exists f e, least_expiry w c found ex = Ok (f, e) /\ f = (found || negb (bool_decide (c = []))) /\ e <= ex /\
    (forall t E, t ∈ c -> P !! t = Some E -> e <= E) /\ (e = ex \/ exists t E, t ∈ c /\ P !! t = Some E /\ e = E).
Proof.
  intros Hk H0. revert found ex. induction c as [|t c IH]; intros found ex Hc; cbn [least_expiry].
  { exists found, ex. split; [done|]. split; [by destruct found|]. split; [lia|]. split; [|by left]. intros t E Ht. by apply not_elem_of_nil in Ht. }
  destruct (in_slot k i t Hk H0) as (E&tm&HE&Ho&Hx&_); [apply Hc; by left|]. unfold get_timer. rewrite Ho. cbn [of_option res_bind]. rewrite Hx.
  set (ex' := if E - ex <? 0 then E else ex). assert (Hex' : ex' <= ex /\ ex' <= E) by (unfold ex'; destruct (Z.ltb_spec (E - ex) 0); lia).
  destruct (IH true ex') as (f&e&->&Hf&He&Hle&Hin); [intros u Hu; apply Hc; by right|]. exists f, e. split; [done|].
  split_and!; [by rewrite Hf, orb_true_r|lia| |].
  - intros u F [->|Hu]%elem_of_cons HF; [rewrite HE in HF; injection HF as <-; lia|by eapply Hle].
  - destruct Hin as [->|(u&F&Hu&HF&->)]; [|right; exists u, F; split; [by right|done]].
    unfold ex'. destruct (Z.ltb_spec (E - ex) 0); [right; exists t, E; split; [by left|done]|by left].
Qed.

(** ** The scan of a level *)
(** What is known before level [k] is scanned, [j] being where its turn
    begins: the least expiry of the levels before it, if they hold any. *)
Definition known (k : nat) (j : Z) (found : bool) (ex : Z) : Prop :=
  (forall k' E, (k' < k)%nat -> at_level k' E -> ex <= E) /\
  if found then (exists t, P !! t = Some ex) /\ ex < (j + 1) * 2 ^ sh k
  else ex = 4294967295 /\ forall k' E, (k' < k)%nat -> ~ at_level k' E.
(** The answer. *)
Definition earliest (ex : Z) : Prop := (exists t, P !! t = Some ex) /\ forall t E, P !! t = Some E -> ex <= E.

Lemma slots_64 k : (1 <= k < 5)%nat -> slots k = 64.
Proof. clear. destruct k as [|[|[|[|[|k]]]]]; try done; lia. Qed.
Lemma block_slot k E j B : (1 <= k < 5)%nat -> is_ceil J (2 ^ sh k) j -> at_level k E -> j <= B < j + 64 -> idx_of k E = B mod 64 -> E / 2 ^ sh k = B.
Proof.
  intros Hk Hj Ha HB Hi. pose proof (at_level_block k E j ltac:(lia) Hj Ha) as Hb. rewrite slots_64 in Hb by done.
  unfold idx_of in Hi. fold (slots k) in Hi. rewrite slots_64 in Hi by done. set (b := E / 2 ^ sh k) in *.
  pose proof (Z.div_mod b 64 ltac:(lia)) as Hd1. pose proof (Z.div_mod B 64 ltac:(lia)) as Hd2. rewrite Hi in Hd1.
  assert (Hbd : -64 < b - B < 64) by lia. assert (b - B = 64 * (b / 64 - B / 64)) by lia. assert (b / 64 - B / 64 = 0) by lia. lia.
Qed.
(** A later level begins at a multiple of its slots. *)
Lemma later_level k k' E j : (k < 4)%nat -> (k < k' < 5)%nat -> is_ceil J (2 ^ sh (S k)) j -> at_level k' E -> j * 2 ^ sh (S k) <= E.
Proof.
  intros Hk Hk' [_ Hj] (t&_&_&Hf&_). pose proof (fl_bounds k' E ltac:(lia)) as [Hfl _].
  assert (Hm : exists q, fl k' E = q * 2 ^ sh (S k)).
  { exists (E / 2 ^ sh k' * 2 ^ (sh k' - sh (S k))). unfold fl. rewrite <-Z.mul_assoc, <-Z.pow_add_r; [do 2 f_equal; lia| |].
    - destruct k' as [|k']; [lia|]. cbn [sh]. lia.
    - cbn [sh]. lia. }
  destruct Hm as [q Hq]. rewrite Hq in *. set (p := 2 ^ sh (S k)) in *. assert (0 < p) by (apply Z.pow_pos_nonneg; [lia|cbn [sh]; lia]).
  assert (j - 1 < q) by (apply (Z.mul_lt_mono_pos_r p); lia). nia.
Qed.
Lemma slot_elems k i : (k < 5)%nat -> 0 <= i -> forall E, at_level k E -> idx_of k E = i -> exists t, t ∈ slot (base w) k i /\ P !! t = Some E.
Proof. intros Hk H0 E (t&HE&Ht&_) <-. by exists t. Qed.

(** The first slot of block [B] with a timer, or the one the turn begins
    with when an earlier level has one. *)
Record hit (k : nat) (j B ex : Z) : Prop := {
  hit_in : exists t, P !! t = Some ex;
  hit_bound : ex < (B + 1) * 2 ^ sh k;
  hit_block : j <= B < j + 64;
  hit_least : forall k' E, (k' <= k)%nat -> at_level k' E -> ex <= E;
}.
Lemma hit_earliest k j B ex : (1 <= k < 5)%nat -> is_ceil J (2 ^ sh k) j -> hit k j B ex -> j mod 64 <> 0 -> j mod 64 <= B mod 64 -> earliest ex.
Proof.
  intros Hk Hj [H1 H2 H3 H4] Hi HB. split; [done|]. intros t E HE. destruct (level_of t E HE) as (k'&Hk'&Ha).
  destruct (Nat.le_gt_cases k' k) as [Hle|Hgt]; [by apply (H4 k')|].
  assert (Hk4 : (k < 4)%nat) by lia. destruct (pow_sh k ltac:(lia)) as (Hp&_&Hps). rewrite slots_64 in Hps by done.
  assert (Hc : is_ceil J (2 ^ sh (S k)) (round_up j 64)) by (rewrite Hps; by apply ceil_up).
  pose proof (later_level k k' E _ Hk4 ltac:(lia) Hc Ha) as Hl. rewrite Hps in Hl.
  assert (B + 1 <= round_up j 64 * 64).
  { unfold round_up. rewrite (proj2 (Z.eqb_neq _ _) Hi). pose proof (Z.div_mod j 64 ltac:(lia)). pose proof (Z.div_mod B 64 ltac:(lia)).
    pose proof (Z.mod_pos_bound B 64 ltac:(lia)). replace (j + 64 - j mod 64) with ((j / 64 + 1) * 64) by lia. rewrite Z.div_mul by lia. lia. }
  nia.
Qed.
Lemma hit_known k j B ex : (1 <= k < 5)%nat -> is_ceil J (2 ^ sh k) j -> hit k j B ex -> known (S k) (round_up j 64) true ex.
Proof.
  intros Hk Hj [H1 H2 H3 H4]. split; [intros k' E Hk'; apply H4; lia|]. split; [done|].
  destruct (pow_sh k ltac:(lia)) as (Hp&_&Hps). rewrite slots_64 in Hps by done. rewrite Hps. pose proof (round_up_mul j 64 ltac:(lia)). nia.
Qed.
Lemma slot_hit k j B found ex c f e : (1 <= k < 5)%nat -> is_ceil J (2 ^ sh k) j -> j <= B < j + 64 -> known k j found ex ->
  (B = j \/ found = false) -> (forall E, at_level k E -> B <= E / 2 ^ sh k) -> c = slot (base w) k (B mod 64) ->
  least_expiry w c found ex = Ok (f, e) -> if f then hit k j B e else found = false /\ e = ex /\ forall E, at_level k E -> B + 1 <= E / 2 ^ sh k.
Proof.
  intros Hk Hj HB [Hlow Hfound] Hs Hblk -> He. pose proof (Z.mod_pos_bound B 64 ltac:(lia)) as Hm.
  destruct (least_expiry_spec k (B mod 64) (slot (base w) k (B mod 64)) found ex ltac:(lia) ltac:(lia)) as (f'&e'&E1&Hf&Hex&Hle&Hin); [done|].
  rewrite He in E1. injection E1 as -> ->.
  assert (Hin_blk : forall t E, t ∈ slot (base w) k (B mod 64) -> P !! t = Some E -> at_level k E /\ E / 2 ^ sh k = B).
  { intros t E Ht HE. destruct (in_slot k (B mod 64) t ltac:(lia) ltac:(lia) Ht) as (E2&tm&HE2&_&_&Hi&Ha). rewrite HE in HE2. injection HE2 as <-.
    split; [done|]. by apply (block_slot k E j B). }
  assert (Hsame : forall E, at_level k E -> E / 2 ^ sh k = B -> exists t, t ∈ slot (base w) k (B mod 64) /\ P !! t = Some E).
  { intros E Ha Hb. apply slot_elems; [lia|lia|done|]. unfold idx_of. fold (slots k). by rewrite slots_64, Hb by done. }
  destruct (slot (base w) k (B mod 64)) as [|t0 c0] eqn:Ec.
  - rewrite orb_false_r in Hf. subst f'. assert (He' : e' = ex) by (destruct Hin as [?|(t&E&Ht&_)]; [done|by apply not_elem_of_nil in Ht]). subst e'.
    assert (Hnext : forall E, at_level k E -> B + 1 <= E / 2 ^ sh k).
    { intros E Ha. specialize (Hblk E Ha). destruct (Z.eq_dec (E / 2 ^ sh k) B) as [Eb|]; [|lia]. destruct (Hsame E Ha Eb) as (t&Ht&_). by apply not_elem_of_nil in Ht. }
    destruct found; [|done]. destruct Hs as [->|?]; [|done]. destruct Hfound as [Hp Hbd]. split; try done.
    intros k' E Hk' Ha. destruct (decide (k' = k)) as [->|]; [|apply (Hlow k'); [lia|done]].
    pose proof (block_bounds k E ltac:(lia)). specialize (Hnext E Ha). destruct (pow_sh k ltac:(lia)) as (Hp0&_). nia.
  - rewrite orb_true_r in Hf. subst f'. destruct (in_slot k (B mod 64) t0 ltac:(lia) ltac:(lia)) as (E0&tm&HE0&_&_&_&_); [rewrite Ec; by left|].
    destruct (Hin_blk t0 E0) as [Ha0 Hb0]; [by left|done|]. specialize (Hle t0 E0 ltac:(by left) HE0) as Hle0.
    pose proof (block_bounds k E0 ltac:(lia)) as Hbb. rewrite Hb0 in Hbb. split; [|lia|done|].
    + destruct Hin as [->|(t&E&Ht&HE&->)]; [|by exists t]. destruct found; [apply Hfound|]. destruct Hfound as [-> _].
      specialize (Hsmall t0 E0 HE0). cbn in Hsmall. lia.
    + intros k' E Hk' Ha. destruct (decide (k' = k)) as [->|]; [|specialize (Hlow k' E ltac:(lia) Ha); lia].
      destruct (Z.eq_dec (E / 2 ^ sh k) B) as [Eb|Hne]; [destruct (Hsame E Ha Eb) as (t&Ht&HE); by eapply Hle|].
      specialize (Hblk E Ha). pose proof (block_bounds k E ltac:(lia)). destruct (pow_sh k ltac:(lia)) as (Hp0&_). nia.
Qed.

Lemma mod_next B : Z.land (B mod 64 + 1) TVN_MASK = (B + 1) mod 64.
Proof. clear. change TVN_MASK with (2 ^ 6 - 1). rewrite land_mask by lia. change (2 ^ 6) with 64. by rewrite Zplus_mod_idemp_l. Qed.
Lemma level_scan_spec k j n B found ex : (1 <= k < 5)%nat -> is_ceil J (2 ^ sh k) j -> (1 <= n)%nat -> B = j + 64 - Z.of_nat n -> B < j + 64 -> j <= B ->
  known k j found ex -> (B = j \/ found = false) -> (forall E, at_level k E -> B <= E / 2 ^ sh k) ->
  exists f e r, level_scan n w k (B mod 64) (j mod 64) found ex = Ok (f, e, r) /\
    if r : bool then earliest e else known (S k) (round_up j 64) f e.
Proof.
  intros Hk Hj. revert B found ex. induction n as [|n IH]; intros B found ex Hn HB HB1 HB2 Hknown Hs Hblk; [lia|]. cbn [level_scan].
  destruct (least_expiry_spec k (B mod 64) (slot (base w) k (B mod 64)) found ex ltac:(lia)) as (f&e&E&_); [apply Z.mod_pos_bound; lia|done|].
  rewrite E. cbn [res_bind]. pose proof (slot_hit k j B found ex _ f e Hk Hj ltac:(lia) Hknown Hs Hblk eq_refl E) as Hhit. destruct f.
  - destruct ((j mod 64 =? 0) || (B mod 64 <? j mod 64)) eqn:Et.
    + exists true, e, false. split; [done|]. by eapply hit_known.
    + exists true, e, true. split; [done|]. apply orb_false_iff in Et as [H1 H2]. apply Z.eqb_neq in H1. apply Z.ltb_ge in H2. by eapply hit_earliest.
  - destruct Hhit as (->&->&Hnext). rewrite mod_next. destruct (Z.eqb_spec ((B + 1) mod 64) (j mod 64)) as [Hw|Hw].
    + exists false, ex, false. split; [done|]. destruct Hknown as [Hlow [Hmax Hno]].
      assert (Hend : B + 1 = j + 64).
      { pose proof (Z.div_mod (B + 1) 64 ltac:(lia)) as H1. pose proof (Z.div_mod j 64 ltac:(lia)) as H2. rewrite Hw in H1. lia. }
      assert (Hnone : forall E, ~ at_level k E).
      { intros E' Ha. specialize (Hnext E' Ha). pose proof (at_level_block k E' j ltac:(lia) Hj Ha) as Hb. rewrite slots_64 in Hb by done. lia. }
      split; [|split; [done|]]; intros k' E' Hk' Ha; (destruct (decide (k' = k)) as [->|]; [by apply Hnone in Ha|]);
        [apply (Hlow k'); [lia|done]|apply (Hno k' E'); [lia|done]].
    + assert (HBn : B + 1 <> j + 64) by (intros Hx; rewrite Hx in Hw; apply Hw; rewrite <-(Z.mul_1_l 64) at 1; apply Z.mod_add; lia).
      apply IH; try done; lia.
Qed.
Definition shift_levels (j : Z) : Z := Z.shiftr (if Z.land j TVN_MASK =? 0 then j else u32 (j + TVN_SIZE - Z.land j TVN_MASK)) TVN_BITS.
Lemma shift_levels_up j : 0 <= j <= 16777216 -> shift_levels j = round_up j 64.
Proof.
  clear. intros Hj. unfold shift_levels, round_up. change TVN_MASK with (2 ^ 6 - 1). rewrite land_mask by lia. change (2 ^ 6) with 64. change TVN_SIZE with 64.
  change TVN_BITS with 6. pose proof (Z.mod_pos_bound j 64 ltac:(lia)). rewrite Z.shiftr_div_pow2 by lia.
  destruct (j mod 64 =? 0); [done|]. by rewrite u32_small by lia.
Qed.
Lemma levels_scan_spec n k j found ex : (1 <= k)%nat -> (k + n = 5)%nat -> is_ceil J (2 ^ sh k) j -> 0 <= j <= 16777216 -> known k j found ex ->
  exists f e j', levels_scan w (seq k n) j found ex = Ok e /\ (earliest e \/ known 5 j' f e).
Proof.
  intros Hk. revert k j found ex Hk. induction n as [|n IH]; intros k j found ex Hk Hn Hj Hjb Hknown.
  { exists found, ex, j. split; [done|]. right. by replace k with 5%nat in Hknown by lia. }
  cbn [seq levels_scan]. fold (shift_levels j).
  assert (Hi : Z.land j TVN_MASK = j mod 64) by (change TVN_MASK with (2 ^ 6 - 1); by rewrite land_mask).
  assert (Hb : forall E, at_level k E -> j <= E / 2 ^ sh k) by (intros E Ha; by apply (at_level_block k E j ltac:(lia) Hj Ha)).
  destruct (level_scan_spec k j 64 j found ex ltac:(lia) Hj ltac:(lia) ltac:(lia) ltac:(lia) ltac:(lia) Hknown ltac:(by left) Hb) as (f&e&r&E&Hr).
  rewrite Hi, E. cbn [res_bind]. destruct r; [by exists f, e, j; auto|].
  rewrite shift_levels_up by lia. destruct (pow_sh k ltac:(lia)) as (Hp&_&Hps). rewrite slots_64 in Hps by lia.
  pose proof (round_up_mul j 64 ltac:(lia)). apply (IH (S k)); [lia|lia|rewrite Hps; by apply ceil_up|lia|done].
Qed.

(** ** The first level *)
Lemma level_0 E : at_level 0 E -> J <= E < J + 256.
Proof. intros (t&_&_&H). rewrite fl_0 in H. exact H. Qed.
Lemma level_0_slot E B : at_level 0 E -> J <= B < J + 256 -> idx_of 0 E = B mod 256 -> E = B.
Proof.
  intros Ha HB Hi. apply level_0 in Ha. rewrite idx_0 in Hi. pose proof (Z.div_mod E 256 ltac:(lia)). pose proof (Z.div_mod B 256 ltac:(lia)).
  assert (E - B = 256 * (E / 256 - B / 256)) by lia. assert (E / 256 - B / 256 = 0) by lia. lia.
Qed.
Lemma next_256 B : Z.land (B mod 256 + 1) TVR_MASK = (B + 1) mod 256.
Proof. clear. change TVR_MASK with (2 ^ 8 - 1). rewrite land_mask by lia. change (2 ^ 8) with 256. by rewrite Zplus_mod_idemp_l. Qed.
Lemma tv1_scan_spec n B : (1 <= n)%nat -> B = J + 256 - Z.of_nat n -> J <= B < J + 256 -> (forall E, at_level 0 E -> B <= E) ->
  exists r, tv1_scan n w (B mod 256) (J mod 256) = Ok r /\
    match r with
    | Some (slt, ex) => exists B', slt = B' mod 256 /\ B' = ex /\ J <= B' < J + 256 /\ at_level 0 ex /\ (forall E, at_level 0 E -> ex <= E)
    | None => forall E, ~ at_level 0 E
    end.
Proof.
  revert B. induction n as [|n IH]; intros B Hn HB HB1 Hlow; [lia|]. cbn [tv1_scan]. pose proof (Z.mod_pos_bound B 256 ltac:(lia)) as Hm.
  destruct (slot (base w) 0 (B mod 256)) as [|t c] eqn:Ec.
  - assert (Hnext : forall E, at_level 0 E -> B + 1 <= E).
    { intros E Ha. specialize (Hlow E Ha). destruct (Z.eq_dec E B) as [->|]; [|lia]. pose proof Ha as (t&_&Ht&_). rewrite idx_0, Ec in Ht. by apply not_elem_of_nil in Ht. }
    rewrite next_256. destruct (Z.eqb_spec ((B + 1) mod 256) (J mod 256)) as [Hw|Hw].
    + exists None. split; [done|]. assert (Hend : B + 1 = J + 256).
      { pose proof (Z.div_mod (B + 1) 256 ltac:(lia)) as H1. pose proof (Z.div_mod J 256 ltac:(lia)) as H2. rewrite Hw in H1. lia. }
      intros E Ha. specialize (Hnext E Ha). apply level_0 in Ha. lia.
    + assert (HBn : B + 1 <> J + 256) by (intros Hx; rewrite Hx in Hw; apply Hw; rewrite <-(Z.mul_1_l 256) at 1; apply Z.mod_add; lia).
      apply IH; try done; lia.
  - destruct (in_slot 0 (B mod 256) t ltac:(lia) ltac:(lia)) as (E&tm&HE&Ho&Hx&Hi&Ha); [rewrite Ec; by left|].
    unfold get_timer. rewrite Ho. cbn [of_option res_bind]. rewrite Hx. eexists. split; [done|].
    assert (HEB : E = B) by (apply level_0_slot; done). rewrite HEB in *. exists B. split_and!; try done; lia.
Qed.

(** [n]: the least expiry, or the initial value when nothing is pending. *)
Definition answers (n : Z) : Prop :=
  n <= 4294967295 /\ (forall t E, P !! t = Some E -> n <= E) /\ (P <> ∅ -> exists t, P !! t = Some n) /\ (P = ∅ -> n = 4294967295).
Lemma earliest_answers e : earliest e -> answers e.
Proof.
  intros [[t Ht] Hle]. pose proof (Hsmall t e Ht) as Hs. cbn in Hs. split; [lia|]. split; [done|]. split; [by exists t|].
  intros HP. rewrite HP in Ht. by rewrite lookup_empty in Ht.
Qed.
Lemma cascade_answers found ex : is_ceil J (2 ^ sh 1) (round_up J 256) -> 0 <= J -> known 1 (round_up J 256) found ex ->
  exists n, levels_scan w [1%nat; 2%nat; 3%nat; 4%nat] (round_up J 256) found ex = Ok n /\ answers n.
Proof.
  intros Hc1 H0 Hk. pose proof (round_up_mul J 256 ltac:(lia)) as Hru. change [1%nat; 2%nat; 3%nat; 4%nat] with (seq 1 4).
  destruct (levels_scan_spec 4 1 (round_up J 256) found ex) as (f&e&j'&->&[Hearl|[Hlow Hf]]); try done; [lia| |].
  - exists e. split; [done|]. by apply earliest_answers.
  - exists e. split; [done|]. destruct f.
    + apply earliest_answers. split; [apply Hf|]. intros t F HF. destruct (level_of t F HF) as (k&Hk5&Ha). by apply (Hlow k).
    + destruct Hf as [-> Hno]. assert (Hempty : forall t F, P !! t = Some F -> False)
        by (intros t F HF; destruct (level_of t F HF) as (k&Hk5&Ha); by apply (Hno k F)).
      split; [lia|]. split; [intros t F HF; by apply Hempty in HF|]. split; [|done]. intros HP. destruct (map_choose P HP) as (t&F&HF). by apply Hempty in HF.
Qed.
(** No later level has a timer before the end of the turn. *)
Lemma turn_earliest ex : J mod 256 <> 0 -> J mod 256 <= ex mod 256 -> J <= ex < J + 256 -> is_ceil J (2 ^ sh 1) (round_up J 256) ->
  at_level 0 ex -> (forall E, at_level 0 E -> ex <= E) -> earliest ex.
Proof.
  intros H1 H2 HB Hc1 Ha Hle. pose proof Ha as (t&Ht&_). split; [by exists t|].
  intros u E HE. destruct (level_of u E HE) as (k&Hk&HaE). destruct k as [|k]; [by apply Hle|].
  pose proof (later_level 0 (S k) E (round_up J 256) ltac:(lia)) as Hl.
  assert (Hex : ex < round_up J 256 * 256).
  { unfold round_up. rewrite (proj2 (Z.eqb_neq _ _) H1). pose proof (Z.div_mod J 256 ltac:(lia)). pose proof (Z.div_mod ex 256 ltac:(lia)).
    pose proof (Z.mod_pos_bound ex 256 ltac:(lia)). replace (J + 256 - J mod 256) with ((J / 256 + 1) * 256) by lia. rewrite Z.div_mul by lia. lia. }
  change (2 ^ sh 1) with 256 in *. specialize (Hl ltac:(lia) Hc1 HaE). lia.
Qed.
Lemma gp_next_timer_answers : exists n, gp_next_timer w = Ok n /\ answers n.
Proof.
  pose proof Hrest as [Hi He]. pose proof (inv_pos _ _ _ _ Hi) as H0. unfold gp_next_timer. rewrite (inv_jiffies _ _ _ _ Hi).
  rewrite u32_small by lia. assert (Hidx : Z.land J TVR_MASK = J mod 256) by (change TVR_MASK with (2 ^ 8 - 1); by rewrite land_mask).
  rewrite Hidx. destruct (tv1_scan_spec 256 J) as (r&->&Hr); [lia|lia|lia|intros E Ha; by apply level_0|]. cbn [res_bind].
  assert (Hup : Z.shiftr (if J mod 256 =? 0 then J else u32 (J + TVR_SIZE - J mod 256)) TVR_BITS = round_up J 256).
  { unfold round_up. change TVR_SIZE with 256. change TVR_BITS with 8. rewrite Z.shiftr_div_pow2 by lia. change (2 ^ 8) with 256.
    destruct (Z.eqb_spec (J mod 256) 0); [done|]. pose proof (Z.mod_pos_bound J 256 ltac:(lia)). by rewrite u32_small by lia. }
  rewrite Hup. pose proof (round_up_mul J 256 ltac:(lia)) as Hru.
  assert (Hc1 : is_ceil J (2 ^ sh 1) (round_up J 256)) by (apply (ceil_up J 1 256 J); [lia|lia|apply ceil_self]).
  destruct r as [[slt ex]|].
  - destruct Hr as (B'&->&->&HB&Ha&Hle). destruct ((J mod 256 =? 0) || (ex mod 256 <? J mod 256)) eqn:Et.
    + apply cascade_answers; [done|done|]. split; [intros k' E Hk' HaE; assert (k' = 0%nat) by lia; subst k'; by apply Hle|].
      split; [destruct Ha as (t&Ht&_); by exists t|]. change (2 ^ sh 1) with 256. lia.
    + exists ex. split; [done|]. apply earliest_answers. apply orb_false_iff in Et as [H1 H2]. apply Z.eqb_neq in H1. apply Z.ltb_ge in H2.
      by apply turn_earliest.
  - apply cascade_answers; [done|done|]. split; [intros k' E Hk' HaE; assert (k' = 0%nat) by lia; subst k'; by apply Hr in HaE|]. split; [done|].
    intros k' E Hk' HaE. assert (k' = 0%nat) by lia. subst k'. by apply (Hr E).
Qed.
End Next.
#[local] Unset Default Proof Using.

(** ** When it is computed *)
(** [next_timer] is up to date. *)
Definition fresh (w : wheel) : Prop := gp_next_timer w = Ok (next_timer (base w)).
(** The scan reads the lists, the timers and the jiffy, not [next_timer]. *)
Section Scan_same.
Context (w w' : wheel) (Hs : forall k i, slot (base w') k i = slot (base w) k i) (Ho : objs w' = objs w).
Lemma get_timer_same t : get_timer w' t = get_timer w t.
Proof using Ho. unfold get_timer. by rewrite Ho. Qed.
Lemma tv1_scan_same fuel s i : tv1_scan fuel w' s i = tv1_scan fuel w s i.
Proof using Hs Ho.
  revert s. induction fuel as [|fuel IH]; intros s; [done|]. cbn [tv1_scan]. rewrite Hs. destruct (slot (base w) 0 s); [by rewrite IH|].
  by rewrite get_timer_same.
Qed.
Lemma least_expiry_same c f e : least_expiry w' c f e = least_expiry w c f e.
Proof using Ho.
  revert f e. induction c as [|t c IH]; intros f e; [done|]. cbn [least_expiry]. rewrite get_timer_same.
  destruct (get_timer w t); [|done..]. cbn [res_bind]. apply IH.
Qed.
Lemma level_scan_same fuel k s i f e : level_scan fuel w' k s i f e = level_scan fuel w k s i f e.
Proof using Hs Ho.
  revert s f e. induction fuel as [|fuel IH]; intros s f e; [done|]. cbn [level_scan]. rewrite Hs, least_expiry_same.
  destruct (least_expiry w (slot (base w) k s) f e) as [[f' e']| |]; [|done..]. cbn [res_bind]. by rewrite IH.
Qed.
Lemma levels_scan_same ks j f e : levels_scan w' ks j f e = levels_scan w ks j f e.
Proof using Hs Ho.
  revert j f e. induction ks as [|k ks IH]; intros j f e; [done|]. cbn [levels_scan]. rewrite level_scan_same.
  destruct (level_scan 64 w k _ _ f e) as [[[f' e'] r]| |]; [|done..]. cbn [res_bind]. by rewrite IH.
Qed.
Lemma gp_next_timer_same : timer_jiffies (base w') = timer_jiffies (base w) -> gp_next_timer w' = gp_next_timer w.
Proof using Hs Ho.
  intros Hj. unfold gp_next_timer. rewrite Hj, tv1_scan_same. destruct (tv1_scan 256 w _ _) as [r| |]; [|done..]. cbn [res_bind].
  destruct r as [[s e]|]; by rewrite levels_scan_same.
Qed.
End Scan_same.
Lemma gp_next_timer_set w n : gp_next_timer (set_base w (set_next_timer (base w) n)) = gp_next_timer w.
Proof. apply gp_next_timer_same; [|done..]. by intros [|[|[|[|k]]]] i. Qed.
Lemma set_fresh w n : gp_next_timer w = Ok n -> fresh (set_base w (set_next_timer (base w) n)).
Proof. intros H. unfold fresh. by rewrite gp_next_timer_set. Qed.
Lemma internal_add_fresh w t w' : gp_timer_internal_add w t = Ok w' -> fresh w'.
Proof.
  unfold gp_timer_internal_add. destruct (get_timer w t) as [tm| |]; [|done..]. cbn [res_bind]. destruct (timer_slot _ _) as [k i].
  set (w1 := set_base w _). destruct (gp_next_timer w1) as [n| |] eqn:E; [|done..]. intros [= <-]. by apply set_fresh.
Qed.
Lemma add_fresh w t w' : gp_timer_add w t = Ok w' -> fresh w'.
Proof. unfold gp_timer_add. destruct (get_timer w t); [|done..]. apply internal_add_fresh. Qed.
Lemma mod_fresh w t ex iv rp w' : gp_timer_mod w t ex iv rp = Ok w' -> fresh w'.
Proof.
  unfold gp_timer_mod. destruct (gp_timer_del w t) as [w1| |]; [|done..]. cbn [res_bind]. destruct (get_timer w1 t) as [tm| |]; [|done..].
  apply add_fresh.
Qed.
Lemma expire_one_fresh t w w' : expire_one t w = Ok w' -> fresh w'.
Proof.
  unfold expire_one. destruct (get_timer w t) as [tm| |]; [|done..]. cbn [res_bind]. destruct (gp_timer_del _ t) as [w1| |]; [|done..]. cbn [res_bind].
  destruct (if Timer.repeat tm =? 1 then _ else _) as [w2| |]; [|done..]. cbn [res_bind]. destruct (gp_next_timer w2) as [n| |] eqn:E; [|done..].
  intros [= <-]. by apply set_fresh.
Qed.
Lemma cascade_one_fresh t w w' : cascade_one t w = Ok w' -> fresh w'.
Proof.
  unfold cascade_one. destruct (get_timer w t) as [tm| |]; [|done..]. cbn [res_bind]. destruct (loop tm); [|done]. apply internal_add_fresh.
Qed.
Lemma foreach_fresh body k i fuel it tmp w w' b : (forall t v v', body t v = Ok v' -> fresh v') ->
  foreach_safe body k i fuel it tmp w = Ok (w', b) -> w' = w \/ fresh w'.
Proof.
  intros Hb. revert it tmp w. induction fuel as [|fuel IH]; intros it tmp w; destruct it as [t|]; cbn [foreach_safe]; try (intros [= <- <-]; by left).
  destruct (body t w) as [w1| |] eqn:E; [|done..]. cbn [res_bind]. destruct (next_item _ tmp); [|done..]. cbn [res_bind].
  intros [->|]%IH; right; [by eapply Hb|done].
Qed.
Lemma FOREACH_fresh body k i fuel w w' b : (forall t v v', body t v = Ok v' -> fresh v') ->
  GP_LIST_FOREACH_SAFE body k i fuel w = Ok (w', b) -> w' = w \/ fresh w'.
Proof. intros Hb. unfold GP_LIST_FOREACH_SAFE. destruct (next_item _ _); [|done..]. by apply foreach_fresh. Qed.
Lemma cascades_fresh fuel ks w w' b : cascades fuel ks w = Ok (w', b) -> w' = w \/ fresh w'.
Proof.
  revert w. induction ks as [|k ks IH]; intros w; cbn [cascades]; [intros [= <- <-]; by left|].
  unfold cascade. destruct (GP_LIST_FOREACH_SAFE _ _ _ _ w) as [[w1 fin]| |] eqn:E; [|done..]. cbn [res_bind].
  pose proof (FOREACH_fresh _ _ _ _ _ _ _ cascade_one_fresh E) as H1. destruct fin; cbn [negb]; [|by intros [= <- <-]].
  destruct (INDEX _ _ =? 0); [|by intros [= <- <-]]. intros [->|]%IH; [done|by right].
Qed.

(** ** Kept up to date by the operations *)
Section Exact.
Context (info : Z -> gp_timer_list).
Definition exact (w : wheel) (P : gmap Z Z) : Prop := answers P (next_timer (base w)).
(** Expiries that the 32-bit clock reaches without wrapping. *)
Definition early (P : gmap Z Z) : Prop := map_Forall (fun _ E => E < 4294967295) P.
Lemma fresh_exact w J P : at_rest info w J P -> early P -> J + 256 <= 4294967296 -> fresh w -> exact w P.
Proof.
  intros Hw He HJ Hf. destruct (gp_next_timer_answers info w J P Hw He HJ) as (n&E&Ha). unfold fresh in Hf. unfold exact. congruence.
Qed.
Lemma create_exact J : exact (create_gp_timer_base J) ∅.
Proof. split; [done|]. split; [intros t E HE; by rewrite lookup_empty in HE|]. by split. Qed.
Lemma tick_exact fuel w w' J P :
  at_rest info w J P -> (forall t, is_Some (P !! t) -> good info t) -> (size P <= fuel)%nat ->
  early P -> early (tick_pending info J P) -> J + 257 <= 4294967296 -> exact w P -> run_tick fuel w = Ok (w', true) ->
  exact w' (tick_pending info J P).
Proof.
  intros Hw Hg Hf HP HP' HJ Hx Hrun. destruct (run_tick_spec info fuel w J P Hw Hg Hf) as (w2&ts&Hrun'&Hw'&_).
  assert (w2 = w') as -> by congruence. clear Hrun'. unfold run_tick in Hrun.
  rewrite (inv_jiffies _ _ _ _ (proj1 Hw)), tv1_index in Hrun. destruct (tick_cascade info fuel w J P Hw Hf) as (w1&Hc&Hi1&_&_).
  rewrite Hc in Hrun. cbn [res_bind negb] in Hrun. pose proof (FOREACH_fresh _ _ _ _ _ _ _ expire_one_fresh Hrun) as [->|Hfr];
    [|by apply (fresh_exact w' (J + 1)); [done..|lia|]].
  assert (Hx1 : exact w1 P).
  { destruct (idx_of 0 J =? 0); [|by injection Hc as <-]. destruct (cascades_fresh _ _ _ _ _ Hc) as [->|Hfr]; [done|].
    apply (fresh_exact w1 J); [split; [done|apply Hw]|done|lia|done]. }
  enough (tick_pending info J P = P) as -> by done.
  apply map_eq. intros t. unfold tick_pending. rewrite map_lookup_imap. destruct (P !! t) as [E|] eqn:HE; [|done]. cbn.
  destruct (Z.eqb_spec E J) as [->|]; [exfalso|done].
  destruct (inv_placed _ _ _ _ Hi1 t J HE) as (k&Hk&Ht&_). pose proof (idx_range k J Hk) as Hr.
  destruct (inv_dom _ _ _ _ (proj1 Hw') k (idx_of k J) t Hk ltac:(lia) Ht) as [E' HE'].
  pose proof (inv_objs _ _ _ _ (proj1 Hw') t E' HE') as [Ho _]. pose proof (inv_objs _ _ _ _ Hi1 t J HE) as [Ho1 _].
  cbn [objs set_base] in Ho. rewrite Ho1 in Ho. unfold with_expires in Ho. injection Ho as Hu.
  pose proof (proj2 Hw' t E' HE') as Hlo. pose proof (HP' t E' HE') as Hhi. cbn in Hhi. pose proof (inv_pos _ _ _ _ Hi1).
  rewrite !u32_small in Hu by lia. lia.
Qed.
Lemma jiffies_left_small T J : 0 <= J <= T + 1 -> T + 1 < 2147483648 -> jiffies_left (u32 T) (u32 J) = Ok (T - J).
Proof.
  clear. intros HJ HT. unfold jiffies_left. assert (s32 (u32 T) - s32 (u32 J) = T - J) as -> by (rewrite !s32_u32, !s32_small by lia; lia).
  destruct (Z.leb_spec (-2147483648) (T - J)); [|lia]. by destruct (Z.ltb_spec (T - J) 2147483648); [|lia].
Qed.
Lemma run_exact ticks fuel n w w' J P :
  at_rest info w J P -> (forall t, is_Some (P !! t) -> good info t) -> (size P <= fuel)%nat ->
  (forall i, (i <= n)%nat -> early (pending_after info i J P)) -> J + Z.of_nat n < 2147483648 -> exact w P ->
  gp_run_timers ticks fuel w (u32 (J + Z.of_nat n - 1)) = Ok (w', true) -> exact w' (pending_after info n J P).
Proof.
  revert ticks w J P. induction n as [|n IH]; intros ticks w J P Hw Hg Hf He HJ Hx Hrun;
    pose proof (inv_pos _ _ _ _ (proj1 Hw)) as H0;
    (destruct ticks as [|ticks]; cbn [gp_run_timers] in Hrun;
     rewrite (inv_jiffies _ _ _ _ (proj1 Hw)), jiffies_left_small in Hrun by lia; cbn [res_bind] in Hrun;
     (destruct (_ <? 0) eqn:Et; [apply Z.ltb_lt in Et|apply Z.ltb_ge in Et]); try lia; try done).
  - by injection Hrun as <-.
  - by injection Hrun as <-.
  - destruct (run_tick_spec info fuel w J P Hw Hg Hf) as (w1&ts&Ht&Hw1&_). rewrite Ht in Hrun. cbn [res_bind negb] in Hrun.
    apply (IH ticks w1 (J + 1) (tick_pending info J P)); [done| | | |lia| |].
    + intros t Hs. apply Hg. by eapply tick_pending_dom.
    + pose proof (tick_pending_size info J P). lia.
    + intros i Hi. apply (He (S i)). lia.
    + apply (tick_exact fuel w w1); try done; [apply (He 0%nat); lia|apply (He 1%nat); lia|lia].
    + by replace (J + 1 + Z.of_nat n - 1) with (J + Z.of_nat (S n) - 1) by lia.
Qed.
Lemma add_exact w w' J P t E :
  at_rest info w J P -> objs w !! t = Some (with_expires (info t) E) -> loop (info t) = true -> J <= E < 4294967295 ->
  early P -> J + 256 <= 4294967296 -> gp_timer_add w t = Ok w' -> exact w' (<[t := E]> P).
Proof.
  intros Hw Ho Hl HE HP HJ Hadd. pose proof (inv_pos _ _ _ _ (proj1 Hw)).
  destruct (add_at_rest info w J P t E Hw Ho Hl) as (w1&Hadd'&Hw1&_); [lia|].
  assert (w1 = w') as -> by congruence. apply (fresh_exact w' J); [done| |done|by eapply add_fresh].
  apply map_Forall_insert_2; [lia|done].
Qed.
End Exact.

(** C37.  The wait is computed exactly: [gp_next_timer], whose scan stops at
    the first level that can decide, returns the least expiry of all pending
    timers, whatever their levels, and the initial value when none is
    pending. *)
Theorem next_timer_is_earliest (info : Z -> gp_timer_list) (w : wheel) (J : Z) (P : gmap Z Z) :
  at_rest info w J P -> map_Forall (fun _ E => E < 4294967295) P -> J + 256 <= 4294967296 ->
  exists n, gp_next_timer w = Ok n /\
    (forall t E, P !! t = Some E -> n <= E) /\ (P <> ∅ -> exists t, P !! t = Some n) /\ (P = ∅ -> n = 4294967295).
Proof. intros Hw HP HJ. destruct (gp_next_timer_answers info w J P Hw HP HJ) as (n&E&_&Ha). by exists n. Qed.

(** Two timers: one later on the first level, one on a later level. *)
Lemma next_timer_is_earliest_witness :
  at_rest (demo_info 5) demo_added 1000 {[1 := 1003]} /\
  exists n, gp_next_timer demo_added = Ok n /\ n = 1003.
Proof.
  split; [exact demo_added_at_rest|].
  destruct (next_timer_is_earliest (demo_info 5) demo_added 1000 {[1 := 1003]}) as (n&E&_&Ha&_).
  - exact demo_added_at_rest.
  - apply map_Forall_singleton. lia.
  - lia.
  - exists n. split; [exact E|]. destruct Ha as [t [_ H]%lookup_singleton_Some]; [apply map_non_empty_singleton|done].
Defined.
