(* ===== verification/LoopTime.v ===== *)
(** * gp_loop.c, gp_time: the loop's timers and how long it waits

    The part of [gp_loop] that has to do with time: its clock, the timer
    wheel, [quit].  A round of [gp_loop_run] runs the due timers, waits in
    [epoll_wait] for [next_timer - time] milliseconds, reads the clock and
    handles what the wait returned.  What the handlers and the pending
    functors do to the timers is an input of the round; the wait itself is
    the business of the epoller (Handler.v). *)

From stdpp Require Import gmap.
From S2P Require Import Prelude Timer TimerInv TimerNext.
Local Open Scope Z_scope.

(** ** The clock *)
Inductive gp_clocktype := GP_CLOCK_PRECISE | GP_CLOCK_FAST.
Definition CLOCK_MONOTONIC : Z := 1.
Definition CLOCK_MONOTONIC_COARSE : Z := 6.
(** [fast_clock_id] is the static variable of the function; the clocks are
    [clock_getres]'s and [clock_gettime]'s [tv_sec] and [tv_nsec], [None] when
    they fail. *)
Definition gp_time (clock_getres clock_gettime : Z -> option (Z * Z)) (type : gp_clocktype) (fast_clock_id : Z) : Z * Z :=
  let fast_clock_id :=
    match type with
    | GP_CLOCK_FAST =>
        if fast_clock_id =? -1 then
          match clock_getres CLOCK_MONOTONIC_COARSE with
          | Some (_, nsec) => if nsec <=? 1000000 then CLOCK_MONOTONIC_COARSE else CLOCK_MONOTONIC
          | None => CLOCK_MONOTONIC
          end
        else fast_clock_id
    | GP_CLOCK_PRECISE => fast_clock_id
    end in
  let clock_id := match type with GP_CLOCK_FAST => fast_clock_id | GP_CLOCK_PRECISE => CLOCK_MONOTONIC end in
  match clock_gettime clock_id with
  | None => (0, fast_clock_id)
  | Some (sec, nsec) => (u64 (sec * 1000000000 + nsec) / 1000000, fast_clock_id)
  end.

(** ** The loop *)
Record gp_loop := mk_loop {
  quit : Z;
  looping : Z;
  tid : Z;
  time : Z;
  timer_base : wheel;
  (** what was written to [wakeup_fd] *)
  wakeups : nat;
}.
Definition set_time (l : gp_loop) (now : Z) : gp_loop := mk_loop (quit l) (looping l) (tid l) now (timer_base l) (wakeups l).
Definition set_timers (l : gp_loop) (w : wheel) : gp_loop := mk_loop (quit l) (looping l) (tid l) (time l) w (wakeups l).
Definition set_running (l : gp_loop) (q r : Z) : gp_loop := mk_loop q r (tid l) (time l) (timer_base l) (wakeups l).

(** [now]: what [gp_time] returns. *)
Definition gp_loop_update_time (l : gp_loop) (now : Z) : gp_loop := set_time l (u32 now).
(** [self]: [gettid]. *)
Definition init_gp_loop (self now : Z) : gp_loop := mk_loop 0 0 self (u32 now) (create_gp_timer_base (u32 now)) 0.
(** In zeroed memory of its own. *)
Definition create_gp_loop (self now : Z) : gp_loop := init_gp_loop self now.
Definition is_in_loop_thread (l : gp_loop) (self : Z) : bool := tid l =? self.
Definition gp_loop_quit (l : gp_loop) (self : Z) : gp_loop :=
  let l := set_running l 1 (looping l) in
  if negb (is_in_loop_thread l self) then mk_loop (quit l) (looping l) (tid l) (time l) (timer_base l) (S (wakeups l)) else l.

(** [a]: the address [malloc] returned for the timer. *)
Definition gp_loop_timer_start (l : gp_loop) (a : Z) (fn : option Z) (data interval repeat : Z) : res gp_loop :=
  let w := create_gp_timer (timer_base l) a fn data (u32 (time l + interval)) interval repeat in
  let* tm := get_timer w a in
  let w := set_obj w a (mk_timer true (expires tm) (Timer.interval tm) (Timer.repeat tm) (callback tm) (Timer.data tm) (state tm)) in
  let* w := gp_timer_add w a in
  Ok (set_timers l w).
Definition gp_loop_timer_stop (l : gp_loop) (t : Z) : res gp_loop :=
  let* w := gp_timer_del (timer_base l) t in Ok (set_timers l w).
Definition gp_loop_timer_mod (l : gp_loop) (t ex iv rp : Z) : res gp_loop :=
  let* w := gp_timer_mod (timer_base l) t ex iv rp in Ok (set_timers l w).
Definition gp_loop_run_timers (ticks fuel : nat) (l : gp_loop) : res (gp_loop * bool) :=
  let* (w, fin) := gp_run_timers ticks fuel (timer_base l) (time l) in Ok (set_timers l w, fin).

(** What a handler or a functor does. *)
Inductive timer_op :=
| Start (a : Z) (fn : option Z) (data interval repeat : Z)
| Stop (t : Z)
| Mod (t ex iv rp : Z)
| Quit (self : Z).
Definition do_op (l : gp_loop) (o : timer_op) : res gp_loop :=
  match o with
  | Start a fn data interval repeat => gp_loop_timer_start l a fn data interval repeat
  | Stop t => gp_loop_timer_stop l t
  | Mod t ex iv rp => gp_loop_timer_mod l t ex iv rp
  | Quit self => Ok (gp_loop_quit l self)
  end.
Fixpoint do_ops (l : gp_loop) (os : list timer_op) : res gp_loop :=
  match os with [] => Ok l | o :: os => let* l := do_op l o in do_ops l os end.

(** The timers, then the argument of [poller_poll], an [int32_t]. *)
Definition loop_wait (ticks fuel : nat) (l : gp_loop) : res (gp_loop * Z * bool) :=
  let* (l, fin) := gp_loop_run_timers ticks fuel l in
  Ok (l, s32 (u32 (next_timer (base (timer_base l)) - time l)), fin).

(** The rounds of the [while] loop; each gives the clock after the wait and
    what is then done.  The log has the loop at each wait and its timeout. *)
Fixpoint gp_loop_rounds (ticks fuel : nat) (l : gp_loop) (rounds : list (Z * list timer_op)) : res (gp_loop * list (gp_loop * Z) * bool) :=
  if negb (quit l =? 0) then Ok (l, [], true)
  else
    match rounds with
    | [] => Ok (l, [], false)
    | (now, ops) :: rounds =>
        let* (l, timeout, fin) := loop_wait ticks fuel l in
        if negb fin then Ok (l, [], false)
        else
          let* l' := do_ops (gp_loop_update_time l now) ops in
          let* (l', waits, fin) := gp_loop_rounds ticks fuel l' rounds in
          Ok (l', (l, timeout) :: waits, fin)
    end.
Definition gp_loop_run (ticks fuel : nat) (l : gp_loop) (rounds : list (Z * list timer_op)) : res (gp_loop * list (gp_loop * Z) * bool) :=
  let* (l, waits, fin) := gp_loop_rounds ticks fuel (set_running l 0 1) rounds in
  Ok (if fin : bool then set_running l (quit l) 0 else l, waits, fin).

(** *** A concrete run *)
(** Two timers, of 10 ms and 20 ms; nothing else happens. *)
Definition two_timers : res gp_loop := do_ops (init_gp_loop 1 1000) [Start 1 (Some 5) 0 10 0; Start 2 (Some 6) 0 20 0].
Definition timeouts (r : res (gp_loop * list (gp_loop * Z) * bool)) : res (list Z) :=
  let* (_, waits, _) := r in Ok (snd <$> waits).
(** The waits end at the timers; then nothing is pending. *)
Example two_timers_waits :
  timeouts (let* l := two_timers in gp_loop_run 100 10 l [(1010, []); (1020, []); (1030, [])]) = Ok [10; 10; -1021].
Proof. vm_compute. reflexivity. Qed.
(** [gp_timer_del] leaves [next_timer] as it is: after the first timer is
    stopped the loop still wakes up for it, and then waits without limit
    while the second timer is pending. *)
Example stopped_timer_blocks_loop :
  timeouts (let* l := two_timers in gp_loop_run 100 10 l [(1005, [Stop 1]); (1011, []); (1012, [])]) = Ok [10; 5; -1] /\
  (let* l := two_timers in
   let* (l, _, _) := gp_loop_run 100 10 l [(1005, [Stop 1]); (1011, []); (1012, [])] in Ok (slot (base (timer_base l)) 0 (1020 mod 256))) = Ok [2].
Proof. split; vm_compute; reflexivity. Qed.

(** After the last jiffy below 2^31 the test of [gp_run_timers] overflows. *)
Example clock_half_way :
  gp_loop_run 2 2 (init_gp_loop 1 2147483646) [(2147483647, []); (2147483648, [])] = Ub.
Proof. vm_compute. reflexivity. Qed.

Lemma join_part {A} (x : list A) ls : x ∈ ls -> exists pre suf, mjoin ls = pre ++ x ++ suf.
Proof.
  intros (l1&l2&->)%list_elem_of_split. exists (mjoin l1), (mjoin l2). rewrite join_app. done.
Qed.

(** ** The state of the loop's timers *)
Section Idle.
Context (info : Z -> gp_timer_list).

(** The loop's clock shows [T]; the wheel stands at [J], with [P] pending and
    [next_timer] up to date. *)
Record idle (l : gp_loop) (T J : Z) (P : gmap Z Z) : Prop := {
  idle_time : time l = u32 T;
  idle_jiffies : J <= T + 1;
  idle_rest : at_rest info (timer_base l) J P;
  idle_exact : exact (timer_base l) P;
}.
(** Repeating timers are due before [B] again when they fire by [H]. *)
Definition calm (H B : Z) (P : gmap Z Z) : Prop :=
  forall t E, P !! t = Some E -> E < B /\ good info t /\ forall iv, again info t = Some iv -> H + iv < B.

(** What is pending was so before, or has been repeated. *)
Lemma pending_after_from i J P t E : pending_after info i J P !! t = Some E ->
  is_Some (P !! t) /\ (P !! t = Some E \/ exists iv j, again info t = Some iv /\ J <= j < J + Z.of_nat i /\ E = j + iv).
Proof.
  revert J P. induction i as [|i IH]; intros J P; cbn [pending_after]; [eauto|].
  intros [Hs HE]%IH. split; [by eapply tick_pending_dom|]. destruct HE as [HE|(iv&j&Ha&Hj&->)]; [|right; exists iv, j; split_and!; (done || lia)].
  unfold tick_pending in HE. rewrite map_lookup_imap in HE. destruct (P !! t) as [E0|] eqn:HE0; [|done]. cbn in HE.
  destruct (Z.eqb_spec E0 J) as [->|]; [|by left]. destruct (again info t) as [iv|] eqn:Hiv; [|done]. injection HE as <-.
  right. exists iv, J. split_and!; (done || lia).
Qed.
(** A timer stays until it is due. *)
Lemma pending_after_keeps i J P t E : P !! t = Some E -> J + Z.of_nat i <= E -> pending_after info i J P !! t = Some E.
Proof.
  revert J P. induction i as [|i IH]; intros J P HE Hi; cbn [pending_after]; [done|]. apply IH; [|lia].
  unfold tick_pending. rewrite map_lookup_imap, HE. cbn. by rewrite (proj2 (Z.eqb_neq E J)) by lia.
Qed.
Lemma calm_after H B i J P : J + Z.of_nat i <= H + 1 -> calm H B P -> calm H B (pending_after info i J P).
Proof.
  intros Hi Hc t E [[E0 H0] HE]%pending_after_from. destruct (Hc t E0 H0) as (_&Hg&Ha). split; [|done].
  destruct HE as [HE|(iv&j&Hiv&Hj&->)]; [by apply (Hc t)|]. specialize (Ha iv Hiv). lia.
Qed.
Lemma calm_early H B P : B <= 4294967295 -> calm H B P -> early P.
Proof. intros HB Hc t E HE. destruct (Hc t E HE) as (?&_). cbn. lia. Qed.

(** How long the loop sleeps: until the first timer, or without limit. *)
Definition sleeps (T : Z) (P : gmap Z Z) (timeout : Z) : Prop :=
  (P = ∅ -> timeout < 0) /\
  (P <> ∅ -> exists t, P !! t = Some (T + timeout)) /\
  (forall t E, P !! t = Some E -> 0 < timeout <= E - T).
Lemma exact_sleeps l T P : idle l T (T + 1) P -> 0 <= T < 2147483647 -> map_Forall (fun _ E => E < 2147483647) P ->
  sleeps T P (s32 (u32 (next_timer (base (timer_base l)) - time l))).
Proof.
  intros [Ht _ [_ Hr] (Hn&Hle&Hin&Hno)] HT HB. rewrite Ht, (u32_small T), s32_u32 by lia. split_and!.
  - intros HP. rewrite (Hno HP). wrap_lia.
  - intros HP. destruct (Hin HP) as [t Ht']. exists t. pose proof (HB t _ Ht') as Hb. cbn in Hb. specialize (Hr t _ Ht').
    rewrite s32_small by lia. rewrite Ht'. f_equal. lia.
  - intros t E HE. destruct (Hin ltac:(intros HP; rewrite HP in HE; by rewrite lookup_empty in HE)) as [t' Ht'].
    pose proof (HB t' _ Ht') as Hb. cbn in Hb. specialize (Hr t' _ Ht'). specialize (Hle t E HE). rewrite s32_small by lia. lia.
Qed.

Lemma loop_wait_spec ticks fuel l T J P :
  idle l T J P -> calm T 2147483647 P -> 0 <= T < 2147483647 -> (size P <= fuel)%nat -> T + 1 - J <= Z.of_nat ticks ->
  let P' := pending_after info (Z.to_nat (T + 1 - J)) J P in
  exists l' timeout, loop_wait ticks fuel l = Ok (l', timeout, true) /\ idle l' T (T + 1) P' /\ sleeps T P' timeout /\
    quit l' = quit l /\
    forall t E, P !! t = Some E -> E <= T -> exists pre suf, calls (timer_base l') = calls (timer_base l) ++ pre ++ call_of info E t ++ suf.
Proof.
  intros Hi Hc HT Hf Ht P'. destruct Hi as [Htime HJ Hrest Hx]. set (n := Z.to_nat (T + 1 - J)) in *.
  assert (Hn : J + Z.of_nat n = T + 1) by lia. pose proof (inv_pos _ _ _ _ (proj1 Hrest)) as H0.
  destruct (run_timers_spec info ticks fuel n (timer_base l) J P) as (w'&css&Hrun&Hw'&Hcalls&Hlen&Hcss); [done| |done|lia| | |].
  { intros t [E HE]. by apply (Hc t E). }
  { rewrite Hn, !Z.div_small by lia. done. } { rewrite Hn, !Z.div_small by lia. done. }
  assert (Hx' : exact w' P').
  { eapply (run_exact info ticks fuel n (timer_base l)); [done| |done| |lia|done|exact Hrun]; [intros t [E HE]; by apply (Hc t E)|].
    intros i Hi. apply (calm_early T 2147483647); [lia|]. apply calm_after; [lia|done]. }
  unfold loop_wait, gp_loop_run_timers. rewrite Htime. replace (J + Z.of_nat n - 1) with T in Hrun by lia. rewrite Hrun. cbn [res_bind].
  rewrite Hn in Hw'. assert (Hi' : idle (set_timers l w') T (T + 1) P') by (constructor; try done; lia).
  eexists _, _. split; [done|]. split; [done|]. split; [|split; [done|]].
  - apply (exact_sleeps (set_timers l w') T P' Hi' HT). intros t E HE.
    by apply (calm_after T 2147483647 n J P ltac:(lia) Hc t).
  - intros t E HE HET. cbn [timer_base set_timers]. rewrite Hcalls.
    assert (HJE : J <= E) by (apply (proj2 Hrest) in HE; lia).
    destruct (lookup_lt_is_Some_2 css (Z.to_nat (E - J))) as [cs Hcs]; [lia|]. destruct (Hcss _ _ Hcs) as (ts&->&_&Hts).
    replace (J + Z.of_nat (Z.to_nat (E - J))) with E in * by lia.
    apply list_elem_of_lookup_2, join_part in Hcs as (p1&s1&->).
    assert (Hin : t ∈ ts) by (apply Hts, pending_after_keeps; [done|lia]).
    apply (list_elem_of_fmap_2 (call_of info E)), join_part in Hin as (p2&s2&->). exists (p1 ++ p2), (s2 ++ s1). by rewrite <-!app_assoc.
Qed.
End Idle.

(** ** Starting, changing, quitting *)
Definition with_info (info : Z -> gp_timer_list) (t : Z) (tm : gp_timer_list) (x : Z) : gp_timer_list := if decide (x = t) then tm else info x.
Lemma with_info_eq info t tm : with_info info t tm t = tm.
Proof. unfold with_info. by rewrite decide_True. Qed.
Lemma with_info_ne info t tm x : x <> t -> with_info info t tm x = info x.
Proof. intros. unfold with_info. by rewrite decide_False. Qed.
Lemma update_time_idle info l T J P now : idle info l T J P -> T <= now -> idle info (gp_loop_update_time l now) now J P.
Proof. intros [? ? ? ?] Hn. constructor; try done. lia. Qed.

Definition started (fn : option Z) (data interval repeat : Z) : gp_timer_list :=
  mk_timer true 0 (s32 interval) (s32 repeat) fn data 0.
(** A new timer becomes due [interval] milliseconds after the loop's clock. *)
Lemma start_idle info l T J P a fn data iv rp :
  idle info l T J P -> P !! a = None -> early P -> 0 <= T -> 1 <= iv -> T + iv < 4294967295 -> J + 256 <= 4294967296 ->
  exists l', gp_loop_timer_start l a fn data iv rp = Ok l' /\ quit l' = quit l /\
    idle (with_info info a (started fn data iv rp)) l' T J (<[a := T + iv]> P).
Proof.
  intros [Ht HJ Hrest Hx] Ha HP HT Hiv HE HJ'. unfold gp_loop_timer_start, create_gp_timer, get_timer. cbn [objs set_obj].
  rewrite lookup_insert_eq. cbn [of_option res_bind init_gp_timer expires Timer.interval Timer.repeat callback Timer.data state].
  rewrite Ht, !(u32_small T), !(u32_small (T + iv)) by lia.
  set (tm := mk_timer true (T + iv) (s32 iv) (s32 rp) fn data 0). set (info' := with_info info a (started fn data iv rp)).
  set (w1 := set_obj _ a tm).
  assert (Hw1 : at_rest info' w1 J P).
  { apply at_rest_info with info; [by repeat apply set_obj_at_rest|]. intros t Hs. unfold info'. rewrite with_info_ne; [done|]. intros ->.
    rewrite Ha in Hs. by destruct Hs. }
  assert (Ho : objs w1 !! a = Some (with_expires (info' a) (T + iv))).
  { cbn. rewrite lookup_insert_eq. unfold info'. rewrite with_info_eq. unfold with_expires, started, tm. cbn. by rewrite u32_small by lia. }
  assert (Hl : loop (info' a) = true) by (unfold info'; by rewrite with_info_eq).
  pose proof (inv_pos _ _ _ _ (proj1 Hrest)).
  destruct (add_at_rest info' w1 J P a (T + iv) Hw1 Ho Hl) as (w'&Hadd&Hw'&_); [lia|]. rewrite Hadd. cbn [res_bind].
  eexists. split; [done|]. split; [done|]. constructor; [done|lia|done|]. by apply (add_exact info' w1 w' J P a (T + iv)); try done; lia.
Qed.
(** [expires] is a time of the loop's clock, not an interval. *)
Lemma mod_idle info l T J P t E0 E iv rp :
  idle info l T J P -> objs (timer_base l) !! t = Some (with_expires (info t) E0) -> loop (info t) = true -> early P ->
  J <= E < 4294967295 -> J + 256 <= 4294967296 ->
  exists l', gp_loop_timer_mod l t (u32 E) iv rp = Ok l' /\ quit l' = quit l /\
    idle (with_info info t (mk_timer (loop (info t)) (u32 E) (s32 iv) (s32 rp) (callback (info t)) (Timer.data (info t)) (state (info t)))) l' T J (<[t := E]> P).
Proof.
  intros [Ht HJ Hrest Hx] Ho Hl HP HE HJ'. unfold gp_loop_timer_mod. pose proof (inv_pos _ _ _ _ (proj1 Hrest)).
  destruct (mod_at_rest info (timer_base l) J P t E0 E iv rp Hrest Ho Hl ltac:(lia)) as (w'&Hmod&Hw'&_). rewrite Hmod. cbn [res_bind].
  eexists. split; [done|]. split; [done|]. constructor; [done|done|exact Hw'|].
  eapply fresh_exact; [exact Hw'| |done|by eapply mod_fresh]. apply map_Forall_insert_2; [cbn; lia|done].
Qed.

(** ** The whole run *)
(** Up to the time [H]: timers are started at new addresses, with intervals
    after which the 31-bit clock has not run out. *)
Fixpoint starts (H : Z) (used : gset Z) (os : list timer_op) : Prop :=
  match os with
  | [] => True
  | Start a fn data iv rp :: os =>
      a ∉ used /\ 1 <= iv /\ H + iv < 2147483647 /\ (s32 rp = 1 -> iv <> 256) /\ starts H ({[a]} ∪ used) os
  | Quit self :: os => starts H used os
  | _ => False
  end.
Fixpoint add_started (used : gset Z) (os : list timer_op) : gset Z :=
  match os with
  | [] => used
  | Start a _ _ _ _ :: os => add_started ({[a]} ∪ used) os
  | _ :: os => add_started used os
  end.
Fixpoint fair (H T : Z) (used : gset Z) (rounds : list (Z * list timer_op)) : Prop :=
  match rounds with
  | [] => True
  | (now, ops) :: rounds => T <= now <= H /\ starts H used ops /\ fair H now (add_started used ops) rounds
  end.

Lemma calm_started info H P a fn data iv rp T :
  calm info H 2147483647 P -> P !! a = None -> 0 <= T <= H -> 1 <= iv -> H + iv < 2147483647 -> (s32 rp = 1 -> iv <> 256) ->
  calm (with_info info a (started fn data iv rp)) H 2147483647 (<[a := T + iv]> P).
Proof.
  intros Hc Ha HT Hiv HB H256 t E. rewrite lookup_insert_Some. intros [[<- <-]|[Hne HE]].
  - unfold good, again. rewrite with_info_eq. cbn [started Timer.repeat Timer.interval]. rewrite (s32_small iv) by lia.
    destruct (Z.eqb_spec (s32 rp) 1); (split; [lia|]); (split; [intros ? [= <-]; split; [lia|auto]|intros ? [= <-]; lia]) || (split; by intros).
  - destruct (Hc t E HE) as (?&Hg&Hr). unfold good, again in *. by rewrite with_info_ne by done.
Qed.
Lemma ops_idle info H l T J P used os :
  idle info l T J P -> calm info H 2147483647 P -> dom P ⊆ used -> 0 <= T <= H -> H < 2147483647 -> starts H used os ->
  exists info' l' P', do_ops l os = Ok l' /\ idle info' l' T J P' /\ calm info' H 2147483647 P' /\
    dom P' ⊆ add_started used os /\ (size P' <= size P + length os)%nat.
Proof.
  revert info l P used. induction os as [|[a fn data iv rp|t|t ex iv rp|self] os IH]; intros info l P used Hi Hc Hd HT HH Hs; cbn [do_ops do_op]; try done.
  - exists info, l, P. split_and!; try done. lia.
  - destruct Hs as (Ha&Hiv&HB&H256&Hs). assert (HPa : P !! a = None) by (apply not_elem_of_dom; set_solver).
    pose proof (idle_jiffies _ _ _ _ _ Hi).
    destruct (start_idle info l T J P a fn data iv rp Hi HPa) as (l1&->&_&Hi1); [apply (calm_early info H 2147483647); (done || lia)|lia..|].
    cbn [res_bind]. destruct (IH (with_info info a (started fn data iv rp)) l1 (<[a := T + iv]> P) ({[a]} ∪ used)) as (info'&l'&P'&->&?&?&?&Hsz);
      [done|by apply calm_started|rewrite dom_insert_L; set_solver|done..|].
    exists info', l', P'. split_and!; try done. rewrite map_size_insert_None in Hsz by done. cbn [length]. lia.
  - cbn [res_bind]. destruct (IH info (gp_loop_quit l self) P used) as (info'&l'&P'&->&?&?&?&Hsz); try done.
    + destruct Hi. unfold gp_loop_quit. destruct (negb _); by constructor.
    + exists info', l', P'. split_and!; try done. cbn [length]. lia.
Qed.

Definition right_wait (wait : gp_loop * Z) : Prop :=
  exists info T P, idle info (fst wait) T (T + 1) P /\ sleeps T P (snd wait).
Definition op_count (rounds : list (Z * list timer_op)) : nat := length (mjoin (snd <$> rounds)).
Lemma op_count_cons now ops rounds : op_count ((now, ops) :: rounds) = (length ops + op_count rounds)%nat.
Proof. unfold op_count. rewrite fmap_cons. exact (length_app ops _). Qed.
Lemma pending_after_dom info n J P : dom (pending_after info n J P) ⊆ dom P.
Proof. intros t. rewrite !elem_of_dom. intros [E HE]. apply (pending_after_from info n J P t E HE). Qed.
Lemma rounds_right H rounds : forall info l T J P used ticks fuel,
  idle info l T J P -> calm info H 2147483647 P -> dom P ⊆ used -> 0 <= T <= H -> H < 2147483647 -> fair H T used rounds ->
  H + 1 - J <= Z.of_nat ticks -> (size P + op_count rounds <= fuel)%nat ->
  exists l' waits fin, gp_loop_rounds ticks fuel l rounds = Ok (l', waits, fin) /\ Forall right_wait waits /\
    (fin = false -> length waits = length rounds).
Proof.
  induction rounds as [|[now ops] rounds IH]; intros info l T J P used ticks fuel Hi Hc Hd HT HH Hfair Ht Hf; cbn [gp_loop_rounds].
  { destruct (negb _); eexists _, [], _; (split; [done|]); by split. }
  destruct (negb _); [by exists l, [], true|]. destruct Hfair as (Hnow&Hs&Hfair).
  rewrite op_count_cons in Hf.
  destruct (loop_wait_spec info ticks fuel l T J P Hi) as (l1&timeout&->&Hi1&Hsl&_); [|lia..|].
  { intros t E HE. destruct (Hc t E HE) as (?&?&Hr). split; [done|]. split; [done|]. intros iv Hiv. specialize (Hr iv Hiv). lia. }
  cbn [res_bind negb]. set (P1 := pending_after _ _ _ P) in *.
  pose proof (idle_jiffies _ _ _ _ _ Hi) as HJ.
  assert (Hc1 : calm info H 2147483647 P1) by (apply calm_after; [lia|done]).
  assert (Hd1 : dom P1 ⊆ dom P) by apply pending_after_dom.
  assert (Hsz1 : (size P1 <= size P)%nat) by (rewrite <-!size_dom; by apply subseteq_size).
  destruct (ops_idle info H (gp_loop_update_time l1 now) now (T + 1) P1 used ops) as (info'&l2&P2&->&Hi2&Hc2&Hd2&Hsz2);
    [apply (update_time_idle info l1 T); (done || lia)|done|set_solver|lia|done|done|].
  cbn [res_bind]. destruct (IH info' l2 now (T + 1) P2 (add_started used ops) ticks fuel) as (l'&waits&fin&->&Hw&Hfin); try done; [lia|lia|lia|].
  cbn [res_bind]. exists l', ((l1, timeout) :: waits), fin. split; [done|]. split; [|intros E; cbn [length]; by rewrite Hfin].
  constructor; [|done]. by exists info, T, P1.
Qed.

(** C10.  The loop sleeps neither too long nor for nothing: in a run that
    starts timers and never stops one, every wait is entered with no overdue
    timer, lasts exactly until the first pending timer if there is one, which
    is at least a millisecond, and has no limit otherwise; every round comes
    to its wait.  The clock stays below 2^31 ms. *)
Theorem loop_run_waits_for_first_timer (self now H : Z) (rounds : list (Z * list timer_op)) (ticks fuel : nat) :
  0 <= now <= H -> H < 2147483647 -> fair H now ∅ rounds -> H + 1 - now <= Z.of_nat ticks -> (op_count rounds <= fuel)%nat ->
  exists l waits fin, gp_loop_run ticks fuel (init_gp_loop self now) rounds = Ok (l, waits, fin) /\ Forall right_wait waits /\
    (fin = false -> length waits = length rounds).
Proof.
  intros Hnow HH Hf Ht Hfuel. unfold gp_loop_run.
  destruct (rounds_right H rounds (fun _ => started None 0 0 0) (set_running (init_gp_loop self now) 0 1) now now ∅ ∅ ticks fuel)
    as (l&waits&fin&->&Hw&Hfin); try done.
  - constructor; [done|lia| |apply create_exact]. cbn. rewrite u32_small by lia. apply create_at_rest. lia.
  - cbn [res_bind]. eexists _, waits, fin. by split.
Qed.
Lemma loop_run_waits_for_first_timer_witness :
  fair 2000 1000 ∅ [(1000, [Start 1 (Some 5) 0 10 1; Start 2 (Some 6) 0 25 0]); (1010, []); (1012, [])] /\
  exists l waits fin, gp_loop_run 1001 2 (init_gp_loop 1 1000)
      [(1000, [Start 1 (Some 5) 0 10 1; Start 2 (Some 6) 0 25 0]); (1010, []); (1012, [])] = Ok (l, waits, fin) /\
    Forall right_wait waits /\ (fin = false -> length waits = 3%nat).
Proof.
  assert (Hf : fair 2000 1000 ∅ [(1000, [Start 1 (Some 5) 0 10 1; Start 2 (Some 6) 0 25 0]); (1010, []); (1012, [])])
    by (cbn; split_and!; (lia || set_solver)).
  split; [exact Hf|]. apply (loop_run_waits_for_first_timer 1 1000 2000
    [(1000, [Start 1 (Some 5) 0 10 1; Start 2 (Some 6) 0 25 0]); (1010, []); (1012, [])] 1001 2); [lia|lia|exact Hf|lia|].
  vm_compute. apply le_n.
Defined.
