(* ===== verification/CStr.v ===== *)
(** * C strings: strlcpy, strlcat and what the sources use of <string.h>

    A string is the list of its bytes before the NUL; a [char] array is a
    list of bytes.  [strlcpy] and [strlcat] are the byte loops of gp_conf.c;
    [snprintf] takes the text that its format gives;
    [strchr], [strcasecmp] and [strtoimax] are the standard library's, in the
    C locale. *)

From Stdlib Require Import String Ascii.
From S2P Require Import Prelude.
Local Open Scope Z_scope.

Definition cstr : Type := list Z.
Definition is_cstr (s : cstr) : Prop := Forall (fun c => 1 <= c < 256) s.
#[export] Instance is_cstr_dec s : Decision (is_cstr s).
Proof. unfold is_cstr. apply _. Defined.

(** A string literal. *)
Definition lit (s : string) : cstr := (fun a => Z.of_nat (nat_of_ascii a)) <$> list_ascii_of_string s.

(** The string in an array: the bytes before the first NUL. *)
Fixpoint c_string (m : list Z) : cstr :=
  match m with [] => [] | c :: m => if c =? 0 then [] else c :: c_string m end.

(** The string at [off]. *)
Definition str_at (m : list Z) (off : Z) : res cstr :=
  let s := c_string (drop (Z.to_nat off) m) in
  if off + zlen s <? zlen m then Ok s else Ub.

(** [s[i]], the terminator included. *)
Definition char_at (s : cstr) : Z := hd 0 s.
Definition write_char (m : list Z) (d c : Z) : res (list Z) := of_option (mem_write m d [c]).

(** [do { if (( *d++ = *s++) == 0) break; } while (--n != 0)]; [true]: broke. *)
Fixpoint strlcpy_loop (n : nat) (m : list Z) (d : Z) (s : cstr) : res (list Z * Z * bool) :=
  match n with
  | O => Ok (m, d, false)
  | S n =>
      let* m := write_char m d (char_at s) in
      if char_at s =? 0 then Ok (m, d + 1, true) else strlcpy_loop n m (d + 1) (tail s)
  end.
Definition strlcpy (dst : list Z) (src : cstr) (siz : Z) : res (list Z * Z) :=
  let* (m, d, broke) :=
    if negb (siz =? 0) && negb (siz - 1 =? 0) then strlcpy_loop (Z.to_nat (siz - 1)) dst 0 src
    else Ok (dst, 0, false) in
  if broke : bool then Ok (m, zlen src)
  else
    let* m := if negb (siz =? 0) then write_char m d 0 else Ok m in
    Ok (m, zlen src).

(** [while (n-- != 0 && *d != 0) d++] *)
Fixpoint strlcat_end (n : nat) (m : list Z) (d : Z) : res Z :=
  match n with
  | O => Ok d
  | S n => let* c := of_option (if 0 <=? d then m !! Z.to_nat d else None) in
           if c =? 0 then Ok d else strlcat_end n m (d + 1)
  end.
(** [while ( *s != 0) { if (n != 1) { *d++ = *s; n--; } s++; }] *)
Fixpoint strlcat_loop (m : list Z) (d n : Z) (s : cstr) : res (list Z * Z) :=
  match s with
  | [] => Ok (m, d)
  | c :: s =>
      if n =? 1 then strlcat_loop m d n s
      else let* m := write_char m d c in strlcat_loop m (d + 1) (n - 1) s
  end.
Definition strlcat (dst : list Z) (src : cstr) (siz : Z) : res (list Z * Z) :=
  let* dlen := strlcat_end (Z.to_nat siz) dst 0 in
  let n := siz - dlen in
  if n =? 0 then Ok (dst, dlen + zlen src)
  else
    let* (m, d) := strlcat_loop dst dlen n src in
    let* m := write_char m d 0 in
    Ok (m, dlen + zlen src).

(** [strchr(key, '.')], with the text before and after the dot. *)
Fixpoint split_at (c : Z) (s : cstr) : cstr * option cstr :=
  match s with
  | [] => ([], None)
  | x :: s => if x =? c then ([], Some s) else let (a, b) := split_at c s in (x :: a, b)
  end.

Definition tolower (c : Z) : Z := if (65 <=? c) && (c <=? 90) then c + 32 else c.
Definition isspace (c : Z) : bool := ((9 <=? c) && (c <=? 13)) || (c =? 32).
Definition strcasecmp_eq (a b : cstr) : bool := bool_decide (tolower <$> a = tolower <$> b).

(** *** snprintf *)
(** [%d], [%ld] *)
Fixpoint dec_digits (fuel : nat) (z : Z) : cstr :=
  match fuel with
  | O => []
  | S fuel => if z <? 10 then [48 + z] else dec_digits fuel (z / 10) ++ [48 + z mod 10]
  end.
Definition dec (z : Z) : cstr := if z <? 0 then 45 :: dec_digits 20 (- z) else dec_digits 20 z.
(** [snprintf(m + off, n, ...)] that formats [text]: the memory and the result. *)
Definition snprintf (m : list Z) (off n : Z) (text : cstr) : res (list Z * Z) :=
  let written := if zlen text <? n then text else take (Z.to_nat (n - 1)) text in
  let* m := if n =? 0 then Ok m else of_option (mem_write m off (written ++ [0])) in
  Ok (m, zlen text).

(** *** strtoimax *)
Definition INTMAX_MAX : Z := 9223372036854775807.
Definition INTMAX_MIN : Z := -9223372036854775808.
Definition digit (base c : Z) : option Z :=
  let v := if (48 <=? c) && (c <=? 57) then c - 48
           else if (97 <=? tolower c) && (tolower c <=? 122) then tolower c - 87 else 99 in
  if v <? base then Some v else None.
(** The value of the longest run of digits, and what follows it. *)
Fixpoint digits (base acc : Z) (s : cstr) : Z * cstr :=
  match s with
  | [] => (acc, [])
  | c :: s' => match digit base c with Some v => digits base (acc * base + v) s' | None => (acc, s) end
  end.
Fixpoint skip_space (s : cstr) : cstr :=
  match s with c :: s' => if isspace c then skip_space s' else s | [] => [] end.
(** The optional sign; [true]: minus. *)
Definition strip_sign (s : cstr) : bool * cstr :=
  match s with
  | c :: s' => if c =? 45 then (true, s') else if c =? 43 then (false, s') else (false, s)
  | [] => (false, [])
  end.
(** Base 0: the prefix decides. *)
Definition base_of (s : cstr) : Z * cstr :=
  if char_at s =? 48 then
    match tail s with
    | x :: d :: s' =>
        if (tolower x =? 120) && (if digit 16 d then true else false) then (16, d :: s') else (8, s)
    | _ => (8, s)
    end
  else (10, s).
(** [strtoimax(s, &end, 0)]: the value, the text from [end] on, and whether
    [errno] becomes [ERANGE]. *)
Definition strtoimax (s : cstr) : Z * cstr * bool :=
  let t := skip_space s in
  let (neg, t) := strip_sign t in
  let (base, t) := base_of t in
  match t with
  | c :: _ =>
      match digit base c with
      | None => (0, s, false)
      | Some _ =>
          let (v, rest) := digits base 0 t in
          let v := if neg : bool then - v else v in
          if v <? INTMAX_MIN then (INTMAX_MIN, rest, true)
          else if INTMAX_MAX <? v then (INTMAX_MAX, rest, true) else (v, rest, false)
      end
  | [] => (0, s, false)
  end.

(** ** The copying functions *)
Lemma char_at_nz s : is_cstr s -> char_at s = 0 -> s = [].
Proof. destruct s as [|c s]; [done|]. simpl. intros [? _]%Forall_cons. lia. Qed.

Lemma write_char_at (m : list Z) a x b c d :
  d = zlen a -> m = a ++ x :: b -> write_char m d c = Ok (a ++ c :: b).
Proof.
  intros -> ->. unfold write_char. rewrite mem_write_some.
  - rewrite take_app_length' by (unfold zlen; lia). simpl. do 3 f_equal.
    rewrite drop_app. replace (Z.to_nat (zlen a) + 1 - length a)%nat with 1%nat by (unfold zlen; lia).
    rewrite drop_ge by (unfold zlen; lia). done.
  - apply zlen_nonneg.
  - rewrite zlen_app, !zlen_cons, zlen_nil. pose proof (zlen_nonneg b). lia.
Qed.

Lemma zlen_snoc {A} (l : list A) x : zlen (l ++ [x]) = zlen l + 1.
Proof. by rewrite zlen_app. Qed.

Lemma strlcpy_loop_spec n (a b : list Z) s :
  is_cstr s -> (n <= length b)%nat ->
  strlcpy_loop n (a ++ b) (zlen a) s =
    if (length s <? n)%nat then Ok (a ++ s ++ 0 :: drop (S (length s)) b, zlen a + zlen s + 1, true)
    else Ok (a ++ take n s ++ drop n b, zlen a + Z.of_nat n, false).
Proof.
  revert a b s. induction n as [|n IH]; intros a b s Hs Hn; simpl.
  { do 2 f_equal. f_equal. lia. }
  destruct b as [|x b]; simpl in Hn; [lia|].
  rewrite (write_char_at _ a x b) by done. cbn [res_bind].
  destruct s as [|c s]; simpl; [by rewrite Z.add_0_r|].
  apply Forall_cons in Hs as [Hc Hs]. destruct (Z.eqb_spec c 0); [lia|].
  replace (a ++ c :: b) with ((a ++ [c]) ++ b) by (by rewrite <-app_assoc).
  replace (zlen a + 1) with (zlen (a ++ [c])) by apply zlen_snoc.
  rewrite IH by (done || lia). rewrite zlen_snoc, <-!app_assoc.
  replace (S (length s) <? S n)%nat with (length s <? n)%nat by (destruct (Nat.ltb_spec (length s) n), (Nat.ltb_spec (S (length s)) (S n)); (done || lia)).
  destruct (length s <? n)%nat; do 2 f_equal; try f_equal; rewrite ?zlen_cons; lia.
Qed.

(** [strlcpy]: as much of [src] as leaves room for the NUL, the NUL, and the
    full length as the result. *)
Lemma strlcpy_spec dst src siz :
  is_cstr src -> 0 < siz <= zlen dst ->
  let k := Z.to_nat (Z.min (zlen src) (siz - 1)) in
  strlcpy dst src siz = Ok (take k src ++ 0 :: drop (S k) dst, zlen src).
Proof.
  intros Hs Hsz k. unfold strlcpy. destruct (Z.eqb_spec siz 0); [lia|]. cbn [negb andb].
  pose proof (zlen_nonneg src) as Hl. unfold zlen in *.
  destruct (Z.eqb_spec (siz - 1) 0) as [H1|H1]; cbn [negb res_bind].
  - assert (k = 0%nat) as -> by lia. destruct dst as [|x dst]; [simpl in *; lia|].
    rewrite (write_char_at _ [] x dst) by done. done.
  - rewrite (strlcpy_loop_spec _ [] dst src Hs) by lia. simpl.
    destruct (Nat.ltb_spec (length src) (Z.to_nat (siz - 1))); cbn [res_bind].
    + assert (k = length src) as -> by lia. by rewrite take_ge by lia.
    + assert (k = Z.to_nat (siz - 1)) as -> by lia. set (w := Z.to_nat (siz - 1)) in *.
      destruct (drop w dst) as [|x r] eqn:Hd.
      { apply (f_equal length) in Hd. rewrite length_drop in Hd. simpl in Hd. lia. }
      rewrite (write_char_at _ (take w src) x r); [|rewrite zlen_nil; unfold zlen; rewrite length_take; lia|done].
      cbn [res_bind]. do 4 f_equal. replace (S w) with (w + 1)%nat by lia.
      rewrite <-drop_drop, Hd. done.
Qed.

Lemma c_string_app s m : is_cstr s -> c_string (s ++ 0 :: m) = s.
Proof.
  induction 1 as [|c s Hc Hs IH]; [done|]. simpl. destruct (Z.eqb_spec c 0); [lia|]. by rewrite IH.
Qed.

Lemma lookup_zlen {A} (a : list A) x b : (a ++ x :: b) !! Z.to_nat (zlen a) = Some x.
Proof. unfold zlen. rewrite Nat2Z.id. by apply list_lookup_middle. Qed.

Lemma strlcat_end_spec n a b :
  is_cstr a -> (length a < n)%nat -> forall pre, strlcat_end n (pre ++ a ++ 0 :: b) (zlen pre) = Ok (zlen pre + zlen a).
Proof.
  revert n. induction a as [|c a IH]; intros n Ha Hn pre; (destruct n as [|n]; simpl in Hn; [lia|]); cbn [strlcat_end].
  - destruct (Z.leb_spec 0 (zlen pre)); [|pose proof (zlen_nonneg pre); lia].
    cbn [app]. rewrite lookup_zlen. simpl. f_equal. change (zlen (@nil Z)) with 0. lia.
  - apply Forall_cons in Ha as [Hc Ha].
    destruct (Z.leb_spec 0 (zlen pre)); [|pose proof (zlen_nonneg pre); lia].
    cbn [app]. rewrite lookup_zlen. cbn [of_option res_bind].
    destruct (Z.eqb_spec c 0); [lia|].
    replace (pre ++ c :: a ++ 0 :: b) with ((pre ++ [c]) ++ a ++ 0 :: b) by (by rewrite <-app_assoc).
    replace (zlen pre + 1) with (zlen (pre ++ [c])) by apply zlen_snoc.
    rewrite IH by (done || lia). rewrite zlen_snoc, zlen_cons. f_equal. lia.
Qed.

Lemma strlcat_loop_spec s a b n :
  1 <= n <= zlen b ->
  let k := Z.to_nat (Z.min (zlen s) (n - 1)) in
  strlcat_loop (a ++ b) (zlen a) n s = Ok (a ++ take k s ++ drop k b, zlen a + Z.of_nat k).
Proof.
  revert a b n. induction s as [|c s IH]; intros a b n Hn k; cbn [strlcat_loop].
  { subst k. rewrite zlen_nil, Z.min_l by lia. simpl. by rewrite Z.add_0_r. }
  assert (Hcs : zlen (c :: s) = 1 + zlen s) by apply zlen_cons.
  pose proof (zlen_nonneg s). destruct (Z.eqb_spec n 1) as [->|Hn1].
  - rewrite IH by lia. subst k. by rewrite !Z.min_r by lia.
  - destruct b as [|x b]; [rewrite zlen_nil in *; lia|]. rewrite zlen_cons in Hn.
    rewrite (write_char_at _ a x b) by done. cbn [res_bind].
    replace (a ++ c :: b) with ((a ++ [c]) ++ b) by (by rewrite <-app_assoc).
    replace (zlen a + 1) with (zlen (a ++ [c])) by apply zlen_snoc.
    rewrite IH by lia. assert (k = S (Z.to_nat (Z.min (zlen s) (n - 1 - 1)))) as -> by (subst k; lia).
    rewrite <-app_assoc, zlen_snoc. simpl. do 2 f_equal. lia.
Qed.

(** [strlcat]: the strings joined, cut to fit, always terminated. *)
Lemma strlcat_spec a b src siz :
  is_cstr a -> zlen a < siz <= zlen a + 1 + zlen b ->
  let k := Z.to_nat (Z.min (zlen src) (siz - zlen a - 1)) in
  strlcat (a ++ 0 :: b) src siz = Ok (a ++ take k src ++ 0 :: drop k b, zlen a + zlen src).
Proof.
  intros Ha Hsz k. unfold strlcat. pose proof (zlen_nonneg a). pose proof (zlen_nonneg src).
  pose proof (strlcat_end_spec (Z.to_nat siz) a b Ha ltac:(unfold zlen in *; lia) []) as He.
  change (strlcat_end (Z.to_nat siz) (a ++ 0 :: b) 0 = Ok (zlen a)) in He. rewrite He. cbn [res_bind].
  destruct (Z.eqb_spec (siz - zlen a) 0); [lia|].
  rewrite strlcat_loop_spec by (rewrite zlen_cons; lia). fold k. cbn [res_bind].
  assert (Hkb : (k <= length b)%nat) by (unfold zlen in *; lia).
  assert (Hks : (k <= length src)%nat) by (unfold zlen in *; lia).
  destruct (drop k (0 :: b)) as [|x r] eqn:Hd.
  { apply (f_equal length) in Hd. rewrite length_drop in Hd. simpl in Hd. lia. }
  rewrite (write_char_at _ (a ++ take k src) x r); [| |by rewrite <-app_assoc].
  - cbn [res_bind]. rewrite <-app_assoc. do 5 f_equal.
    assert (Hdr : drop (S k) (0 :: b) = r).
    { replace (S k) with (k + 1)%nat by lia. by rewrite <-drop_drop, Hd. }
    simpl in Hdr. done.
  - rewrite zlen_app. unfold zlen. rewrite length_take. lia.
Qed.
