(* ===== verification/DictStats.v ===== *)
(** * gp_dict.c: the statistics of a dictionary

    [_dictGetStatsHt] counts the chains of a table by their length and prints
    the counts; [dictGetStats] prints both tables into one array.  The averages
    and percentages are computed in [float], that is with 24 significant bits;
    [%.02f] rounds the exact value of the result. *)

From Stdlib Require Import String.
From S2P Require Import Prelude CStr Hash Dict DictInv.
Local Open Scope Z_scope.

Definition DICT_STATS_VECTLEN : Z := 50.

(** ** Numbers in floating point *)
(** [n / d] to the nearest integer, ties to even. *)
Definition div_rne (n d : Z) : Z :=
  let q := n / d in
  match 2 * (n mod d) ?= d with
  | Lt => q | Gt => q + 1 | Eq => if Z.even q then q else q + 1
  end.
(** [n / (d * 2^e)] as a fraction. *)
Definition scaled (n d e : Z) : Z * Z := if 0 <=? e then (n, d * 2 ^ e) else (n * 2 ^ (- e), d).
(** A positive [float] is [m * 2^e], the zero [(0, 0)]. *)
Definition float : Type := Z * Z.
Definition fraction (f : float) : Z * Z := let (m, e) := f in if 0 <=? e then (m * 2 ^ e, 1) else (m, 2 ^ (- e)).
Definition float_of (n d : Z) : float :=
  if n =? 0 then (0, 0)
  else
    let e := Z.log2 n - Z.log2 d - 23 in
    let (a, b) := scaled n d e in
    let e := if a <? 2 ^ 23 * b then e - 1 else e in
    let (a, b) := scaled n d e in
    (div_rne a b, e).
(** Division by a [float] that is not zero, and multiplication. *)
Definition fdiv (f g : float) : float :=
  let (a, b) := fraction f in let (c, d) := fraction g in float_of (a * d) (b * c).
Definition fmul (f g : float) : float :=
  let (a, b) := fraction f in let (c, d) := fraction g in float_of (a * c) (b * d).
(** [%.02f] *)
Definition print_float (f : float) : cstr :=
  let (a, b) := fraction f in
  let h := div_rne (100 * a) b in
  dec (h / 100) ++ [46; 48 + h mod 100 / 10; 48 + h mod 10].
(** [(float)a / b] *)
Definition ratio (a b : Z) : float := fdiv (float_of a 1) (float_of b 1).
(** Without slots, [0.0 / 0] or an infinity. *)
Definition average (a b : Z) : cstr :=
  if b =? 0 then (if a =? 0 then lit "-nan" else lit "inf") else print_float (ratio a b).

Example a_third : (average 1 3, print_float (fmul (ratio 2 3) (float_of 100 1)), average 33554433 2) =
  (lit "0.33", lit "66.67", lit "16777216.00").
Proof. vm_compute. reflexivity. Qed.

Section Stats.
Context {K V : Type}.
Implicit Types (h : dictht K V) (d : dict K V) (c : list (dictEntry K V)) (t : list (list (dictEntry K V))).

(** ** Counting *)
Record ht_stats := mk_stats { slots : Z; maxchainlen : Z; totchainlen : Z; clvector : list Z }.
Definition no_stats : ht_stats := mk_stats 0 0 0 (calloc DICT_STATS_VECTLEN).
(** [clvector[i]++] *)
Definition count_at (i : Z) (v : list Z) : list Z := alter (fun x => u64 (x + 1)) (Z.to_nat i) v.
Definition chain_class (n : Z) : Z := if n <? DICT_STATS_VECTLEN then n else DICT_STATS_VECTLEN - 1.
Definition count_slot (s : ht_stats) c : ht_stats :=
  match c with
  | [] => mk_stats (slots s) (maxchainlen s) (totchainlen s) (count_at 0 (clvector s))
  | _ =>
      let chainlen := zlen c in
      mk_stats (u64 (slots s + 1)) (if maxchainlen s <? chainlen then chainlen else maxchainlen s)
               (u64 (totchainlen s + chainlen)) (count_at (chain_class chainlen) (clvector s))
  end.
(** [for (i = 0; i < ht->size; i++)] *)
Fixpoint count_slots (n : nat) (i : Z) h (s : ht_stats) : res ht_stats :=
  match n with
  | O => Ok s
  | S n => let* c := bucket h i in count_slots n (i + 1) h (count_slot s c)
  end.
Definition ht_count h : res ht_stats := count_slots (Z.to_nat (size h)) 0 h no_stats.

(** ** Printing *)
Definition eol : cstr := [10].
Definition long (z : Z) : cstr := dec (s64 z).
Definition stats_head (tableid : Z) h (s : ht_stats) : cstr :=
  lit "Hash table " ++ dec tableid ++ lit " stats (" ++
    (if tableid =? 0 then lit "main hash table" else lit "rehashing target") ++ lit "):" ++ eol ++
  lit " table size: " ++ long (size h) ++ eol ++
  lit " number of elements: " ++ long (used h) ++ eol ++
  lit " different slots: " ++ long (slots s) ++ eol ++
  lit " max chain length: " ++ long (maxchainlen s) ++ eol ++
  lit " avg chain length (counted): " ++ average (totchainlen s) (slots s) ++ eol ++
  lit " avg chain length (computed): " ++ average (used h) (slots s) ++ eol ++
  lit " Chain length distribution:" ++ eol.
(** The sign [">= "] is printed for a class that the loop does not reach. *)
Definition stats_line h (i n : Z) : cstr :=
  lit "   " ++ (if i =? DICT_STATS_VECTLEN - 1 then lit ">= " else []) ++ long i ++ lit ": " ++ long n ++ lit " (" ++
  print_float (fmul (ratio n (size h)) (float_of 100 1)) ++ lit "%)" ++ eol.
Fixpoint stats_lines (m : list Z) (off bufsize : Z) h (i l : Z) (v : list Z) : res (list Z * Z) :=
  match v with
  | [] => Ok (m, l)
  | n :: v =>
      if n =? 0 then stats_lines m off bufsize h (i + 1) l v
      else if bufsize <=? l then Ok (m, l)
      else
        let* (m, k) := snprintf m (off + l) (bufsize - l) (stats_line h i n) in
        stats_lines m off bufsize h (i + 1) (u64 (l + k)) v
  end.
Definition empty_text : cstr := lit "No stats available for empty dictionaries" ++ eol.
(** [buf] is [m + off].  The memory and the result. *)
Definition _dictGetStatsHt (m : list Z) (off bufsize : Z) h (tableid : Z) : res (list Z * Z) :=
  if used h =? 0 then snprintf m off bufsize empty_text
  else
    let* s := ht_count h in
    let* (m, l) := snprintf m off bufsize (stats_head tableid h s) in
    let* (m, _) := stats_lines m off bufsize h 0 l (take (Z.to_nat (DICT_STATS_VECTLEN - 1)) (clvector s)) in
    let* m := if bufsize =? 0 then Ok m else of_option (mem_write m (off + bufsize - 1) [0]) in
    let* text := str_at m off in
    Ok (m, zlen text).
Definition dictGetStats (m : list Z) (bufsize : Z) d : res (list Z) :=
  let* (m, l) := _dictGetStatsHt m 0 bufsize (ht0 d) 0 in
  let rest := u64 (bufsize - l) in
  let* (m, _) := if dictIsRehashing d && (0 <? rest) then _dictGetStatsHt m l rest (ht1 d) 1 else Ok (m, 0) in
  if bufsize =? 0 then Ok m else of_option (mem_write m (bufsize - 1) [0]).
End Stats.

(** ** Staying inside the array *)
(** [m'] is [m] with changes in the [n] bytes from [off] only. *)
Definition inside (off n : Z) (m m' : list Z) : Prop :=
  zlen m' = zlen m /\ take (Z.to_nat off) m' = take (Z.to_nat off) m /\
  drop (Z.to_nat (off + n)) m' = drop (Z.to_nat (off + n)) m.
#[export] Instance inside_preorder off n : PreOrder (inside off n).
Proof. split; [by intros m|]. intros m1 m2 m3 (H1&H2&H3) (?&?&?). unfold inside. by rewrite <-H1, <-H2, <-H3. Qed.
Lemma inside_write m off n o bs m' :
  mem_write m o bs = Some m' -> 0 <= off <= o -> o + zlen bs <= off + n -> inside off n m m'.
Proof.
  intros Hw Ho Hn. pose proof (zlen_mem_write _ _ _ _ Hw) as Hl. apply mem_write_inv in Hw as (_&Hb&->). split; [done|].
  unfold zlen in *. split.
  - rewrite take_app_le by (rewrite length_take; lia). rewrite take_take. f_equal. lia.
  - rewrite !drop_app, length_take. rewrite (drop_ge (take _ _)) by (rewrite length_take; lia).
    rewrite (drop_ge bs) by lia. cbn [app]. rewrite drop_drop. f_equal. lia.
Qed.
Lemma inside_widen off n off' n' m m' :
  inside off n m m' -> 0 <= off' <= off -> off + n <= off' + n' -> inside off' n' m m'.
Proof.
  intros (Hl&Ht&Hd) Ho Hn. split; [done|]. split.
  - replace (Z.to_nat off') with (Z.to_nat off' `min` Z.to_nat off)%nat by lia. by rewrite <-!take_take, Ht.
  - replace (Z.to_nat (off' + n')) with (Z.to_nat (off + n) + (Z.to_nat (off' + n') - Z.to_nat (off + n)))%nat by lia.
    by rewrite <-!drop_drop, Hd.
Qed.

Lemma snprintf_inside m off n text : 0 <= off -> 0 < n -> off + n <= zlen m ->
  exists m', snprintf m off n text = Ok (m', zlen text) /\ inside off n m m'.
Proof.
  intros Ho Hn Hm. unfold snprintf. rewrite (proj2 (Z.eqb_neq n 0)) by lia. cbv zeta.
  set (written := if zlen text <? n then text else take (Z.to_nat (n - 1)) text).
  assert (Hl : zlen (written ++ [0]) <= n).
  { rewrite zlen_app. change (zlen [0]) with 1. unfold written. destruct (Z.ltb_spec (zlen text) n); [lia|].
    unfold zlen. rewrite length_take. lia. }
  destruct (mem_write_fits m off (written ++ [0])) as [m' E]; [done|lia|].
  rewrite E. exists m'. split; [done|]. apply (inside_write _ _ _ _ _ _ E); lia.
Qed.
Lemma snprintf_outside m off n text : zlen m < off -> n <> 0 -> snprintf m off n text = Ub.
Proof.
  intros Ho Hn. unfold snprintf. rewrite (proj2 (Z.eqb_neq n 0)) by done. cbv zeta. set (written := if zlen text <? n then text else take (Z.to_nat (n - 1)) text).
  destruct mem_write as [m'|] eqn:E; [|done]. apply mem_write_inv in E as (_&E&_). pose proof (zlen_nonneg (written ++ [0])). lia.
Qed.
Lemma c_string_before m i : m !! i = Some 0 -> zlen (c_string m) <= Z.of_nat i.
Proof.
  revert i. induction m as [|c m IH]; intros i H; [done|]. cbn [c_string]. destruct i as [|i].
  - injection H as ->. done.
  - specialize (IH i H). destruct (c =? 0); [unfold zlen; cbn; lia|]. rewrite zlen_cons. lia.
Qed.
(** A NUL at the end of the window ends the text. *)
Lemma str_at_written m off n m' : 0 <= off -> 0 < n -> off + n <= zlen m -> mem_write m (off + n - 1) [0] = Some m' ->
  exists text, str_at m' off = Ok text /\ zlen text < n.
Proof.
  intros Ho Hn Hm Hw. pose proof (mem_read_write_eq _ _ _ _ Hw) as Hr. pose proof (zlen_mem_write _ _ _ _ Hw) as Hl.
  assert (Hz : drop (Z.to_nat off) m' !! Z.to_nat (n - 1) = Some 0).
  { rewrite lookup_drop. replace (Z.to_nat off + Z.to_nat (n - 1))%nat with (Z.to_nat (off + n - 1)) by lia.
    apply mem_read_inv in Hr as (_&_&_&Hr). rewrite <-(Nat.add_0_r (Z.to_nat (off + n - 1))), <-lookup_drop.
    rewrite <-(lookup_take_lt _ 1) by lia. change (Z.to_nat (zlen [0])) with 1%nat in Hr. by rewrite <-Hr. }
  apply c_string_before in Hz. eexists. unfold str_at. cbv zeta. rewrite (proj2 (Z.ltb_lt _ _)); [split; [done|]|]; lia.
Qed.

(** ** What is counted *)
Section Counted.
Context {K V : Type} (ty : dictType K V).
Implicit Types (h : dictht K V) (d : dict K V) (c : list (dictEntry K V)) (t : list (list (dictEntry K V))).

Definition chains_of (i : Z) t : Z := zlen (filter (fun c => chain_class (zlen c) = i) t).
Record counted t (s : ht_stats) : Prop := {
  counted_slots : slots s = zlen (filter (fun c => c <> []) t);
  counted_max : maxchainlen s = foldl Z.max 0 (zlen <$> t);
  counted_total : totchainlen s = zlen (mjoin t);
  counted_classes : clvector s = (fun i => chains_of i t) <$> seqZ 0 DICT_STATS_VECTLEN;
}.

Lemma counted_nil : counted [] no_stats.
Proof. by split. Qed.
Lemma foldl_max_nonneg l a : 0 <= a -> 0 <= foldl Z.max a l.
Proof. revert a. induction l as [|x l IH]; intros a Ha; cbn [foldl]; [done|]. apply IH. lia. Qed.
Lemma chain_class_range c : 0 <= chain_class (zlen c) < DICT_STATS_VECTLEN.
Proof. unfold chain_class, DICT_STATS_VECTLEN. pose proof (zlen_nonneg c). destruct (Z.ltb_spec (zlen c) 50); lia. Qed.
Lemma filter_le {A} (P : A -> Prop) `{!forall x, Decision (P x)} (l : list A) : zlen (filter P l) <= zlen l.
Proof. unfold zlen. pose proof (length_filter P l). lia. Qed.
Lemma zlen_filter_snoc {A} (P : A -> Prop) `{!forall x, Decision (P x)} (l : list A) x :
  zlen (filter P (l ++ [x])) = zlen (filter P l) + (if decide (P x) then 1 else 0).
Proof. rewrite filter_app, zlen_app, filter_cons, filter_nil. by destruct (decide (P x)). Qed.
(** Counting a chain in its class. *)
Lemma count_at_class t c : zlen t < 2 ^ 63 ->
  count_at (chain_class (zlen c)) ((fun i => chains_of i t) <$> seqZ 0 DICT_STATS_VECTLEN) =
  (fun i => chains_of i (t ++ [c])) <$> seqZ 0 DICT_STATS_VECTLEN.
Proof.
  intros Ht. pose proof (chain_class_range c) as Hr. unfold count_at. apply list_eq. intros j.
  assert (Hn : forall i, chains_of i (t ++ [c]) = chains_of i t + (if decide (chain_class (zlen c) = i) then 1 else 0)).
  { intros i. exact (zlen_filter_snoc (fun c => chain_class (zlen c) = i) t c). }
  destruct (decide (j = Z.to_nat (chain_class (zlen c)))) as [->|Hj].
  - rewrite list_lookup_alter_eq, !list_lookup_fmap, lookup_seqZ_lt by lia. cbn [fmap option_fmap option_map]. f_equal.
    rewrite Hn, decide_True by lia. apply u64_small. pose proof (filter_le (fun c' => chain_class (zlen c') = 0 + Z.of_nat (Z.to_nat (chain_class (zlen c)))) t).
    unfold chains_of. pose proof (zlen_nonneg (filter (fun c' => chain_class (zlen c') = 0 + Z.of_nat (Z.to_nat (chain_class (zlen c)))) t)). lia.
  - rewrite list_lookup_alter_ne, !list_lookup_fmap by done.
    destruct (seqZ 0 DICT_STATS_VECTLEN !! j) as [i|] eqn:E; [|done]. cbn [fmap option_fmap option_map]. f_equal.
    apply lookup_seqZ in E as [-> _]. rewrite Hn, decide_False by lia. lia.
Qed.
Lemma count_slot_counted t s c : counted t s -> zlen (t ++ [c]) <= 2 ^ 63 -> zlen (mjoin (t ++ [c])) < 2 ^ 63 -> counted (t ++ [c]) (count_slot s c).
Proof.
  intros [Hs Hm Ht Hc] Hl Hj. rewrite zlen_app in Hl. change (zlen [c]) with 1 in Hl.
  assert (Hjoin : zlen (mjoin (t ++ [c])) = zlen (mjoin t) + zlen c) by (rewrite join_app, zlen_app; cbn; by rewrite app_nil_r).
  assert (Hfold : foldl Z.max 0 (zlen <$> t ++ [c]) = Z.max (maxchainlen s) (zlen c)) by (rewrite fmap_app, foldl_app; cbn; by rewrite Hm).
  assert (Hcl : count_at (chain_class (zlen c)) (clvector s) = (fun i => chains_of i (t ++ [c])) <$> seqZ 0 DICT_STATS_VECTLEN)
    by (rewrite Hc; apply count_at_class; lia).
  pose proof (filter_le (fun c => c <> []) t) as Hf. pose proof (zlen_nonneg (filter (fun c => c <> []) t)).
  pose proof (foldl_max_nonneg (zlen <$> t) 0 ltac:(lia)). pose proof (zlen_nonneg (mjoin t)).
  destruct c as [|e c]; split; cbn [count_slot slots maxchainlen totchainlen clvector]; rewrite ?zlen_filter_snoc, ?Hfold, ?Hjoin; try exact Hcl.
  - rewrite decide_False by (intros []; done). lia.
  - change (zlen (@nil (dictEntry K V))) with 0. lia.
  - change (zlen (@nil (dictEntry K V))) with 0. lia.
  - rewrite decide_True by done. rewrite Hs. apply u64_small. lia.
  - destruct (Z.ltb_spec (maxchainlen s) (zlen (e :: c))); lia.
  - rewrite Ht. apply u64_small. pose proof (zlen_nonneg (e :: c)). lia.
Qed.

Lemma count_slots_fold h t n i s : table h = Some t -> (i + n = length t)%nat ->
  count_slots n (Z.of_nat i) h s = Ok (foldl count_slot s (drop i t)).
Proof.
  intros Ht. revert i s. induction n as [|n IH]; intros i s Hi; cbn [count_slots].
  - by rewrite drop_ge by lia.
  - destruct (lookup_lt_is_Some_2 t i ltac:(lia)) as [c Hc]. unfold bucket. rewrite Ht. cbn [of_option res_bind].
    rewrite (proj2 (Z.leb_le _ _)) by lia. rewrite Nat2Z.id, Hc. cbn [of_option res_bind].
    replace (Z.of_nat i + 1) with (Z.of_nat (S i)) by lia. rewrite IH by lia. by rewrite (drop_S _ _ _ Hc).
Qed.
Lemma foldl_counted t : zlen t <= 2 ^ 63 -> zlen (mjoin t) < 2 ^ 63 -> counted t (foldl count_slot no_stats t).
Proof.
  induction t as [|c t IH] using rev_ind; intros Hl Hj; [exact counted_nil|]. rewrite foldl_app. cbn [foldl].
  apply count_slot_counted; [|done|done]. apply IH; [rewrite zlen_app in Hl; pose proof (zlen_nonneg [c]); lia|].
  rewrite join_app, zlen_app in Hj. pose proof (zlen_nonneg (mjoin [c])). lia.
Qed.
Lemma ht_count_ok h t : table h = Some t -> zlen t = size h -> size h <= 2 ^ 63 -> zlen (mjoin t) < 2 ^ 63 ->
  exists s, ht_count h = Ok s /\ counted t s.
Proof.
  intros Ht Hl Hs Hj. exists (foldl count_slot no_stats t). split; [|apply foldl_counted; lia]. unfold ht_count.
  apply (count_slots_fold h t (Z.to_nat (size h)) 0); [done|]. unfold zlen in Hl. lia.
Qed.
End Counted.

(** ** Properties *)
Section Theorems.
Context {K V : Type} `{Countable K}.
Context (ty : dictType K V) (key_ok : K -> Prop).
Implicit Types (h : dictht K V) (d : dict K V) (t : list (list (dictEntry K V))).

Lemma empty_chains t : zlen (filter (fun c => c <> []) t) + chains_of 0 t = zlen t.
Proof.
  unfold chains_of. induction t as [|c t IH]; [done|]. rewrite !filter_cons, zlen_cons. destruct c as [|e c].
  - rewrite decide_False by (intros []; done). rewrite decide_True by done. rewrite zlen_cons. lia.
  - rewrite decide_True by done. rewrite decide_False; [rewrite zlen_cons; lia|]. pose proof (zlen_nonneg c).
    unfold chain_class, DICT_STATS_VECTLEN. rewrite zlen_cons. case Z.ltb_spec; lia.
Qed.
(** The counts are those of the table: the entries that are found in the chains
    are the [used] ones, so that both averages are the same. *)
Theorem stats_count_the_table h t : ht_wf ty h -> table h = Some t -> used h < 2 ^ 63 ->
  exists s, ht_count h = Ok s /\ counted t s /\ totchainlen s = used h /\ slots s + chains_of 0 t = size h.
Proof.
  intros Hw Ht Hu. pose proof (ht_wf_size _ _ Hw) as Hs. unfold ht_wf in Hw. rewrite Ht in Hw. destruct Hw as (_&_&Hl&Hj&_).
  destruct (ht_count_ok h t Ht Hl) as (s&E&Hc); [lia|lia|]. exists s. split; [done|]. split; [done|]. destruct Hc as [-> _ -> _].
  split; [done|]. rewrite empty_chains. lia.
Qed.

Lemma stats_lines_inside m off bufsize h i l v : 0 <= off -> off + bufsize <= zlen m -> 0 <= l ->
  exists m' l', stats_lines m off bufsize h i l v = Ok (m', l') /\ inside off bufsize m m'.
Proof.
  intros Ho. revert m i l. induction v as [|n v IH]; intros m i l Hm Hl; cbn [stats_lines]; [eexists m, l; done|].
  destruct (n =? 0); [by apply IH|]. destruct (Z.leb_spec bufsize l) as [|Hb]; [eexists m, l; done|].
  destruct (snprintf_inside m (off + l) (bufsize - l) (stats_line h i n)) as (m1&->&H1); [lia|lia|lia|]. cbn [res_bind].
  pose proof H1 as (Hz&_). destruct (IH m1 (i + 1) (u64 (l + zlen (stats_line h i n)))) as (m2&l2&->&H2).
  - lia.
  - apply u64_range.
  - exists m2, l2. split; [done|]. transitivity m1; [|done]. apply (inside_widen _ _ _ _ _ _ H1); lia.
Qed.
Lemma stats_ht_inside m off bufsize h tableid : ht_wf ty h -> used h < 2 ^ 63 ->
  0 <= off -> 0 < bufsize -> off + bufsize <= zlen m ->
  exists m' l, _dictGetStatsHt m off bufsize h tableid = Ok (m', l) /\ inside off bufsize m m' /\
    (if used h =? 0 then l = zlen empty_text else 0 <= l < bufsize).
Proof.
  intros Hw Hu Ho Hb Hm. unfold _dictGetStatsHt. destruct (Z.eqb_spec (used h) 0) as [H0|H0].
  { destruct (snprintf_inside m off bufsize empty_text) as (m'&->&Hi); [done|done|done|]. eauto. }
  destruct (table h) as [t|] eqn:Ht; [|unfold ht_wf in Hw; rewrite Ht in Hw; lia].
  destruct (stats_count_the_table h t) as (s&->&_); [done|done|done|]. cbn [res_bind].
  destruct (snprintf_inside m off bufsize (stats_head tableid h s)) as (m1&->&H1); [done|done|done|]. cbn [res_bind].
  pose proof H1 as (Hz1&_).
  destruct (stats_lines_inside m1 off bufsize h 0 (zlen (stats_head tableid h s)) (take (Z.to_nat (DICT_STATS_VECTLEN - 1)) (clvector s)))
    as (m2&l2&->&H2); [done|lia|apply zlen_nonneg|]. cbn [res_bind]. pose proof H2 as (Hz2&_).
  rewrite (proj2 (Z.eqb_neq bufsize 0)) by lia. destruct (mem_write_fits m2 (off + bufsize - 1) [0]) as [m3 E]; [lia|change (zlen [0]) with 1; lia|].
  rewrite E. cbn [of_option res_bind]. destruct (str_at_written m2 off bufsize m3) as (text&->&Hx); [done|done|lia|done|].
  cbn [res_bind]. exists m3, (zlen text). split; [done|]. split; [|split; [apply zlen_nonneg|done]].
  transitivity m1; [done|]. transitivity m2; [done|]. apply (inside_write _ _ _ _ _ _ E); change (zlen [0]) with 1; lia.
Qed.

Lemma stats_ht_outside m off n h tableid : ht_wf ty h -> used h < 2 ^ 63 -> zlen m < off -> n <> 0 ->
  _dictGetStatsHt m off n h tableid = Ub.
Proof.
  intros Hw Hu Ho Hn. unfold _dictGetStatsHt. destruct (Z.eqb_spec (used h) 0) as [H0|H0]; [by apply snprintf_outside|].
  destruct (table h) as [t|] eqn:Ht; [|unfold ht_wf in Hw; rewrite Ht in Hw; lia].
  destruct (stats_count_the_table h t) as (s&->&_); [done|done|done|]. cbn [res_bind]. by rewrite snprintf_outside.
Qed.
(** The second table, where the first has left room. *)
Lemma stats_rest_inside (b : bool) m l h : ht_wf ty h -> used h < 2 ^ 63 -> 0 < zlen m < 2 ^ 63 ->
  0 <= l -> b = false \/ l <= zlen m ->
  exists m' text, (let* (m', _) := if b && (0 <? u64 (zlen m - l)) then _dictGetStatsHt m l (u64 (zlen m - l)) h 1 else Ok (m, 0) in
     if zlen m =? 0 then Ok m' else of_option (mem_write m' (zlen m - 1) [0])) = Ok m' /\
    zlen m' = zlen m /\ str_at m' 0 = Ok text /\ zlen text < zlen m.
Proof.
  intros Hw Hu Hm Hl Hb.
  assert (Hsecond : exists m1 k, (if b && (0 <? u64 (zlen m - l)) then _dictGetStatsHt m l (u64 (zlen m - l)) h 1 else Ok (m, 0)) = Ok (m1, k) /\
            zlen m1 = zlen m).
  { destruct (Z.ltb_spec 0 (u64 (zlen m - l))) as [Hr|Hr]; [|rewrite andb_false_r; eauto]. destruct b; cbn [andb]; [|eauto].
    destruct Hb as [?|Hb]; [done|]. rewrite u64_small in * by lia.
    destruct (stats_ht_inside m l (zlen m - l) h 1) as (m1&k&->&(Hz&_)&_); [done|done|done|done|lia|]. eauto. }
  destruct Hsecond as (m1&k&->&Hz). cbn [res_bind]. rewrite (proj2 (Z.eqb_neq (zlen m) 0)) by lia.
  destruct (mem_write_fits m1 (zlen m - 1) [0]) as [m2 E]; [lia|change (zlen [0]) with 1; lia|]. rewrite E. cbn [of_option].
  destruct (str_at_written m1 0 (zlen m) m2) as (text&Ht&Hx); [done|lia|lia|done|]. exists m2, text.
  split; [done|]. by rewrite (zlen_mem_write _ _ _ _ E).
Qed.

(** The statistics stay in the array and end in a NUL, unless the table is
    being resized, the old one is empty and the array is shorter than the text
    for an empty table: the size that is left wraps around, and the second
    table is printed behind the array. *)
Theorem stats_stay_in_array (m : list Z) (d : dict K V) : dict_wf ty key_ok d -> 0 < zlen m < 2 ^ 63 ->
  if bool_decide (dictIsRehashing d = true /\ used (ht0 d) = 0 /\ zlen m < zlen empty_text) then dictGetStats m (zlen m) d = Ub
  else exists m' text, dictGetStats m (zlen m) d = Ok m' /\ zlen m' = zlen m /\ str_at m' 0 = Ok text /\ zlen text < zlen m.
Proof.
  intros Hd Hm. assert (Hu : used (ht0 d) < 2 ^ 63 /\ used (ht1 d) < 2 ^ 63).
  { pose proof (wf_used_le ty _ _ Hd). pose proof (wf_count _ _ _ Hd). unfold max_entries in *.
    rewrite (ht_wf_used _ _ (wf_ht0 _ _ _ Hd)), (ht_wf_used _ _ (wf_ht1 _ _ _ Hd)) in *.
    pose proof (zlen_nonneg (ht_entries (ht0 d))). pose proof (zlen_nonneg (ht_entries (ht1 d))). lia. }
  destruct Hu as [Hu0 Hu1]. destruct Hd as [Hw0 Hw1 _ _ _ _ _ _]. unfold dictGetStats.
  destruct (stats_ht_inside m 0 (zlen m) (ht0 d) 0) as (m1&l&->&H1&Hl); [done|done|done|lia|lia|]. cbn [res_bind]. pose proof H1 as (Hz1&_). rewrite <-Hz1 in *.
  destruct (Z.eqb_spec (used (ht0 d)) 0) as [H0|H0].
  - case_bool_decide as Hc.
    + destruct Hc as (->&_&Hc). rewrite Hl. assert (Hr : 0 < u64 (zlen m1 - zlen empty_text)).
      { change (zlen empty_text) with 42 in *. unfold u64. rewrite <-(Z.mod_add _ 1) by done. rewrite Z.mod_small; lia. }
      rewrite (proj2 (Z.ltb_lt _ _) Hr). cbn [andb]. rewrite stats_ht_outside; [done|done|done|done|lia].
    + apply stats_rest_inside; [done|done|done|rewrite Hl; apply zlen_nonneg|].
      destruct (dictIsRehashing d); [|by left]. right. apply Z.nlt_ge. intros ?. apply Hc. by rewrite <-Hl.
  - rewrite bool_decide_eq_false_2 by tauto. apply stats_rest_inside; [done|done|done|lia|]. right. lia.
Qed.
End Theorems.

(** ** Evaluated *)
Definition one_entry (n : nat) : list (list (dictEntry Z Z)) :=
  <[1%nat := [mk_entry 16 (mk_dkey 8 1) (Some 5)]]> (replicate n []).
Definition small_table (n : nat) : dictht Z Z := mk_dictht (Some (one_entry n)) (Z.of_nat n) (Z.of_nat n - 1) 1.
Example stats_text :
  (let* m := dictGetStats (calloc 400) 400 (mk_dict (small_table 4) _dictReset (-1) 0) in str_at m 0) =
  Ok (lit "Hash table 0 stats (main hash table):" ++ eol ++
      lit " table size: 4" ++ eol ++ lit " number of elements: 1" ++ eol ++ lit " different slots: 1" ++ eol ++
      lit " max chain length: 1" ++ eol ++ lit " avg chain length (counted): 1.00" ++ eol ++
      lit " avg chain length (computed): 1.00" ++ eol ++ lit " Chain length distribution:" ++ eol ++
      lit "   0: 3 (75.00%)" ++ eol ++ lit "   1: 1 (25.00%)" ++ eol).
Proof. vm_compute. reflexivity. Qed.
(** The last entry of the old table was deleted while the table grows; an array
    of 41 bytes is overrun. *)
Example stats_overrun :
  dictGetStats (calloc 41) 41 (mk_dict (mk_dictht (Some (replicate 4 [])) 4 3 0) (small_table 8) 1 0) = Ub.
Proof. vm_compute. reflexivity. Qed.
(** A chain of 60 entries: the class of the long ones is not printed. *)
Example long_chain_not_printed :
  let t := [replicate 60 (mk_entry 16 (mk_dkey 8 1) (Some 5)); []; []; []] in
  (let* m := dictGetStats (calloc 400) 400 (mk_dict (mk_dictht (Some t) 4 3 60) _dictReset (-1) 0) in
   let* text := str_at m 0 in Ok (drop 190 text)) = Ok (lit " Chain length distribution:" ++ eol ++ lit "   0: 3 (75.00%)" ++ eol).
Proof. vm_compute. reflexivity. Qed.
