(* ===== verification/Conf.v ===== *)
(** * gp_conf.c: the configuration tree (data and operations)

    A node carries its name, its value, the [is_seq] and [final] flags,
    whether its [parent] pointer is set, and its children in the order of the
    tail queue.  A pointer to a node is its path from the root, the list of
    child positions.  Allocation succeeds. *)

From S2P Require Import Prelude CStr.
Local Open Scope Z_scope.

Definition NODE_NAME_MAX : Z := 1024.

Inductive gp_conf_node := mk_conf_node {
  name : option cstr;
  val : option cstr;
  is_seq : Z;
  final : Z;
  parent : bool;
  children : list gp_conf_node;
}.
Definition set_val (v : option cstr) (n : gp_conf_node) : gp_conf_node :=
  mk_conf_node (name n) v (is_seq n) (final n) (parent n) (children n).
Definition set_final (f : Z) (n : gp_conf_node) : gp_conf_node :=
  mk_conf_node (name n) (val n) (is_seq n) f (parent n) (children n).
Definition set_children (c : list gp_conf_node) (n : gp_conf_node) : gp_conf_node :=
  mk_conf_node (name n) (val n) (is_seq n) (final n) (parent n) c.

(** The two globals. *)
Record conf := mk_conf { root : option gp_conf_node; root_backup : option gp_conf_node }.
Definition set_root (c : conf) (r : option gp_conf_node) : conf := mk_conf r (root_backup c).

Definition gp_conf_node_new : gp_conf_node := mk_conf_node None None 0 0 false [].
Definition gp_conf_init (c : conf) : conf :=
  match root c with Some _ => c | None => set_root c (Some gp_conf_node_new) end.

(** *** Pointers *)
Definition path : Type := list nat.
Fixpoint node_at (n : gp_conf_node) (p : path) : option gp_conf_node :=
  match p with
  | [] => Some n
  | i :: p => match children n !! i with Some c => node_at c p | None => None end
  end.
Fixpoint update_at (f : gp_conf_node -> gp_conf_node) (n : gp_conf_node) (p : path) : gp_conf_node :=
  match p with
  | [] => f n
  | i :: p =>
      match children n !! i with
      | Some c => set_children (<[i := update_at f c p]> (children n)) n
      | None => n
      end
  end.

(** *** Looking up *)
(** [TAILQ_FOREACH] over the children: the first of that name. *)
Fixpoint find_child (cs : list gp_conf_node) (nm : cstr) : option nat :=
  match cs with
  | [] => None
  | c :: cs =>
      if bool_decide (name c = Some nm) then Some O else S <$> find_child cs nm
  end.
Definition gp_conf_node_lookup_child (n : gp_conf_node) (nm : cstr) : option nat := find_child (children n) nm.
Definition gp_conf_node_lookup_child_value (n : gp_conf_node) (nm : cstr) : option cstr :=
  i ← gp_conf_node_lookup_child n nm; c ← children n !! i; val c.

(** [strlcpy] into [node_name], unless the name does not fit. *)
Definition node_name (junk : nat -> Z) (nm : cstr) : res (option cstr) :=
  let* (m, n) := strlcpy (malloc junk NODE_NAME_MAX) nm NODE_NAME_MAX in
  Ok (if NODE_NAME_MAX <=? n then None else Some (c_string m)).

(** The [do ... while (next != NULL)] loop: one child per dotted component.
    [fuel]: the name gets shorter with each. *)
Fixpoint lookup_keys (fuel : nat) (n : gp_conf_node) (key : cstr) : option path :=
  match fuel with
  | O => None
  | S fuel =>
      let (key, next) := split_at 46 key in
      match gp_conf_node_lookup_child n key with
      | None => None
      | Some i =>
          match next, children n !! i with
          | None, _ => Some [i]
          | Some next, Some c => cons i <$> lookup_keys fuel c next
          | Some _, None => None
          end
      end
  end.
Definition gp_conf_get_node (junk : nat -> Z) (c : conf) (nm : cstr) : res (option path) :=
  let* key := node_name junk nm in
  Ok (match key, root c with
      | Some key, Some r => lookup_keys (S (length key)) r key
      | _, _ => None
      end).

(** [snprintf(tmp_name, NODE_NAME_MAX, ...)] cuts the name. *)
Definition gp_conf_get_node_in_array (junk : nat -> Z) (c : conf) (head_name : cstr) (i : Z) (nm : cstr)
    : res (option path) :=
  let tmp_name := take (Z.to_nat (NODE_NAME_MAX - 1)) (head_name ++ [46] ++ dec (s32 i) ++ [46] ++ nm) in
  gp_conf_get_node junk c tmp_name.

(** *** Creating and setting *)
Fixpoint create_keys (fuel : nat) (fin : Z) (n : gp_conf_node) (key : cstr) : gp_conf_node * path :=
  match fuel with
  | O => (n, [])
  | S fuel =>
      let (key, next) := split_at 46 key in
      let (n, i) :=
        match gp_conf_node_lookup_child n key with
        | Some i => (n, i)
        | None => (set_children (children n ++ [mk_conf_node (Some key) None 0 fin true []]) n,
                   length (children n))
        end in
      match next, children n !! i with
      | Some next, Some c =>
          let (c, p) := create_keys fuel fin c next in
          (set_children (<[i := c]> (children n)) n, i :: p)
      | _, _ => (n, [i])
      end
  end.
(** Without a root the first insertion dereferences NULL. *)
Definition gp_conf_get_node_or_create (junk : nat -> Z) (c : conf) (nm : cstr) (fin : Z)
    : res (conf * option path) :=
  let* key := node_name junk nm in
  match key with
  | None => Ok (c, None)
  | Some key =>
      let* r := of_option (root c) in
      let (r, p) := create_keys (S (length key)) fin r key in
      Ok (set_root c (Some r), Some p)
  end.

Definition get_at (c : conf) (p : path) : res gp_conf_node :=
  let* r := of_option (root c) in of_option (node_at r p).
Definition update_conf (c : conf) (p : path) (f : gp_conf_node -> gp_conf_node) : conf :=
  set_root c ((fun r => update_at f r p) <$> root c).

Definition gp_conf_set (junk : nat -> Z) (c : conf) (nm v : cstr) : res (conf * Z) :=
  let* (c, node) := gp_conf_get_node_or_create junk c nm 0 in
  match node with
  | None => Ok (c, 0)
  | Some p =>
      let* n := get_at c p in
      if negb (final n =? 0) then Ok (c, 0) else Ok (update_conf c p (set_val (Some v)), 1)
  end.

Definition gp_conf_set_final (junk : nat -> Z) (c : conf) (nm v : cstr) : res (conf * Z) :=
  let* (c, node) := gp_conf_get_node_or_create junk c nm 1 in
  match node with
  | None => Ok (c, 0)
  | Some p => Ok (update_conf c p (fun n => set_final 1 (set_val (Some v) n)), 1)
  end.

(** [while (isspace(name[strlen(name) - 1]))]: an empty name reads before the
    string. *)
Fixpoint trim_right (fuel : nat) (s : cstr) : res cstr :=
  match fuel with
  | O => Ub
  | S fuel =>
      match last s with
      | None => Ub
      | Some c => if isspace c then trim_right fuel (removelast s) else Ok s
      end
  end.
Definition gp_conf_set_from_string (junk : nat -> Z) (c : conf) (input : cstr) (fin : Z) : res (conf * Z) :=
  let (nm, v) := split_at 61 input in
  match v with
  | None => Ok (c, 0)
  | Some v =>
      let* nm := trim_right (S (length nm)) nm in
      let v := skip_space v in
      let* (c, r) := if negb (fin =? 0) then gp_conf_set_final junk c nm v else gp_conf_set junk c nm v in
      Ok (c, if r =? 0 then 0 else 1)
  end.

(** *** Getting *)
(** 0, or 1 and [*vptr], which may be NULL. *)
Definition gp_conf_get (junk : nat -> Z) (c : conf) (nm : cstr) : res (option (option cstr)) :=
  let* node := gp_conf_get_node junk c nm in
  match node with
  | None => Ok None
  | Some p => let* n := get_at c p in Ok (Some (val n))
  end.

Inductive got := Got (v : cstr) | GotNone | GotNull | GotBadName.
Definition gp_conf_get_value (junk : nat -> Z) (c : conf) (nm : option cstr) : res got :=
  match nm with
  | None => Ok GotBadName
  | Some nm =>
      let* node := gp_conf_get_node junk c nm in
      match node with
      | None => Ok GotNone
      | Some p => let* n := get_at c p in Ok (match val n with None => GotNull | Some v => Got v end)
      end
  end.

Definition gp_conf_get_child_value (base : gp_conf_node) (nm : cstr) : option (option cstr) :=
  i ← gp_conf_node_lookup_child base nm; n ← children base !! i; Some (val n).
(** Which of the two nodes, and the child's position. *)
Definition gp_conf_get_child_with_default (base : gp_conf_node) (dflt : option gp_conf_node) (nm : cstr)
    : option (bool * nat) :=
  match gp_conf_node_lookup_child base nm with
  | Some i => Some (false, i)
  | None => d ← dflt; i ← gp_conf_node_lookup_child d nm; Some (true, i)
  end.
Definition gp_conf_get_child_value_with_default (base : gp_conf_node) (dflt : option gp_conf_node) (nm : cstr)
    : option (option cstr) :=
  match gp_conf_get_child_value base nm, dflt with
  | None, Some d => gp_conf_get_child_value d nm
  | r, _ => r
  end.

(** The checks after [strtoimax]. *)
Definition parse_int (s : cstr) : option Z :=
  let '(v, rest, erange) := strtoimax s in
  if (char_at s =? 0) || negb (char_at rest =? 0) then None
  else if (erange : bool) && ((v =? INTMAX_MAX) || (v =? INTMAX_MIN)) then None
  else Some v.
(** [*val] is an [int]. *)
Definition gp_conf_get_int (junk : nat -> Z) (c : conf) (nm : cstr) : res (option Z) :=
  let* r := gp_conf_get junk c nm in
  match r with
  | Some (Some s) => Ok (s32 <$> parse_int s)
  | _ => Ok None
  end.
(** A child without a value is dereferenced. *)
Definition gp_conf_get_child_value_int (base : gp_conf_node) (nm : cstr) : res (option Z) :=
  match gp_conf_get_child_value base nm with
  | None => Ok None
  | Some v => let* s := of_option v in Ok (parse_int s)
  end.
Definition gp_conf_get_child_value_int_with_default (base : gp_conf_node) (dflt : option gp_conf_node) (nm : cstr)
    : res (option Z) :=
  let* r := gp_conf_get_child_value_int base nm in
  match r, dflt with
  | None, Some d => gp_conf_get_child_value_int d nm
  | _, _ => Ok r
  end.

Definition gp_conf_val_is_true (v : cstr) : Z :=
  if existsb (strcasecmp_eq v) [lit "1"; lit "yes"; lit "true"; lit "on"] then 1 else 0.
Definition gp_conf_val_is_false (v : cstr) : Z :=
  if existsb (strcasecmp_eq v) [lit "0"; lit "no"; lit "false"; lit "off"] then 1 else 0.

(** The result and [*val]. *)
Definition gp_conf_get_bool (junk : nat -> Z) (c : conf) (nm : option cstr) : res (Z * Z) :=
  let* r := gp_conf_get_value junk c nm in
  match r with Got s => Ok (1, gp_conf_val_is_true s) | _ => Ok (0, 0) end.
Definition gp_conf_get_child_value_bool (base : gp_conf_node) (nm : cstr) : res (Z * Z) :=
  match gp_conf_get_child_value base nm with
  | None => Ok (0, 0)
  | Some v => let* s := of_option v in Ok (1, gp_conf_val_is_true s)
  end.
Definition gp_conf_get_child_value_bool_with_default (base : gp_conf_node) (dflt : option gp_conf_node) (nm : cstr)
    : res (Z * Z) :=
  let* (ret, v) := gp_conf_get_child_value_bool base nm in
  match dflt with
  | Some d => if ret =? 0 then gp_conf_get_child_value_bool d nm else Ok (ret, v)
  | None => Ok (ret, v)
  end.
Definition gp_conf_node_child_value_is_true (n : gp_conf_node) (key : cstr) : Z :=
  match gp_conf_node_lookup_child_value n key with Some v => gp_conf_val_is_true v | None => 0 end.

(** [strncmp(child->val, key, strlen(child->val))] and the two [strcmp]s
    dereference values and names. *)
Fixpoint key_value_in (subs : list gp_conf_node) (key value : cstr) : res bool :=
  match subs with
  | [] => Ok false
  | s :: subs =>
      let* nm := of_option (name s) in
      if bool_decide (nm = key) then
        let* v := of_option (val s) in
        if bool_decide (v = value) then Ok true else key_value_in subs key value
      else key_value_in subs key value
  end.
Fixpoint lookup_key_value (cs : list gp_conf_node) (i : nat) (key value : cstr) : res (option nat) :=
  match cs with
  | [] => Ok None
  | c :: cs =>
      let* v := of_option (val c) in
      let* hit := if bool_decide (take (length v) key = v) then key_value_in (children c) key value else Ok false in
      if hit : bool then Ok (Some i) else lookup_key_value cs (S i) key value
  end.
Definition gp_conf_node_lookup_key_value (base : gp_conf_node) (key value : cstr) : res (option nat) :=
  lookup_key_value (children base) 0 key value.

Definition gp_conf_get_siblings_num (n : gp_conf_node) : Z := s32 (zlen (children n)).
Definition gp_conf_node_has_children (n : gp_conf_node) : Z := match children n with [] => 0 | _ => 1 end.
Definition gp_conf_node_is_sequence (n : gp_conf_node) : Z := if is_seq n =? 0 then 0 else 1.

(** *** Removing *)
(** The node leaves its parent's queue only when its [parent] pointer is set;
    otherwise the freed node stays linked. *)
Fixpoint remove_at (n : gp_conf_node) (p : path) : res gp_conf_node :=
  match p with
  | [] => Ub
  | [i] =>
      let* c := of_option (children n !! i) in
      if parent c then Ok (set_children (delete i (children n)) n) else Ub
  | i :: p =>
      let* c := of_option (children n !! i) in
      let* c := remove_at c p in
      Ok (set_children (<[i := c]> (children n)) n)
  end.
Definition gp_conf_node_remove (c : conf) (p : path) : res conf :=
  let* r := of_option (root c) in
  let* r := remove_at r p in Ok (set_root c (Some r)).
Definition gp_conf_remove (junk : nat -> Z) (c : conf) (nm : cstr) : res (conf * Z) :=
  let* node := gp_conf_get_node junk c nm in
  match node with
  | None => Ok (c, 0)
  | Some p => let* c := gp_conf_node_remove c p in Ok (c, 1)
  end.

(** Final children stay as they are; the others are pruned, and dropped when
    nothing is left below them. *)
Fixpoint gp_conf_node_prune (n : gp_conf_node) : gp_conf_node :=
  let kept := (fix go (cs : list gp_conf_node) : list gp_conf_node :=
    match cs with
    | [] => []
    | c :: cs =>
        if negb (final c =? 0) then c :: go cs
        else
          let c := gp_conf_node_prune c in
          match children c with [] => go cs | _ :: _ => c :: go cs end
    end) (children n) in
  mk_conf_node (name n) None (is_seq n) (final n) (parent n) kept.

Definition gp_conf_create_context_backup (c : conf) : conf := mk_conf None (root c).
Definition gp_conf_restore_context_backup (c : conf) : conf := mk_conf (root_backup c) None.
Definition gp_conf_deinit (c : conf) : conf := set_root c None.

(** *** Paths of included files *)
(** The default path is dereferenced even when it has no value. *)
Definition gp_conf_load_complete_include_path (junk : nat -> Z) (c : conf) (file : cstr) : res cstr :=
  if negb ((1 <? zlen file) && (char_at file =? 47)) then
    let* r := gp_conf_get junk c (lit "include-path") in
    match r with
    | Some d =>
        let* d := of_option d in
        let path_len := zlen d + zlen file + 2 in
        let* (m, _) := strlcpy (malloc junk path_len) d path_len in
        let* l := of_option (last (c_string m)) in
        let* (m, _) := if negb (l =? 47) then strlcat m (lit "/") path_len else Ok (m, 0) in
        let* (m, _) := strlcat m file path_len in
        Ok (c_string m)
    | None => Ok file
    end
  else Ok file.

(** *** Dumping *)
Definition name_buffer : Z := 128 * 128.
(** [strlcat] of the components with dots in between. *)
Fixpoint print_name_array (m : list Z) (names : list cstr) : res (list Z) :=
  match names with
  | [] => Ok m
  | nm :: names =>
      let* (m, _) := strlcat m nm name_buffer in
      let* (m, _) := match names with [] => Ok (m, 0) | _ => strlcat m [46] name_buffer end in
      print_name_array m names
  end.
Definition gp_conf_print_name_array (junk : nat -> Z) (names : list cstr) : res cstr :=
  let* m := write_char (malloc junk name_buffer) 0 0 in
  let* m := print_name_array m names in Ok (c_string m).

(** The lines printed: the dotted name and the value.  [names]: the ancestors
    below the root; the array has room for 128. *)
Fixpoint gp_conf_node_dump (junk : nat -> Z) (names : list cstr) (n : gp_conf_node)
    : res (list (cstr * option cstr)) :=
  (fix go (cs : list gp_conf_node) : res (list (cstr * option cstr)) :=
    match cs with
    | [] => Ok []
    | c :: cs =>
        let* nm := of_option (name c) in
        if 128 <=? zlen names then Ub
        else
          let* line := gp_conf_print_name_array junk (names ++ [nm]) in
          let* below := gp_conf_node_dump junk (names ++ [nm]) c in
          let* rest := go cs in
          Ok ((line, val c) :: below ++ rest)
    end) (children n).
Definition gp_conf_dump (junk : nat -> Z) (c : conf) : res (list (cstr * option cstr)) :=
  let* r := of_option (root c) in gp_conf_node_dump junk [] r.
