(* ===== verification/ConfInv.v ===== *)
(** * gp_conf.c: the tree as a map from dotted names to values

    [node_of] follows the components of a name; [attrs] is what a name has in
    the tree.  Setting, final values, pruning and the integer syntax are
    characterised through them. *)

From S2P Require Import Prelude CStr Conf.
Local Open Scope Z_scope.

(** The components of a dotted name. *)
Fixpoint components (s : cstr) : list cstr :=
  match s with
  | [] => [[]]
  | c :: s =>
      if c =? 46 then [] :: components s
      else match components s with [] => [[c]] | k :: ks => (c :: k) :: ks end
  end.

Lemma components_split s :
  components s = match split_at 46 s with
                 | (k, None) => [k]
                 | (k, Some next) => k :: components next
                 end.
Proof.
  induction s as [|c s IH]; [done|]. simpl. destruct (c =? 46); [done|]. rewrite IH.
  destruct (split_at 46 s) as [k [next|]]; done.
Qed.
Lemma split_shorter c s k next : split_at c s = (k, Some next) -> (length next < length s)%nat.
Proof.
  revert k next. induction s as [|x s IH]; intros k next; simpl; [done|].
  destruct (x =? c); [intros [= <- <-]; lia|]. destruct (split_at c s) as [k' [n'|]]; [|done].
  intros [= <- <-]. specialize (IH _ _ eq_refl). lia.
Qed.

Section Tree.
Implicit Types (n r : gp_conf_node) (ks : list cstr) (p : path).

Fixpoint find_path n ks : option path :=
  match ks with
  | [] => Some []
  | k :: ks => i ← find_child (children n) k; c ← children n !! i; cons i <$> find_path c ks
  end.
Fixpoint node_of n ks : option gp_conf_node :=
  match ks with
  | [] => Some n
  | k :: ks => i ← find_child (children n) k; c ← children n !! i; node_of c ks
  end.
Fixpoint create_path (fin : Z) n ks : gp_conf_node * path :=
  match ks with
  | [] => (n, [])
  | k :: ks =>
      match find_child (children n) k with
      | Some i =>
          match children n !! i with
          | Some c => let (c, p) := create_path fin c ks in (set_children (<[i := c]> (children n)) n, i :: p)
          | None => (n, [i])
          end
      | None =>
          let (c, p) := create_path fin (mk_conf_node (Some k) None 0 fin true []) ks in
          (set_children (children n ++ [c]) n, length (children n) :: p)
      end
  end.

Lemma find_child_some cs k i : find_child cs k = Some i ->
  exists c, cs !! i = Some c /\ name c = Some k /\ (forall j c', (j < i)%nat -> cs !! j = Some c' -> name c' <> Some k).
Proof.
  revert i. induction cs as [|c cs IH]; intros i; simpl; [done|]. case_bool_decide as Hn.
  - intros [= <-]. exists c. split_and!; [done..|]. intros; lia.
  - destruct (find_child cs k) as [j|]; simpl; [|done]. intros [= <-].
    destruct (IH j eq_refl) as (c'&?&?&Hf). exists c'. split_and!; [done..|].
    intros [|j'] c'' Hj; simpl; [by intros [= <-]|]. apply Hf. lia.
Qed.
Lemma find_child_none cs k : find_child cs k = None -> forall c, c ∈ cs -> name c <> Some k.
Proof.
  induction cs as [|c cs IH]; simpl; [by intros _ c ?%elem_of_nil|]. case_bool_decide; [done|].
  destruct (find_child cs k); [done|]. intros _ c' [->|Hc]%elem_of_cons; [done|by apply IH].
Qed.
Lemma find_child_app cs k c : find_child cs k = None -> name c = Some k ->
  find_child (cs ++ [c]) k = Some (length cs).
Proof.
  intros Hf Hn. induction cs as [|x cs IH]; simpl in *; [by rewrite bool_decide_true|].
  case_bool_decide; [done|]. destruct (find_child cs k); [done|]. by rewrite IH.
Qed.
Lemma find_child_app_ne cs k c : name c <> Some k -> find_child (cs ++ [c]) k = find_child cs k.
Proof.
  intros Hn. induction cs as [|x cs IH]; simpl; [by rewrite bool_decide_false|].
  case_bool_decide; [done|]. by rewrite IH.
Qed.
Lemma find_child_insert cs k i c c' :
  cs !! i = Some c -> name c' = name c -> find_child (<[i := c']> cs) k = find_child cs k.
Proof.
  revert i. induction cs as [|x cs IH]; intros [|i]; simpl; try done; intros Hi Hn.
  - injection Hi as ->. by rewrite Hn.
  - by rewrite (IH i).
Qed.
Lemma find_child_lookup cs k i : find_child cs k = Some i -> is_Some (cs !! i).
Proof. intros (c&?&_)%find_child_some. eauto. Qed.

(** The code's loops are recursion over the components. *)
Lemma lookup_keys_spec fuel n s : (length s < fuel)%nat -> lookup_keys fuel n s = find_path n (components s).
Proof.
  revert n s. induction fuel as [|fuel IH]; intros n s Hf; [lia|]. rewrite components_split. cbn [lookup_keys].
  destruct (split_at 46 s) as [k [next|]] eqn:Hs; cbn [find_path]; unfold gp_conf_node_lookup_child.
  - apply split_shorter in Hs. destruct (find_child (children n) k) as [i|]; simpl; [|done].
    destruct (children n !! i); simpl; [|done]. by rewrite IH by lia.
  - destruct (find_child (children n) k) as [i|] eqn:E; simpl; [|done].
    apply find_child_lookup in E as [c ->]. done.
Qed.

Lemma create_keys_spec fuel fin n s :
  (length s < fuel)%nat -> create_keys fuel fin n s = create_path fin n (components s).
Proof.
  revert n s. induction fuel as [|fuel IH]; intros n s Hf; [lia|]. rewrite components_split. cbn [create_keys].
  destruct (split_at 46 s) as [k next] eqn:Hs. unfold gp_conf_node_lookup_child.
  destruct next as [next|]; cbn [create_path].
  - apply split_shorter in Hs. destruct (find_child (children n) k) as [i|] eqn:E.
    + apply find_child_lookup in E as [c Hc]. rewrite Hc, IH by lia. done.
    + simpl. rewrite list_lookup_middle by done. rewrite IH by lia.
      destruct (create_path fin _ (components next)) as [c p]. f_equal. unfold set_children; simpl. f_equal.
      by rewrite insert_app_r_alt, Nat.sub_diag by lia.
  - destruct (find_child (children n) k) as [i|] eqn:E.
    + pose proof (find_child_lookup _ _ _ E) as [c Hc]. rewrite Hc. simpl.
      rewrite list_insert_id by done. by destruct n.
    + done.
Qed.

Lemma find_path_node n ks p : find_path n ks = Some p -> node_at n p = node_of n ks.
Proof.
  revert n p. induction ks as [|k ks IH]; intros n p; simpl; [by intros [= <-]|].
  destruct (find_child (children n) k) as [i|]; simpl; [|done].
  destruct (children n !! i) as [c|] eqn:Hc; simpl; [|done].
  destruct (find_path c ks) as [p'|] eqn:Hp; simpl; [|done]. intros [= <-]. simpl. rewrite Hc. by apply IH.
Qed.
Lemma find_path_none n ks : find_path n ks = None <-> node_of n ks = None.
Proof.
  revert n. induction ks as [|k ks IH]; intros n; simpl; [done|].
  destruct (find_child (children n) k) as [i|]; simpl; [|done].
  destruct (children n !! i) as [c|]; simpl; [|done]. rewrite <-IH. by destruct (find_path c ks).
Qed.

(** What a name has: value, final flag and sequence flag. *)
Definition attr n : option cstr * Z * Z := (val n, final n, is_seq n).
Definition attrs n ks : option (option cstr * Z * Z) := attr <$> node_of n ks.

Lemma attrs_cons n k ks :
  attrs n (k :: ks) = i ← find_child (children n) k; c ← children n !! i; attrs c ks.
Proof.
  unfold attrs. simpl. destruct (find_child (children n) k) as [i|]; simpl; [|done].
  by destruct (children n !! i).
Qed.

(** Creating a name finds it afterwards and adds only its missing prefixes. *)
Lemma create_path_spec fin n ks :
  let (n', p) := create_path fin n ks in
  name n' = name n /\ attr n' = attr n /\ find_path n' ks = Some p /\
  forall ks', attrs n' ks' = match attrs n ks' with
                             | Some a => Some a
                             | None => if decide (ks' `prefix_of` ks) then Some (None, fin, 0) else None
                             end.
Proof.
  revert n. induction ks as [|k ks IH]; intros n; cbn [create_path].
  { split_and!; try done. intros [|k' ks']; [done|]. destruct (attrs n (k' :: ks')); [done|].
    by rewrite decide_False by (by intros ?%prefix_nil_not). }
  destruct (find_child (children n) k) as [i|] eqn:Hf.
  - destruct (find_child_some _ _ _ Hf) as (c&Hc&Hnc&_). rewrite Hc.
    specialize (IH c). destruct (create_path fin c ks) as [c' p]. destruct IH as (Hn&Ha&Hp&Hat).
    assert (Hf' : forall k', find_child (<[i:=c']> (children n)) k' = find_child (children n) k')
      by (intros; by eapply find_child_insert).
    assert (Hi : <[i:=c']> (children n) !! i = Some c') by (apply list_lookup_insert_eq; by eapply lookup_lt_Some).
    split_and!; [done|done| |].
    + simpl. rewrite Hf', Hf. simpl. rewrite Hi. simpl. by rewrite Hp.
    + intros [|k' ks']; [done|]. rewrite !attrs_cons. simpl. rewrite Hf'.
      destruct (decide (k' = k)) as [->|Hk].
      * rewrite Hf. simpl. rewrite Hi, Hc. simpl. rewrite Hat.
        destruct (attrs c ks'); [done|].
        destruct (decide (ks' `prefix_of` ks)) as [Hpre|Hpre].
        { rewrite decide_True; [done|]. by apply prefix_cons. }
        { rewrite decide_False; [done|]. by intros ?%prefix_cons_inv_2. }
      * rewrite (decide_False (P := k' :: ks' `prefix_of` k :: ks)) by (by intros ?%prefix_cons_inv_1).
        destruct (find_child (children n) k') as [j|] eqn:Hj; simpl; [|done].
        assert (j <> i).
        { intros ->. destruct (find_child_some _ _ _ Hj) as (c2&Hc2&?&_). congruence. }
        rewrite list_lookup_insert_ne by done. by destruct (children n !! j) as [c2|]; simpl; [destruct (attrs c2 ks')|].
  - set (c0 := mk_conf_node (Some k) None 0 fin true []).
    specialize (IH c0). destruct (create_path fin c0 ks) as [c' p]. destruct IH as (Hn&Ha&Hp&Hat).
    simpl in Hn.
    assert (Hl : (children n ++ [c']) !! length (children n) = Some c') by by apply list_lookup_middle.
    split_and!; [done|done| |].
    + simpl. rewrite (find_child_app _ _ _ Hf) by done. simpl. rewrite Hl. simpl. by rewrite Hp.
    + intros [|k' ks']; [done|]. rewrite !attrs_cons. simpl.
      destruct (decide (k' = k)) as [->|Hk].
      * rewrite (find_child_app _ _ _ Hf) by done. rewrite Hf. simpl. rewrite Hl. simpl. rewrite Hat.
        assert (Hnone : attrs c0 ks' = match ks' with [] => Some (None, fin, 0) | _ => None end).
        { destruct ks'; [done|]. by rewrite attrs_cons. }
        rewrite Hnone. destruct ks' as [|k2 ks'].
        { rewrite decide_True; [done|]. apply prefix_cons, prefix_nil. }
        destruct (decide (k2 :: ks' `prefix_of` ks)) as [Hpre|Hpre].
        { rewrite decide_True; [done|]. by apply prefix_cons. }
        { rewrite decide_False; [done|]. by intros ?%prefix_cons_inv_2. }
      * rewrite find_child_app_ne by (rewrite Hn; congruence).
        rewrite (decide_False (P := k' :: ks' `prefix_of` k :: ks)) by (by intros ?%prefix_cons_inv_1).
        destruct (find_child (children n) k') as [j|] eqn:Hj; simpl; [|done].
        destruct (find_child_lookup _ _ _ Hj) as [c2 Hc2]. rewrite lookup_app_l by (by eapply lookup_lt_Some).
        rewrite Hc2. simpl. by destruct (attrs c2 ks').
Qed.

(** Updating the node a name leads to changes that name only. *)
Lemma update_at_spec f n ks p :
  (forall m, name (f m) = name m /\ children (f m) = children m) -> find_path n ks = Some p ->
  name (update_at f n p) = name n /\
  forall ks', attrs (update_at f n p) ks' =
    if decide (ks' = ks) then (fun m => attr (f m)) <$> node_of n ks else attrs n ks'.
Proof.
  intros Hf. revert n p. induction ks as [|k ks IH]; intros n p; simpl.
  { intros [= <-]. split; [apply Hf|]. intros [|k' ks']; [done|].
    rewrite decide_False by done. rewrite !attrs_cons. cbn [update_at]. by rewrite (proj2 (Hf n)). }
  destruct (find_child (children n) k) as [i|] eqn:Hi; simpl; [|done].
  destruct (children n !! i) as [c|] eqn:Hc; simpl; [|done].
  destruct (find_path c ks) as [p'|] eqn:Hp; simpl; [|done]. intros [= <-]. cbn [update_at]. rewrite Hc.
  destruct (IH c p' Hp) as [Hn Hat]. split; [done|]. intros [|k' ks'].
  { by rewrite decide_False. }
  assert (Hfc : forall kk, find_child (<[i:=update_at f c p']> (children n)) kk = find_child (children n) kk)
    by (intros; by eapply find_child_insert).
  destruct (decide (k' = k)) as [->|Hk].
  - assert (attrs (set_children (<[i:=update_at f c p']> (children n)) n) (k :: ks') = attrs (update_at f c p') ks') as ->.
    { rewrite attrs_cons. simpl. rewrite Hfc, Hi. simpl. by rewrite list_lookup_insert_eq by (by eapply lookup_lt_Some). }
    assert (attrs n (k :: ks') = attrs c ks') as -> by (rewrite attrs_cons, Hi; simpl; by rewrite Hc).
    rewrite Hat. destruct (decide (ks' = ks)) as [->|]; [by rewrite decide_True|by rewrite decide_False by congruence].
  - rewrite decide_False by congruence. rewrite !attrs_cons. simpl. rewrite Hfc.
    destruct (find_child (children n) k') as [j|] eqn:Hj; simpl; [|done].
    assert (j <> i).
    { intros ->. destruct (find_child_some _ _ _ Hj) as (c2&Hc2&?&_).
      destruct (find_child_some _ _ _ Hi) as (c3&Hc3&?&_). congruence. }
    by rewrite list_lookup_insert_ne.
Qed.
End Tree.

(** [components] loses nothing. *)
Fixpoint join_dots (ks : list cstr) : cstr :=
  match ks with
  | [] => []
  | [k] => k
  | k :: ks => k ++ 46 :: join_dots ks
  end.
Lemma components_nonempty s : components s <> [].
Proof. destruct s as [|c s]; simpl; [done|]. destruct (c =? 46); [done|]. by destruct (components s). Qed.
Lemma join_components s : join_dots (components s) = s.
Proof.
  induction s as [|c s IH]; [done|]. cbn [components]. destruct (Z.eqb_spec c 46) as [->|Hc].
  - pose proof (components_nonempty s) as Hn. destruct (components s) as [|k ks]; [done|].
    change (join_dots ([] :: k :: ks)) with (46 :: join_dots (k :: ks)). by rewrite IH.
  - destruct (components s) as [|k ks]; [simpl in *; by subst|]. destruct ks as [|k' ks]; [simpl in *; by rewrite IH|].
    change (join_dots ((c :: k) :: k' :: ks)) with (c :: (k ++ 46 :: join_dots (k' :: ks))).
    change (join_dots (k :: k' :: ks)) with (k ++ 46 :: join_dots (k' :: ks)) in IH. by rewrite IH.
Qed.
Lemma components_inj s s' : components s = components s' -> s = s'.
Proof. intros H. by rewrite <-(join_components s), H, join_components. Qed.

(** ** The API in terms of [attrs] *)
(** A name the fixed-size buffer holds. *)
Definition fits (nm : cstr) : Prop := is_cstr nm /\ zlen nm < NODE_NAME_MAX.
#[export] Instance fits_dec nm : Decision (fits nm).
Proof. unfold fits. apply _. Defined.

Lemma node_name_fits junk nm : fits nm -> node_name junk nm = Ok (Some nm).
Proof.
  intros [Hs Hl]. unfold node_name, NODE_NAME_MAX in *. pose proof (zlen_nonneg nm).
  rewrite strlcpy_spec by (done || rewrite zlen_malloc; lia). cbn [res_bind].
  destruct (Z.leb_spec 1024 (zlen nm)); [lia|]. rewrite take_ge by (unfold zlen in *; lia).
  by rewrite c_string_app.
Qed.
Lemma node_name_too_long junk nm : is_cstr nm -> NODE_NAME_MAX <= zlen nm -> node_name junk nm = Ok None.
Proof.
  intros Hs Hl. unfold node_name, NODE_NAME_MAX in *.
  rewrite strlcpy_spec by (done || rewrite zlen_malloc; lia). cbn [res_bind].
  by destruct (Z.leb_spec 1024 (zlen nm)); [|lia].
Qed.

Definition conf_attrs (c : conf) (nm : cstr) : option (option cstr * Z * Z) :=
  r ← root c; attrs r (components nm).

Lemma get_node_spec junk c nm :
  fits nm -> gp_conf_get_node junk c nm = Ok (r ← root c; find_path r (components nm)).
Proof.
  intros Hf. unfold gp_conf_get_node. rewrite node_name_fits by done. cbn [res_bind].
  destruct (root c) as [r|]; [|done]. by rewrite lookup_keys_spec by lia.
Qed.
Lemma get_spec junk c nm : fits nm -> gp_conf_get junk c nm = Ok ((fun a => a.1.1) <$> conf_attrs c nm).
Proof.
  intros Hf. unfold gp_conf_get, conf_attrs, attrs. rewrite get_node_spec by done. cbn [res_bind].
  destruct (root c) as [r|] eqn:Hr; simpl; [|done].
  destruct (find_path r (components nm)) as [p|] eqn:Hp.
  - unfold get_at. rewrite Hr. simpl. rewrite (find_path_node _ _ _ Hp).
    destruct (node_of r (components nm)) eqn:E; [done|]. apply find_path_none in E. congruence.
  - apply find_path_none in Hp. by rewrite Hp.
Qed.

(** The attributes after a name has been created. *)
Definition with_created (c : conf) (nm : cstr) (fin : Z) (nm' : cstr) : option (option cstr * Z * Z) :=
  match conf_attrs c nm' with
  | Some a => Some a
  | None => if decide (components nm' `prefix_of` components nm) then Some (None, fin, 0) else None
  end.

Lemma get_or_create_spec junk c r nm fin :
  root c = Some r -> fits nm ->
  exists r' p, gp_conf_get_node_or_create junk c nm fin = Ok (set_root c (Some r'), Some p) /\
    find_path r' (components nm) = Some p /\
    forall nm', attrs r' (components nm') = with_created c nm fin nm'.
Proof.
  intros Hr Hf. unfold gp_conf_get_node_or_create. rewrite node_name_fits by done. cbn [res_bind].
  rewrite Hr. cbn [of_option res_bind]. rewrite create_keys_spec by lia.
  pose proof (create_path_spec fin r (components nm)) as Hc.
  destruct (create_path fin r (components nm)) as [r' p]. destruct Hc as (_&_&Hp&Hat).
  exists r', p. split; [done|]. split; [done|]. intros nm'. unfold with_created, conf_attrs. rewrite Hr. apply Hat.
Qed.

Lemma attrs_update junk c r' nm p f nm' :
  (forall m, name (f m) = name m /\ children (f m) = children m) ->
  find_path r' (components nm) = Some p -> fits nm' ->
  gp_conf_get junk (update_conf (set_root c (Some r')) p f) nm' =
    Ok (if decide (nm' = nm) then (fun m => val (f m)) <$> node_of r' (components nm)
        else (fun a => a.1.1) <$> attrs r' (components nm')).
Proof.
  intros Hf Hp Hfit. rewrite get_spec by done. unfold conf_attrs, update_conf; simpl.
  destruct (update_at_spec f r' (components nm) p Hf Hp) as [_ Hat]. rewrite Hat.
  destruct (decide (nm' = nm)) as [->|Hne].
  - rewrite decide_True by done. by destruct (node_of r' (components nm)).
  - rewrite decide_False; [done|]. intros ?%components_inj. done.
Qed.

(** Is the name protected? *)
Definition is_final (c : conf) (nm : cstr) : bool :=
  match conf_attrs c nm with Some (_, f, _) => negb (f =? 0) | None => false end.
(** What [gp_conf_get] gives after the name has been created. *)
Definition get_created (c : conf) (nm nm' : cstr) : option (option cstr) :=
  match (fun a => a.1.1) <$> conf_attrs c nm' with
  | Some v => Some v
  | None => if decide (components nm' `prefix_of` components nm) then Some None else None
  end.
Lemma with_created_get c nm fin nm' : (fun a => a.1.1) <$> with_created c nm fin nm' = get_created c nm nm'.
Proof.
  unfold with_created, get_created. destruct (conf_attrs c nm') as [[[]]|]; simpl; [done|].
  by destruct (decide _).
Qed.

Lemma set_spec junk c r nm v :
  root c = Some r -> fits nm ->
  exists c', gp_conf_set junk c nm v = Ok (c', if is_final c nm then 0 else 1) /\ is_Some (root c') /\
    (forall nm', fits nm' -> gp_conf_get junk c' nm' =
       Ok (if is_final c nm then (fun a => a.1.1) <$> conf_attrs c nm'
           else if decide (nm' = nm) then Some (Some v) else get_created c nm nm')) /\
    (forall nm', fits nm' -> is_final c nm' = true -> is_final c' nm' = true).
Proof.
  intros Hr Hf. destruct (get_or_create_spec junk c r nm 0 Hr Hf) as (r'&p&Hg&Hp&Hat).
  unfold gp_conf_set. rewrite Hg. cbn [res_bind]. unfold get_at. simpl root. cbn [of_option res_bind].
  rewrite (find_path_node _ _ _ Hp).
  destruct (node_of r' (components nm)) as [m|] eqn:Hm; [|apply find_path_none in Hm; congruence].
  cbn [of_option res_bind]. pose proof (Hat nm) as Hatm. unfold attrs in Hatm. rewrite Hm in Hatm.
  assert (Hfin : negb (final m =? 0) = is_final c nm).
  { unfold is_final. unfold with_created in Hatm. destruct (conf_attrs c nm) as [[[v0 f0] s0]|].
    - injection Hatm as _ -> _. done.
    - destruct (decide _); simpl in Hatm; [|done]. by injection Hatm as _ -> _. }
  rewrite Hfin. destruct (is_final c nm) eqn:Hisf.
  - eexists. split; [done|]. split; [eauto|]. split.
    + intros nm' Hf'. rewrite get_spec by done. unfold conf_attrs at 1. simpl. rewrite Hat. f_equal.
      unfold with_created. destruct (conf_attrs c nm') as [a|] eqn:Ha; [done|].
      rewrite decide_False; [done|]. intros [ks Hks]. unfold is_final, conf_attrs in Hisf, Ha. rewrite Hr in Hisf, Ha.
      simpl in Hisf, Ha. rewrite Hks in Hisf. clear -Ha Hisf. revert r Ha Hisf.
      induction (components nm') as [|k ks' IH]; intros r; [done|]. simpl app. rewrite !attrs_cons.
      destruct (find_child (children r) k) as [i|]; simpl; [|done].
      destruct (children r !! i); simpl; [|done]. apply IH.
    + intros nm' Hf' Hfn. unfold is_final, conf_attrs at 1. simpl. rewrite Hat. unfold with_created.
      unfold is_final in Hfn. by destruct (conf_attrs c nm').
  - eexists. split; [done|]. split; [simpl; eauto|]. split.
    + intros nm' Hf'. rewrite (attrs_update junk c r' nm p (set_val (Some v))) by (done || intros; done). f_equal.
      destruct (decide (nm' = nm)) as [->|Hne]; [by rewrite Hm|]. rewrite Hat. apply with_created_get.
    + intros nm' Hf' Hfn. unfold is_final, conf_attrs, update_conf; simpl.
      destruct (update_at_spec (set_val (Some v)) r' (components nm) p) as [_ Hup]; [done|done|].
      rewrite Hup. rewrite decide_False.
      * rewrite Hat. unfold with_created. unfold is_final in Hfn. by destruct (conf_attrs c nm').
      * intros ->%components_inj. congruence.
Qed.

Lemma set_final_spec junk c r nm v :
  root c = Some r -> fits nm ->
  exists c', gp_conf_set_final junk c nm v = Ok (c', 1) /\ is_Some (root c') /\ is_final c' nm = true /\
    forall nm', fits nm' -> gp_conf_get junk c' nm' =
      Ok (if decide (nm' = nm) then Some (Some v) else get_created c nm nm').
Proof.
  intros Hr Hf. destruct (get_or_create_spec junk c r nm 1 Hr Hf) as (r'&p&Hg&Hp&Hat).
  unfold gp_conf_set_final. rewrite Hg. cbn [res_bind]. eexists. split; [done|]. split; [simpl; eauto|].
  set (f := fun n => set_final 1 (set_val (Some v) n)).
  destruct (node_of r' (components nm)) as [m|] eqn:Hm; [|apply find_path_none in Hm; congruence].
  split.
  - unfold is_final, conf_attrs, update_conf; simpl.
    destruct (update_at_spec f r' (components nm) p) as [_ Hup]; [done|done|].
    rewrite Hup, decide_True by done. by rewrite Hm.
  - intros nm' Hf'. rewrite (attrs_update junk c r' nm p f) by (done || intros; done). f_equal.
    destruct (decide (nm' = nm)) as [->|Hne]; [by rewrite Hm|]. rewrite Hat. apply with_created_get.
Qed.

(** A sequence of [gp_conf_set] calls. *)
Fixpoint set_all (junk : nat -> Z) (c : conf) (l : list (cstr * cstr)) : res conf :=
  match l with
  | [] => Ok c
  | (nm, v) :: l => let* (c, _) := gp_conf_set junk c nm v in set_all junk c l
  end.

Lemma set_all_final junk l c nm :
  Forall (fun x => fits x.1) l -> fits nm -> is_Some (root c) -> is_final c nm = true ->
  exists c', set_all junk c l = Ok c' /\ gp_conf_get junk c' nm = gp_conf_get junk c nm.
Proof.
  intros Hl Hf. revert c. induction Hl as [|[n v] l Hn _ IH]; intros c [r Hr] Hfin; cbn [set_all]; [eauto|].
  destruct (set_spec junk c r n v Hr Hn) as (c1&->&Hr1&Hg1&Hf1). cbn [res_bind].
  destruct (IH c1 Hr1 (Hf1 nm Hf Hfin)) as (c'&->&Hc'). exists c'. split; [done|].
  rewrite Hc', Hg1, get_spec by done. destruct (is_final c n) eqn:Hfn; [done|].
  rewrite decide_False by (intros ->; congruence). unfold get_created. unfold is_final in Hfin.
  by destruct (conf_attrs c nm).
Qed.

(** ** Pruning *)
Definition kept (c : gp_conf_node) : option gp_conf_node :=
  if negb (final c =? 0) then Some c
  else match children (gp_conf_node_prune c) with [] => None | _ :: _ => Some (gp_conf_node_prune c) end.
Lemma omap_kept_cons x cs :
  omap kept (x :: cs) = match kept x with Some y => y :: omap kept cs | None => omap kept cs end.
Proof. done. Qed.
Lemma prune_children n : children (gp_conf_node_prune n) = omap kept (children n).
Proof.
  destruct n as [nm v s f pr cs]. cbn [gp_conf_node_prune children].
  induction cs as [|c cs IH]; [done|]. rewrite omap_kept_cons. unfold kept at 1.
  destruct (negb (final c =? 0)); [by rewrite IH|].
  destruct (children (gp_conf_node_prune c)); by rewrite IH.
Qed.
Lemma prune_name n : name (gp_conf_node_prune n) = name n.
Proof. by destruct n. Qed.
Lemma kept_name c c' : kept c = Some c' -> name c' = name c.
Proof.
  unfold kept. destruct (negb (final c =? 0)); [by intros [= <-]|].
  destruct (children (gp_conf_node_prune c)); [done|]. intros [= <-]. apply prune_name.
Qed.
Lemma find_child_omap cs k i c c' :
  find_child cs k = Some i -> cs !! i = Some c -> kept c = Some c' ->
  exists j, find_child (omap kept cs) k = Some j /\ omap kept cs !! j = Some c'.
Proof.
  revert i. induction cs as [|x cs IH]; intros i; cbn [find_child]; [done|]. rewrite omap_kept_cons.
  case_bool_decide as Hx.
  - intros [= <-] [= ->] Hk. rewrite Hk. exists 0%nat. simpl.
    rewrite bool_decide_true by (by rewrite (kept_name _ _ Hk)). done.
  - destruct (find_child cs k) as [i'|] eqn:E; simpl; [|done]. intros [= <-] Hi Hk.
    destruct (IH i' eq_refl Hi Hk) as (j&Hj&Hl). destruct (kept x) as [x'|] eqn:Hkx; [|eauto].
    exists (S j). simpl. rewrite bool_decide_false by (by rewrite (kept_name _ _ Hkx)).
    by rewrite Hj.
Qed.

(** A subtree marked final survives whole, with the way to it. *)
Lemma prune_keeps n k ks m :
  node_of n (k :: ks) = Some m -> final m <> 0 -> node_of (gp_conf_node_prune n) (k :: ks) = Some m.
Proof.
  revert n k. induction ks as [|k2 ks IH]; intros n k; cbn [node_of]; rewrite prune_children.
  - destruct (find_child (children n) k) as [i|] eqn:Hi; simpl; [|done].
    destruct (children n !! i) as [c|] eqn:Hc; simpl; [|done]. intros [= ->] Hfm.
    destruct (find_child_omap _ _ _ _ m Hi Hc) as (j&Hj&Hl).
    { unfold kept. by destruct (Z.eqb_spec (final m) 0). }
    rewrite Hj. simpl. by rewrite Hl.
  - destruct (find_child (children n) k) as [i|] eqn:Hi; simpl; [|done].
    destruct (children n !! i) as [c|] eqn:Hc; simpl; [|done]. intros Hn Hfm.
    specialize (IH c k2 Hn Hfm). destruct (decide (final c = 0)) as [Hz|Hz].
    + destruct (find_child_omap _ _ _ _ (gp_conf_node_prune c) Hi Hc) as (j&Hj&Hl).
      { unfold kept. rewrite Hz. simpl. destruct (children (gp_conf_node_prune c)) eqn:E; [|done].
        cbn [node_of] in IH. rewrite E in IH. done. }
      rewrite Hj. simpl. rewrite Hl. simpl. done.
    + destruct (find_child_omap _ _ _ _ c Hi Hc) as (j&Hj&Hl).
      { unfold kept. by destruct (Z.eqb_spec (final c) 0). }
      rewrite Hj. simpl. rewrite Hl. simpl. done.
Qed.

(** What remains below no final node has lost its value and exists only as
    the way to a final node. *)
Lemma prune_clears n : val (gp_conf_node_prune n) = None /\
  forall c, c ∈ children (gp_conf_node_prune n) ->
    final c <> 0 \/ val c = None /\ children c <> [] /\ exists c0, c0 ∈ children n /\ c = gp_conf_node_prune c0.
Proof.
  split; [by destruct n|]. intros c. rewrite prune_children. intros (c0&Hc0&Hk)%list_elem_of_omap.
  unfold kept in Hk. destruct (Z.eqb_spec (final c0) 0); simpl in Hk; [|left; congruence].
  destruct (children (gp_conf_node_prune c0)) eqn:E; [done|]. injection Hk as <-. right.
  split_and!; [by destruct c0|by rewrite E|eauto].
Qed.

(** ** Integers *)
Lemma digit_10 d : 0 <= d < 10 -> digit 10 (48 + d) = Some d.
Proof.
  intros Hd. unfold digit. destruct (Z.leb_spec 48 (48 + d)); [|lia]. destruct (Z.leb_spec (48 + d) 57); [|lia].
  cbn [andb]. replace (48 + d - 48) with d by lia. destruct (Z.ltb_spec d 10); [done|lia].
Qed.
Lemma digits_app acc a d : 0 <= d < 10 ->
  (forall acc, digits 10 acc a = (fst (digits 10 acc a), [])) ->
  digits 10 acc (a ++ [48 + d]) = (fst (digits 10 acc a) * 10 + d, []).
Proof.
  intros Hd. revert acc. induction a as [|c a IH]; intros acc Ha; cbn [app digits].
  - by rewrite digit_10.
  - specialize (Ha acc) as Hc. cbn [digits] in Hc. destruct (digit 10 c) as [v|] eqn:E; [|done].
    apply IH. intros acc'.
    clear -Hc. revert Hc. generalize (acc * 10 + v). intros b Hb.
    revert b acc' Hb. induction a as [|x a IH]; intros b acc' Hb; [done|]. cbn [digits] in *.
    destruct (digit 10 x); [by eapply IH|done].
Qed.
Lemma dec_digits_spec fuel z :
  0 <= z < 10 ^ Z.of_nat fuel -> (0 < fuel)%nat ->
  (forall acc, exists w, digits 10 acc (dec_digits fuel z) = (w, [])) /\
  digits 10 0 (dec_digits fuel z) = (z, []) /\
  exists d rest, dec_digits fuel z = (48 + d) :: rest /\ 0 <= d < 10 /\ (d = 0 -> z = 0).
Proof.
  revert z. induction fuel as [|fuel IH]; intros z Hz Hf; [lia|]. cbn [dec_digits].
  destruct (Z.ltb_spec z 10).
  - split; [|split].
    + intros acc. cbn [digits]. rewrite digit_10 by lia. eauto.
    + cbn [digits]. rewrite digit_10 by lia. done.
    + exists z, []. split_and!; (done || lia).
  - rewrite Nat2Z.inj_succ, Z.pow_succ_r in Hz by lia.
    assert (0 < fuel)%nat by (destruct fuel; [simpl in Hz; lia|lia]).
    destruct (IH (z / 10)) as (Hd&Hv0&d&rest&Hhd&Hdr&Hdz); [split; [apply Z.div_pos; lia|apply Z.div_lt_upper_bound; lia]|done|].
    assert (Hm : 0 <= z mod 10 < 10) by (apply Z.mod_pos_bound; lia).
    assert (Hall : forall acc, digits 10 acc (dec_digits fuel (z / 10)) = (fst (digits 10 acc (dec_digits fuel (z / 10))), [])).
    { intros acc. destruct (Hd acc) as [w ->]. done. }
    split; [|split].
    + intros acc. rewrite digits_app by done. eauto.
    + rewrite digits_app by done. rewrite Hv0. simpl. f_equal. pose proof (Z.div_mod z 10). lia.
    + rewrite Hhd. exists d, (rest ++ [48 + z mod 10]). split_and!; try done; try lia.
      intros Hd0. specialize (Hdz Hd0). pose proof (Z.div_mod z 10). lia.
Qed.

(** The first characters of a decimal number. *)
Lemma base_of_decimal d rest : 0 <= d < 10 -> (d = 0 -> rest = []) ->
  base_of ((48 + d) :: rest) = ((if d =? 0 then 8 else 10), (48 + d) :: rest).
Proof.
  intros Hd Hnil. unfold base_of. simpl char_at.
  destruct (Z.eqb_spec d 0) as [Hz|Hz]; destruct (Z.eqb_spec (48 + d) 48); try lia; [|done]. by rewrite Hnil.
Qed.
Lemma skip_space_decimal d rest : 0 <= d < 10 -> skip_space ((48 + d) :: rest) = (48 + d) :: rest.
Proof.
  intros Hd. cbn [skip_space]. unfold isspace.
  destruct (Z.leb_spec 9 (48 + d)), (Z.leb_spec (48 + d) 13), (Z.eqb_spec (48 + d) 32); (done || lia).
Qed.
Lemma strip_sign_decimal d rest : 0 <= d < 10 -> strip_sign ((48 + d) :: rest) = (false, (48 + d) :: rest).
Proof.
  intros Hd. cbn [strip_sign]. destruct (Z.eqb_spec (48 + d) 45); [lia|]. by destruct (Z.eqb_spec (48 + d) 43); [lia|].
Qed.
Lemma dec_digits_zero : dec_digits 20 0 = [48].
Proof. done. Qed.

Lemma strtoimax_dec z :
  INTMAX_MIN <= z <= INTMAX_MAX -> strtoimax (dec z) = (z, [], false).
Proof.
  unfold INTMAX_MIN, INTMAX_MAX. intros Hz. unfold dec.
  assert (Hgen : forall y, 0 <= y < 10 ^ 20 -> exists d rest, dec_digits 20 y = (48 + d) :: rest /\ 0 <= d < 10 /\
            base_of (dec_digits 20 y) = ((if d =? 0 then 8 else 10), dec_digits 20 y) /\
            digits (if d =? 0 then 8 else 10) 0 (dec_digits 20 y) = (y, []) /\
            digit (if d =? 0 then 8 else 10) (48 + d) = Some d).
  { intros y Hy. destruct (dec_digits_spec 20 y Hy ltac:(lia)) as (_&Hv0&d&rest&Hhd&Hd&Hdz).
    exists d, rest. split; [done|]. split; [done|]. split; [|split].
    - rewrite Hhd. apply base_of_decimal; [done|]. intros Hd0. specialize (Hdz Hd0). subst y.
      rewrite dec_digits_zero in Hhd. by injection Hhd as _ <-.
    - destruct (Z.eqb_spec d 0) as [Hd0|]; [|done]. specialize (Hdz Hd0). by subst y.
    - destruct (Z.eqb_spec d 0) as [->|]; [done|by apply digit_10]. }
  assert (Hfin : forall v : Z, v = z -> (if v <? INTMAX_MIN then (INTMAX_MIN, ([] : cstr), true)
            else if INTMAX_MAX <? v then (INTMAX_MAX, [], true) else (v, [], false)) = (z, [], false)).
  { intros v ->. unfold INTMAX_MIN, INTMAX_MAX. destruct (Z.ltb_spec z (-9223372036854775808)); [lia|].
    destruct (Z.ltb_spec 9223372036854775807 z); [lia|done]. }
  unfold strtoimax. destruct (Z.ltb_spec z 0).
  - destruct (Hgen (- z)) as (d&rest&Hhd&Hd&Hb&Hdg&Hd1); [lia|]. cbn [skip_space].
    change (isspace 45) with false. cbn [strip_sign]. change (45 =? 45) with true. cbv iota.
    rewrite Hb, Hhd. rewrite Hd1. rewrite <-Hhd, Hdg. apply Hfin. lia.
  - destruct (Hgen z) as (d&rest&Hhd&Hd&Hb&Hdg&Hd1); [lia|].
    rewrite Hhd, skip_space_decimal, strip_sign_decimal by done. rewrite <-Hhd, Hb, Hhd, Hd1, <-Hhd, Hdg. by apply Hfin.
Qed.

(** ** "name = value" *)
Lemma split_at_eq c a b : c ∉ a -> split_at c (a ++ c :: b) = (a, Some b).
Proof.
  induction a as [|x a IH]; intros Hn; simpl; [by rewrite Z.eqb_refl|].
  apply not_elem_of_cons in Hn as [Hx Hn]. destruct (Z.eqb_spec x c); [congruence|]. by rewrite IH.
Qed.
Lemma isspace_spec c : isspace c = true -> 9 <= c <= 13 \/ c = 32.
Proof.
  unfold isspace. rewrite orb_true_iff, andb_true_iff, !Z.leb_le, Z.eqb_eq. tauto.
Qed.
Lemma trim_right_spec fuel a sp x :
  Forall (fun c => isspace c = true) sp -> isspace x = false -> (length sp < fuel)%nat ->
  trim_right fuel (a ++ [x] ++ sp) = Ok (a ++ [x]).
Proof.
  intros Hsp Hx. revert fuel. induction sp as [|y sp IH] using rev_ind; intros fuel Hf; (destruct fuel as [|fuel]; [lia|]).
  - rewrite app_nil_r. cbn [trim_right]. rewrite last_snoc. by rewrite Hx.
  - cbn [trim_right]. rewrite !app_assoc, last_snoc. apply Forall_app in Hsp as [Hsp Hy].
    apply Forall_cons in Hy as [-> _]. rewrite removelast_last, <-!app_assoc. apply IH; [done|].
    rewrite length_app in Hf. simpl in Hf. lia.
Qed.
Lemma skip_space_spec sp v : Forall (fun c => isspace c = true) sp ->
  (forall c, head v = Some c -> isspace c = false) -> skip_space (sp ++ v) = v.
Proof.
  intros Hsp Hv. induction Hsp as [|c sp Hc _ IH]; simpl; [|by rewrite Hc].
  destruct v as [|c v]; simpl; [done|]. by rewrite Hv.
Qed.

(** ** Properties *)
(** C19.  [gp_conf_set] then [gp_conf_get]: unless the name is final, the call
    succeeds and the name has the new value, while every other name keeps
    what it had, except that missing ancestors of the name now exist without
    a value; on a final name the call fails and changes nothing. *)
Theorem conf_set_then_get (junk : nat -> Z) (c : conf) (r : gp_conf_node) (nm v : cstr) :
  root c = Some r -> fits nm ->
  exists c', gp_conf_set junk c nm v = Ok (c', if is_final c nm then 0 else 1) /\
    forall nm', fits nm' -> gp_conf_get junk c' nm' =
      Ok (if is_final c nm then (fun a => a.1.1) <$> conf_attrs c nm'
          else if decide (nm' = nm) then Some (Some v) else get_created c nm nm').
Proof. intros Hr Hf. destruct (set_spec junk c r nm v Hr Hf) as (c'&?&_&?&_). eauto. Qed.

(** C15.  A value set by [gp_conf_set_final] wins: it is read back, and no
    later sequence of [gp_conf_set] calls changes it. *)
Theorem conf_final_protected (junk : nat -> Z) (c : conf) (r : gp_conf_node) (nm v : cstr) (l : list (cstr * cstr)) :
  root c = Some r -> fits nm -> Forall (fun x => fits x.1) l ->
  exists c1 c2, gp_conf_set_final junk c nm v = Ok (c1, 1) /\ set_all junk c1 l = Ok c2 /\
    gp_conf_get junk c2 nm = Ok (Some (Some v)).
Proof.
  intros Hr Hf Hl. destruct (set_final_spec junk c r nm v Hr Hf) as (c1&Hs&Hr1&Hfin&Hg).
  destruct (set_all_final junk l c1 nm Hl Hf Hr1 Hfin) as (c2&Ha&Hg2).
  exists c1, c2. split; [done|]. split; [done|]. rewrite Hg2, Hg by done. by rewrite decide_True.
Qed.

(** Pruning a node keeps every subtree marked final unchanged and
    reachable by its name, clears the values outside them, and keeps nothing
    else that does not lead to one. *)
Theorem conf_prune_keeps_final (n : gp_conf_node) :
  (forall k ks m, node_of n (k :: ks) = Some m -> final m <> 0 ->
     node_of (gp_conf_node_prune n) (k :: ks) = Some m) /\
  val (gp_conf_node_prune n) = None /\
  (forall c, c ∈ children (gp_conf_node_prune n) ->
     final c <> 0 \/ val c = None /\ children c <> [] /\ exists c0, c0 ∈ children n /\ c = gp_conf_node_prune c0).
Proof.
  destruct (prune_clears n) as [Hv Hc]. split; [|done]. intros k ks m. apply prune_keeps.
Qed.

(** An [int] stored in decimal is read back by [gp_conf_get_int]. *)
Theorem conf_int_roundtrip (junk : nat -> Z) (c : conf) (r : gp_conf_node) (nm : cstr) (z : Z) :
  root c = Some r -> fits nm -> is_final c nm = false -> -2147483648 <= z < 2147483648 ->
  exists c', gp_conf_set junk c nm (dec z) = Ok (c', 1) /\ gp_conf_get_int junk c' nm = Ok (Some z).
Proof.
  intros Hr Hf Hfin Hz. destruct (set_spec junk c r nm (dec z) Hr Hf) as (c'&Hs&_&Hg&_).
  rewrite Hfin in *. exists c'. split; [done|]. unfold gp_conf_get_int. rewrite Hg by done.
  rewrite decide_True by done. cbn [res_bind]. unfold parse_int.
  rewrite strtoimax_dec by (unfold INTMAX_MIN, INTMAX_MAX; lia).
  assert (Hne : char_at (dec z) =? 0 = false).
  { unfold dec. destruct (Z.ltb_spec z 0); [done|].
    destruct (dec_digits_spec 20 z) as (_&_&d&rest&->&Hd&_); [lia|lia|]. simpl. apply Z.eqb_neq. lia. }
  rewrite Hne. cbn [char_at hd orb negb Z.eqb andb]. simpl. by rewrite s32_small.
Qed.

(** [gp_conf_get_int] accepts numbers an [int] cannot hold and returns
    them cut to 32 bits. *)
Theorem conf_get_int_truncates (junk : nat -> Z) (c : conf) (r : gp_conf_node) (nm : cstr) (z : Z) :
  root c = Some r -> fits nm -> is_final c nm = false -> INTMAX_MIN <= z <= INTMAX_MAX ->
  exists c', gp_conf_set junk c nm (dec z) = Ok (c', 1) /\ gp_conf_get_int junk c' nm = Ok (Some (s32 z)).
Proof.
  intros Hr Hf Hfin Hz. destruct (set_spec junk c r nm (dec z) Hr Hf) as (c'&Hs&_&Hg&_).
  rewrite Hfin in *. exists c'. split; [done|]. unfold gp_conf_get_int. rewrite Hg by done.
  rewrite decide_True by done. cbn [res_bind]. unfold parse_int. rewrite strtoimax_dec by done.
  assert (Hne : char_at (dec z) =? 0 = false).
  { unfold INTMAX_MIN, INTMAX_MAX in Hz. unfold dec. destruct (Z.ltb_spec z 0); [done|].
    destruct (dec_digits_spec 20 z) as (_&_&d&rest&->&Hd&_); [lia|lia|]. simpl. apply Z.eqb_neq. lia. }
  rewrite Hne. done.
Qed.

(** [gp_conf_set_from_string] splits at the first [=] and strips the
    blanks around it; with nothing before the [=] it reads in front of the
    string. *)
Theorem conf_set_from_string_parses (junk : nat -> Z) (c : conf) (a sp1 sp2 v : cstr) (x fin : Z) :
  61 ∉ a -> x <> 61 -> isspace x = false ->
  Forall (fun b => isspace b = true) sp1 -> Forall (fun b => isspace b = true) sp2 ->
  (forall b, head v = Some b -> isspace b = false) ->
  gp_conf_set_from_string junk c (a ++ [x] ++ sp1 ++ [61] ++ sp2 ++ v) fin =
    (let* (c, r) := if negb (fin =? 0) then gp_conf_set_final junk c (a ++ [x]) v
                    else gp_conf_set junk c (a ++ [x]) v in Ok (c, if r =? 0 then 0 else 1)) /\
  gp_conf_set_from_string junk c (61 :: v) fin = Ub.
Proof.
  intros Ha Hx61 Hx Hs1 Hs2 Hv. split; [|done].
  unfold gp_conf_set_from_string.
  assert (Hn : 61 ∉ a ++ [x] ++ sp1).
  { rewrite !elem_of_app, list_elem_of_singleton. intros [?|[?|Hin]]; [done|congruence|].
    rewrite Forall_forall in Hs1. specialize (Hs1 61 Hin). by vm_compute in Hs1. }
  replace (a ++ [x] ++ sp1 ++ [61] ++ sp2 ++ v) with ((a ++ [x] ++ sp1) ++ 61 :: sp2 ++ v) by (by rewrite <-!app_assoc).
  rewrite split_at_eq by done. rewrite trim_right_spec by (done || rewrite !length_app; simpl; lia).
  cbn [res_bind]. by rewrite skip_space_spec.
Qed.

(** [strlcpy] and [strlcat] never write past [siz] bytes, always leave a
    terminated string, cut to fit, and return the length they tried to
    create. *)
Theorem strlcpy_strlcat_bounded (dst src add : list Z) (siz : Z) :
  is_cstr src -> is_cstr add -> 0 < siz <= zlen dst ->
  exists m m', strlcpy dst src siz = Ok (m, zlen src) /\ zlen m = zlen dst /\
    c_string m = take (Z.to_nat (siz - 1)) src /\ drop (Z.to_nat siz) m = drop (Z.to_nat siz) dst /\
    strlcat m add siz = Ok (m', zlen (c_string m) + zlen add) /\ zlen m' = zlen dst /\
    c_string m' = take (Z.to_nat (siz - 1)) (c_string m ++ add) /\ drop (Z.to_nat siz) m' = drop (Z.to_nat siz) dst.
Proof.
  intros Hs Ha Hsz. rewrite strlcpy_spec by done. set (k := Z.to_nat _).
  assert (Hk : (k <= length src /\ S k <= length dst /\ k <= Z.to_nat (siz - 1))%nat) by (unfold zlen in *; lia).
  set (t := take k src). assert (Hlt : length t = k) by (unfold t; rewrite length_take; lia).
  assert (Htc : is_cstr t) by (by apply Forall_take).
  assert (Ht : t = take (Z.to_nat (siz - 1)) src).
  { unfold t. destruct (decide (k = Z.to_nat (siz - 1))) as [->|]; [done|].
    rewrite !take_ge by (unfold zlen in *; lia). done. }
  pose proof (zlen_nonneg add) as Hadd.
  assert (Hzt : zlen t = Z.of_nat k) by (unfold zlen; by rewrite Hlt).
  assert (Hb : zlen (drop (S k) dst) = zlen dst - Z.of_nat k - 1) by (unfold zlen; rewrite length_drop; lia).
  set (j := Z.to_nat (Z.min (zlen add) (siz - zlen t - 1))).
  assert (Hj : (j <= length add /\ k + j <= Z.to_nat (siz - 1))%nat) by (unfold zlen in *; lia).
  exists (t ++ 0 :: drop (S k) dst), (t ++ take j add ++ 0 :: drop j (drop (S k) dst)). split; [done|].
  assert (Htj : is_cstr (t ++ take j add)) by (apply Forall_app; split; [done|by apply Forall_take]).
  split_and!.
  - rewrite zlen_app, zlen_cons. lia.
  - by rewrite c_string_app.
  - rewrite drop_app_ge by lia. rewrite Hlt.
    replace (Z.to_nat siz - k)%nat with (S (Z.to_nat siz - k - 1)) by lia. cbn [drop]. rewrite drop_drop. f_equal. lia.
  - rewrite c_string_app by done. rewrite strlcat_spec by (done || lia). done.
  - rewrite zlen_app, zlen_app, zlen_cons. unfold zlen. rewrite !length_drop, length_take. unfold zlen in *. lia.
  - rewrite app_assoc, !c_string_app by done. rewrite take_app_ge by lia. f_equal. rewrite Hlt.
    destruct (decide (j = Z.to_nat (siz - 1) - k)%nat) as [->|]; [done|].
    rewrite !take_ge by (unfold zlen in *; lia). done.
  - rewrite app_assoc, drop_app_ge by (rewrite length_app, length_take; lia).
    rewrite length_app, length_take, Hlt. replace (j `min` length add)%nat with j by lia.
    replace (Z.to_nat siz - (k + j))%nat with (S (Z.to_nat siz - k - j - 1)) by lia.
    cbn [drop]. rewrite !drop_drop. f_equal. lia.
Qed.

(**  The words for true and false are disjoint, and case does not
    matter. *)
Theorem conf_bool_words (v : cstr) :
  (gp_conf_val_is_true v = 1 -> gp_conf_val_is_false v = 0) /\
  (forall w, tolower <$> w = tolower <$> v ->
     gp_conf_val_is_true w = gp_conf_val_is_true v /\ gp_conf_val_is_false w = gp_conf_val_is_false v).
Proof.
  split.
  - unfold gp_conf_val_is_true, gp_conf_val_is_false, strcasecmp_eq. cbn [existsb].
    generalize (tolower <$> v). intros t.
    repeat case_bool_decide; subst; vm_compute in *; congruence.
  - intros w Hw. unfold gp_conf_val_is_true, gp_conf_val_is_false, strcasecmp_eq. cbn [existsb]. by rewrite !Hw.
Qed.

(** *** Concrete trees *)
Definition empty_conf : conf := gp_conf_init (mk_conf None None).
Definition no_junk : nat -> Z := fun _ => 7.
Lemma fits_lit s : bool_decide (fits (lit s)) = true -> fits (lit s).
Proof. apply bool_decide_eq_true. Qed.

Lemma conf_set_then_get_witness :
  exists c', gp_conf_set no_junk empty_conf (lit "a.b") (lit "1") = Ok (c', 1) /\
    forall nm', fits nm' -> gp_conf_get no_junk c' nm' =
      Ok (if decide (nm' = lit "a.b") then Some (Some (lit "1")) else get_created empty_conf (lit "a.b") nm').
Proof.
  apply (conf_set_then_get no_junk empty_conf gp_conf_node_new (lit "a.b") (lit "1")).
  - reflexivity.
  - apply fits_lit. reflexivity.
Defined.

Lemma conf_final_protected_witness :
  exists c1 c2, gp_conf_set_final no_junk empty_conf (lit "x") (lit "1") = Ok (c1, 1) /\
    set_all no_junk c1 [(lit "x", lit "2"); (lit "x.y", lit "3")] = Ok c2 /\
    gp_conf_get no_junk c2 (lit "x") = Ok (Some (Some (lit "1"))).
Proof.
  apply (conf_final_protected no_junk empty_conf gp_conf_node_new (lit "x") (lit "1")
           [(lit "x", lit "2"); (lit "x.y", lit "3")]).
  - reflexivity.
  - apply fits_lit. reflexivity.
  - apply Forall_cons; split; [apply fits_lit; reflexivity|].
    apply Forall_cons; split; [apply fits_lit; reflexivity|]. apply Forall_nil. exact I.
Defined.

Lemma conf_int_roundtrip_witness :
  exists c', gp_conf_set no_junk empty_conf (lit "n") (dec (-42)) = Ok (c', 1) /\
    gp_conf_get_int no_junk c' (lit "n") = Ok (Some (-42)).
Proof.
  apply (conf_int_roundtrip no_junk empty_conf gp_conf_node_new (lit "n") (-42)).
  - reflexivity.
  - apply fits_lit. reflexivity.
  - reflexivity.
  - lia.
Defined.

Lemma conf_get_int_truncates_witness :
  exists c', gp_conf_set no_junk empty_conf (lit "n") (dec 4294967297) = Ok (c', 1) /\
    gp_conf_get_int no_junk c' (lit "n") = Ok (Some 1).
Proof.
  apply (conf_get_int_truncates no_junk empty_conf gp_conf_node_new (lit "n") 4294967297).
  - reflexivity.
  - apply fits_lit. reflexivity.
  - reflexivity.
  - unfold INTMAX_MIN, INTMAX_MAX. lia.
Defined.

Lemma conf_set_from_string_parses_witness :
  gp_conf_set_from_string no_junk empty_conf (lit "ab = 1") 0 =
    (let* (c, r) := gp_conf_set no_junk empty_conf (lit "ab") (lit "1") in Ok (c, if r =? 0 then 0 else 1)) /\
  gp_conf_set_from_string no_junk empty_conf (61 :: lit "1") 0 = Ub.
Proof.
  apply (conf_set_from_string_parses no_junk empty_conf (lit "a") (lit " ") (lit " ") (lit "1") 98 0).
  - apply (bool_decide_unpack _). vm_compute. exact I.
  - discriminate.
  - reflexivity.
  - repeat constructor.
  - repeat constructor.
  - intros b [= <-]. reflexivity.
Defined.

Lemma strlcpy_strlcat_bounded_witness :
  exists m m', strlcpy (replicate 6 9) (lit "abc") 5 = Ok (m, 3) /\ zlen m = 6 /\
    c_string m = lit "abc" /\ drop 5 m = [9] /\
    strlcat m (lit "def") 5 = Ok (m', zlen (c_string m) + 3) /\ zlen m' = 6 /\
    c_string m' = take 4 (c_string m ++ lit "def") /\ drop 5 m' = [9].
Proof.
  apply (strlcpy_strlcat_bounded (replicate 6 9) (lit "abc") (lit "def") 5).
  - apply (bool_decide_unpack _). vm_compute. exact I.
  - apply (bool_decide_unpack _). vm_compute. exact I.
  - vm_compute. split; congruence.
Defined.
