(* ===== verification/ConfFloat.v ===== *)
(** * gp_conf.c: values in floating point

    [gp_conf_get_double] and [gp_conf_get_float] differ in the C library's
    function only, [strtod] or [strtof].  What it makes of a text is a
    parameter: the number, the text from the end pointer on, and whether
    [errno] becomes [ERANGE]. *)

From S2P Require Import Prelude CStr Conf ConfInv.
Local Open Scope Z_scope.

Section Floating.
Context {F : Type} (strto : cstr -> F * cstr * bool).

(** The checks after the conversion. *)
Definition parse_floating (s : cstr) : option F :=
  let '(v, rest, erange) := strto s in
  if (char_at s =? 0) || negb (char_at rest =? 0) then None else if erange : bool then None else Some v.
(** 0, or 1 and [*val].  The value of the name may be NULL. *)
Definition gp_conf_get_floating (junk : nat -> Z) (c : conf) (nm : cstr) : res (option F) :=
  let* r := gp_conf_get junk c nm in
  match r with
  | None => Ok None
  | Some v => let* s := of_option v in Ok (parse_floating s)
  end.
End Floating.
Definition gp_conf_get_double {D} (strtod : cstr -> D * cstr * bool) := gp_conf_get_floating strtod.
Definition gp_conf_get_float {F} (strtof : cstr -> F * cstr * bool) := gp_conf_get_floating strtof.

Section Theorems.
Context {F : Type} (strto : cstr -> F * cstr * bool).

(** A text that the library converts to its last byte, in range, is read back
    after [gp_conf_set]; an empty one, one with something behind the number
    and one out of range are not. *)
Theorem conf_floating_roundtrip (junk : nat -> Z) (c : conf) (r : gp_conf_node) (nm v : cstr) (x : F) (rest : cstr) (erange : bool) :
  root c = Some r -> fits nm -> is_final c nm = false -> is_cstr v -> is_cstr rest -> strto v = (x, rest, erange) ->
  exists c', gp_conf_set junk c nm v = Ok (c', 1) /\
    gp_conf_get_floating strto junk c' nm =
      Ok (if bool_decide (v <> [] /\ rest = []) && negb erange then Some x else None).
Proof.
  intros Hr Hf Hfin Hv Hrest Hs. destruct (set_spec junk c r nm v Hr Hf) as (c'&E&_&Hg&_). rewrite Hfin in *.
  assert (Hz : forall s, is_cstr s -> (char_at s =? 0) = bool_decide (s = [])).
  { intros s Hc. destruct Hc as [|a s Ha _]; [done|]. rewrite bool_decide_eq_false_2 by done. apply Z.eqb_neq. cbn. lia. }
  exists c'. split; [done|]. unfold gp_conf_get_floating. rewrite Hg by done. rewrite decide_True by done. cbn [res_bind of_option].
  unfold parse_floating. rewrite Hs, !Hz by done. by destruct v, rest, erange.
Qed.

(** A name without a value, such as one that exists only because a longer one
    was set: [gp_conf_get_int] fails, [strtod] is given NULL. *)
Theorem conf_floating_needs_a_value (junk : nat -> Z) (c : conf) (nm : cstr) :
  gp_conf_get junk c nm = Ok (Some None) ->
  gp_conf_get_int junk c nm = Ok None /\ gp_conf_get_floating strto junk c nm = Ub.
Proof. intros H. unfold gp_conf_get_int, gp_conf_get_floating. by rewrite H. Qed.
End Theorems.

Example valueless_name :
  (let* (c, _) := gp_conf_set no_junk empty_conf (lit "a.b") (lit "1") in gp_conf_get no_junk c (lit "a")) = Ok (Some None).
Proof. vm_compute. reflexivity. Qed.
