(* ===== verification/Yaml.v ===== *)
(** * gp_conf_yaml_loader.c: from libyaml's events to the configuration tree (operations)

    A parser of libyaml is the list of the events it will still deliver; when
    the list is empty [yaml_parser_parse] fails.  What a file's parser
    delivers, what [fopen] and [stat] answer, are parameters.  A process has
    a bound on its open files, and [fopen] fails beyond it: the functions take
    the number of files that can still be opened, so that the recursion
    through included files ends.

    The loader only ever follows pointers down the tree: a call is given its
    node and gives the changed node back.  Its variable [node] is the call's
    own node or one of the children, known by its name: names of siblings
    differ (YamlInv.v).  Allocation succeeds. *)

From S2P Require Import Prelude CStr Conf.
Local Open Scope Z_scope.

Definition YAML_VERSION_MAJOR : Z := 1.
Definition YAML_VERSION_MINOR : Z := 1.
Definition RECURSION_LIMIT : Z := 128.
Definition PATH_MAX : Z := 4096.
Definition INT_MAX : Z := 2147483647.
Definition S_IFDIR : Z := 16384.

Inductive conf_state := CONF_KEY | CONF_VAL | CONF_INCLUDE.

(** [yaml_event_t]: a version directive, a scalar's tag and value, as far as
    the loader looks at them. *)
Inductive yaml_event :=
| StreamStart | StreamEnd
| DocumentStart (version : option (Z * Z)) | DocumentEnd
| Alias
| Scalar (tag : option cstr) (value : cstr)
| SequenceStart | SequenceEnd
| MappingStart | MappingEnd.

(** The variables of a call that live across events. *)
Record locals := mk_locals { node : option cstr; state : conf_state; seq_idx : Z }.
Definition locals0 : locals := mk_locals None CONF_KEY 0.
Definition set_state (s : conf_state) (l : locals) : locals := mk_locals (node l) s (seq_idx l).
Definition set_node (nd : option cstr) (l : locals) : locals := mk_locals nd (state l) (seq_idx l).
Definition set_idx (i : Z) (l : locals) : locals := mk_locals (node l) (state l) i.

Definition set_is_seq (v : Z) (n : gp_conf_node) : gp_conf_node :=
  mk_conf_node (name n) (val n) v (final n) (parent n) (children n).
Definition new_named (nm : cstr) : gp_conf_node := mk_conf_node (Some nm) None 0 0 false [].

(** Following and writing through [node]. *)
Definition the_node (p : gp_conf_node) (nd : option cstr) : res gp_conf_node :=
  match nd with
  | None => Ok p
  | Some nm => of_option (i ← gp_conf_node_lookup_child p nm; children p !! i)
  end.
Definition put_node (p : gp_conf_node) (nd : option cstr) (n : gp_conf_node) : gp_conf_node :=
  match nd with
  | None => n
  | Some nm =>
      match gp_conf_node_lookup_child p nm with
      | Some i => set_children (<[i := n]> (children p)) p
      | None => p
      end
  end.

(** The node of a sequence's item moves to the end of the queue, or is made
    there by [fresh]. *)
Definition seq_node (p : gp_conf_node) (nm : cstr) (fresh : gp_conf_node) (change : gp_conf_node -> gp_conf_node)
    : gp_conf_node :=
  match gp_conf_node_lookup_child p nm with
  | Some i =>
      match children p !! i with
      | Some c => set_children (delete i (children p) ++ [change c]) p
      | None => p
      end
  | None => set_children (children p ++ [change fresh]) p
  end.

(** [snprintf(..., "%d", seq_idx++)]: the largest [int] cannot be incremented. *)
Definition next_idx (l : locals) : res (cstr * locals) :=
  if seq_idx l =? INT_MAX then Ub else Ok (dec (seq_idx l), set_idx (seq_idx l + 1) l).

(** *** The events of a file *)
Section Parse.
(** [gp_conf_yaml_handle_include]. *)
Context (handle_include : gp_conf_node -> cstr -> res (Z * gp_conf_node)).

(** A scalar that is a key of a mapping. *)
Definition key_scalar (p : gp_conf_node) (l : locals) (value : cstr) : gp_conf_node * locals :=
  if bool_decide (value = lit "include") then (p, set_state CONF_INCLUDE l)
  else
    let p := if negb (is_seq p =? 0) then match val p with None => set_val (Some value) p | Some _ => p end else p in
    let p :=
      match gp_conf_node_lookup_child p value with
      | Some i =>
          match children p !! i with
          | Some existing =>
              if final existing =? 0 then set_children (<[i := gp_conf_node_prune existing]> (children p)) p else p
          | None => p
          end
      | None => set_children (children p ++ [new_named value]) p
      end in
    (p, set_state CONF_VAL (set_node (Some value) l)).

(** [YAML_SCALAR_EVENT]; [false]: [goto fail]. *)
Definition scalar_event (p : gp_conf_node) (inseq : bool) (l : locals) (tag : option cstr) (value : cstr)
    : res (bool * gp_conf_node * locals) :=
  match state l, value with
  | CONF_KEY, [] => Ok (true, p, l)
  | st, _ =>
      if inseq then
        let* (nm, l) := next_idx l in
        Ok (true, seq_node p nm (set_val (Some value) (new_named nm)) id, l)
      else
        match st with
        | CONF_INCLUDE =>
            let* (r, p) := handle_include p value in
            if negb (r =? 0) then Ok (false, p, l) else Ok (true, p, set_state CONF_KEY l)
        | CONF_KEY => let (p, l) := key_scalar p l value in Ok (true, p, l)
        | CONF_VAL =>
            let* n := the_node p (node l) in
            if bool_decide (tag = Some (lit "!include")) then
              let* (r, n) := handle_include n value in
              let p := put_node p (node l) n in
              if negb (r =? 0) then Ok (false, p, l) else Ok (true, p, set_state CONF_KEY l)
            else
              let p := if final n =? 0 then put_node p (node l) (set_val (Some value) n) else p in
              Ok (true, p, set_state CONF_KEY l)
        end
  end.

(** The loop of [gp_conf_yaml_parse]: the result, the events left to the
    parser and the node.  [rlevel] has been incremented.  Each round takes an
    event, which bounds [fuel]. *)
Fixpoint parse_loop (fuel : nat) (parser : list yaml_event) (p : gp_conf_node) (inseq : bool) (rlevel : Z)
    (l : locals) : res (Z * list yaml_event * gp_conf_node) :=
  match fuel with
  | O => Ub
  | S fuel =>
      let parse parser n inseq :=
        if RECURSION_LIMIT <? rlevel then Ok (-1, parser, n)
        else parse_loop fuel parser n inseq (rlevel + 1) locals0 in
      match parser with
      | [] => Ok (-1, [], p)
      | event :: parser =>
          match event with
          | DocumentStart ver =>
              match ver with
              | Some (major, minor) =>
                  if (major =? YAML_VERSION_MAJOR) && (minor =? YAML_VERSION_MINOR)
                  then parse_loop fuel parser p inseq rlevel l else Ok (-1, parser, p)
              | None => Ok (-1, parser, p)
              end
          | Scalar tag value =>
              let* (ok, p, l) := scalar_event p inseq l tag value in
              if ok : bool then parse_loop fuel parser p inseq rlevel l else Ok (-1, parser, p)
          | SequenceStart =>
              let* n := the_node p (node l) in
              let* (r, parser, n) := parse parser n true in
              if negb (r =? 0) then Ok (-1, parser, put_node p (node l) n)
              else parse_loop fuel parser (put_node p (node l) (set_is_seq 1 n)) inseq rlevel (set_state CONF_KEY l)
          | MappingStart =>
              if inseq then
                let* (nm, l) := next_idx l in
                let* n := the_node p (node l) in
                let n := seq_node n nm (new_named nm) (set_is_seq 1) in
                let* c := the_node n (Some nm) in
                let* (r, parser, c) := parse parser c false in
                let p := put_node p (node l) (put_node n (Some nm) c) in
                if negb (r =? 0) then Ok (-1, parser, p)
                else parse_loop fuel parser p inseq rlevel (set_state CONF_KEY l)
              else
                let* n := the_node p (node l) in
                let* (r, parser, n) := parse parser n inseq in
                let p := put_node p (node l) n in
                if negb (r =? 0) then Ok (-1, parser, p)
                else parse_loop fuel parser p inseq rlevel (set_state CONF_KEY l)
          | SequenceEnd | MappingEnd | StreamEnd => Ok (0, parser, p)
          | StreamStart | DocumentEnd | Alias => parse_loop fuel parser p inseq rlevel l
          end
      end
  end.
Definition gp_conf_yaml_parse (parser : list yaml_event) (p : gp_conf_node) (inseq : bool) (rlevel : Z)
    : res (Z * list yaml_event * gp_conf_node) :=
  if RECURSION_LIMIT <? rlevel then Ok (-1, parser, p)
  else parse_loop (S (length parser)) parser p inseq (rlevel + 1) locals0.
End Parse.

(** *** Files *)
(** The [conf_dirname] of a file: up to its last backslash, else its last
    slash. *)
Fixpoint strrchr (c : Z) (s : cstr) : option nat :=
  match s with
  | [] => None
  | x :: s => match strrchr c s with Some i => Some (S i) | None => if x =? c then Some O else None end
  end.
Definition gp_conf_yaml_set_conf_dirname (filename : cstr) : cstr :=
  match (match strrchr 92 filename with Some ep => Some ep | None => strrchr 47 filename end) with
  | None => lit "."
  | Some ep => take ep filename
  end.

Section Files.
(** The events of the file with that name, if it can be opened; the [st_mode]
    that [stat] gives; the contents of an uninitialised array. *)
Context (fopen : cstr -> option (list yaml_event)) (stat : cstr -> option Z) (junk : nat -> Z).

(** [files]: how many more can be opened.  Without a [conf_dirname] the
    [snprintf] is given NULL. *)
Fixpoint gp_conf_yaml_handle_include (conf_dirname : option cstr) (files : nat) (p : gp_conf_node) (filename : cstr)
    : res (Z * gp_conf_node) :=
  let* include_filename :=
    if (1 <? zlen filename) && (char_at filename =? 47) then
      let* (m, _) := strlcpy (malloc junk PATH_MAX) filename PATH_MAX in Ok (c_string m)
    else
      let* d := of_option conf_dirname in
      Ok (take (Z.to_nat (PATH_MAX - 1)) (d ++ [47] ++ filename)) in
  match files with
  | O => Ok (-1, p)
  | S files =>
      match fopen include_filename with
      | None => Ok (-1, p)
      | Some parser =>
          let* (r, _, p) := gp_conf_yaml_parse (gp_conf_yaml_handle_include conf_dirname files) parser p false 0 in
          Ok (if negb (r =? 0) then -1 else 0, p)
      end
  end.

(** The configuration, [conf_dirname], and the result.  Without a root the
    parser's first change dereferences NULL. *)
Definition loader := (conf * option cstr)%type.
Definition is_dir (filename : cstr) : bool :=
  match stat filename with Some mode => negb (Z.land mode S_IFDIR =? 0) | None => false end.
Definition open_conf (files : nat) (filename : cstr) : option (list yaml_event) :=
  match files with O => None | S _ => fopen filename end.
Definition load_into (files : nat) (c : conf) (dir : option cstr) (pth : path) (parser : list yaml_event)
    : res (loader * Z) :=
  let* n := get_at c pth in
  let* (ret, _, n) := gp_conf_yaml_parse (gp_conf_yaml_handle_include dir files) parser n false 0 in
  Ok ((update_conf c pth (fun _ => n), dir), ret).

Definition gp_conf_yaml_load_file (files : nat) (s : loader) (filename : cstr) : res (loader * Z) :=
  let (c, conf_dirname) := s in
  if is_dir filename then Ok (s, -1)
  else
    match open_conf files filename with
    | None => Ok (s, -1)
    | Some infile =>
        let dir := match conf_dirname with None => gp_conf_yaml_set_conf_dirname filename | Some d => d end in
        load_into (pred files) c (Some dir) [] infile
    end.

Definition gp_conf_yaml_load_string (files : nat) (s : loader) (events : list yaml_event) : res (loader * Z) :=
  load_into files s.1 s.2 [] events.

Definition gp_conf_yaml_load_file_with_prefix (files : nat) (s : loader) (filename prefix : cstr) : res (loader * Z) :=
  let (c, conf_dirname) := s in
  let* root := gp_conf_get_node junk c prefix in
  if is_dir filename then Ok (s, -1)
  else
    match open_conf files filename with
    | None => Ok (s, -1)
    | Some infile =>
        let dir := match conf_dirname with None => gp_conf_yaml_set_conf_dirname filename | Some d => d end in
        match root with
        | Some pth => load_into (pred files) c (Some dir) pth infile
        | None =>
            let* (c, _) := gp_conf_set junk c prefix (lit "<prefix root node>") in
            let* root := gp_conf_get_node junk c prefix in
            match root with
            | None => Ok ((c, Some dir), -1)
            | Some pth => load_into (pred files) c (Some dir) pth infile
            end
        end
    end.
End Files.
