(* ===== verification/YamlInv.v ===== *)
(** * gp_conf_yaml_loader.c: what a load never does to the tree

    [evolves]: how a call may change its node.  Every call of the loader ends
    with a result, whatever the events, and evolves its node; names of
    siblings stay distinct and final values stay where they are. *)

From S2P Require Import Prelude CStr Conf ConfInv Yaml.
Local Open Scope Z_scope.
Implicit Types (n p c : gp_conf_node) (k : cstr) (ks : list cstr) (cs : list gp_conf_node).

(** ** Children by name *)
Definition child n k : option gp_conf_node := i ← find_child (children n) k; children n !! i.

Lemma node_of_cons n k ks : node_of n (k :: ks) = c ← child n k; node_of c ks.
Proof. unfold child. cbn [node_of]. by destruct (find_child (children n) k). Qed.
Lemma the_node_some p k : the_node p (Some k) = of_option (child p k).
Proof. done. Qed.
Lemma child_inv p k c : child p k = Some c ->
  exists i, find_child (children p) k = Some i /\ children p !! i = Some c /\ name c = Some k.
Proof.
  unfold child. destruct (find_child (children p) k) as [i|] eqn:Hi; simpl; [|done]. intros Hc.
  destruct (find_child_some _ _ _ Hi) as (c'&Hc'&Hn&_). exists i. split_and!; [done..|congruence].
Qed.
Lemma child_none p k : child p k = None <-> find_child (children p) k = None.
Proof.
  unfold child. destruct (find_child (children p) k) as [i|] eqn:Hi; [|done].
  destruct (find_child_lookup _ _ _ Hi) as [c Hc]. simpl. rewrite Hc. done.
Qed.
Lemma child_app p k c k' :
  find_child (children p) k = None -> name c = Some k ->
  child (set_children (children p ++ [c]) p) k' = if decide (k' = k) then Some c else child p k'.
Proof.
  intros Hf Hn. unfold child. cbn [children set_children]. destruct (decide (k' = k)) as [->|Hne].
  - rewrite (find_child_app _ _ _ Hf Hn). simpl. by rewrite lookup_app_r, Nat.sub_diag.
  - rewrite find_child_app_ne by (rewrite Hn; congruence).
    destruct (find_child (children p) k') as [j|] eqn:Hj; simpl; [|done].
    destruct (find_child_lookup _ _ _ Hj) as [c2 Hc2]. by rewrite lookup_app_l by (by eapply lookup_lt_Some).
Qed.
Lemma child_insert p k i c c' k' :
  find_child (children p) k = Some i -> children p !! i = Some c -> name c' = name c ->
  child (set_children (<[i := c']> (children p)) p) k' = if decide (k' = k) then Some c' else child p k'.
Proof.
  intros Hi Hc Hn. unfold child. cbn [children set_children]. rewrite (find_child_insert _ _ _ _ _ Hc Hn).
  destruct (decide (k' = k)) as [->|Hne].
  - rewrite Hi. simpl. by rewrite list_lookup_insert_eq by (by eapply lookup_lt_Some).
  - destruct (find_child (children p) k') as [j|] eqn:Hj; simpl; [|done].
    rewrite list_lookup_insert_ne; [done|]. intros ->.
    destruct (find_child_some _ _ _ Hj) as (c2&?&?&_), (find_child_some _ _ _ Hi) as (c3&?&?&_). congruence.
Qed.

(** ** Names of siblings *)
Fixpoint distinct n : bool := bool_decide (NoDup (name <$> children n)) && forallb distinct (children n).
Lemma distinct_spec n :
  distinct n = true <-> NoDup (name <$> children n) /\ forall c, c ∈ children n -> distinct c = true.
Proof.
  destruct n as [nm v s f pr cs]. cbn [distinct children]. rewrite andb_true_iff, bool_decide_eq_true, forallb_forall.
  split; intros [? H]; split; try done; intros c Hc; apply H; by apply list_elem_of_In.
Qed.
Lemma distinct_child p k c : distinct p = true -> child p k = Some c -> distinct c = true.
Proof. intros [_ H]%distinct_spec (i&_&Hc&_)%child_inv. apply H. by eapply list_elem_of_lookup_2. Qed.

(** With distinct names the first child of a name is the only one. *)
Lemma child_unique p k c : distinct p = true -> c ∈ children p -> name c = Some k -> child p k = Some c.
Proof.
  intros [Hnd _]%distinct_spec [j Hj]%list_elem_of_lookup Hn.
  destruct (child p k) as [c'|] eqn:Hc.
  - apply child_inv in Hc as (i&_&Hi&Hn'). f_equal. assert (i = j) as ->; [|congruence].
    eapply (NoDup_lookup _ i j (Some k) Hnd); rewrite list_lookup_fmap; [by rewrite Hi, <-Hn'|by rewrite Hj, <-Hn].
  - apply child_none in Hc. exfalso. eapply (find_child_none _ _ Hc c); [by eapply list_elem_of_lookup_2|done].
Qed.
Lemma conf_node_ind (P : gp_conf_node -> Prop) :
  (forall n, (forall c, c ∈ children n -> P c) -> P n) -> forall n, P n.
Proof.
  intros H. fix IH 1. intros [nm v s f pr cs]. apply H. cbn [children].
  induction cs as [|x cs IHcs]; intros c Hc; [destruct (not_elem_of_nil c Hc)|].
  apply elem_of_cons in Hc as [Heq|Hc]; [rewrite Heq; exact (IH x)|exact (IHcs c Hc)].
Qed.
Lemma kept_names cs : sublist (name <$> omap kept cs) (name <$> cs).
Proof.
  induction cs as [|c cs IH]; [apply sublist_nil|]. rewrite omap_kept_cons. destruct (kept c) as [c'|] eqn:Hk; simpl.
  - rewrite (kept_name _ _ Hk). by apply sublist_skip.
  - by apply sublist_cons.
Qed.
Lemma distinct_prune n : distinct n = true -> distinct (gp_conf_node_prune n) = true.
Proof.
  induction n as [n IH] using conf_node_ind. rewrite !distinct_spec, prune_children. intros [Hnd H]. split.
  - eapply sublist_NoDup; [done|apply kept_names].
  - intros c (c0&Hc0&Hk)%list_elem_of_omap. unfold kept in Hk. destruct (negb (final c0 =? 0)).
    + injection Hk as <-. auto.
    + destruct (children (gp_conf_node_prune c0)); [done|]. injection Hk as <-. auto.
Qed.

(** ** Evolution *)
Definition keeps p p' : Prop := forall ks m v,
  node_of p ks = Some m -> final m <> 0 -> val m = Some v ->
  exists m', node_of p' ks = Some m' /\ final m' = final m /\ val m' = Some v.
Record evolves p p' : Prop := {
  ev_name : name p' = name p;
  ev_final : final p' = final p;
  ev_distinct : distinct p = true -> distinct p' = true;
  ev_keeps : distinct p = true -> keeps p p';
}.
(** No child is lost. *)
Definition grows p p' : Prop := forall k, is_Some (child p k) -> is_Some (child p' k).
Definition steps_to p p' : Prop := evolves p p' /\ grows p p'.

#[export] Instance evolves_preorder : PreOrder evolves.
Proof.
  split.
  - intros p. split; [done..|]. intros _ ks m v. eauto.
  - intros p p' p'' [N F D K] [N' F' D' K']. split; [congruence|congruence|auto|].
    intros Hd ks m v Hm Hf Hv. destruct (K Hd ks m v Hm Hf Hv) as (m'&Hm'&Hf'&Hv').
    destruct (K' (D Hd) ks m' v Hm') as (m''&?&?&?); [congruence|done|]. exists m''. split_and!; [done|congruence|done].
Qed.
#[export] Instance grows_preorder : PreOrder grows.
Proof. split; [by intros p k|]. intros p p' p'' H H' k Hk. auto. Qed.
#[export] Instance steps_to_preorder : PreOrder steps_to.
Proof. split; [intros p; split; reflexivity|]. intros p p' p'' [? ?] [? ?]. split; by etrans. Qed.

Lemma evolves_intro p p' :
  name p' = name p -> final p' = final p ->
  (distinct p = true -> distinct p' = true) ->
  (final p <> 0 -> forall v, val p = Some v -> val p' = Some v) ->
  (distinct p = true -> forall k c, child p k = Some c -> exists c', child p' k = Some c' /\ keeps c c') ->
  evolves p p'.
Proof.
  intros N F D V C. split; [done..|]. intros Hd [|k ks] m v.
  - intros [= <-] Hf Hv. exists p'. auto.
  - rewrite !node_of_cons. destruct (child p k) as [c|] eqn:Hc; simpl; [|done]. intros Hm Hf Hv.
    destruct (C Hd k c Hc) as (c'&Hc'&Hk). rewrite Hc'. simpl. eauto.
Qed.
Lemma keeps_refl c : keeps c c.
Proof. intros ks m v. eauto. Qed.

Lemma set_val_steps p v : final p = 0 \/ val p = None -> steps_to p (set_val (Some v) p).
Proof.
  intros Hor. split; [|by intros k].
  apply evolves_intro; [done|done|by rewrite !distinct_spec| |eauto using keeps_refl].
  intros Hf w Hw. destruct Hor; [done|congruence].
Qed.
Lemma set_is_seq_steps p z : steps_to p (set_is_seq z p).
Proof.
  split; [|by intros k].
  apply evolves_intro; [done|done|by rewrite !distinct_spec|done|eauto using keeps_refl].
Qed.
Lemma prune_evolves n : final n = 0 -> evolves n (gp_conf_node_prune n).
Proof.
  intros Hf. split; [apply prune_name|by destruct n|apply distinct_prune|].
  intros _ [|k ks] m v; [intros [= <-] ?; done|]. intros Hm Hfm Hv. exists m. split_and!; [|done..]. by apply prune_keeps.
Qed.

(** A child replaced by what it evolved to. *)
Lemma replace_steps p k i c c' :
  find_child (children p) k = Some i -> children p !! i = Some c -> evolves c c' ->
  steps_to p (set_children (<[i := c']> (children p)) p).
Proof.
  intros Hi Hc Hev. pose proof (child_insert p k i c c') as Hci.
  assert (Hck : child p k = Some c) by (unfold child; rewrite Hi; done). split.
  - apply evolves_intro; [done|done| |done|].
    + rewrite !distinct_spec. cbn [children set_children]. intros [Hnd Hall]. split.
      * rewrite list_fmap_insert, (ev_name _ _ Hev), list_insert_id; [done|]. by rewrite list_lookup_fmap, Hc.
      * intros x [j Hj]%list_elem_of_lookup. apply list_lookup_insert_Some in Hj as [(->&->&_)|[_ Hj]].
        -- apply (ev_distinct _ _ Hev), Hall. by eapply list_elem_of_lookup_2.
        -- apply Hall. by eapply list_elem_of_lookup_2.
    + intros Hd k' x Hx. rewrite Hci by (done || apply Hev). destruct (decide (k' = k)) as [->|]; [|eauto using keeps_refl].
      assert (x = c) as -> by congruence. exists c'. split; [done|]. apply (ev_keeps _ _ Hev). by eapply distinct_child.
  - intros k' Hk'. rewrite Hci by (done || apply Hev). destruct (decide _); [eauto|done].
Qed.
Lemma append_steps p k c :
  find_child (children p) k = None -> name c = Some k -> distinct c = true ->
  steps_to p (set_children (children p ++ [c]) p).
Proof.
  intros Hf Hn Hdc. pose proof (child_app p k c) as Hca. split.
  - apply evolves_intro; [done|done| |done|].
    + rewrite !distinct_spec. cbn [children set_children]. intros [Hnd Hall]. split.
      * rewrite fmap_app. simpl. apply NoDup_app. split_and!; [done| |apply NoDup_singleton].
        intros x (y&->&Hy)%list_elem_of_fmap Hx%list_elem_of_singleton. apply (find_child_none _ _ Hf y Hy). congruence.
      * intros x [Hx|Hx%list_elem_of_singleton]%elem_of_app; [auto|congruence].
    + intros _ k' x Hx. rewrite Hca by done. destruct (decide (k' = k)) as [->|]; [|eauto using keeps_refl].
      assert (child p k = None) by (by apply child_none). congruence.
  - intros k' Hk'. rewrite Hca by done. destruct (decide _); [eauto|done].
Qed.

Lemma put_steps p nd n n' : the_node p nd = Ok n -> steps_to n n' -> steps_to p (put_node p nd n').
Proof.
  destruct nd as [k|]; cbn [put_node].
  - rewrite the_node_some. destruct (child p k) as [c|] eqn:Hc; [|done]. intros [= ->] [Hev _].
    destruct (child_inv _ _ _ Hc) as (i&Hi&Hl&_). unfold gp_conf_node_lookup_child. rewrite Hi. by eapply replace_steps.
  - by intros [= ->].
Qed.

Lemma child_is_some p k : is_Some (child p k) <-> Some k ∈ (name <$> children p).
Proof.
  rewrite list_elem_of_fmap. split.
  - intros [c (i&_&Hc&Hn)%child_inv]. exists c. split; [done|]. by eapply list_elem_of_lookup_2.
  - intros (c&Hn&Hc). destruct (child p k) eqn:E; [eauto|]. apply child_none in E. by destruct (find_child_none _ _ E c Hc).
Qed.

(** A child taken out and put back changed, at the end. *)
Lemma requeue_steps p k i c c' :
  find_child (children p) k = Some i -> children p !! i = Some c -> evolves c c' ->
  steps_to p (set_children (delete i (children p) ++ [c']) p).
Proof.
  intros Hi Hc Hev. set (p' := set_children _ p).
  assert (Hnames : name <$> children p' ≡ₚ name <$> children p).
  { rewrite (delete_Permutation _ _ _ Hc). unfold p'. cbn [children set_children].
    rewrite fmap_app, fmap_cons. simpl. rewrite (ev_name _ _ Hev). solve_Permutation. }
  assert (Hck : name c = Some k) by (destruct (find_child_some _ _ _ Hi) as (c2&?&?&_); congruence).
  assert (Hd : distinct p = true -> distinct p' = true).
  { rewrite !distinct_spec, Hnames. intros [Hnd Hall]. split; [done|]. intros x [Hx|Hx%list_elem_of_singleton]%elem_of_app.
    - apply Hall. rewrite (delete_Permutation _ _ _ Hc). by right.
    - subst x. apply (ev_distinct _ _ Hev), Hall. by eapply list_elem_of_lookup_2. }
  split.
  - apply evolves_intro; [done|done|done|done|]. intros Hdp k' x Hx. pose proof (distinct_child _ _ _ Hdp Hx) as Hdx.
    destruct (child_inv _ _ _ Hx) as (j&_&Hj&Hn). destruct (decide (k' = k)) as [->|Hne].
    + assert (x = c) as -> by (unfold child in Hx; rewrite Hi in Hx; simpl in Hx; congruence).
      exists c'. split; [|by apply (ev_keeps _ _ Hev)]. apply child_unique; [auto| |by rewrite (ev_name _ _ Hev)].
      unfold p'. cbn [children set_children]. rewrite elem_of_app, list_elem_of_singleton. by right.
    + exists x. split; [|apply keeps_refl]. apply child_unique; [auto| |done].
      unfold p'. cbn [children set_children]. apply elem_of_app. left.
      apply list_elem_of_lookup_2 in Hj. rewrite (delete_Permutation _ _ _ Hc) in Hj.
      apply elem_of_cons in Hj as [->|]; [congruence|done].
  - intros k'. rewrite !child_is_some. by rewrite Hnames.
Qed.
Lemma seq_node_steps p nm fresh change :
  name fresh = Some nm -> distinct fresh = true -> (forall c, steps_to c (change c)) ->
  steps_to p (seq_node p nm fresh change) /\ is_Some (child (seq_node p nm fresh change) nm).
Proof.
  intros Hn Hd Hch. unfold seq_node, gp_conf_node_lookup_child.
  destruct (find_child (children p) nm) as [i|] eqn:Hi.
  - destruct (find_child_some _ _ _ Hi) as (c&Hc&Hnc&_). rewrite Hc.
    destruct (Hch c) as [Hev _]. pose proof (requeue_steps p nm i c _ Hi Hc Hev) as Hs. split; [done|].
    apply Hs. unfold child. rewrite Hi. simpl. eauto.
  - destruct (Hch fresh) as [Hev _]. assert (Hn' : name (change fresh) = Some nm) by by rewrite (ev_name _ _ Hev).
    split; [apply (append_steps p nm); [done|done|by apply (ev_distinct _ _ Hev)]|].
    rewrite (child_app _ nm) by done. rewrite decide_True by done. eauto.
Qed.

(** ** Every call ends *)
(** What is known of a call's variables: [node] is a child. *)
Definition has_node p (nd : option cstr) : Prop := match nd with None => True | Some k => is_Some (child p k) end.
Lemma has_node_ok p nd : has_node p nd -> exists n, the_node p nd = Ok n.
Proof.
  destruct nd as [k|]; [|by exists p]. rewrite the_node_some. intros [c Hc]. simpl in *. rewrite Hc. by exists c.
Qed.
Lemma has_node_steps p p' nd : steps_to p p' -> has_node p nd -> has_node p' nd.
Proof. intros [_ H]. destruct nd; [apply H|done]. Qed.

(** A result, and how the node changed. *)
Definition ends {A} (r : res A) (Q : A -> Prop) : Prop := exists a, r = Ok a /\ Q a.
Lemma ends_bind {A B} (r : res A) (f : A -> res B) (P : A -> Prop) (Q : B -> Prop) :
  ends r P -> (forall a, P a -> ends (f a) Q) -> ends (let* a := r in f a) Q.
Proof. intros (a&->&Ha) Hf. by apply Hf. Qed.
Lemma ends_ok {A} (a : A) (Q : A -> Prop) : Q a -> ends (Ok a) Q.
Proof. intros. by exists a. Qed.
Lemma ends_mono {A} (r : res A) (P Q : A -> Prop) : ends r P -> (forall a, P a -> Q a) -> ends r Q.
Proof. intros (a&->&Ha) H. exists a. auto. Qed.

(** libyaml terminates the values of scalars. *)
Definition c_event (e : yaml_event) : Prop := match e with Scalar _ v => is_cstr v | _ => True end.
#[export] Instance c_event_dec e : Decision (c_event e).
Proof. destruct e; apply _. Defined.

Section Parse.
Context (handle_include : gp_conf_node -> cstr -> res (Z * gp_conf_node)).
Definition include_ends : Prop := forall p nm, is_cstr nm -> ends (handle_include p nm) (fun x => (x.1 = 0 \/ x.1 = -1) /\ steps_to p x.2).
Hypothesis Hinc : include_ends.

(** Indices stay below the bound, and values are C strings. *)
Definition room (parser : list yaml_event) (l : locals) : Prop :=
  0 <= seq_idx l /\ seq_idx l + zlen parser < INT_MAX /\ Forall c_event parser.
Lemma next_idx_ends l : 0 <= seq_idx l < INT_MAX ->
  next_idx l = Ok (dec (seq_idx l), set_idx (seq_idx l + 1) l).
Proof. intros ?. unfold next_idx. destruct (Z.eqb_spec (seq_idx l) INT_MAX); [lia|done]. Qed.

Lemma key_scalar_steps p l v :
  has_node p (node l) ->
  let (p', l') := key_scalar p l v in
  steps_to p p' /\ has_node p' (node l') /\ seq_idx l' = seq_idx l.
Proof.
  intros Hl. unfold key_scalar. case_bool_decide as Hv; [by split_and!|].
  set (p1 := if negb (is_seq p =? 0) then _ else p).
  assert (H1 : steps_to p p1).
  { unfold p1. destruct (negb _); [|reflexivity]. destruct (val p) eqn:E; [reflexivity|]. apply set_val_steps. by right. }
  set (p2 := match gp_conf_node_lookup_child p1 v with Some i => _ | None => _ end).
  assert (H2 : steps_to p1 p2 /\ is_Some (child p2 v)).
  { unfold p2, gp_conf_node_lookup_child. destruct (find_child (children p1) v) as [i|] eqn:Hi.
    - destruct (find_child_some _ _ _ Hi) as (c&Hc&Hn&_). rewrite Hc.
      assert (Hs : is_Some (child p1 v)) by (unfold child; rewrite Hi; simpl; eauto).
      destruct (Z.eqb_spec (final c) 0) as [Hf|]; [|split; [reflexivity|done]].
      pose proof (replace_steps p1 v i c _ Hi Hc (prune_evolves c Hf)) as Hr. split; [done|]. by apply Hr.
    - split; [by apply (append_steps p1 v)|]. rewrite (child_app _ v) by done. rewrite decide_True by done. eauto. }
  destruct H2 as [H2 Hc]. split_and!; [by etrans|done|done].
Qed.

Lemma scalar_event_ends p inseq l tag v :
  has_node p (node l) -> 0 <= seq_idx l < INT_MAX -> is_cstr v ->
  ends (scalar_event handle_include p inseq l tag v)
    (fun x => steps_to p x.1.2 /\ has_node x.1.2 (node x.2) /\ 0 <= seq_idx x.2 <= seq_idx l + 1).
Proof using Hinc.
  intros Hl Hi Hv. unfold scalar_event.
  assert (Hsame : steps_to p p /\ has_node p (node l) /\ 0 <= seq_idx l <= seq_idx l + 1) by (split_and!; [reflexivity|done|lia|lia]).
  assert (Hseq : ends (let* (nm, l) := next_idx l in
        Ok (true, seq_node p nm (set_val (Some v) (new_named nm)) id, l))
    (fun x => steps_to p x.1.2 /\ has_node x.1.2 (node x.2) /\ 0 <= seq_idx x.2 <= seq_idx l + 1)).
  { rewrite next_idx_ends by done. apply ends_ok. cbn.
    destruct (seq_node_steps p (dec (seq_idx l)) (set_val (Some v) (new_named (dec (seq_idx l)))) id) as [Hs _];
      [done|done|intros; reflexivity|]. split_and!; [done|by eapply has_node_steps|lia|lia]. }
  assert (Hkey : ends (let (p', l') := key_scalar p l v in Ok (true, p', l'))
    (fun x => steps_to p x.1.2 /\ has_node x.1.2 (node x.2) /\ 0 <= seq_idx x.2 <= seq_idx l + 1)).
  { pose proof (key_scalar_steps p l v Hl) as Hk. destruct (key_scalar p l v) as [p' l']. destruct Hk as (?&?&Heq).
    apply ends_ok. cbn. rewrite Heq. split_and!; [done|done|lia|lia]. }
  destruct (state l).
  - destruct v as [|x v]; [by apply ends_ok|]. destruct inseq; [done|exact Hkey].
  - destruct inseq; [destruct v; exact Hseq|].
    destruct (has_node_ok _ _ Hl) as [n Hn]. rewrite Hn. cbn [res_bind].
    assert (Hput : forall n', steps_to n n' -> steps_to p (put_node p (node l) n') /\
      has_node (put_node p (node l) n') (node l) /\ 0 <= seq_idx l <= seq_idx l + 1).
    { intros n' Hs. pose proof (put_steps _ _ _ _ Hn Hs). split_and!; [done|by eapply has_node_steps|lia|lia]. }
    case_bool_decide.
    + destruct v; (eapply ends_bind; [by apply Hinc|]); intros [r n'] [_ Hs]; destruct (negb (r =? 0)); apply ends_ok; by apply Hput.
    + destruct v; apply ends_ok; cbn; (destruct (Z.eqb_spec (final n) 0); [apply Hput, set_val_steps; by left|done]).
  - destruct inseq; [destruct v; exact Hseq|].
    destruct v; (eapply ends_bind; [by apply Hinc|]); intros [r p'] [_ Hs]; destruct (negb (r =? 0)); apply ends_ok; cbn;
      (split_and!; [done|by eapply has_node_steps|lia|lia]).
Qed.

Definition good_end (parser : list yaml_event) p (x : Z * list yaml_event * gp_conf_node) : Prop :=
  (x.1.1 = 0 \/ x.1.1 = -1) /\ x.1.2 `suffix_of` parser /\ steps_to p x.2.
Lemma good_end_weaken parser parser' p p' x :
  good_end parser' p' x -> parser' `suffix_of` parser -> steps_to p p' -> good_end parser p x.
Proof. intros (?&?&?) ? ?. split_and!; [done|by etrans|by etrans]. Qed.

Lemma room_next e parser l l' : room (e :: parser) l -> 0 <= seq_idx l' <= seq_idx l + 1 -> room parser l'.
Proof. unfold room, zlen. simpl. intros (?&?&[]%Forall_cons) ?. split_and!; [lia|lia|done]. Qed.
Lemma room_shorter parser parser' l : room parser l -> parser' `suffix_of` parser -> room parser' l.
Proof.
  unfold room, zlen. intros (?&?&Hf) Hs. pose proof (suffix_length _ _ Hs). split_and!; [lia|lia|].
  destruct Hs as [k ->]. by apply Forall_app in Hf as [_ ?].
Qed.

(** A call for a node below, and what follows it. *)
Lemma sub_call_ends (sub : res (Z * list yaml_event * gp_conf_node)) parser p n
    (wrap : gp_conf_node -> gp_conf_node) (after : list yaml_event -> gp_conf_node -> res (Z * list yaml_event * gp_conf_node)) :
  ends sub (good_end parser n) -> (forall n', steps_to n n' -> steps_to p (wrap n')) ->
  (forall parser' n', parser' `suffix_of` parser -> steps_to n n' -> ends (after parser' n') (good_end parser p)) ->
  ends (let* (r, parser, n) := sub in if negb (r =? 0) then Ok (-1, parser, wrap n) else after parser n)
    (good_end parser p).
Proof using.
  intros Hs Hw Ha. eapply ends_bind; [exact Hs|]. intros [[r pr] n'] (_&Hlen&Hst). cbn in Hlen, Hst.
  destruct (negb (r =? 0)); [|by apply Ha]. apply ends_ok. split_and!; [by right|done|by apply Hw].
Qed.

Lemma parse_loop_ends fuel parser p inseq rlevel l :
  (length parser < fuel)%nat -> has_node p (node l) -> room parser l ->
  ends (parse_loop handle_include fuel parser p inseq rlevel l) (good_end parser p).
Proof using Hinc.
  revert parser p inseq rlevel l. induction fuel as [|fuel IH]; intros parser p inseq rlevel l Hlen Hl Hroom; [lia|].
  destruct parser as [|e parser]; [apply ends_ok; split_and!; [by right|done|reflexivity]|].
  eapply (ends_mono _ (good_end parser p)); [|intros x Hx; eapply good_end_weaken; [exact Hx|by apply suffix_cons_r|reflexivity]].
  assert (Hstop : forall r p', r = 0 \/ r = -1 -> steps_to p p' -> good_end parser p (r, parser, p'))
    by (intros; by split_and!).
  assert (Hnext : forall parser' p' l', parser' `suffix_of` parser -> steps_to p p' -> has_node p' (node l') ->
    0 <= seq_idx l' <= seq_idx l + 1 ->
    ends (parse_loop handle_include fuel parser' p' inseq rlevel l') (good_end parser p)).
  { intros parser' p' l' Hle Hs Hl' Hi. eapply ends_mono.
    - apply IH; [apply suffix_length in Hle; simpl in Hlen; lia|done|]. eapply room_shorter; [by eapply room_next|done].
    - intros x Hx. by eapply good_end_weaken. }
  assert (Hsub : forall n inseq', ends (if RECURSION_LIMIT <? rlevel then Ok (-1, parser, n)
      else parse_loop handle_include fuel parser n inseq' (rlevel + 1) locals0) (good_end parser n)).
  { intros n inseq'. destruct (RECURSION_LIMIT <? rlevel); [apply ends_ok; split_and!; [by right|done|reflexivity]|].
    apply IH; [simpl in Hlen; lia|done|]. eapply (room_next e _ (set_idx 0 l)); [|cbn; lia].
    destruct Hroom as (?&?&?). split_and!; [done|cbn; lia|done]. }
  assert (Hidx : 0 <= seq_idx l < INT_MAX) by (unfold room, zlen in Hroom; simpl in Hroom; lia).
  assert (Hgo : ends (parse_loop handle_include fuel parser p inseq rlevel l) (good_end parser p))
    by (apply Hnext; [done|reflexivity|done|lia]).
  destruct e as [| |ver| | |tag v| | | |]; cbn [parse_loop]; try exact Hgo; try (apply ends_ok, Hstop; [by left|reflexivity]).
  - destruct ver as [[major minor]|]; [destruct (_ && _); [exact Hgo|]|]; apply ends_ok, Hstop; by (right || reflexivity).
  - eapply ends_bind; [apply scalar_event_ends; [done|done|by destruct Hroom as (_&_&[]%Forall_cons)]|]. intros [[ok p'] l'] (Hs&Hl'&Hi'). cbn in Hs, Hl', Hi'.
    destruct ok; [by apply Hnext|apply ends_ok, Hstop; [by right|done]].
  - destruct (has_node_ok _ _ Hl) as [n Hn]. rewrite Hn. cbn [res_bind].
    apply (sub_call_ends _ _ p n (put_node p (node l))); [apply Hsub|intros; by eapply put_steps|]. intros parser' n' Hle Hs.
    assert (Hp : steps_to p (put_node p (node l) (set_is_seq 1 n'))).
    { apply (put_steps _ _ _ _ Hn). etrans; [exact Hs|apply set_is_seq_steps]. }
    apply Hnext; [done|done|by eapply has_node_steps|cbn; lia].
  - destruct (has_node_ok _ _ Hl) as [n Hn]. destruct inseq.
    + rewrite next_idx_ends by done. cbn [res_bind]. set (nm := dec (seq_idx l)). cbn [node set_idx]. rewrite Hn. cbn [res_bind].
      destruct (seq_node_steps n nm (new_named nm) (set_is_seq 1)) as [Hsn Hnm]; [done|done|intros ?; apply set_is_seq_steps|].
      destruct (has_node_ok (seq_node n nm (new_named nm) (set_is_seq 1)) (Some nm) Hnm) as [c Hc]. rewrite Hc. cbn [res_bind].
      assert (Hput : forall c', steps_to c c' ->
        steps_to p (put_node p (node l) (put_node (seq_node n nm (new_named nm) (set_is_seq 1)) (Some nm) c'))).
      { intros c' Hs. apply (put_steps _ _ _ _ Hn). etrans; [exact Hsn|]. by apply (put_steps _ _ _ _ Hc). }
      apply (sub_call_ends _ _ p c (fun c => put_node p (node l) (put_node (seq_node n nm (new_named nm) (set_is_seq 1)) (Some nm) c)));
        [apply Hsub|done|]. intros parser' c' Hle Hs. specialize (Hput c' Hs).
      apply Hnext; [done|done|by eapply has_node_steps|cbn; lia].
    + rewrite Hn. cbn [res_bind].
      apply (sub_call_ends _ _ p n (put_node p (node l))); [apply Hsub|intros; by eapply put_steps|]. intros parser' n' Hle Hs.
      pose proof (put_steps _ _ _ _ Hn Hs) as Hp. apply Hnext; [done|done|by eapply has_node_steps|cbn; lia].
Qed.

Lemma yaml_parse_ends parser p inseq rlevel :
  zlen parser < INT_MAX -> Forall c_event parser -> ends (gp_conf_yaml_parse handle_include parser p inseq rlevel) (good_end parser p).
Proof using Hinc.
  intros Hlen Hf. unfold gp_conf_yaml_parse. destruct (_ <? _); [apply ends_ok; split_and!; [by right|done|reflexivity]|].
  apply parse_loop_ends; [lia|done|by split_and!].
Qed.
End Parse.

(** ** Files *)
Definition good_stream (parser : list yaml_event) : Prop := zlen parser < INT_MAX /\ Forall c_event parser.
#[export] Instance good_stream_dec s : Decision (good_stream s).
Proof. unfold good_stream. apply _. Defined.

Section Files.
Context (fopen : cstr -> option (list yaml_event)) (stat : cstr -> option Z) (junk : nat -> Z).
Definition good_files : Prop := forall f parser, fopen f = Some parser -> good_stream parser.
Hypothesis Hfs : good_files.
Implicit Types (cf : conf) (d filename nm v : cstr) (dir : option cstr) (files : nat).

Lemma handle_include_ends d files : include_ends (gp_conf_yaml_handle_include fopen junk (Some d) files).
Proof using Hfs.
  induction files as [|files IH]; intros p filename Hc; cbn [gp_conf_yaml_handle_include].
  all: assert (Hname : ends (if (1 <? zlen filename) && (char_at filename =? 47)
      then let* (m, _) := strlcpy (malloc junk PATH_MAX) filename PATH_MAX in Ok (c_string m)
      else let* d := of_option (Some d) in Ok (take (Z.to_nat (PATH_MAX - 1)) (d ++ [47] ++ filename))) (fun _ => True))
    by (destruct (_ && _); [|by apply ends_ok]; rewrite strlcpy_spec by (done || rewrite zlen_malloc; unfold PATH_MAX; lia); by apply ends_ok).
  all: destruct Hname as (f&->&_); cbn [res_bind].
  - apply ends_ok. split; [by right|reflexivity].
  - destruct (fopen f) as [parser|] eqn:Hf; [|apply ends_ok; split; [by right|reflexivity]].
    destruct (Hfs _ _ Hf). eapply ends_bind; [by apply yaml_parse_ends|]. intros [[r pr] p'] (_&_&Hs). apply ends_ok. cbn.
    split; [|done]. destruct (negb (r =? 0)); [by right|by left].
Qed.

(** What a load gives: a result, and a root that evolved. *)
Definition loaded cf pth (x : loader * Z) : Prop :=
  (x.2 = 0 \/ x.2 = -1) /\ exists n n', get_at cf pth = Ok n /\ steps_to n n' /\
    exists d, x.1 = (update_conf cf pth (fun _ => n'), Some d).
Lemma load_into_ends files cf d pth n parser :
  get_at cf pth = Ok n -> good_stream parser ->
  ends (load_into fopen junk files cf (Some d) pth parser) (loaded cf pth).
Proof using Hfs.
  intros Hn [Hl Hf]. unfold load_into. rewrite Hn. cbn [res_bind].
  eapply ends_bind; [apply yaml_parse_ends; [apply handle_include_ends|done|done]|]. intros [[r pr] n'] (Hr&_&Hs).
  apply ends_ok. split; [exact Hr|]. exists n, n'. split_and!; [done..|by exists d].
Qed.
Lemma get_at_root cf r : root cf = Some r -> get_at cf [] = Ok r.
Proof. unfold get_at. by intros ->. Qed.

(** The root after a load into the root. *)
Lemma load_file_ends files cf r dir filename :
  root cf = Some r ->
  ends (gp_conf_yaml_load_file fopen stat junk files (cf, dir) filename)
    (fun x => (x.2 = 0 \/ x.2 = -1) /\ exists r', root x.1.1 = Some r' /\ steps_to r r').
Proof using Hfs.
  intros Hr. unfold gp_conf_yaml_load_file.
  assert (Hsame : (-1 = 0 \/ -1 = -1) /\ exists r', root cf = Some r' /\ steps_to r r')
    by (split; [by right|exists r; split; [done|reflexivity]]).
  destruct (is_dir stat filename); [by apply ends_ok|].
  destruct (open_conf fopen files filename) as [infile|] eqn:Ho; [|by apply ends_ok].
  assert (Hg : good_stream infile) by (destruct files; [done|by eapply Hfs]).
  eapply ends_mono; [eapply load_into_ends; [by apply get_at_root|done]|].
  intros x (Hret&n&n'&Hn&Hs&d'&->). split; [done|]. rewrite (get_at_root _ _ Hr) in Hn. injection Hn as <-.
  exists n'. split; [|done]. cbn. by rewrite Hr.
Qed.
Lemma load_string_ends files cf r d events :
  root cf = Some r -> good_stream events ->
  ends (gp_conf_yaml_load_string fopen junk files (cf, Some d) events)
    (fun x => (x.2 = 0 \/ x.2 = -1) /\ exists r', root x.1.1 = Some r' /\ steps_to r r').
Proof using Hfs.
  intros Hr Hg. unfold gp_conf_yaml_load_string. cbn [fst snd].
  eapply ends_mono; [eapply load_into_ends; [by apply get_at_root|done]|].
  intros x (Hret&n&n'&Hn&Hs&d'&->). split; [done|]. rewrite (get_at_root _ _ Hr) in Hn. injection Hn as <-.
  exists n'. split; [|done]. cbn. by rewrite Hr.
Qed.

(** Below a prefix. *)
Lemma get_node_ends cf nm : is_cstr nm ->
  ends (gp_conf_get_node junk cf nm) (fun o => forall pth, o = Some pth ->
    fits nm /\ exists r n, root cf = Some r /\ node_at r pth = Some n).
Proof using.
  intros Hc. destruct (decide (fits nm)) as [Hf|Hf].
  - rewrite get_node_spec by done. apply ends_ok. intros pth Hp. split; [done|].
    destruct (root cf) as [r|]; [|done]. simpl in Hp. exists r. rewrite (find_path_node _ _ _ Hp).
    destruct (node_of r (components nm)) as [n|] eqn:E; [by exists n|]. apply find_path_none in E. congruence.
  - unfold gp_conf_get_node. rewrite node_name_too_long; [by apply ends_ok|done|]. unfold fits in Hf.
    destruct (Z.le_gt_cases NODE_NAME_MAX (zlen nm)); [done|]. destruct Hf. by split.
Qed.
Lemma set_ends cf r nm v : is_cstr nm -> root cf = Some r ->
  ends (gp_conf_set junk cf nm v) (fun x => is_Some (root x.1)).
Proof using.
  intros Hc Hr. destruct (decide (fits nm)) as [Hf|Hf].
  - destruct (set_spec junk cf r nm v Hr Hf) as (c'&->&Hr'&_). by apply ends_ok.
  - unfold gp_conf_set, gp_conf_get_node_or_create. rewrite node_name_too_long; [apply ends_ok; by exists r|done|].
    unfold fits in Hf. destruct (Z.le_gt_cases NODE_NAME_MAX (zlen nm)); [done|]. destruct Hf. by split.
Qed.
Lemma load_prefix_ends files cf r dir filename prefix :
  root cf = Some r -> is_cstr prefix ->
  ends (gp_conf_yaml_load_file_with_prefix fopen stat junk files (cf, dir) filename prefix)
    (fun x => (x.2 = 0 \/ x.2 = -1) /\ is_Some (root x.1.1)).
Proof using Hfs.
  intros Hr Hc. unfold gp_conf_yaml_load_file_with_prefix.
  eapply ends_bind; [by apply get_node_ends|]. intros o Ho.
  assert (Hsame : (-1 = 0 \/ -1 = -1) /\ is_Some (root cf)) by (split; [by right|by exists r]).
  destruct (is_dir stat filename); [by apply ends_ok|].
  destruct (open_conf fopen files filename) as [infile|] eqn:Hop; [|by apply ends_ok].
  assert (Hg : good_stream infile) by (destruct files; [done|by eapply Hfs]).
  set (d := match dir with None => _ | Some d => d end).
  assert (Hload : forall cf' pth r' n, root cf' = Some r' -> node_at r' pth = Some n ->
    ends (load_into fopen junk (pred files) cf' (Some d) pth infile) (fun x => (x.2 = 0 \/ x.2 = -1) /\ is_Some (root x.1.1))).
  { intros cf' pth r' n Hr' Hn. eapply ends_mono.
    - eapply load_into_ends; [|done]. unfold get_at. rewrite Hr'. cbn. by rewrite Hn.
    - intros x (Hret&?&?&_&_&?&->). split; [done|]. cbn. rewrite Hr'. by eexists. }
  destruct o as [pth|]; [destruct (Ho pth eq_refl) as (_&r'&n&?&?); by eapply Hload|].
  eapply ends_bind; [by eapply set_ends|]. intros [cf' ret] [r' Hr']. cbn in Hr'.
  eapply ends_bind; [by apply get_node_ends|]. intros [pth|] Ho'; [|apply ends_ok; split; [by right|by exists r']].
  destruct (Ho' pth eq_refl) as (_&r2&n&?&?). by eapply Hload.
Qed.
End Files.

(** ** The tree's own operations keep the names of siblings distinct *)
Lemma update_distinct f n pth :
  (forall m, name (f m) = name m /\ children (f m) = children m) ->
  distinct n = true -> distinct (update_at f n pth) = true /\ name (update_at f n pth) = name n.
Proof.
  intros Hf. revert n. induction pth as [|i pth IH]; intros n Hd; cbn [update_at].
  - destruct (Hf n) as [Hn Hc]. split; [|done]. revert Hd. by rewrite !distinct_spec, Hc.
  - destruct (children n !! i) as [c|] eqn:Hc; [|done]. split; [|done]. revert Hd. rewrite !distinct_spec. intros [Hnd Hall].
    destruct (IH c) as [Hd' Hn']; [apply Hall; by eapply list_elem_of_lookup_2|]. cbn [children set_children]. split.
    + rewrite list_fmap_insert, Hn', list_insert_id; [done|]. by rewrite list_lookup_fmap, Hc.
    + intros x [j Hj]%list_elem_of_lookup. apply list_lookup_insert_Some in Hj as [(_&<-&_)|[_ Hj]]; [done|].
      apply Hall. by eapply list_elem_of_lookup_2.
Qed.
Lemma create_path_distinct fin ks n :
  distinct n = true -> distinct (create_path fin n ks).1 = true /\ name (create_path fin n ks).1 = name n.
Proof.
  revert n. induction ks as [|k ks IH]; intros n Hd; [done|]. cbn [create_path].
  destruct (find_child (children n) k) as [i|] eqn:Hi.
  - destruct (find_child_some _ _ _ Hi) as (c&Hc&Hn&_). rewrite Hc.
    destruct (IH c) as [Hd' Hn']; [eapply (distinct_child n k); [done|unfold child; by rewrite Hi]|].
    destruct (create_path fin c ks) as [c' pth]. cbn [fst] in *. split; [|done].
    revert Hd. rewrite !distinct_spec. intros [Hnd Hall]. cbn [children set_children]. split.
    + rewrite list_fmap_insert, Hn', list_insert_id; [done|]. by rewrite list_lookup_fmap, Hc.
    + intros x [j Hj]%list_elem_of_lookup. apply list_lookup_insert_Some in Hj as [(->&->&_)|[_ Hj]]; [done|].
      apply Hall. by eapply list_elem_of_lookup_2.
  - destruct (IH (mk_conf_node (Some k) None 0 fin true [])) as [Hd' Hn']; [done|].
    destruct (create_path fin _ ks) as [c' pth]. cbn [fst] in *. split; [|done].
    by eapply ev_distinct; [apply (append_steps n k c')|].
Qed.
Lemma set_final_distinct junk cf r nm v (cf' : conf) z :
  root cf = Some r -> fits nm -> distinct r = true -> gp_conf_set_final junk cf nm v = Ok (cf', z) ->
  exists r', root cf' = Some r' /\ distinct r' = true.
Proof.
  intros Hr Hf Hd. unfold gp_conf_set_final, gp_conf_get_node_or_create. rewrite node_name_fits by done. cbn [res_bind].
  rewrite Hr. cbn [of_option res_bind]. rewrite create_keys_spec by lia.
  pose proof (create_path_distinct 1 (components nm) r Hd) as Hc. destruct (create_path 1 r _) as [r' pth]. cbn [fst res_bind] in *.
  intros [= <- _]. cbn. eexists. split; [done|]. apply update_distinct; [done|apply Hc].
Qed.

(** ** The properties *)
(** C20. Whatever a file contains and whatever it includes (directly, in a
    circle, under a key), every load ends with 0 or -1 and leaves a tree: no
    event sequence makes the loader follow a missing node, and the recursion
    over included files ends because only so many files can be open. *)
Theorem yaml_load_ends (fopen : cstr -> option (list yaml_event)) (stat : cstr -> option Z) (junk : nat -> Z)
    (files : nat) (cf : conf) (r : gp_conf_node) (dir : option cstr) (d filename prefix : cstr) (events : list yaml_event) :
  good_files fopen -> good_stream events -> root cf = Some r -> is_cstr prefix ->
  let ended := fun x : loader * Z => (x.2 = 0 \/ x.2 = -1) /\ is_Some (root x.1.1) in
  ends (gp_conf_yaml_load_file fopen stat junk files (cf, dir) filename) ended /\
  ends (gp_conf_yaml_load_string fopen junk files (cf, Some d) events) ended /\
  ends (gp_conf_yaml_load_file_with_prefix fopen stat junk files (cf, dir) filename prefix) ended.
Proof.
  intros Hfs Hev Hr Hp ended.
  assert (Hw : forall x : loader * Z, (x.2 = 0 \/ x.2 = -1) /\ (exists r', root x.1.1 = Some r' /\ steps_to r r') -> ended x)
    by (intros x (?&r'&?&_); split; [done|by exists r']).
  split_and!.
  - eapply ends_mono; [by apply load_file_ends|exact Hw].
  - eapply ends_mono; [by apply load_string_ends|exact Hw].
  - by eapply load_prefix_ends.
Qed.

(** C18. A value set final, as for a setting of the command line, is what
    every later load of a file leaves under its name, whatever the file and
    its includes say and whether the load succeeds or not. *)
Theorem yaml_load_keeps_final (fopen : cstr -> option (list yaml_event)) (stat : cstr -> option Z) (junk : nat -> Z)
    (files : nat) (cf : conf) (r : gp_conf_node) (dir : option cstr) (filename nm v : cstr) :
  good_files fopen -> root cf = Some r -> distinct r = true -> fits nm ->
  exists (c1 c2 : conf) d ret, gp_conf_set_final junk cf nm v = Ok (c1, 1) /\
    gp_conf_yaml_load_file fopen stat junk files (c1, dir) filename = Ok ((c2, d), ret) /\
    gp_conf_get junk c2 nm = Ok (Some (Some v)).
Proof.
  intros Hfs Hr Hd Hf. destruct (set_final_spec junk cf r nm v Hr Hf) as (c1&Hset&_&Hfin&Hget).
  destruct (set_final_distinct junk cf r nm v c1 1 Hr Hf Hd Hset) as (r1&Hr1&Hd1).
  destruct (load_file_ends fopen stat junk Hfs files c1 r1 dir filename Hr1) as ([[c2 d] ret]&Hload&_&r2&Hr2&Hev&_).
  exists c1, c2, d, ret. split_and!; [done..|]. specialize (Hget nm Hf). rewrite decide_True in Hget by done.
  rewrite !get_spec in * by done. cbn in Hr2. unfold is_final, conf_attrs, attrs in *. rewrite Hr1 in Hfin, Hget. rewrite Hr2.
  simpl in *. destruct (node_of r1 (components nm)) as [m|] eqn:Hm; [|done]. cbn in Hget, Hfin. injection Hget as Hv.
  destruct (ev_keeps _ _ Hev Hd1 _ m v Hm) as (m'&Hm'&_&Hv'); [by destruct (Z.eqb_spec (final m) 0)|done|].
  rewrite Hm'. cbn. by rewrite Hv'.
Qed.

(** ** A file that includes itself *)
Definition demo_events : list yaml_event :=
  [StreamStart; DocumentStart (Some (1, 1)); MappingStart; Scalar None (lit "a"); Scalar None (lit "2");
   Scalar None (lit "include"); Scalar None (lit "c.yaml"); MappingEnd; DocumentEnd; StreamEnd].
Definition demo_files (f : cstr) : option (list yaml_event) := if decide (f = lit "/etc/c.yaml") then Some demo_events else None.
Lemma demo_good : good_files demo_files.
Proof.
  intros f parser. unfold demo_files. destruct (decide _); [|done]. intros [= <-]. apply (bool_decide_unpack _). by vm_compute.
Qed.
Definition no_stat (f : cstr) : option Z := None.

(** Every file is opened until none can be. *)
Example demo_circle : (fun x => (x.1.2, x.2)) <$>
    match gp_conf_yaml_load_file demo_files no_stat no_junk 20 (empty_conf, None) (lit "/etc/c.yaml") with Ok x => Some x | _ => None end
  = Some (Some (lit "/etc"), -1).
Proof. vm_compute. reflexivity. Qed.
(** A relative include before any file has set [conf_dirname]. *)
Example string_include_null : gp_conf_yaml_load_string demo_files no_junk 20 (empty_conf, None) demo_events = Ub.
Proof. vm_compute. reflexivity. Qed.

Lemma yaml_load_ends_witness :
  ends (gp_conf_yaml_load_file demo_files no_stat no_junk 20 (empty_conf, None) (lit "/etc/c.yaml"))
    (fun x => (x.2 = 0 \/ x.2 = -1) /\ is_Some (root x.1.1)).
Proof.
  refine (proj1 (yaml_load_ends demo_files no_stat no_junk 20 empty_conf gp_conf_node_new None (lit "/etc") (lit "/etc/c.yaml")
    (lit "p") demo_events _ _ _ _)); [exact demo_good| | |].
  - apply (bool_decide_unpack _). by vm_compute.
  - reflexivity.
  - apply (bool_decide_unpack _). by vm_compute.
Defined.
Lemma yaml_load_keeps_final_witness :
  exists (c1 c2 : conf) d ret, gp_conf_set_final no_junk empty_conf (lit "a") (lit "1") = Ok (c1, 1) /\
    gp_conf_yaml_load_file demo_files no_stat no_junk 20 (c1, None) (lit "/etc/c.yaml") = Ok ((c2, d), ret) /\
    gp_conf_get no_junk c2 (lit "a") = Ok (Some (Some (lit "1"))).
Proof.
  apply (yaml_load_keeps_final demo_files no_stat no_junk 20 empty_conf gp_conf_node_new);
    [exact demo_good|reflexivity|reflexivity|apply fits_lit; vm_compute; reflexivity].
Defined.
