(* ===== verification/YamlDoc.v ===== *)
(** * gp_conf_yaml_loader.c: what a document becomes

    [yaml]: documents as data; [document]: the events libyaml delivers for
    one; [yaml_get]: what a dotted name means in it.  Loading a well-formed
    document into an empty configuration makes [gp_conf_get] answer as
    [yaml_get] does. *)

From S2P Require Import Prelude CStr Conf ConfInv Yaml YamlInv.
Local Open Scope Z_scope.

Inductive yaml :=
| YScalar (v : cstr)
| YSeq (items : list yaml)
| YMap (entries : list (cstr * yaml)).
Section YamlInd.
Context (P : yaml -> Prop) (Hs : forall v, P (YScalar v)) (Hl : forall l, Forall P l -> P (YSeq l))
  (Hm : forall es, Forall (fun e => P e.2) es -> P (YMap es)).
Fixpoint yaml_ind' (y : yaml) : P y :=
  match y with
  | YScalar v => Hs v
  | YSeq l => Hl l ((fix go l := match l return Forall P l with
      | [] => Forall_nil_2 P
      | x :: l => Forall_cons_2 P x l (yaml_ind' x) (go l) end) l)
  | YMap es => Hm es ((fix go l := match l return Forall (fun e => P e.2) l with
      | [] => Forall_nil_2 _
      | x :: l => Forall_cons_2 _ x l (match x return P x.2 with (k, v) => yaml_ind' v end) (go l) end) es)
  end.
End YamlInd.

Fixpoint events (y : yaml) : list yaml_event :=
  match y with
  | YScalar v => [Scalar None v]
  | YSeq items => SequenceStart :: flat_map events items ++ [SequenceEnd]
  | YMap es => MappingStart :: flat_map (fun e => match e with (k, v) => Scalar None k :: events v end) es ++ [MappingEnd]
  end.
Definition document (y : yaml) : list yaml_event :=
  StreamStart :: DocumentStart (Some (1, 1)) :: events y ++ [DocumentEnd; StreamEnd].

(** Keys are not empty, not "include" and differ within a mapping; the items
    of a sequence are no sequences. *)
Definition is_yseq (y : yaml) : bool := match y with YSeq _ => true | _ => false end.
Definition good_key (k : cstr) : bool := bool_decide (k <> [] /\ k <> lit "include").
Fixpoint well_formed (y : yaml) : bool :=
  match y with
  | YScalar _ => true
  | YSeq items => bool_decide (zlen items < INT_MAX) && forallb (fun x => negb (is_yseq x) && well_formed x) items
  | YMap es => bool_decide (NoDup es.*1) && forallb (fun e => match e with (k, v) => good_key k && well_formed v end) es
  end.
Fixpoint depth (y : yaml) : Z :=
  match y with
  | YScalar _ => 0
  | YSeq items => 1 + foldr (fun x d => Z.max (depth x) d) 0 items
  | YMap es => 1 + foldr (fun e d => Z.max (match e with (_, v) => depth v end) d) 0 es
  end.

(** Empty items are left out and not counted. *)
Fixpoint numbered (i : Z) (items : list yaml) : list (cstr * yaml) :=
  match items with
  | [] => []
  | YScalar [] :: items => numbered i items
  | y :: items => (dec i, y) :: numbered (i + 1) items
  end.
Definition entries_of (y : yaml) : list (cstr * yaml) :=
  match y with YScalar _ => [] | YSeq items => numbered 0 items | YMap es => es end.
Fixpoint assoc {A} (k : cstr) (l : list (cstr * A)) : option A :=
  match l with [] => None | (k', a) :: l => if bool_decide (k' = k) then Some a else assoc k l end.
(** The value at a path of names.  A collection has none, except that a
    mapping in a sequence has its first key. *)
Fixpoint yaml_get (item : bool) (y : yaml) (ks : list cstr) : option (option cstr) :=
  match ks with
  | [] => Some (match y with
                | YScalar v => Some v
                | YMap es => if item then fst <$> head es else None
                | YSeq _ => None
                end)
  | k :: ks => v ← assoc k (entries_of y); yaml_get (is_yseq y) v ks
  end.

(** The node a value is loaded into, given as it is before. *)
Definition first_key (es : list (cstr * yaml)) (n : gp_conf_node) : gp_conf_node :=
  match es with
  | (k, _) :: _ => if is_seq n =? 0 then n else match val n with None => set_val (Some k) n | Some _ => n end
  | [] => n
  end.
Definition item_node (i : Z) (y : yaml) : gp_conf_node :=
  match y with YMap _ => set_is_seq 1 (new_named (dec i)) | _ => new_named (dec i) end.
Fixpoint body (y : yaml) (n : gp_conf_node) {struct y} : gp_conf_node :=
  match y with
  | YScalar v => set_val (Some v) n
  | YSeq items =>
      set_children ((fix go i l := match l with
        | [] => []
        | YScalar [] :: l => go i l
        | y :: l => body y (item_node i y) :: go (i + 1) l
        end) 0 items) n
  | YMap es =>
      set_children ((fun e => match e with (k, v) =>
        (if is_yseq v then set_is_seq 1 else id) (body v (new_named k)) end) <$> es) (first_key es n)
  end.
Fixpoint item_nodes (i : Z) (l : list yaml) : list gp_conf_node :=
  match l with
  | [] => []
  | YScalar [] :: l => item_nodes i l
  | y :: l => body y (item_node i y) :: item_nodes (i + 1) l
  end.
Definition entry_node (e : cstr * yaml) : gp_conf_node :=
  match e with (k, v) => (if is_yseq v then set_is_seq 1 else id) (body v (new_named k)) end.
Lemma body_seq items n : body (YSeq items) n = set_children (item_nodes 0 items) n.
Proof. done. Qed.
Lemma body_map es n : body (YMap es) n = set_children (entry_node <$> es) (first_key es n).
Proof. done. Qed.
Lemma body_name y n : name (body y n) = name n.
Proof.
  destruct y as [v|l|es]; [done|by rewrite body_seq|]. rewrite body_map. cbn [name set_children]. unfold first_key.
  destruct es as [|[k v] es]; [done|]. destruct (is_seq n =? 0); [done|]. by destruct (val n).
Qed.
Lemma entry_name k y : name (entry_node (k, y)) = Some k.
Proof. cbn [entry_node]. destruct (is_yseq y); cbn [name set_is_seq id]; by rewrite body_name. Qed.

(** ** One child more *)
Definition add_child n c : gp_conf_node := set_children (children n ++ [c]) n.
Implicit Types (y v : yaml) (es : list (cstr * yaml)) (items : list yaml) (l : locals) (R : Z) (rest : list yaml_event).

Lemma the_node_added p k c : find_child (children p) k = None -> name c = Some k -> the_node (add_child p c) (Some k) = Ok c.
Proof. intros Hf Hn. rewrite the_node_some. unfold add_child. rewrite (child_app _ k) by done. by rewrite decide_True. Qed.
Lemma put_node_added p k c c' :
  find_child (children p) k = None -> name c = Some k -> put_node (add_child p c) (Some k) c' = add_child p c'.
Proof.
  intros Hf Hn. cbn [put_node]. unfold gp_conf_node_lookup_child, add_child. cbn [children set_children].
  rewrite (find_child_app _ _ _ Hf Hn). unfold set_children. cbn. f_equal.
  rewrite insert_app_r_alt by done. by rewrite Nat.sub_diag.
Qed.
Lemma seq_node_fresh p nm fresh change :
  find_child (children p) nm = None -> seq_node p nm fresh change = add_child p (change fresh).
Proof. intros Hf. unfold seq_node, gp_conf_node_lookup_child. by rewrite Hf. Qed.
Lemma add_children p c cs : set_children (children (add_child p c) ++ cs) (add_child p c) = set_children (children p ++ c :: cs) p.
Proof. unfold add_child, set_children. cbn. by rewrite <-app_assoc. Qed.
Lemma dec_inj i j : 0 <= i < INT_MAX -> 0 <= j < INT_MAX -> dec i = dec j -> i = j.
Proof.
  unfold INT_MAX. intros Hi Hj Heq. pose proof (strtoimax_dec i) as H1. pose proof (strtoimax_dec j) as H2.
  unfold INTMAX_MAX, INTMAX_MIN in *. rewrite Heq, H2 in H1 by lia. specialize (H1 ltac:(lia)). congruence.
Qed.
Lemma first_key_children es p : children (first_key es p) = children p.
Proof. destruct es as [|[k v] es]; [done|]. cbn. destruct (is_seq p =? 0); [done|]. by destruct (val p). Qed.
Lemma first_key_add es p c : first_key es (add_child p c) = add_child (first_key es p) c.
Proof. destruct es as [|[k v] es]; [done|]. cbn. destruct (is_seq p =? 0); [done|]. by destruct (val p). Qed.
Lemma first_key_twice e es p : first_key es (first_key [e] p) = first_key (e :: es) p.
Proof.
  destruct e as [k v]. cbn. destruct (is_seq p =? 0) eqn:Hs.
  - destruct es as [|[k' v'] es]; [done|]. cbn. by rewrite Hs.
  - destruct (val p) eqn:Hv; destruct es as [|[k' v'] es]; cbn; rewrite ?Hs, ?Hv; done.
Qed.
Lemma key_scalar_fresh p l k v :
  good_key k = true -> find_child (children p) k = None ->
  key_scalar p l k = (add_child (first_key [(k, v)] p) (new_named k), set_state CONF_VAL (set_node (Some k) l)).
Proof.
  intros [_ Hk]%bool_decide_eq_true Hf. unfold key_scalar. rewrite bool_decide_false by done.
  unfold gp_conf_node_lookup_child, first_key, add_child. destruct (is_seq p =? 0); cbn -[find_child].
  - by rewrite Hf.
  - destruct (val p); cbn -[find_child]; by rewrite Hf.
Qed.

(** ** A document's events, level by level *)
Definition inner y : list yaml_event :=
  match y with
  | YScalar _ => []
  | YSeq items => flat_map events items ++ [SequenceEnd]
  | YMap es => flat_map (fun e => match e with (k, v) => Scalar None k :: events v end) es ++ [MappingEnd]
  end.

Section Loads.
Context (handle_include : gp_conf_node -> cstr -> res (Z * gp_conf_node)).
Notation loop := (parse_loop handle_include).

(** The call for a collection's events builds [body]. *)
Definition loads y : Prop := forall n fuel rest R,
  match y with YScalar _ => False | _ => True end -> well_formed y = true -> children n = [] -> R + depth y <= 130 ->
  (length (inner y ++ rest) < fuel)%nat ->
  loop fuel (inner y ++ rest) n (is_yseq y) R locals0 = Ok (0, rest, body y n).
(** The loop gets from one state to another. *)
Definition reaches fuel parser p inseq R l rest p' l' : Prop :=
  exists fuel', (length rest < fuel')%nat /\ loop fuel parser p inseq R l = loop fuel' rest p' inseq R l'.

Lemma depth_level y : (match y with YScalar _ => 0 | _ => 1 end) <= depth y.
Proof.
  destruct y as [v|items|es]; cbn [depth]; [lia| |].
  - assert (0 <= foldr (fun x d => Z.max (depth x) d) 0 items); [|lia]. induction items; simpl; lia.
  - assert (0 <= foldr (fun e d => Z.max (match e with (_, v) => depth v end) d) 0 es); [|lia].
    induction es as [|[k v] es IH]; simpl; lia.
Qed.

(** The value of a key. *)
Lemma value_loads y p k R l fuel rest :
  loads y -> well_formed y = true -> find_child (children p) k = None -> state l = CONF_VAL -> node l = Some k ->
  R + depth y <= 129 -> (length (events y ++ rest) < fuel)%nat ->
  reaches fuel (events y ++ rest) (add_child p (new_named k)) false R l rest (add_child p (entry_node (k, y))) (set_state CONF_KEY l).
Proof.
  intros Hy Hwf Hf Hst Hnd HR Hfuel. destruct fuel as [|fuel]; [lia|]. exists fuel.
  assert (Hnew : the_node (add_child p (new_named k)) (Some k) = Ok (new_named k)) by by apply the_node_added.
  assert (Hput : forall c, put_node (add_child p (new_named k)) (Some k) c = add_child p c) by (intros; by apply put_node_added).
  destruct y as [v|items|es]; cbn [events app] in *.
  - split; [simpl in Hfuel; lia|]. cbn [parse_loop]. unfold scalar_event. rewrite Hst, Hnd, Hnew. cbn [res_bind].
    rewrite bool_decide_false by done. cbn [final new_named]. by rewrite Hput.
  - split; [simpl in Hfuel; rewrite length_app in Hfuel; lia|]. cbn [parse_loop].
    rewrite Hnd, Hnew. cbn [res_bind]. destruct (Z.ltb_spec RECURSION_LIMIT R) as [Hlt|Hle].
    { pose proof (depth_level (YSeq items)). unfold RECURSION_LIMIT in *. lia. }
    change true with (is_yseq (YSeq items)). change (flat_map events items ++ [SequenceEnd]) with (inner (YSeq items)).
    rewrite (Hy (new_named k) fuel rest (R + 1)); [|done|done|done|lia|simpl in *; lia]. cbn [res_bind]. cbv [negb Z.eqb].
    by rewrite Hput.
  - split; [simpl in Hfuel; rewrite length_app in Hfuel; lia|]. cbn [parse_loop].
    rewrite Hnd, Hnew. cbn [res_bind]. destruct (Z.ltb_spec RECURSION_LIMIT R) as [Hlt|Hle].
    { pose proof (depth_level (YMap es)). unfold RECURSION_LIMIT in *. lia. }
    change false with (is_yseq (YMap es)). change (flat_map _ es ++ [MappingEnd]) with (inner (YMap es)).
    rewrite (Hy (new_named k) fuel rest (R + 1)); [|done|done|done|lia|simpl in *; lia]. cbn [res_bind]. cbv [negb Z.eqb].
    by rewrite Hput.
Qed.

Lemma reaches_ok fuel parser p inseq R l rest p' l' x :
  reaches fuel parser p inseq R l rest p' l' ->
  (forall fuel', (length rest < fuel')%nat -> loop fuel' rest p' inseq R l' = Ok x) -> loop fuel parser p inseq R l = Ok x.
Proof. intros (f&Hf&->) H. by apply H. Qed.

Definition key_events es : list yaml_event :=
  flat_map (fun e => match e with (k, v) => Scalar None k :: events v end) es.
Definition entry_ok (e : cstr * yaml) : bool := match e with (k, v) => good_key k && well_formed v end.

Lemma entries_load es : Forall (fun e => loads e.2) es ->
  forall p l fuel rest R, forallb entry_ok es = true -> NoDup es.*1 ->
  (forall k, k ∈ es.*1 -> find_child (children p) k = None) -> state l = CONF_KEY ->
  (forall e, e ∈ es -> R + depth e.2 <= 129) -> (length (key_events es ++ MappingEnd :: rest) < fuel)%nat ->
  loop fuel (key_events es ++ MappingEnd :: rest) p false R l =
    Ok (0, rest, set_children (children p ++ (entry_node <$> es)) (first_key es p)).
Proof.
  induction 1 as [|[k v] es Hv _ IH]; intros p l fuel rest R Hok Hnd Hfresh Hst HR Hfuel.
  { destruct fuel; [simpl in Hfuel; lia|]. cbn. rewrite app_nil_r. by destruct p. }
  cbn [key_events flat_map] in *. fold (key_events es) in *. cbn [forallb entry_ok] in Hok.
  apply andb_true_iff in Hok as [[Hk Hwf]%andb_true_iff Hok]. apply NoDup_cons in Hnd as [Hnk Hnd].
  pose proof (Hfresh k) as Hfk. specialize (Hfk ltac:(by left)). destruct fuel as [|fuel]; [lia|].
  rewrite <-app_assoc in *. cbn [app] in *. cbn [parse_loop]. unfold scalar_event. rewrite Hst.
  assert (Hne : k <> []) by (by apply bool_decide_eq_true in Hk as [? _]). destruct k as [|x k]; [done|].
  rewrite (key_scalar_fresh p l (x :: k) v) by done. cbn [res_bind]. eapply reaches_ok.
  { apply value_loads; [done|done|by rewrite first_key_children|done|done|apply (HR (x :: k, v)); by left|simpl in Hfuel; lia]. }
  intros fuel' Hf'. rewrite IH; [| |done| |done| |done].
  - do 2 f_equal. rewrite first_key_add. unfold add_child. cbn [children set_children]. rewrite first_key_children, first_key_twice.
    unfold set_children. cbn. by rewrite <-app_assoc.
  - done.
  - intros k' Hk'. unfold add_child. cbn [children set_children]. rewrite first_key_children.
    rewrite find_child_app_ne; [apply Hfresh; by right|]. rewrite entry_name. intros [= <-]. done.
  - intros e He. apply HR. by right.
Qed.

(** An item of a sequence. *)
Lemma item_loads y p i R fuel rest :
  loads y -> well_formed y = true -> is_yseq y = false -> y <> YScalar [] -> 0 <= i < INT_MAX ->
  find_child (children p) (dec i) = None -> R + depth y <= 129 -> (length (events y ++ rest) < fuel)%nat ->
  reaches fuel (events y ++ rest) p true R (mk_locals None CONF_KEY i) rest
    (add_child p (body y (item_node i y))) (mk_locals None CONF_KEY (i + 1)).
Proof.
  intros Hy Hwf Hns Hne Hi Hf HR Hfuel. destruct fuel as [|fuel]; [lia|]. exists fuel.
  destruct y as [v|items|es]; [| done |]; cbn [events app] in *.
  - split; [simpl in Hfuel; lia|]. cbn [parse_loop]. unfold scalar_event. cbn [state]. destruct v as [|x v]; [done|].
    rewrite next_idx_ends by done. cbn [res_bind seq_idx set_idx node state]. by rewrite seq_node_fresh by done.
  - split; [simpl in Hfuel; rewrite length_app in Hfuel; lia|]. cbn [parse_loop].
    rewrite next_idx_ends by done. cbn [res_bind seq_idx set_idx node state].
    change (the_node p None) with (Ok p). cbn [res_bind].
    rewrite seq_node_fresh by done. rewrite the_node_added by done. cbn [res_bind].
    destruct (Z.ltb_spec RECURSION_LIMIT R) as [Hlt|Hle].
    { pose proof (depth_level (YMap es)). unfold RECURSION_LIMIT in *. lia. }
    change false with (is_yseq (YMap es)). change (flat_map _ es ++ [MappingEnd]) with (inner (YMap es)).
    rewrite (Hy (set_is_seq 1 (new_named (dec i))) fuel rest (R + 1)); [|done|done|done|lia|simpl in *; lia].
    cbn [res_bind]. cbv [negb Z.eqb]. rewrite put_node_added by done. done.
Qed.

Lemma items_load items : Forall loads items ->
  forall i p fuel rest R, forallb (fun x => negb (is_yseq x) && well_formed x) items = true ->
  0 <= i -> i + zlen items < INT_MAX -> (forall j, i <= j < INT_MAX -> find_child (children p) (dec j) = None) ->
  (forall y, y ∈ items -> R + depth y <= 129) -> (length (flat_map events items ++ SequenceEnd :: rest) < fuel)%nat ->
  loop fuel (flat_map events items ++ SequenceEnd :: rest) p true R (mk_locals None CONF_KEY i) =
    Ok (0, rest, set_children (children p ++ item_nodes i items) p).
Proof.
  induction 1 as [|y items Hy _ IH]; intros i p fuel rest R Hok Hi Hlen Hfresh HR Hfuel.
  { destruct fuel; [simpl in Hfuel; lia|]. cbn. rewrite app_nil_r. by destruct p. }
  cbn [flat_map forallb] in *. apply andb_true_iff in Hok as [[Hns Hwf]%andb_true_iff Hok].
  apply negb_true_iff in Hns. rewrite <-app_assoc in *. unfold zlen in Hlen. cbn [length] in Hlen.
  assert (Hrest : forall y', y' ∈ items -> R + depth y' <= 129) by (intros; apply HR; by right).
  assert (Hd : y = YScalar [] \/ y <> YScalar []) by (destruct y as [[|? ?]|?|?]; solve [by left | by right]).
  destruct Hd as [->|Hne].
  - destruct fuel as [|fuel]; [lia|]. cbn [events app parse_loop]. unfold scalar_event. cbn [state res_bind item_nodes].
    apply IH; [done|done|unfold zlen; lia|done|done|simpl in Hfuel; lia].
  - eapply reaches_ok; [apply item_loads; [done|done|done|done|lia|apply Hfresh; lia|apply HR; by left|done]|].
    intros fuel' Hf'. rewrite IH; [|done|lia|unfold zlen; lia| |done|done].
    + rewrite add_children. destruct y as [[|x v]|?|es]; done.
    + intros j Hj. unfold add_child. cbn [children set_children]. rewrite find_child_app_ne; [apply Hfresh; lia|].
      rewrite body_name. intros E. assert (dec i = dec j) as E'%dec_inj by (destruct y; cbn in E; congruence); lia.
Qed.

Lemma all_load y : loads y.
Proof.
  induction y as [v|items IH|es IH] using yaml_ind'; intros n fuel rest R Hc Hwf Hn HR Hfuel; [done| |].
  - cbn [well_formed] in Hwf. apply andb_true_iff in Hwf as [Hlen%bool_decide_eq_true Hwf].
    cbn [inner is_yseq] in *. rewrite <-app_assoc in *. cbn [app] in *.
    rewrite body_seq. change locals0 with (mk_locals None CONF_KEY 0). rewrite items_load; [by rewrite Hn|done|done|lia|lia| | |done].
    + intros j _. by rewrite Hn.
    + cbn [depth] in HR. clear -HR. induction items as [|x items IHl]; intros y Hy; [by apply not_elem_of_nil in Hy|].
      simpl in HR. apply elem_of_cons in Hy as [->|Hy]; [lia|]. apply IHl; [lia|done].
  - cbn [well_formed] in Hwf. apply andb_true_iff in Hwf as [Hnd%bool_decide_eq_true Hwf].
    cbn [inner is_yseq] in *. fold (key_events es) in *. rewrite <-app_assoc in *. cbn [app] in *.
    rewrite body_map. rewrite entries_load; [by rewrite Hn|done|done|done| |done| |done].
    + intros k _. by rewrite Hn.
    + cbn [depth] in HR. clear -HR. induction es as [|[k v] es IHl]; intros y Hy; [by apply not_elem_of_nil in Hy|].
      simpl in HR. apply elem_of_cons in Hy as [->|Hy]; simpl; [lia|]. apply IHl; [lia|done].
Qed.
End Loads.

(** ** Asking the tree *)
Lemma document_enters handle_include parser n n' :
  (2 <= length parser)%nat ->
  (forall fuel, (length parser < fuel)%nat ->
     parse_loop handle_include fuel parser n false 2 locals0 = Ok (0, [DocumentEnd; StreamEnd], n')) ->
  gp_conf_yaml_parse handle_include (StreamStart :: DocumentStart (Some (1, 1)) :: MappingStart :: parser) n false 0 = Ok (0, [], n').
Proof.
  intros Hlen Hl. unfold gp_conf_yaml_parse. cbv [RECURSION_LIMIT Z.ltb Z.compare Z.add]. cbn [length].
  specialize (Hl (S (length parser)) ltac:(lia)).
  assert (Hf : exists f, S (length parser) = S (S f)) by (exists (pred (length parser)); lia). destruct Hf as [f Hf].
  revert Hl Hf. generalize (S (length parser)). intros fuel Hl Hf. cbn [parse_loop]. change (the_node n (node locals0)) with (Ok n).
  cbn [res_bind]. change (RECURSION_LIMIT <? 1) with false. change (1 + 1) with 2. cbv iota.
  change ((1 =? YAML_VERSION_MAJOR) && (1 =? YAML_VERSION_MINOR)) with true. cbv iota. rewrite Hl, Hf. done.
Qed.
Lemma document_parsed handle_include es n :
  well_formed (YMap es) = true -> children n = [] -> depth (YMap es) <= 128 ->
  gp_conf_yaml_parse handle_include (document (YMap es)) n false 0 = Ok (0, [], body (YMap es) n).
Proof.
  intros Hwf Hn Hd. change (document (YMap es)) with
    (StreamStart :: DocumentStart (Some (1, 1)) :: MappingStart :: (inner (YMap es) ++ [DocumentEnd; StreamEnd])).
  apply document_enters; [rewrite length_app; simpl; lia|]. intros fuel Hf.
  apply (all_load handle_include (YMap es)); [done|done|done|lia|done].
Qed.

(** Names without and with a dot. *)
Lemma components_plain k : 46 ∉ k -> components k = [k].
Proof.
  induction k as [|x k IH]; [done|]. intros [Hx Hk]%not_elem_of_cons. cbn [components].
  destruct (Z.eqb_spec x 46); [congruence|]. by rewrite IH.
Qed.
Lemma components_dot k nm : 46 ∉ k -> components (k ++ 46 :: nm) = k :: components nm.
Proof. intros Hk. rewrite components_split, split_at_eq by done. done. Qed.

Lemma child_fmap n (f : cstr * yaml -> gp_conf_node) (l : list (cstr * yaml)) k :
  (forall e, name (f e) = Some e.1) -> child (set_children (f <$> l) n) k = (fun v => f (k, v)) <$> assoc k l.
Proof.
  intros Hf. unfold child. cbn [children set_children]. induction l as [|[k' v] l IH]; [done|]. cbn [fmap list_fmap find_child assoc].
  rewrite Hf. cbn [fst]. destruct (decide (k' = k)) as [->|Hne].
  - rewrite !bool_decide_true by done. done.
  - rewrite !bool_decide_false by congruence. rewrite <-IH. by destruct (find_child (f <$> l) k).
Qed.
Definition item_entry (e : cstr * yaml) : gp_conf_node :=
  body e.2 (match e.2 with YMap _ => set_is_seq 1 (new_named e.1) | _ => new_named e.1 end).
Lemma item_nodes_numbered items i : item_nodes i items = item_entry <$> numbered i items.
Proof.
  revert i. induction items as [|y items IH]; intros i; [done|]. destruct y as [[|x v]|l|es]; cbn [item_nodes numbered];
    rewrite IH; done.
Qed.
Lemma val_set_is_seq z n ks : val <$> node_of (set_is_seq z n) ks = val <$> node_of n ks.
Proof. by destruct ks. Qed.

Lemma get_body ks item y n :
  val n = None -> match y with YMap _ => (is_seq n =? 0) = negb item | _ => True end -> children n = [] -> val <$> node_of (body y n) ks = yaml_get item y ks.
Proof.
  revert item y n. induction ks as [|k ks IH]; intros item y n Hv Hs Hn.
  - cbn. f_equal. destruct y as [v|items|es]; [done|by rewrite body_seq|]. rewrite body_map. cbn [val set_children].
    destruct es as [|[k v] es]; cbn; [by destruct item|]. rewrite Hs. destruct item; cbn; [by rewrite Hv|done].
  - rewrite node_of_cons. cbn [yaml_get]. destruct y as [v|items|es]; cbn [entries_of is_yseq].
    + unfold child. cbn. by rewrite Hn.
    + rewrite body_seq, item_nodes_numbered, child_fmap by (intros [k' v]; unfold item_entry; rewrite body_name; by destruct v).
      destruct (assoc k (numbered 0 items)) as [v|] eqn:Ha; [|done]. cbn [fmap option_fmap option_map mbind option_bind].
      unfold item_entry. cbn [fst snd]. apply IH; by destruct v.
    + rewrite body_map, child_fmap by (intros [k' v]; apply entry_name).
      destruct (assoc k es) as [v|]; [|done]. cbn [fmap option_fmap option_map mbind option_bind entry_node].
      assert (Hb : val <$> node_of (body v (new_named k)) ks = yaml_get false v ks) by (apply IH; by destruct v).
      destruct (is_yseq v); [by rewrite val_set_is_seq|exact Hb].
Qed.

Definition test_doc : yaml :=
  YMap [(lit "rules", YSeq [YScalar (lit "a"); YScalar []; YMap [(lit "x", YScalar (lit "1")); (lit "y", YSeq [])]]);
        (lit "dir", YScalar (lit "/tmp"))].
Example test_doc_loads :
  gp_conf_yaml_parse (fun n _ => Ok (0, n)) (document test_doc) (gp_conf_node_new) false 0
    = Ok (0, [], body test_doc gp_conf_node_new).
Proof. vm_compute. reflexivity. Qed.

(** ** The properties *)
(** The configuration after loading a mapping into an empty one. *)
Lemma load_document fopen junk files (cf : conf) dir es :
  root cf = Some gp_conf_node_new -> well_formed (YMap es) = true -> depth (YMap es) <= 128 ->
  gp_conf_yaml_load_string fopen junk files (cf, dir) (document (YMap es)) =
    Ok ((set_root cf (Some (body (YMap es) gp_conf_node_new)), dir), 0).
Proof.
  intros Hr Hwf Hd. unfold gp_conf_yaml_load_string, load_into. cbn [fst snd]. rewrite (get_at_root _ _ Hr). cbn [res_bind].
  rewrite document_parsed by done. cbn [res_bind]. unfold update_conf. by rewrite Hr.
Qed.

(** C17. A document loaded into an empty configuration is read back by dotted
    names: for every name that fits the name buffer [gp_conf_get] gives what
    the document has under it (a scalar's text, NULL for a mapping or a
    sequence, the first key for a mapping in a sequence), and nothing where
    the document has nothing.  Empty items of a sequence are skipped. *)
Theorem yaml_load_then_get (fopen : cstr -> option (list yaml_event)) (junk : nat -> Z) (files : nat) (cf : conf)
    (dir : option cstr) (es : list (cstr * yaml)) :
  root cf = Some gp_conf_node_new -> well_formed (YMap es) = true -> depth (YMap es) <= 128 ->
  exists cf', gp_conf_yaml_load_string fopen junk files (cf, dir) (document (YMap es)) = Ok ((cf', dir), 0) /\
    forall nm, fits nm -> gp_conf_get junk cf' nm = Ok (yaml_get false (YMap es) (components nm)).
Proof.
  intros Hr Hwf Hd. eexists. split; [by apply load_document|]. intros nm Hf. rewrite get_spec by done.
  unfold conf_attrs, attrs. cbn [root set_root mbind option_bind].
  rewrite <-(get_body (components nm) false (YMap es) gp_conf_node_new) by done.
  by destruct (node_of (body (YMap es) gp_conf_node_new) (components nm)).
Qed.

(** An alias is skipped as if it were no event: the key before it takes
    the next key for its value, and that key's value becomes a key. *)
Theorem yaml_alias_shifts_keys (fopen : cstr -> option (list yaml_event)) (junk : nat -> Z) (files : nat) (cf : conf)
    (dir : option cstr) (k1 k2 v : cstr) :
  root cf = Some gp_conf_node_new -> good_key k1 = true -> good_key v = true -> k1 <> v -> k2 <> k1 -> k2 <> v ->
  Forall (fun k => fits k /\ 46 ∉ k) [k1; k2; v] ->
  exists cf', gp_conf_yaml_load_string fopen junk files (cf, dir)
      (StreamStart :: DocumentStart (Some (1, 1)) :: MappingStart :: Scalar None k1 :: Alias :: Scalar None k2 :: Scalar None v ::
       MappingEnd :: DocumentEnd :: StreamEnd :: []) = Ok ((cf', dir), 0) /\
    gp_conf_get junk cf' k1 = Ok (Some (Some k2)) /\ gp_conf_get junk cf' k2 = Ok None /\
    gp_conf_get junk cf' v = Ok (Some None).
Proof.
  intros Hr Hk1 Hv Hne Hn1 Hn2 Hf. apply Forall_cons in Hf as [[Hf1 Hc1] Hf]. apply Forall_cons in Hf as [[Hf2 Hc2] Hf].
  apply Forall_cons in Hf as [[Hf3 Hc3] _]. apply components_plain in Hc1, Hc2, Hc3.
  assert (Hcons : forall k, good_key k = true -> exists c k', k = c :: k')
    by (intros [|c k] [? _]%bool_decide_eq_true; [done|by eexists _, _]).
  set (p1 := add_child gp_conf_node_new (set_val (Some k2) (new_named k1))).
  assert (Hp1 : forall k, k <> k1 -> find_child (children p1) k = None)
    by (intros k Hk; unfold p1; cbn; by rewrite bool_decide_false by congruence).
  exists (set_root cf (Some (add_child p1 (new_named v)))). split.
  - unfold gp_conf_yaml_load_string, load_into. cbn [fst snd]. rewrite (get_at_root _ _ Hr). cbn [res_bind].
    rewrite (document_enters _ _ _ (add_child p1 (new_named v))); [cbn [res_bind]; unfold update_conf; by rewrite Hr|simpl; lia|].
    intros fuel Hfuel. cbn [length] in Hfuel. do 2 (destruct fuel as [|fuel]; [lia|]). cbn [parse_loop]. unfold scalar_event at 1.
    cbn [state locals0]. destruct (Hcons _ Hk1) as (x&k1'&E1). rewrite E1 at 1. rewrite (key_scalar_fresh _ _ _ (YScalar k2)) by done.
    cbn [res_bind first_key is_seq gp_conf_node_new Z.eqb]. eapply (reaches_ok _ _ _ _ _ _ _ [Scalar None v; MappingEnd; DocumentEnd; StreamEnd]).
    { apply (value_loads _ (YScalar k2) gp_conf_node_new k1); [apply all_load|done|done|done|done|cbn; lia|cbn; lia]. }
    intros fuel' Hf'. cbn [length] in Hf'. do 2 (destruct fuel' as [|fuel']; [lia|]). cbn [parse_loop]. unfold scalar_event.
    cbn [state set_state]. destruct (Hcons _ Hv) as (y&v'&E2). rewrite E2 at 1.
    change (add_child gp_conf_node_new (entry_node (k1, YScalar k2))) with p1.
    rewrite (key_scalar_fresh _ _ _ (YScalar k2)) by (done || by apply Hp1). done.
  - rewrite !get_spec by done. unfold conf_attrs, attrs. cbn [root set_root mbind option_bind]. rewrite Hc1, Hc2, Hc3.
    rewrite !node_of_cons. unfold add_child. rewrite !(child_app _ v) by (done || by apply Hp1).
    rewrite (decide_False (P := k1 = v)), (decide_False (P := k2 = v)), decide_True by done.
    unfold p1, add_child. rewrite !(child_app _ k1) by done. rewrite decide_True, decide_False by done. done.
Qed.

(** The loop over a sequence of two one-item sequences. *)
Lemma nested_items handle_include nm (a0 b0 : Z) (a b : cstr) rest fuel :
  (9 <= fuel)%nat ->
  parse_loop handle_include fuel (SequenceStart :: Scalar None (a0 :: a) :: SequenceEnd :: SequenceStart ::
      Scalar None (b0 :: b) :: SequenceEnd :: SequenceEnd :: rest) (new_named nm) true 3 locals0 =
    Ok (0, rest, set_is_seq 1 (add_child (new_named nm) (set_val (Some (a0 :: a)) (new_named (lit "0"))))).
Proof. intros Hf. do 9 (destruct fuel as [|fuel]; [lia|]). vm_compute. reflexivity. Qed.

(** In a sequence of sequences the inner ones are numbered from 0 each
    in the node of the outer one: the items of the second find the names of
    the first one's taken and are lost. *)
Theorem yaml_nested_sequences_collide (fopen : cstr -> option (list yaml_event)) (junk : nat -> Z) (files : nat) (cf : conf)
    (dir : option cstr) (k a b : cstr) :
  root cf = Some gp_conf_node_new -> good_key k = true -> 46 ∉ k -> a <> [] -> b <> [] ->
  fits (k ++ lit ".0") -> fits (k ++ lit ".1") ->
  exists cf', gp_conf_yaml_load_string fopen junk files (cf, dir)
      (document (YMap [(k, YSeq [YSeq [YScalar a]; YSeq [YScalar b]])])) = Ok ((cf', dir), 0) /\
    gp_conf_get junk cf' (k ++ lit ".0") = Ok (Some (Some a)) /\ gp_conf_get junk cf' (k ++ lit ".1") = Ok None.
Proof.
  intros Hr Hk Hdot Ha Hb Hf0 Hf1. destruct a as [|a0 a]; [done|]. destruct b as [|b0 b]; [done|].
  set (n := set_is_seq 1 (add_child (set_is_seq 1 (new_named k)) (set_val (Some (a0 :: a)) (new_named (lit "0"))))).
  assert (Hkk : exists c k', k = c :: k') by (destruct k; [by apply bool_decide_eq_true in Hk as [? _]|by eexists _, _]).
  exists (set_root cf (Some (add_child gp_conf_node_new n))). split.
  - unfold gp_conf_yaml_load_string, load_into. cbn [fst snd]. rewrite (get_at_root _ _ Hr). cbn [res_bind].
    change (document _) with (StreamStart :: DocumentStart (Some (1, 1)) :: MappingStart :: Scalar None k :: SequenceStart ::
      SequenceStart :: Scalar None (a0 :: a) :: SequenceEnd :: SequenceStart :: Scalar None (b0 :: b) :: SequenceEnd :: SequenceEnd ::
      MappingEnd :: DocumentEnd :: StreamEnd :: []).
    rewrite (document_enters _ _ _ (add_child gp_conf_node_new n)); [cbn [res_bind]; unfold update_conf; by rewrite Hr|simpl; lia|].
    intros fuel Hfuel. cbn [length] in Hfuel. destruct fuel as [|fuel]; [lia|]. cbn [parse_loop]. unfold scalar_event at 1.
    cbn [state locals0]. destruct Hkk as (x&k'&E). rewrite E at 1. rewrite (key_scalar_fresh _ _ _ (YScalar k)) by done.
    cbn [res_bind first_key is_seq gp_conf_node_new Z.eqb]. destruct fuel as [|fuel]; [lia|]. cbn [parse_loop].
    change (node (set_state CONF_VAL (set_node (Some k) locals0))) with (Some k). rewrite the_node_added by done.
    cbn [res_bind]. change (RECURSION_LIMIT <? 2) with false. change (2 + 1) with 3. cbv iota. rewrite nested_items by lia.
    cbn [res_bind]. change (negb (0 =? 0)) with false. cbv iota. rewrite put_node_added by done.
    do 2 (destruct fuel as [|fuel]; [lia|]). done.
  - rewrite !get_spec by done. unfold conf_attrs, attrs. cbn [root set_root mbind option_bind].
    change (k ++ lit ".0") with (k ++ 46 :: lit "0"). change (k ++ lit ".1") with (k ++ 46 :: lit "1").
    rewrite !components_dot by done. rewrite !node_of_cons. unfold add_child at 1 2. rewrite !(child_app _ k) by done.
    rewrite decide_True by done. done.
Qed.

Lemma yaml_load_then_get_witness :
  exists cf', gp_conf_yaml_load_string (fun _ => None) no_junk 0 (empty_conf, None) (document test_doc) = Ok ((cf', None), 0) /\
    gp_conf_get no_junk cf' (lit "rules.1.x") = Ok (Some (Some (lit "1"))) /\
    gp_conf_get no_junk cf' (lit "rules.1") = Ok (Some (Some (lit "x"))) /\ gp_conf_get no_junk cf' (lit "rules.2") = Ok None.
Proof.
  destruct (yaml_load_then_get (fun _ => None) no_junk 0 empty_conf None (entries_of test_doc)) as (cf'&Hl&Hg);
    [reflexivity|vm_compute; reflexivity|vm_compute; discriminate|].
  exists cf'. split; [exact Hl|].
  split; [|split]; (rewrite Hg; [vm_compute; reflexivity|apply fits_lit; vm_compute; reflexivity]).
Defined.
Lemma yaml_alias_shifts_keys_witness :
  exists cf', gp_conf_yaml_load_string (fun _ => None) no_junk 0 (empty_conf, None)
      [StreamStart; DocumentStart (Some (1, 1)); MappingStart; Scalar None (lit "dir"); Alias; Scalar None (lit "user");
       Scalar None (lit "root"); MappingEnd; DocumentEnd; StreamEnd] = Ok ((cf', None), 0) /\
    gp_conf_get no_junk cf' (lit "dir") = Ok (Some (Some (lit "user"))).
Proof.
  destruct (yaml_alias_shifts_keys (fun _ => None) no_junk 0 empty_conf None (lit "dir") (lit "user") (lit "root")) as (cf'&Hl&Hg&_);
    [reflexivity|reflexivity|reflexivity|discriminate|discriminate|discriminate| |exists cf'; split; [exact Hl|exact Hg]].
  apply (bool_decide_unpack _). vm_compute. exact I.
Defined.
Lemma yaml_nested_sequences_collide_witness :
  exists cf', gp_conf_yaml_load_string (fun _ => None) no_junk 0 (empty_conf, None)
      (document (YMap [(lit "m", YSeq [YSeq [YScalar (lit "1")]; YSeq [YScalar (lit "2")]])])) = Ok ((cf', None), 0) /\
    gp_conf_get no_junk cf' (lit "m.0") = Ok (Some (Some (lit "1"))) /\ gp_conf_get no_junk cf' (lit "m.1") = Ok None.
Proof.
  apply (yaml_nested_sequences_collide (fun _ => None) no_junk 0 empty_conf None (lit "m") (lit "1") (lit "2"));
    [reflexivity|reflexivity| |discriminate|discriminate| |];
    apply (bool_decide_unpack _); vm_compute; exact I.
Defined.
