(* ===== verification/Registry.v ===== *)
(** * Name tables: the registries of gp_codec.c and gp_msg_dispatcher.c

    Both files keep one lazily created [STRING_DICT] dictionary from names to
    pointers.  [NameTable] is what their users rely on; the dictionary-backed
    [registry] implements it through the map refinement of the hash table. *)

From S2P Require Import Prelude Hash Dict DictInv DictTypes DictRefine CStr.
Local Open Scope Z_scope.

(** A table of names: [nt_fetch t p nm] looks up the string [nm] held at
    address [p]. *)
Class NameTable (R V : Type) := {
  nt_ok : R -> Prop;
  nt_model : R -> gmap cstr V;
  nt_fetch : R -> Z -> cstr -> res (R * option V);
  (** the address is not that of a name the table owns *)
  nt_fresh : R -> Z -> Prop;
  nt_fetch_spec : forall t p nm, nt_ok t -> nt_fresh t p -> str_key_ok nm ->
    exists t', nt_fetch t p nm = Ok (t', nt_model t !! nm) /\ nt_ok t' /\ nt_model t' = nt_model t /\
      forall p', nt_fresh t p' -> nt_fresh t' p';
}.

Section Registry.
Context {V : Type} (seed : list Z) `{Hseed : !SeedOk seed}.
Notation ty := (StringDictType (V := V) seed).

(** [static dict *pb_map], [dict *callback_map]: NULL until first used. *)
Definition registry : Type := option (dict (list Z) V).
(** [dictCreate(STRING_DICT, 0)] picks [StringDictType]. *)
Definition get_map (r : registry) : dict (list Z) V := match r with Some d => d | None => _dictCreate end.
Example get_map_kind : dictCreate STRING_DICT 0 = Some StringPtr.
Proof. reflexivity. Qed.

(** [register_name_pb_map], [register_msg_callback]: [p] is the address of the
    caller's string, [ea] and [ka] what [malloc] returns for the entry and the
    copy of the name.  A second registration of a name is ignored. *)
Definition register_name (dict_can_resize : bool) (r : registry) (p : Z) (nm : (list Z)) (v : V) (ea ka : Z)
    : res registry :=
  let* (d, _) := dictAdd ty dict_can_resize (get_map r) (mk_dkey p nm) v ea ka in Ok (Some d).
(** [dictFetchValue(get_map(), name)] *)
Definition fetch_name (r : registry) (p : Z) (nm : (list Z)) : res (registry * option V) :=
  let* (d, v) := dictFetchValue ty (get_map r) (mk_dkey p nm) in Ok (Some d, v).

(** *** The contract *)
Definition registry_ok (r : registry) : Prop :=
  dict_wf ty str_key_ok (get_map r) /\ forall nm, dmodel (get_map r) !! nm <> Some None.
Definition registry_model (r : registry) : gmap (list Z) V := omap id (dmodel (get_map r)).
Definition registry_fresh (r : registry) (p : Z) : Prop :=
  forall e, e ∈ entries (get_map r) -> p <> k_ptr (key e).
Definition registry_room (r : registry) (ea : Z) : Prop :=
  zlen (entries (get_map r)) < max_entries /\ ea ∉ e_addr <$> entries (get_map r).

Lemma registry_ok_empty : registry_ok None /\ registry_model None = ∅.
Proof.
  split; [split; [apply dict_wf_init|by intros nm]|]. done.
Qed.

Lemma fresh_alias r p nm : registry_fresh r p -> alias_ok (get_map r) (mk_dkey p nm).
Proof. intros Hf e He Hp. by destruct (Hf e He). Qed.

Lemma fetch_name_spec r p nm :
  registry_ok r -> registry_fresh r p -> str_key_ok nm ->
  exists r', fetch_name r p nm = Ok (r', registry_model r !! nm) /\ registry_ok r' /\
    registry_model r' = registry_model r /\ forall p', registry_fresh r p' -> registry_fresh r' p'.
Proof.
  intros [Hd Hs] Hf Hk. unfold fetch_name, dictFetchValue.
  destruct (dictFind_spec ty str_key_ok (get_map r) (mk_dkey p nm)) as (d'&e&->&Hd'&Hp&_&Hr);
    [done|by apply fresh_alias|done|].
  pose proof (dmodel_perm ty str_key_ok _ _ Hd' Hp) as Hm.
  pose proof (dmodel_lookup ty str_key_ok _ _ _ Hd Hr) as Hl. cbn [k_val] in Hl. cbn [res_bind].
  assert (Hok' : registry_ok (Some d')) by (split; [done|]; cbn [get_map]; by rewrite Hm).
  assert (Hfr : forall p', registry_fresh r p' -> registry_fresh (Some d') p').
  { intros p' Hp' e'. cbn [get_map]. rewrite Hp. apply Hp'. }
  assert (Hmm : registry_model (Some d') = registry_model r) by (unfold registry_model; cbn [get_map]; by rewrite Hm).
  assert (Hlk : registry_model r !! nm = e ≫= Dict.val).
  { unfold registry_model. rewrite lookup_omap, Hl. by destruct e. }
  destruct e as [e|]; cbn [res_bind].
  - specialize (Hs nm). rewrite Hl in Hs. cbn in Hs. destruct (Dict.val e) as [v|] eqn:Hv; [|done].
    cbn [of_option res_bind]. exists (Some d'). split; [|done]. by rewrite Hlk; cbn; rewrite Hv.
  - exists (Some d'). split; [|done]. by rewrite Hlk.
Qed.

#[export] Instance registry_table : NameTable registry V := {|
  nt_ok := registry_ok; nt_model := registry_model; nt_fetch := fetch_name; nt_fresh := registry_fresh;
  nt_fetch_spec := fetch_name_spec;
|}.

(** Registering binds a new name and leaves a known one alone. *)
Lemma register_name_spec cr r p nm v ea ka :
  registry_ok r -> registry_fresh r p -> registry_room r ea -> str_key_ok nm ->
  exists r', register_name cr r p nm v ea ka = Ok r' /\ registry_ok r' /\
    registry_model r' = match registry_model r !! nm with
                        | Some _ => registry_model r
                        | None => <[nm := v]> (registry_model r)
                        end.
Proof.
  intros [Hd Hs] Hf [Hc Hea] Hk. unfold register_name.
  destruct (dictAdd_spec ty str_key_ok cr (get_map r) (mk_dkey p nm) v ea ka) as (d'&rc&->&Hd'&_&Hm);
    [done|by apply fresh_alias|done..|].
  cbn [res_bind]. exists (Some d'). split; [done|]. cbn [k_val] in Hm. pose proof (Hs nm) as Hn.
  unfold registry_ok, registry_model. cbn [get_map]. rewrite lookup_omap.
  destruct (dmodel (get_map r) !! nm) as [[w|]|] eqn:E; [|done|]; injection Hm as -> ->; cbn.
  - done.
  - rewrite omap_insert_Some with (y := v) by done. split; [|done]. split; [done|].
    intros nm'. destruct (decide (nm' = nm)) as [->|Hne]; [by rewrite lookup_insert_eq|].
    rewrite lookup_insert_ne by done. apply Hs.
Qed.
(** *** gp_msg_dispatcher.c *)
Definition register_msg_callback := register_name.
Definition get_msg_callback := fetch_name.

(** A run of registrations: the caller's pointer, the name, the callback and
    the two blocks [malloc] returns. *)
Definition registration : Type := (Z * list Z * V * Z * Z)%type.
Fixpoint register_all (cr : bool) (r : registry) (l : list registration) : res registry :=
  match l with
  | [] => Ok r
  | (p, nm, v, ea, ka) :: l => let* r := register_msg_callback cr r p nm v ea ka in register_all cr r l
  end.
(** What is bound to a name in the end: the first registration of it. *)
Fixpoint first_registered (l : list registration) (nm : list Z) : option V :=
  match l with
  | [] => None
  | (_, nm', v, _, _) :: l => if bool_decide (nm' = nm) then Some v else first_registered l nm
  end.

#[export] Instance registry_fresh_dec r p : Decision (registry_fresh r p).
Proof.
  refine (cast_if (decide (Forall (fun e => p <> k_ptr (key e)) (entries (get_map r)))));
    unfold registry_fresh; by rewrite <-Forall_forall.
Defined.
#[export] Instance registry_room_dec r ea : Decision (registry_room r ea).
Proof. unfold registry_room. apply _. Defined.
(** Valid names, callers' strings that are not the table's copies, fresh
    blocks. *)
Fixpoint registrations_ok (cr : bool) (r : registry) (l : list registration) : bool :=
  match l with
  | [] => true
  | (p, nm, v, ea, ka) :: l =>
      bool_decide (registry_fresh r p /\ registry_room r ea /\ str_key_ok nm) &&
      match register_msg_callback cr r p nm v ea ka with Ok r => registrations_ok cr r l | _ => true end
  end.

Lemma register_all_spec cr l r :
  registry_ok r -> registrations_ok cr r l = true ->
  exists r', register_all cr r l = Ok r' /\ registry_ok r' /\
    forall nm, registry_model r' !! nm =
      match registry_model r !! nm with Some v => Some v | None => first_registered l nm end.
Proof.
  revert r. induction l as [|[[[[p nm0] v] ea] ka] l IH]; intros r Hr Hl; cbn [register_all registrations_ok] in *.
  { exists r. split; [done|]. split; [done|]. intros nm. cbn. by destruct (registry_model r !! nm). }
  apply andb_true_iff in Hl as [(Hf&Hc&Hk)%bool_decide_eq_true Hl].
  destruct (register_name_spec cr r p nm0 v ea ka) as (r1&Ha&Hr1&Hm); [done..|].
  change (register_msg_callback cr r p nm0 v ea ka = Ok r1) in Ha. rewrite Ha in *. cbn [res_bind].
  destruct (IH r1 Hr1 Hl) as (r2&->&Hr2&Hm2). exists r2. split; [done|]. split; [done|].
  intros nm. rewrite Hm2, Hm. cbn [first_registered].
  destruct (registry_model r !! nm0) eqn:E0, (bool_decide_reflect (nm0 = nm)) as [->|Hne];
    rewrite ?E0, ?lookup_insert_eq, ?lookup_insert_ne by done; done.
Qed.
End Registry.
Arguments registry : clear implicits.

(** The message dispatcher: after any run of registrations, a name is
    answered with the callback registered for it first, and with NULL if there
    was none. *)
Theorem dispatcher_first_registration_wins {V} (seed : list Z) `{!SeedOk seed} (cr : bool)
    (l : list (registration (V := V))) :
  registrations_ok seed cr None l = true ->
  exists r, register_all seed cr None l = Ok r /\
    forall p nm, registry_fresh r p -> str_key_ok nm ->
      exists r', get_msg_callback seed r p nm = Ok (r', first_registered l nm).
Proof.
  intros Hl. destruct (register_all_spec seed cr l None) as (r&Ha&Hr&Hm); [apply registry_ok_empty|done|].
  exists r. split; [done|]. intros p nm Hp Hn.
  destruct (fetch_name_spec seed r p nm) as (r'&Hf&_); [done..|]. exists r'. rewrite Hm in Hf. exact Hf.
Qed.

Definition demo_registrations : list (registration (V := Z)) :=
  [(1000, lit "login", 1, 2, 3); (1001, lit "chat", 2, 4, 5); (1002, lit "login", 3, 6, 7)].
Lemma dispatcher_first_registration_wins_witness :
  exists r, register_all demo_seed true None demo_registrations = Ok r /\
    forall p nm, registry_fresh r p -> str_key_ok nm ->
      exists r', get_msg_callback demo_seed r p nm = Ok (r', first_registered demo_registrations nm).
Proof.
  apply (dispatcher_first_registration_wins demo_seed true demo_registrations). vm_compute. reflexivity.
Defined.
