(* ===== verification/Codec.v ===== *)
(** * gp_codec.c: length-prefixed protobuf frames

    [encode] writes magic, length, name length, name and packed message in
    network order; [decode] takes one frame off a [gp_buffer], looking the
    name up in a table of descriptors ([NameTable]).  protobuf-c is outside
    the sources: its sizes, packing and unpacking are a class of operations
    with the documented laws.  A name is a pointer: [name_mem] is the memory
    from it to the end of the object it points into. *)

From S2P Require Import Prelude Buffer DictTypes CStr Registry.
Local Open Scope Z_scope.

(** [protobuf_c_message_get_packed_size], [_pack], [_unpack]. *)
Class Protobuf (desc msg : Type) := {
  descriptor : msg -> desc;
  name_mem : desc -> list Z;
  get_packed_size : msg -> Z;
  pack : msg -> list Z;
  unpack : desc -> list Z -> option msg;
}.
(** [pack] writes [get_packed_size] bytes, and [unpack] reads them back. *)
Class ProtobufOk (desc msg : Type) `{!Protobuf desc msg} : Prop := {
  pack_size : forall m, zlen (pack m) = get_packed_size m;
  pack_bytes : forall m, Forall is_byte (pack m);
  unpack_pack : forall m, unpack (descriptor m) (pack m) = Some m;
}.

Definition k_header : Z := 4.
Definition magic : Z := 20201124. (* 0x1343EA4 *)
(** [memcpy(str + off, &be32, sizeof(int32_t))] with [be32 = htonl(z)]. *)
Definition put_be32 (str : list Z) (off z : Z) : res (list Z) :=
  of_option (mem_write str off (le_bytes 4 (htonl z))).

Section Codec.
Context {desc msg : Type} `{!Protobuf desc msg} (junk : nat -> Z).

Definition encode_errcode (errcode : Z) : res (list Z * Z) :=
  let tmp := k_header + k_header in
  let str := malloc junk tmp in
  let* str := put_be32 str 0 magic in
  let* str := put_be32 str k_header errcode in
  Ok (str, tmp).

Definition encode (m : msg) : res (list Z * Z) :=
  let name := name_mem (descriptor m) in
  let t := s32 (get_packed_size m) in
  let name_len := s32 (zlen (c_string name) + 1) in
  let* tmp_len := int_ok (k_header + k_header + k_header + name_len + t) in
  let str := malloc junk tmp_len in
  let* str := put_be32 str 0 magic in
  let* str := put_be32 str k_header (tmp_len - k_header - k_header) in
  let* str := put_be32 str (k_header + k_header) name_len in
  let* src := of_option (mem_read name 0 (name_len + 1)) in
  let* str := of_option (mem_write str (k_header + k_header + k_header) src) in
  let* str := of_option (mem_write str (k_header + k_header + k_header + name_len) (pack m)) in
  Ok (str, tmp_len).

(** The table of descriptors is one of the program's globals: it is passed
    and returned.  [p] is the address of the string [read_str] allocates. *)
Context {R : Type} `{!NameTable R desc}.
Definition decode (p : Z) (tbl : R) (b : gp_buffer) : res (option msg * gp_buffer * R) :=
  let* mg := peek_int32 b in
  if negb (mg =? magic) then Ok (None, retrieve_all b, tbl)
  else
    let* be32 := of_option (mem_read (buffer b) (reader_index b + 4) 4) in
    let len := s32 (ntohl (le_val be32)) in
    if (65536 <? len) || (len <? 0) then Ok (None, retrieve_all b, tbl)
    else if len + 8 <=? readable_bytes b then
      let b := retrieve b 8 in
      let* (name_len, b) := read_int32 b in
      let* (name, b) := read_str b name_len in
      let* (tbl, d) := nt_fetch tbl p (c_string name) in
      match d with
      | None => Ok (None, retrieve_all b, tbl)
      | Some d =>
          let* size := int_ok (len - 4 - name_len) in
          let* (m, b) := read_pb_msg unpack b d size in
          Ok (m, b, tbl)
      end
    else Ok (None, b, tbl).

(** [decode] as often as there are addresses, while it returns messages. *)
Fixpoint decode_all (ps : list Z) (tbl : R) (b : gp_buffer) : res (list msg * gp_buffer * R) :=
  match ps with
  | [] => Ok ([], b, tbl)
  | p :: ps =>
      let* (m, b, tbl) := decode p tbl b in
      match m with
      | None => Ok ([], b, tbl)
      | Some m => let* (ms, b, tbl) := decode_all ps tbl b in Ok (m :: ms, b, tbl)
      end
  end.
End Codec.

(** ** The frame *)
Section Frame.
Context {desc msg : Type} `{!Protobuf desc msg} `{!ProtobufOk desc msg} (junk : nat -> Z).
Implicit Types (m : msg).

Definition msg_name m : list Z := c_string (name_mem (descriptor m)).
Definition name_len m : Z := zlen (msg_name m) + 1.
Definition frame m : list Z :=
  be_bytes 4 magic ++ be_bytes 4 (4 + name_len m + zlen (pack m)) ++ be_bytes 4 (name_len m) ++
  msg_name m ++ [0] ++ pack m.
(** The name is terminated and one more byte of its object follows the NUL,
    the message is not empty, and the frame is within the limit of
    [decode]. *)
Definition encodable m : Prop :=
  (exists more, name_mem (descriptor m) = msg_name m ++ 0 :: more /\ more <> []) /\
  Forall (fun c => 1 <= c < 256) (msg_name m) /\ pack m <> [] /\ 4 + name_len m + zlen (pack m) <= 65536.

Lemma put_be32_app a old rest off z :
  off = zlen a -> length old = 4%nat -> put_be32 (a ++ old ++ rest) off z = Ok (a ++ be_bytes 4 z ++ rest).
Proof.
  intros Ho Hl. unfold put_be32, htonl. rewrite le_bytes_bswap.
  assert (be_bytes 4 (u32 z) = be_bytes 4 z) as ->.
  { unfold be_bytes. f_equal. change 4%nat with (length (le_bytes 4 z)) at 1. unfold u32.
    change 4294967296 with (256 ^ Z.of_nat 4). rewrite <-le_val_le_bytes. apply le_bytes_le_val, le_bytes_byte. }
  by rewrite (mem_write_app a old (be_bytes 4 z)) by (rewrite ?length_be_bytes; done).
Qed.

(** Any bytes, cut in pieces. *)
Lemma split_junk (l : list Z) k :
  0 <= k <= zlen l -> exists a b : list Z, l = a ++ b /\ zlen a = k /\ zlen b = zlen l - k.
Proof.
  intros Hk. exists (take (Z.to_nat k) l), (drop (Z.to_nat k) l). rewrite take_drop.
  unfold zlen in *. rewrite length_take, length_drop. split; [done|]. lia.
Qed.

Lemma c_string_terminated (t rest : list Z) :
  Forall (fun c => 1 <= c < 256) t -> c_string (t ++ 0 :: rest) = t.
Proof. induction 1 as [|c t Hc _ IH]; [done|]. cbn. destruct (Z.eqb_spec c 0); [lia|]. by rewrite IH. Qed.

Lemma zlen_pos {A} (l : list A) : l <> [] -> 1 <= zlen l.
Proof. destruct l; [done|]. rewrite zlen_cons. pose proof (zlen_nonneg l). lia. Qed.

Lemma encode_frame m : encodable m -> encode junk m = Ok (frame m, zlen (frame m)).
Proof.
  intros ((more&Hmem&Hmore)&Hname&Hpk&Hsz). unfold encode.
  change (c_string (name_mem (descriptor m))) with (msg_name m). rewrite Hmem, <-pack_size.
  pose proof (zlen_nonneg (msg_name m)) as Hn0. pose proof (zlen_pos _ Hpk) as Hp1.
  unfold name_len in Hsz. rewrite !s32_small by lia. unfold int_ok, k_header.
  rewrite bool_decide_true by lia. cbn [res_bind].
  set (nl := zlen (msg_name m) + 1). set (t := zlen (pack m)) in *.
  destruct more as [|x more]; [done|].
  assert (HJ : zlen (malloc junk (4 + 4 + 4 + nl + t)) = 12 + nl + t) by (rewrite zlen_malloc; lia).
  revert HJ. generalize (malloc junk (4 + 4 + 4 + nl + t)). intros J HJ.
  destruct (split_junk J 4) as (ja&J1&->&Ha&HJ1); [lia|]. rewrite HJ in HJ1.
  destruct (split_junk J1 4) as (jb&J2&->&Hb&HJ2); [lia|]. rewrite HJ1 in HJ2.
  destruct (split_junk J2 4) as (jc&J3&->&Hc&HJ3); [lia|]. rewrite HJ2 in HJ3.
  destruct (split_junk J3 (nl + 1)) as (jd&J4&->&Hd&HJ4); [lia|]. rewrite HJ3 in HJ4.
  assert (Hbe : forall z, zlen (be_bytes 4 z) = 4) by (intros; apply zlen_be_bytes).
  assert (Hn4 : forall l : list Z, zlen l = 4 -> length l = 4%nat) by (unfold zlen; lia).
  pose proof (put_be32_app [] ja) as Hp0. cbn [app] in Hp0. rewrite Hp0 by auto. clear Hp0. cbn [res_bind].
  rewrite (put_be32_app (be_bytes 4 magic) jb) by (rewrite ?Hbe; auto). cbn [res_bind].
  rewrite app_assoc. rewrite (put_be32_app (be_bytes 4 magic ++ _) jc) by (rewrite ?zlen_app, ?Hbe; auto).
  cbn [res_bind].
  replace (msg_name m ++ 0 :: x :: more) with ([] ++ (msg_name m ++ [0; x]) ++ more) by (by rewrite <-app_assoc).
  rewrite mem_read_app; [|done|unfold nl; rewrite zlen_app, !zlen_cons; change (zlen (@nil Z)) with 0; lia].
  cbn [of_option res_bind].
  rewrite (app_assoc (be_bytes 4 magic ++ _)).
  rewrite mem_write_app; cycle 1.
  { rewrite !zlen_app, !Hbe. lia. }
  { unfold nl, zlen in *. rewrite length_app. simpl. lia. }
  cbn [of_option res_bind].
  match goal with |- context [mem_write (?a ++ (?n ++ [0; x]) ++ J4)] =>
    replace (a ++ (n ++ [0; x]) ++ J4) with ((a ++ n ++ [0]) ++ ([x] ++ J4) ++ []) end.
  2: { by rewrite app_nil_r, <-!app_assoc. }
  rewrite mem_write_app; cycle 1.
  { rewrite !zlen_app, !Hbe. unfold nl. rewrite zlen_cons. change (zlen (@nil Z)) with 0. lia. }
  { rewrite length_app. simpl. unfold t, zlen in *. lia. }
  cbn [of_option res_bind]. rewrite app_nil_r. unfold frame, name_len.
  rewrite !zlen_app, !Hbe, zlen_cons, <-!app_assoc. change (zlen (@nil Z)) with 0. fold t nl.
  do 2 f_equal; [|lia]. do 5 f_equal; lia.
Qed.

(** A name with nothing readable after its NUL is read past its end. *)
Lemma encode_overread m : zlen (name_mem (descriptor m)) = name_len m -> name_len m < 2147483647 -> encode junk m = Ub.
Proof.
  intros Hz Hl. unfold encode. fold (msg_name m). fold (name_len m).
  pose proof (zlen_nonneg (msg_name m)). assert (s32 (name_len m) = name_len m) as ->.
  { apply s32_small. unfold name_len in *. lia. }
  unfold int_ok. destruct (bool_decide _); [|done]. cbn [res_bind].
  assert (Hput : forall l o z, put_be32 l o z = Ub \/ exists l', put_be32 l o z = Ok l').
  { intros l o z. unfold put_be32. destruct (mem_write _ _ _); [right|left]; eauto. }
  assert (Hread : mem_read (name_mem (descriptor m)) 0 (name_len m + 1) = None).
  { unfold mem_read. rewrite bool_decide_false; [done|]. lia. }
  do 3 (match goal with |- context [put_be32 ?l ?o ?z] =>
    destruct (Hput l o z) as [->|[? ->]]; cbn [res_bind]; [done|] end).
  by rewrite Hread.
Qed.
End Frame.

(** ** Reading a frame back *)
Section Decode.
Context {desc msg : Type} `{!Protobuf desc msg} `{!ProtobufOk desc msg}.
Context {R : Type} `{!NameTable R desc}.
Implicit Types (m : msg) (b : gp_buffer).

Lemma mem_read_in_contents b off n :
  wf b -> 0 <= off -> 0 <= n -> off + n <= zlen (contents b) ->
  mem_read (buffer b) (reader_index b + off) n = Some (take (Z.to_nat n) (drop (Z.to_nat off) (contents b))).
Proof.
  intros H Ho Hn Hle. rewrite zlen_contents in Hle by done. rewrite mem_read_some by wf_lia. f_equal.
  unfold contents. rewrite skipn_firstn_comm, drop_drop, take_take. f_equal; [lia|]. f_equal. wf_lia.
Qed.

Lemma s32_be z : -2147483648 <= z < 2147483648 -> s32 (bswap 4 (le_val (be_bytes 4 z))) = z.
Proof.
  intros Hz. rewrite bswap_le_val by (apply be_bytes_byte || apply length_be_bytes).
  rewrite be_val_be_bytes. change (256 ^ Z.of_nat 4) with 4294967296. change (s32 (u32 z) = z).
  rewrite s32_u32. by apply s32_small.
Qed.

Lemma peek_int32_spec b z rest :
  wf b -> contents b = be_bytes 4 z ++ rest -> -2147483648 <= z < 2147483648 -> peek_int32 b = Ok z.
Proof.
  intros H Hc Hz. unfold peek_int32. rewrite readable_bytes_contents by done.
  assert (Hl : zlen (contents b) = 4 + zlen rest) by (rewrite Hc, zlen_app, zlen_be_bytes; lia).
  pose proof (zlen_nonneg rest). destruct (Z.leb_spec 4 (zlen (contents b))); [|lia].
  rewrite peek_contents by (done || lia). cbn [res_bind]. rewrite Hc, take_app_length' by done.
  by rewrite s32_be.
Qed.
Lemma retrieve_app b x rest :
  wf b -> contents b = x ++ rest -> wf (retrieve b (zlen x)) /\ contents (retrieve b (zlen x)) = rest.
Proof.
  intros H Hc. destruct (retrieve_wf b (zlen x) H (zlen_nonneg x)) as [Hw Hr]. split; [done|].
  rewrite Hr, Hc. apply drop_app_length'. unfold zlen. lia.
Qed.
Lemma read_int32_spec b z rest :
  wf b -> contents b = be_bytes 4 z ++ rest -> -2147483648 <= z < 2147483648 ->
  exists b', read_int32 b = Ok (z, b') /\ wf b' /\ contents b' = rest.
Proof.
  intros H Hc Hz. unfold read_int32. rewrite (peek_int32_spec b z rest) by done. cbn [res_bind].
  eexists. split; [done|]. by apply (retrieve_app b (be_bytes 4 z)).
Qed.
(** Both reads of [n] bytes: within the contents, and kept out of it. *)
Lemma read_str_spec b x rest :
  wf b -> contents b = x ++ rest -> zlen x < 2147483647 ->
  exists b', read_str b (zlen x) = Ok (x ++ [0], b') /\ wf b' /\ contents b' = rest.
Proof.
  intros H Hc Hz. unfold read_str, peek_str. rewrite readable_bytes_contents by done.
  pose proof (zlen_nonneg x). pose proof (zlen_nonneg rest).
  assert (Hl : zlen (contents b) = zlen x + zlen rest) by (by rewrite Hc, zlen_app).
  rewrite u64_small by lia. destruct (Z.leb_spec (zlen x) (zlen (contents b))); [|lia].
  rewrite int_ok_small by lia. cbn [res_bind].
  rewrite peek_contents by (done || lia). cbn [res_bind]. rewrite Hc, take_app_length' by (unfold zlen; lia).
  eexists. split; [done|]. by apply retrieve_app.
Qed.
Lemma read_pb_msg_spec b d x rest :
  wf b -> contents b = x ++ rest -> zlen x < 2147483648 ->
  exists b', read_pb_msg unpack b d (zlen x) = Ok (unpack d x, b') /\ wf b' /\ contents b' = rest.
Proof.
  intros H Hc Hz. unfold read_pb_msg, peek_pb_msg. rewrite readable_bytes_contents by done.
  pose proof (zlen_nonneg x). pose proof (zlen_nonneg rest).
  assert (Hl : zlen (contents b) = zlen x + zlen rest) by (by rewrite Hc, zlen_app).
  rewrite u64_small by lia. destruct (Z.leb_spec (zlen x) (zlen (contents b))); [|lia].
  rewrite peek_contents by (done || lia). cbn [res_bind]. rewrite Hc, take_app_length' by (unfold zlen; lia).
  eexists. split; [done|]. by apply retrieve_app.
Qed.

(** The header of a frame: what [decode] sees before it consumes anything. *)
Lemma decode_header b (n : Z) rest :
  wf b -> contents b = be_bytes 4 magic ++ be_bytes 4 n ++ rest -> -2147483648 <= n < 2147483648 ->
  peek_int32 b = Ok magic /\
  exists x, mem_read (buffer b) (reader_index b + 4) 4 = Some x /\ s32 (ntohl (le_val x)) = n.
Proof.
  intros H Hc Hn. split; [by apply (peek_int32_spec b magic (be_bytes 4 n ++ rest))|].
  assert (Hl : zlen (contents b) = 8 + zlen rest) by (rewrite Hc, !zlen_app, !zlen_be_bytes; lia).
  pose proof (zlen_nonneg rest). rewrite mem_read_in_contents by (done || lia).
  eexists. split; [done|]. rewrite Hc.
  change (Z.to_nat 4) with (length (be_bytes 4 magic)) at 2. rewrite drop_app_length, take_app_length' by done.
  unfold ntohl. rewrite u32_small.
  - by apply s32_be.
  - apply (le_val_bound (be_bytes 4 n)), be_bytes_byte.
Qed.

Definition fresh_at (tbl : R) (ps : list Z) : Prop := Forall (nt_fresh tbl) ps.

Lemma decode_frame p tbl b m rest :
  wf b -> nt_ok tbl -> nt_fresh tbl p -> encodable m -> nt_model tbl !! msg_name m = Some (descriptor m) ->
  contents b = frame m ++ rest ->
  exists b' tbl', decode p tbl b = Ok (Some m, b', tbl') /\ wf b' /\ contents b' = rest /\
    nt_ok tbl' /\ nt_model tbl' = nt_model tbl /\ forall p', nt_fresh tbl p' -> nt_fresh tbl' p'.
Proof.
  intros H Ht Hp (_&Hname&Hpk&Hsz) Hreg Hc. unfold name_len in Hsz.
  pose proof (zlen_nonneg (msg_name m)) as Hn0. pose proof (zlen_pos _ Hpk) as Hp1.
  set (len := 4 + name_len m + zlen (pack m)).
  assert (Hlen : len = 4 + (zlen (msg_name m) + 1) + zlen (pack m)) by done.
  assert (Hc1 : contents b = be_bytes 4 magic ++ be_bytes 4 len ++
    (be_bytes 4 (name_len m) ++ (msg_name m ++ [0]) ++ pack m ++ rest)).
  { rewrite Hc. unfold frame. by rewrite <-!app_assoc. }
  destruct (decode_header b len _ H Hc1) as (Hpeek&x&Hx&Hxl); [lia|].
  unfold decode. rewrite Hpeek. cbn [res_bind]. change (negb (magic =? magic)) with false. cbv iota.
  rewrite Hx. cbn [of_option res_bind]. rewrite Hxl.
  destruct (Z.ltb_spec 65536 len); [lia|]. destruct (Z.ltb_spec len 0); [lia|]. cbn [orb].
  rewrite readable_bytes_contents by done.
  assert (Hcl : zlen (contents b) = len + 8 + zlen rest).
  { rewrite Hc1, !zlen_app, !zlen_be_bytes. change (zlen [0]) with 1. lia. }
  pose proof (zlen_nonneg rest). destruct (Z.leb_spec (len + 8) (zlen (contents b))); [|lia].
  rewrite app_assoc in Hc1. destruct (retrieve_app b _ _ H Hc1) as [W1 C1].
  change (zlen (be_bytes 4 magic ++ be_bytes 4 len)) with 8 in *.
  destruct (read_int32_spec _ _ _ W1 C1) as (b2&->&W2&C2); [unfold name_len; lia|]. cbn [res_bind].
  assert (Hnl : name_len m = zlen (msg_name m ++ [0])) by (rewrite zlen_app; done).
  destruct (read_str_spec b2 _ _ W2 C2) as (b3&Hr3&W3&C3); [rewrite <-Hnl; unfold name_len; lia|].
  rewrite <-Hnl in Hr3. rewrite Hr3. cbn [res_bind]. rewrite <-app_assoc.
  change ([0] ++ [0]) with (0 :: [0]). rewrite c_string_terminated by done.
  destruct (nt_fetch_spec tbl p (msg_name m) Ht Hp) as (tbl'&->&Ht'&Hm'&Hf'); [split; [done|lia]|].
  cbn [res_bind]. rewrite Hreg. unfold int_ok. replace (len - 4 - name_len m) with (zlen (pack m)) by (unfold len; lia).
  rewrite bool_decide_true by lia. cbn [res_bind].
  destruct (read_pb_msg_spec b3 (descriptor m) _ _ W3 C3) as (b4&->&W4&C4); [lia|]. cbn [res_bind].
  rewrite unpack_pack. exists b4, tbl'. split; [done|]. done.
Qed.

Lemma decode_frames ms ps tbl b rest :
  wf b -> nt_ok tbl -> fresh_at tbl ps -> length ps = length ms -> Forall encodable ms ->
  Forall (fun m => nt_model tbl !! msg_name m = Some (descriptor m)) ms ->
  contents b = mjoin (frame <$> ms) ++ rest ->
  exists b' tbl', decode_all ps tbl b = Ok (ms, b', tbl') /\ wf b' /\ contents b' = rest.
Proof.
  revert ps tbl b. induction ms as [|m ms IH]; intros [|p ps] tbl b H Ht Hps Hl He Hr Hc; try discriminate Hl.
  { by exists b, tbl. }
  apply Forall_cons in Hps as [Hp Hps]. apply Forall_cons in He as [He Hes]. apply Forall_cons in Hr as [Hr Hrs].
  rewrite fmap_cons in Hc. change (contents b = (frame m ++ mjoin (frame <$> ms)) ++ rest) in Hc. rewrite <-app_assoc in Hc.
  destruct (decode_frame p tbl b m _ H Ht Hp He Hr Hc) as (b1&tbl1&Hd&W1&C1&Ht1&Hm1&Hf1).
  cbn [decode_all]. rewrite Hd. cbn [res_bind].
  destruct (IH ps tbl1 b1) as (b2&tbl2&->&W2&C2); auto.
  - eapply Forall_impl; [exact Hps|done].
  - by rewrite Hm1.
  - cbn [res_bind]. by exists b2, tbl2.
Qed.
End Decode.

(** ** Properties *)
Section Properties.
Context {desc msg : Type} `{!Protobuf desc msg} `{!ProtobufOk desc msg}.
Context {R : Type} `{!NameTable R desc}.

Lemma decode_short p tbl b : wf b -> zlen (contents b) < 4 -> decode (msg := msg) p tbl b = Abort.
Proof.
  intros H Hl. unfold decode, peek_int32. rewrite readable_bytes_contents by done.
  by destruct (Z.leb_spec 4 (zlen (contents b))); [lia|].
Qed.

Lemma frame_header (m : msg) : encodable m ->
  exists n body, frame m = (be_bytes 4 magic ++ be_bytes 4 n) ++ body /\ n = zlen body /\ 0 <= n <= 65536.
Proof.
  intros (_&_&Hpk&Hsz). pose proof (zlen_pos _ Hpk). pose proof (zlen_nonneg (msg_name m)).
  exists (4 + name_len m + zlen (pack m)), (be_bytes 4 (name_len m) ++ msg_name m ++ [0] ++ pack m).
  unfold name_len in *. split; [unfold frame; by rewrite <-!app_assoc|].
  rewrite !zlen_app, zlen_be_bytes. change (zlen [0]) with 1. lia.
Qed.

Lemma decode_waits p tbl b (m : msg) q :
  wf b -> encodable m -> frame m = contents b ++ q -> q <> [] -> 8 <= zlen (contents b) ->
  decode p tbl b = Ok (None : option msg, b, tbl).
Proof.
  intros H He Hf Hq H8. destruct (frame_header m He) as (n&body&Hfr&Hn&Hnr).
  assert (Hc : exists c, contents b = (be_bytes 4 magic ++ be_bytes 4 n) ++ c /\ body = c ++ q).
  { rewrite Hfr in Hf. symmetry in Hf. apply app_eq_inv in Hf as [(c&Ha&Hb)|(c&Ha&Hb)]; [by exists c|].
    assert (Hz : zlen (be_bytes 4 magic ++ be_bytes 4 n) = 8) by done.
    rewrite Ha, zlen_app in Hz. pose proof (zlen_nonneg c). assert (zlen c = 0) by lia.
    destruct c; [|rewrite zlen_cons in *; pose proof (zlen_nonneg c); lia].
    rewrite app_nil_r in Ha. exists []. rewrite app_nil_r. by rewrite <-Ha. }
  destruct Hc as (c&Hc&->). rewrite <-app_assoc in Hc.
  destruct (decode_header b n c H Hc) as (Hpeek&x&Hx&Hxl); [lia|].
  unfold decode. rewrite Hpeek. cbn [res_bind]. change (negb (magic =? magic)) with false. cbv iota.
  rewrite Hx. cbn [of_option res_bind]. rewrite Hxl.
  destruct (Z.ltb_spec 65536 n); [lia|]. destruct (Z.ltb_spec n 0); [lia|]. cbn [orb].
  rewrite readable_bytes_contents by done. rewrite zlen_app in Hn. pose proof (zlen_pos q Hq).
  assert (zlen (contents b) = 8 + zlen c) by (rewrite Hc, !zlen_app, !zlen_be_bytes; lia).
  destruct (Z.leb_spec (n + 8) (zlen (contents b))); [lia|done].
Qed.

(** C8.  What [encode] sends, [decode] receives: the encodings of any
    messages whose descriptors are registered, lying one after another in a
    buffer, are decoded to these messages in order, and the bytes behind them
    are left in the buffer. *)
Theorem codec_roundtrip (junk : nat -> Z) (ms : list msg) (ps : list Z) (tbl : R) :
  nt_ok tbl -> Forall encodable ms ->
  Forall (fun m => nt_model tbl !! msg_name m = Some (descriptor m)) ms ->
  Forall (nt_fresh tbl) ps -> length ps = length ms ->
  exists os, Forall2 (fun m o => encode junk m = Ok (o, zlen o)) ms os /\
    forall b rest, wf b -> contents b = mjoin os ++ rest ->
      exists b' tbl', decode_all ps tbl b = Ok (ms, b', tbl') /\ wf b' /\ contents b' = rest.
Proof.
  intros Ht He Hr Hp Hl. exists (frame <$> ms). split.
  - rewrite Forall2_fmap_r. apply Forall_Forall2_diag. eapply Forall_impl; [exact He|]. intros. by apply encode_frame.
  - intros b rest Hb Hc. by apply decode_frames.
Qed.

(** While only a part of a frame has arrived, [decode] returns NULL and
    touches nothing, provided the eight header bytes are there; with fewer
    than four bytes in the buffer it runs [abort()]. *)
Theorem decode_partial_frame (p : Z) (tbl : R) (b : gp_buffer) (m : msg) (q : list Z) :
  wf b -> encodable m -> frame m = contents b ++ q -> q <> [] ->
  (8 <= zlen (contents b) -> decode p tbl b = Ok (None : option msg, b, tbl)) /\
  (zlen (contents b) < 4 -> decode (msg := msg) p tbl b = Abort).
Proof. intros. split; intros; [by eapply decode_waits|by apply decode_short]. Qed.

(** Frames [decode] does not accept: a wrong magic number or a length
    outside 0..65536 empties the buffer, and so does a frame with an
    unregistered name, whatever frames follow it. *)
Theorem decode_rejects (p : Z) (tbl : R) (b : gp_buffer) (z n : Z) (rest : list Z) :
  wf b -> contents b = be_bytes 4 z ++ be_bytes 4 n ++ rest ->
  -2147483648 <= z < 2147483648 -> -2147483648 <= n < 2147483648 ->
  (z <> magic \/ n < 0 \/ 65536 < n -> decode p tbl b = Ok (None : option msg, retrieve_all b, tbl)) /\
  (forall nm body more, z = magic -> rest = be_bytes 4 (zlen nm + 1) ++ (nm ++ [0]) ++ body ++ more ->
     n = 4 + (zlen nm + 1) + zlen body -> n <= 65536 -> str_key_ok nm ->
     nt_ok tbl -> nt_fresh tbl p -> nt_model tbl !! nm = None ->
     exists b' tbl', decode p tbl b = Ok (None : option msg, b', tbl') /\ contents b' = []).
Proof.
  intros H Hc Hz Hn. split.
  - intros Hor. unfold decode. rewrite (peek_int32_spec b z (be_bytes 4 n ++ rest)) by done. cbn [res_bind].
    destruct (Z.eqb_spec z magic) as [->|]; [|done]. cbn [negb].
    destruct (decode_header b n rest H Hc Hn) as (_&x&->&Hxl). cbn [of_option res_bind]. rewrite Hxl.
    destruct (Z.ltb_spec 65536 n), (Z.ltb_spec n 0); cbn [orb]; done || lia.
  - intros nm body more -> -> Hnl Hmax [Hnm Hnm'] Ht Hp Hnone.
    pose proof (zlen_nonneg nm). pose proof (zlen_nonneg body). pose proof (zlen_nonneg more).
    destruct (decode_header b n _ H Hc Hn) as (Hpeek&x&Hx&Hxl).
    unfold decode. rewrite Hpeek. cbn [res_bind]. change (negb (magic =? magic)) with false. cbv iota.
    rewrite Hx. cbn [of_option res_bind]. rewrite Hxl.
    destruct (Z.ltb_spec 65536 n); [lia|]. destruct (Z.ltb_spec n 0); [lia|]. cbn [orb].
    rewrite readable_bytes_contents by done.
    assert (Hcl : zlen (contents b) = n + 8 + zlen more).
    { rewrite Hc, !zlen_app, !zlen_be_bytes. change (zlen [0]) with 1. lia. }
    destruct (Z.leb_spec (n + 8) (zlen (contents b))); [|lia].
    rewrite app_assoc in Hc. destruct (retrieve_app b _ _ H Hc) as [W1 C1].
    change (zlen (be_bytes 4 magic ++ be_bytes 4 n)) with 8 in *.
    destruct (read_int32_spec _ _ _ W1 C1) as (b2&->&W2&C2); [lia|]. cbn [res_bind].
    destruct (read_str_spec b2 _ _ W2 C2) as (b3&Hr3&W3&C3); [rewrite zlen_app; change (zlen [0]) with 1; lia|].
    rewrite zlen_app in Hr3. change (zlen [0]) with 1 in Hr3. rewrite Hr3. cbn [res_bind].
    rewrite <-app_assoc. change ([0] ++ [0]) with (0 :: [0]). rewrite c_string_terminated by done.
    destruct (nt_fetch_spec tbl p nm Ht Hp) as (tbl'&->&_); [done|]. cbn [res_bind]. rewrite Hnone.
    exists (retrieve_all b3), tbl'. split; [done|]. by apply retrieve_all_wf.
Qed.

(** [encode] copies one byte more than the name with its NUL: if the
    name is the last thing in its object, it reads past the object's end. *)
Theorem encode_overreads_name (junk : nat -> Z) (m : msg) :
  zlen (name_mem (descriptor m)) = zlen (c_string (name_mem (descriptor m))) + 1 ->
  zlen (name_mem (descriptor m)) < 2147483647 ->
  encode junk m = Ub.
Proof. intros Hz Hl. apply encode_overread; [done|]. unfold name_len, msg_name. lia. Qed.
End Properties.

(** *** A concrete protocol: two messages of one flag each *)
Definition demo_protobuf : Protobuf bool (bool * bool) := {|
  descriptor := fun m : bool * bool => m.1;
  name_mem := fun d : bool => (if d then lit "ping" else lit "pong") ++ [0; 0];
  get_packed_size := fun _ : bool * bool => 1;
  pack := fun m : bool * bool => [if snd m then 1 else 0];
  unpack := fun (d : bool) (bs : list Z) => match bs with [z] => Some (d, z =? 1) | _ => None end;
|}.
Lemma demo_protobuf_ok : @ProtobufOk bool (bool * bool) demo_protobuf.
Proof.
  constructor.
  - done.
  - intros [d []]; cbn; repeat constructor; unfold is_byte; lia.
  - by intros [[] []].
Qed.
Definition tight_protobuf : Protobuf bool (bool * bool) := {|
  descriptor := fun m : bool * bool => m.1; name_mem := fun d : bool => lit "ping" ++ [0]; get_packed_size := fun _ : bool * bool => 1;
  pack := fun m : bool * bool => [if snd m then 1 else 0]; unpack := fun (d : bool) (bs : list Z) => None |}.

Definition demo_descs : list (registration (V := bool)) :=
  [(1000, lit "ping", true, 2, 3); (1001, lit "pong", false, 4, 5)].
Definition demo_table : registry bool :=
  match register_all DictRefine.demo_seed true None demo_descs with Ok r => r | _ => None end.
Lemma demo_table_ok : nt_ok (NameTable := registry_table DictRefine.demo_seed) demo_table.
Proof.
  destruct (register_all_spec DictRefine.demo_seed true demo_descs None) as (r&Ha&Hr&_);
    [apply registry_ok_empty|by vm_compute|]. unfold demo_table. by rewrite Ha.
Qed.
Lemma demo_encodable (d x : bool) : encodable (Protobuf0 := demo_protobuf) (d, x).
Proof.
  split; [exists [0]; by destruct d|]. split; [|by destruct d].
  destruct d; apply (bool_decide_unpack _); vm_compute; exact I.
Qed.

Definition demo_msgs : list (bool * bool) := [(true, true); (false, false); (true, false)].
#[local] Existing Instance demo_protobuf.
#[local] Existing Instance demo_protobuf_ok.
#[local] Instance demo_name_table : NameTable (registry bool) bool := registry_table DictRefine.demo_seed.

Lemma codec_roundtrip_witness :
  exists os, Forall2 (fun m o => encode (fun _ => 7) m = Ok (o, zlen o)) demo_msgs os /\
    forall b rest, wf b -> contents b = mjoin os ++ rest ->
      exists b' tbl', decode_all [2000; 2001; 2000] demo_table b = Ok (demo_msgs, b', tbl') /\ wf b' /\ contents b' = rest.
Proof.
  apply (codec_roundtrip (fun _ => 7) demo_msgs [2000; 2001; 2000] demo_table).
  - apply demo_table_ok.
  - repeat (apply Forall_cons; split; [apply demo_encodable|]). apply Forall_nil. exact I.
  - repeat (apply Forall_cons; split; [vm_compute; reflexivity|]). apply Forall_nil. exact I.
  - apply (bool_decide_unpack _). vm_compute. exact I.
  - reflexivity.
Defined.

(** A buffer holding some bytes, at the end of its object. *)
Definition holding (bs : list Z) : gp_buffer := mk_gp_buffer (replicate 8 0 ++ bs) (8 + zlen bs) 8 (8 + zlen bs).
Lemma holding_wf bs : Forall is_byte bs -> zlen bs < 65536 -> wf (holding bs) /\ contents (holding bs) = bs.
Proof.
  intros Hb Hl. pose proof (zlen_nonneg bs). split.
  - constructor; unfold holding, k_cheap_prepend, max_object; cbn [buffer len reader_index writer_index]; try lia.
    + rewrite zlen_app. reflexivity.
    + apply Forall_app. split; [|done]. apply Forall_replicate. unfold is_byte. lia.
  - unfold contents, holding; cbn [buffer reader_index writer_index].
    change (Z.to_nat 8) with (length (replicate 8 0)). rewrite drop_app_length. apply take_ge. unfold zlen. lia.
Qed.
Lemma demo_bytes (bs : list Z) : forallb (fun x => bool_decide (is_byte x)) bs = true -> Forall is_byte bs.
Proof. intros Hf. rewrite forallb_forall in Hf. apply List.Forall_forall. intros x Hx. specialize (Hf x Hx). by apply bool_decide_eq_true_1 in Hf. Qed.

Lemma decode_partial_frame_witness :
  let b := holding (take 11 (frame (true, true))) in
  (8 <= zlen (contents b) -> decode 2000 demo_table b = Ok (None : option (bool * bool), b, demo_table)) /\
  (zlen (contents b) < 4 -> decode (msg := bool * bool) 2000 demo_table b = Abort).
Proof.
  apply (decode_partial_frame 2000 demo_table (holding (take 11 (frame (true, true)))) (true, true)
           (drop 11 (frame (true, true)))).
  - apply holding_wf; [apply demo_bytes|]; vm_compute; reflexivity.
  - apply demo_encodable.
  - vm_compute. reflexivity.
  - vm_compute. discriminate.
Defined.

Definition alien : list Z := be_bytes 4 magic ++ be_bytes 4 8 ++ be_bytes 4 3 ++ lit "xy" ++ [0] ++ [9].
Lemma decode_rejects_witness :
  decode 2000 demo_table (holding (be_bytes 4 7 ++ be_bytes 4 0 ++ [1])) =
    Ok (None : option (bool * bool), retrieve_all (holding (be_bytes 4 7 ++ be_bytes 4 0 ++ [1])), demo_table) /\
  exists b' tbl', decode 2000 demo_table (holding (alien ++ frame (true, true))) = Ok (None : option (bool * bool), b', tbl') /\
    contents b' = [].
Proof.
  split.
  - apply (decode_rejects 2000 demo_table (holding (be_bytes 4 7 ++ be_bytes 4 0 ++ [1])) 7 0 [1]).
    + apply holding_wf; [apply demo_bytes|]; vm_compute; reflexivity.
    + vm_compute. reflexivity.
    + lia.
    + lia.
    + left. discriminate.
  - apply (decode_rejects 2000 demo_table (holding (alien ++ frame (true, true))) magic 8
             (be_bytes 4 3 ++ lit "xy" ++ [0] ++ [9] ++ frame (true, true))) with (nm := lit "xy") (body := [9]) (more := frame (true, true)).
    + apply holding_wf; [apply demo_bytes|]; vm_compute; reflexivity.
    + vm_compute. reflexivity.
    + unfold magic. lia.
    + lia.
    + reflexivity.
    + reflexivity.
    + reflexivity.
    + lia.
    + apply (bool_decide_unpack _). vm_compute. exact I.
    + apply demo_table_ok.
    + apply (bool_decide_unpack _). vm_compute. exact I.
    + vm_compute. reflexivity.
Defined.

Lemma encode_overreads_name_witness :
  encode (Protobuf0 := tight_protobuf) (fun _ => 7) (true, true) = Ub.
Proof. apply (encode_overreads_name (Protobuf0 := tight_protobuf)); vm_compute; reflexivity. Defined.
