(* ===== verification/Dispatch.v ===== *)
(** * gp_ipc_server.c, gp_ssl_server.c: from bytes to callbacks

    [on_message] is the message callback of the IPC server, [handle_ssl_msg]
    that of the SSL server, with the same body: one frame is decoded and
    handed to the callback registered for its name.  [handled] records the
    calls.  The codec's and the dispatcher's tables come in as [NameTable]s.
    The callback's own effects and the reference it is protected by are not
    repeated here (Conn.v). *)

From S2P Require Import Prelude Buffer DictTypes CStr Registry Codec.
Local Open Scope Z_scope.

Section Dispatch.
Context {desc msg cb : Type} `{!Protobuf desc msg}.
Context {R C : Type} `{!NameTable R desc} `{!NameTable C cb}.
(** The address of a descriptor's name. *)
Context (name_ptr : desc -> Z) (junk : nat -> Z).

Record app := mk_app { pb_map : R; callback_map : C; input : gp_buffer; handled : list (msg * option cb) }.

(** [None]: [protobuf_default_callback], which prints the sender. *)
Definition on_message (p : Z) (s : app) : res app :=
  if 8 <=? readable_bytes (input s) then
    let* (m, b, tbl) := decode p (pb_map s) (input s) in
    match m with
    | Some m =>
        let* (cbs, c) := nt_fetch (callback_map s) (name_ptr (descriptor m)) (c_string (name_mem (descriptor m))) in
        Ok (mk_app tbl cbs b (handled s ++ [(m, c)]))
    | None => Ok (mk_app tbl (callback_map s) b (handled s))
    end
  else Ok s.
Definition handle_ssl_msg := on_message.

(** A read event of the connection: what [readv] delivered, then the message
    callback. *)
Definition read_event (e : Z * list Z) (s : app) : res app :=
  let* (b, _, _) := buffer_read_fd junk (input s) (readv_data e.2) in
  on_message e.1 (mk_app (pb_map s) (callback_map s) b (handled s)).
Fixpoint read_events (es : list (Z * list Z)) (s : app) : res app :=
  match es with [] => Ok s | e :: es => let* s := read_event e s in read_events es s end.
Definition start (tbl : R) (cbs : C) : app := mk_app tbl cbs (init_gp_buffer junk) [].
End Dispatch.
Arguments mk_app {msg cb R C}.
Arguments input {msg cb R C}.
Arguments handled {msg cb R C}.
Arguments pb_map {msg cb R C}.
Arguments callback_map {msg cb R C}.

(** ** How many callbacks a stream of frames leads to *)
(** The frames that the first [n] bytes of the stream hold in full. *)
Fixpoint arrived (n : Z) (os : list (list Z)) : nat :=
  match os with [] => 0 | o :: os => if zlen o <=? n then S (arrived (n - zlen o) os) else 0 end.
(** [k] callbacks have been called and [n] bytes are in; an event calls the
    next one if its frame is there in full. *)
Fixpoint callbacks (os : list (list Z)) (k : nat) (n : Z) (chunks : list (list Z)) : nat :=
  match chunks with
  | [] => k
  | c :: chunks => callbacks os (S k `min` arrived (n + zlen c) os) (n + zlen c) chunks
  end.
(** No event completes two frames. *)
Fixpoint paced (os : list (list Z)) (n : Z) (chunks : list (list Z)) : Prop :=
  match chunks with
  | [] => True
  | c :: chunks => (arrived (n + zlen c) os <= S (arrived n os))%nat /\ paced os (n + zlen c) chunks
  end.

Lemma arrived_le n os : (arrived n os <= length os)%nat.
Proof. revert n. induction os as [|o os IH]; intros n; cbn; [lia|]. destruct (_ <=? _); [specialize (IH (n - zlen o))|]; lia. Qed.
Lemma arrived_drop k n os : (k <= length os)%nat -> 0 <= n ->
  arrived (zlen (mjoin (take k os)) + n) os = (k + arrived n (drop k os))%nat.
Proof.
  revert os. induction k as [|k IH]; intros os Hk Hn; [by rewrite drop_0|]. destruct os as [|o os]; [cbn in Hk; lia|].
  change (mjoin (take (S k) (o :: os))) with (o ++ mjoin (take k os)). cbn [arrived drop]. rewrite zlen_app.
  pose proof (zlen_nonneg (mjoin (take k os))). rewrite (proj2 (Z.leb_le _ _)) by lia.
  replace (zlen o + zlen (mjoin (take k os)) + n - zlen o) with (zlen (mjoin (take k os)) + n) by lia.
  rewrite IH by (cbn in Hk; lia). done.
Qed.
Lemma callbacks_drop k j n os chunks : (k <= length os)%nat -> 0 <= n ->
  callbacks os (k + j) (zlen (mjoin (take k os)) + n) chunks = (k + callbacks (drop k os) j n chunks)%nat.
Proof.
  intros Hk. revert j n. induction chunks as [|c chunks IH]; intros j n Hn; cbn [callbacks]; [done|]. pose proof (zlen_nonneg c).
  rewrite <-Z.add_assoc, arrived_drop by lia. rewrite <-IH by lia. f_equal. lia.
Qed.
Lemma callbacks_paced n os chunks : paced os n chunks -> callbacks os (arrived n os) n chunks = arrived (n + zlen (mjoin chunks)) os.
Proof.
  revert n. induction chunks as [|c chunks IH]; intros n Hp; cbn [callbacks].
  - change (zlen (mjoin [])) with 0. by rewrite Z.add_0_r.
  - destruct Hp as [Hc Hp]. rewrite Nat.min_r by done. rewrite IH by done. change (mjoin (c :: chunks)) with (c ++ mjoin chunks).
    by rewrite zlen_app, Z.add_assoc.
Qed.

(** ** What decoding does to the writer index *)
Section Props.
Context {desc msg cb : Type} `{!Protobuf desc msg} `{!ProtobufOk desc msg}.
Context {R C : Type} `{!NameTable R desc} `{!NameTable C cb}.
Context (name_ptr : desc -> Z) (junk : nat -> Z).
Implicit Types (m : msg) (ms : list msg) (b : gp_buffer) (s : app (msg := msg) (cb := cb) (R := R) (C := C)) (chunk : list Z).

Lemma retrieve_all_writer b : wf b -> writer_index (retrieve_all b) <= writer_index b.
Proof. intros H. simpl. wf_lia. Qed.
Lemma decode_writer p (tbl : R) b (m : option msg) b' tbl' :
  wf b -> decode p tbl b = Ok (m, b', tbl') -> writer_index b' <= writer_index b.
Proof.
  intros H. unfold decode. destruct (peek_int32 b) as [mg| |]; [|done..]. cbn [res_bind].
  pose proof (retrieve_all_writer b H). destruct (negb _); [by intros [= _ <- _]|].
  destruct (of_option _) as [be| |]; [|done..]. cbn [res_bind]. set (len := s32 _).
  destruct (_ || _); [by intros [= _ <- _]|]. destruct (_ <=? _); [|by intros [= _ <- _]].
  destruct (retrieve_wf b 8 H) as [H1 _]; [lia|]. pose proof (retrieve_writer b 8 H) as W1.
  unfold read_int32. destruct (peek_int32 (retrieve b 8)) as [nl| |]; [|done..]. cbn [res_bind].
  destruct (retrieve_wf _ 4 H1) as [H2 _]; [lia|]. pose proof (retrieve_writer _ 4 H1) as W2.
  unfold read_str. destruct (peek_str _ _) as [nm| |]; [|done..]. cbn [res_bind].
  destruct (retrieve_wf _ (u64 nl) H2) as [H3 _]; [apply u64_range|]. pose proof (retrieve_writer _ (u64 nl) H2) as W3.
  destruct (nt_fetch _ _ _) as [[tbl2 [d|]]| |]; [| |done..]; cbn [res_bind].
  - destruct (int_ok _) as [sz| |]; [|done..]. cbn [res_bind]. unfold read_pb_msg.
    destruct (peek_pb_msg _ _ _ _) as [mm| |]; [|done..]. cbn [res_bind]. intros [= _ <- _].
    pose proof (retrieve_writer _ (u64 sz) H3). lia.
  - intros [= _ <- _]. pose proof (retrieve_all_writer _ H3). lia.
Qed.

(** ** One event *)
Definition entry (cbs : C) m : msg * option cb := (m, nt_model cbs !! msg_name m).
(** The tables answer as they did. *)
Record same_tables s s' : Prop := {
  st_pb : nt_ok (pb_map s') /\ nt_model (pb_map s') = nt_model (pb_map s) /\
    forall p, nt_fresh (pb_map s) p -> nt_fresh (pb_map s') p;
  st_cb : nt_ok (callback_map s') /\ nt_model (callback_map s') = nt_model (callback_map s) /\
    forall p, nt_fresh (callback_map s) p -> nt_fresh (callback_map s') p;
}.
Record app_ok s : Prop := {
  ao_pb : nt_ok (pb_map s);
  ao_cb : nt_ok (callback_map s);
  ao_names : forall d, nt_fresh (callback_map s) (name_ptr d);
  ao_wf : wf (input s);
}.
Lemma same_tables_ok s s' : app_ok s -> same_tables s s' -> wf (input s') -> app_ok s'.
Proof using.
  intros [_ _ Hn _] [(?&_&_) (?&_&Hf)] Hw. split; [done|done| |done]. intros d. by apply Hf.
Qed.
Lemma same_tables_refl s b h : app_ok s -> same_tables s (mk_app (pb_map s) (callback_map s) b h).
Proof using. intros [? ? _ _]. split; cbn; auto. Qed.
Lemma same_tables_trans s s1 s2 : same_tables s s1 -> same_tables s1 s2 -> same_tables s s2.
Proof using.
  intros [(_&E1&F1) (_&G1&H1)] [(?&E2&F2) (?&G2&H2)]. split; (split_and!; [done|congruence|auto]).
Qed.
Definition sendable s m : Prop := encodable m /\ nt_model (pb_map s) !! msg_name m = Some (descriptor m).

Lemma name_ok m : encodable m -> str_key_ok (msg_name m).
Proof using ProtobufOk0.
  intros (_&Hn&Hp&Hl). split; [done|]. pose proof (zlen_pos _ Hp). unfold name_len in Hl. lia.
Qed.

(** A whole frame in front: it is handled, what follows it stays, be it
    another frame. *)
Lemma on_message_frame p s m rest :
  app_ok s -> nt_fresh (pb_map s) p -> sendable s m -> contents (input s) = frame m ++ rest ->
  exists s', on_message name_ptr p s = Ok s' /\ handled s' = handled s ++ [entry (callback_map s) m] /\
    contents (input s') = rest /\ writer_index (input s') <= writer_index (input s) /\ wf (input s') /\ same_tables s s'.
Proof using ProtobufOk0.
  intros [Hp Hc Hn Hw] Hf [He Hr] Hcont. unfold on_message.
  destruct (frame_header m He) as (n&bd&Hfr&_&_).
  assert (H8 : 8 <= zlen (contents (input s))).
  { rewrite Hcont, Hfr, !zlen_app, !zlen_be_bytes. pose proof (zlen_nonneg bd). pose proof (zlen_nonneg rest). lia. }
  rewrite readable_bytes_contents by done. destruct (Z.leb_spec 8 (zlen (contents (input s)))); [|lia].
  destruct (decode_frame p (pb_map s) (input s) m rest Hw Hp Hf He Hr Hcont) as (b'&tbl'&Hd&Hw'&Hc'&Ht'&Hm'&Hfr').
  rewrite Hd. cbn [res_bind]. pose proof (decode_writer _ _ _ _ _ _ Hw Hd) as Hwr.
  destruct (nt_fetch_spec (callback_map s) (name_ptr (descriptor m)) (msg_name m) Hc (Hn _) (name_ok m He)) as (c'&Hfe&Hc2&Hm2&Hf2).
  change (c_string (name_mem (descriptor m))) with (msg_name m). rewrite Hfe. cbn [res_bind].
  eexists. split; [done|]. cbn. split_and!; [done|done|done|done|]. split; done.
Qed.
(** Only a part of a frame, or less than a header: nothing happens. *)
Lemma on_message_waits p s m q :
  app_ok s -> encodable m -> frame m = contents (input s) ++ q -> q <> [] ->
  exists s', on_message name_ptr p s = Ok s' /\ s' = s.
Proof using ProtobufOk0.
  intros [Hp Hc Hn Hw] He Hf Hq. unfold on_message. rewrite readable_bytes_contents by done.
  destruct (Z.leb_spec 8 (zlen (contents (input s)))) as [H8|]; [|by exists s].
  rewrite (decode_waits p (pb_map s) (input s) m q) by done. cbn [res_bind]. eexists. split; [done|]. by destruct s.
Qed.

(** [k] of the messages of a stream have been handled; [l]: the bytes that
    came in. *)
Record handles s (l : list Z) ms (k : nat) s' : Prop := {
  hd_calls : handled s' = handled s ++ (entry (callback_map s) <$> take k ms);
  hd_bytes : contents (input s) ++ l = mjoin (frame <$> take k ms) ++ contents (input s');
  hd_writer : writer_index (input s') <= writer_index (input s) + zlen l;
  hd_wf : wf (input s');
  hd_tables : same_tables s s';
}.
Lemma handles_none s ms : app_ok s -> handles s [] ms 0 s.
Proof using.
  intros Hok. split; cbn; [by rewrite app_nil_r|by rewrite app_nil_r|unfold zlen; simpl; lia|apply Hok|].
  destruct s. by apply same_tables_refl.
Qed.

(** At the front of a stream of frames the first is handled, if it is there. *)
Lemma on_message_stream p s ms :
  app_ok s -> nt_fresh (pb_map s) p -> Forall (sendable s) ms -> contents (input s) `prefix_of` mjoin (frame <$> ms) ->
  exists s' k, on_message name_ptr p s = Ok s' /\ k = (1 `min` arrived (zlen (contents (input s))) (frame <$> ms))%nat /\ handles s [] ms k s'.
Proof using ProtobufOk0.
  intros Hok Hf Hs [q Hq]. pose proof (ao_wf _ Hok) as Hw.
  destruct ms as [|m ms].
  - cbn in Hq. symmetry in Hq. apply app_eq_nil in Hq as [Hnil _]. exists s, 0%nat. unfold on_message.
    rewrite readable_bytes_contents by done. rewrite Hnil. cbn. split_and!; [done|done|by apply handles_none].
  - apply Forall_cons in Hs as [Hm Hs]. change (frame m ++ mjoin (frame <$> ms) = contents (input s) ++ q) in Hq.
    assert (Hone : zlen (frame m) <= zlen (contents (input s)) -> 1%nat = (1 `min` arrived (zlen (contents (input s))) (frame <$> m :: ms))%nat).
    { intros Hle. rewrite fmap_cons. cbn [arrived]. rewrite (proj2 (Z.leb_le _ _) Hle). lia. }
    apply app_eq_inv in Hq as [(k&Hc&_)|(k&Hc&_)].
    + destruct k as [|x k].
      * rewrite app_nil_r in Hc. rewrite <-(app_nil_r (frame m)) in Hc. symmetry in Hc.
        destruct (on_message_frame p s m [] Hok Hf Hm Hc) as (s'&Ho&Hh&Hc'&Hwr&Hw'&Ht). exists s', 1%nat.
        split_and!; [done|apply Hone; by rewrite Hc, app_nil_r|]. split; cbn; [done|by rewrite !app_nil_r, Hc, Hc', !app_nil_r|unfold zlen; simpl; lia|done|done].
      * destruct (on_message_waits p s m (x :: k) Hok (proj1 Hm) Hc) as (s'&Ho&->); [done|].
        exists s, 0%nat. split_and!; [done| |by apply handles_none]. rewrite fmap_cons. cbn [arrived].
        rewrite Hc, zlen_app, zlen_cons, (proj2 (Z.leb_gt _ _)); [done|]. pose proof (zlen_nonneg k). lia.
    + destruct (on_message_frame p s m k Hok Hf Hm Hc) as (s'&Ho&Hh&Hc'&Hwr&Hw'&Ht). exists s', 1%nat.
      split_and!; [done|apply Hone; rewrite Hc, zlen_app; pose proof (zlen_nonneg k); lia|].
      split; cbn; [done|by rewrite !app_nil_r, Hc, Hc'|unfold zlen; simpl; lia|done|done].
Qed.

(** ** Any number of events *)
Definition chunk_ok chunk : Prop := Forall is_byte chunk /\ zlen chunk <= extrabuf_size.
Lemma iov_total_room b : extrabuf_size <= iov_total b.
Proof using.
  unfold iov_total. pose proof (u64_range (len b - writer_index b)). unfold writable_bytes.
  destruct (Z.ltb_spec (u64 (len b - writer_index b)) extrabuf_size); lia.
Qed.
Lemma handles_trans s l1 s1 l2 s2 ms k1 k2 :
  handles s l1 ms k1 s1 -> handles s1 l2 (drop k1 ms) k2 s2 -> handles s (l1 ++ l2) ms (k1 + k2) s2.
Proof using.
  intros [H1 B1 W1 F1 T1] [H2 B2 W2 F2 T2].
  assert (Htake : take (k1 + k2) ms = take k1 ms ++ take k2 (drop k1 ms)).
  { rewrite <-(take_drop k1 (take (k1 + k2) ms)). rewrite take_take, Nat.min_l by lia.
    rewrite skipn_firstn_comm. by replace (k1 + k2 - k1)%nat with k2 by lia. }
  split; [| | |done|by eapply same_tables_trans].
  - rewrite H2, H1, Htake, fmap_app, app_assoc. unfold entry. by rewrite (proj1 (proj2 (st_cb _ _ T1))).
  - by rewrite app_assoc, B1, <-app_assoc, B2, Htake, fmap_app, join_app, <-app_assoc.
  - rewrite zlen_app. lia.
Qed.
Lemma mjoin_drop k ms : mjoin (frame <$> ms) = mjoin (frame <$> take k ms) ++ mjoin (frame <$> drop k ms).
Proof using. by rewrite <-join_app, <-fmap_app, take_drop. Qed.

Lemma read_event_stream e s ms :
  app_ok s -> nt_fresh (pb_map s) e.1 -> Forall (sendable s) ms -> chunk_ok e.2 ->
  writer_index (input s) + zlen e.2 <= max_object ->
  contents (input s) ++ e.2 `prefix_of` mjoin (frame <$> ms) ->
  exists s' k, read_event name_ptr junk e s = Ok s' /\
    k = (1 `min` arrived (zlen (contents (input s)) + zlen e.2) (frame <$> ms))%nat /\ handles s e.2 ms k s'.
Proof using ProtobufOk0.
  intros Hok Hf Hs [Hb Hl] Hmax Hpre. unfold read_event. pose proof (iov_total_room (input s)).
  destruct (buffer_read_fd_ok junk (input s) e.2 (ao_wf _ Hok) Hb) as (b&->&Hw&Hc&Hwr); [lia|done|]. cbn [res_bind].
  set (s1 := mk_app (pb_map s) (callback_map s) b (handled s)).
  assert (Hok1 : app_ok s1) by (destruct Hok; by split).
  destruct (on_message_stream e.1 s1 ms Hok1 Hf Hs) as (s'&k&->&Hk&[H1 B1 W1 F1 T1]); [cbn; by rewrite Hc|].
  exists s', k. split_and!; [done|cbn [input s1] in Hk; by rewrite Hk, Hc, zlen_app|]. cbn in *. rewrite app_nil_r in B1. split; cbn; [done|by rewrite <-Hc|unfold zlen in *; simpl in *; lia|done|].
  destruct T1. by split.
Qed.
Lemma read_events_stream es s ms :
  app_ok s -> Forall (fun e => nt_fresh (pb_map s) e.1 /\ chunk_ok e.2) es -> Forall (sendable s) ms ->
  writer_index (input s) + zlen (mjoin (snd <$> es)) <= max_object ->
  contents (input s) ++ mjoin (snd <$> es) `prefix_of` mjoin (frame <$> ms) ->
  exists s' k, read_events name_ptr junk es s = Ok s' /\
    k = callbacks (frame <$> ms) 0 (zlen (contents (input s))) (snd <$> es) /\ handles s (mjoin (snd <$> es)) ms k s'.
Proof using ProtobufOk0.
  revert s ms. induction es as [|e es IH]; intros s ms Hok Hes Hs Hmax Hpre.
  { exists s, 0%nat. split_and!; [done|done|by apply handles_none]. }
  apply Forall_cons in Hes as [[Hf Hch] Hes]. change (mjoin (snd <$> e :: es)) with (e.2 ++ mjoin (snd <$> es)) in *.
  rewrite zlen_app in Hmax. pose proof (zlen_nonneg (mjoin (snd <$> es))). rewrite app_assoc in Hpre.
  destruct (read_event_stream e s ms Hok Hf Hs Hch) as (s1&k1&He&Hk1&Hh1); [lia|by eapply prefix_app_l|].
  cbn [read_events]. rewrite He. cbn [res_bind]. pose proof Hh1 as [H1 B1 W1 F1 T1].
  destruct (IH s1 (drop k1 ms)) as (s2&k2&Hr&Hk2&Hh2).
  - by eapply same_tables_ok.
  - eapply Forall_impl; [exact Hes|]. intros x [Hx ?]. split; [by apply (st_pb _ _ T1)|done].
  - apply Forall_drop. eapply Forall_impl; [exact Hs|]. intros m [? ?]. split; [done|].
    by rewrite (proj1 (proj2 (st_pb _ _ T1))).
  - lia.
  - rewrite B1, (mjoin_drop k1 ms) in Hpre. rewrite <-app_assoc in Hpre. by apply prefix_app_inv in Hpre.
  - exists s2, (k1 + k2)%nat. split_and!; [done| |by eapply handles_trans].
    assert (Hle : (k1 <= length (frame <$> ms))%nat) by (pose proof (arrived_le (zlen (contents (input s)) + zlen e.2) (frame <$> ms)); lia).
    rewrite Hk2, fmap_drop, <-callbacks_drop by (done || apply zlen_nonneg). rewrite <-fmap_take, <-zlen_app, <-B1, Nat.add_0_r.
    rewrite fmap_cons. cbn [callbacks]. by rewrite <-Hk1, zlen_app.
Qed.

Lemma encode_all ms os : Forall encodable ms -> Forall2 (fun m o => encode junk m = Ok (o, zlen o)) ms os -> os = frame <$> ms.
Proof using ProtobufOk0.
  intros He H. induction H as [|m o ms os Hm _ IH]; [done|]. apply Forall_cons in He as [He Hes].
  rewrite (encode_frame junk m He) in Hm. injection Hm as <-. cbn. by rewrite IH.
Qed.
Lemma start_ok (tbl : R) (cbs : C) : nt_ok tbl -> nt_ok cbs -> (forall d, nt_fresh cbs (name_ptr d)) -> app_ok (start junk tbl cbs).
Proof using. intros. split; [done..|]. cbn. apply init_gp_buffer_wf. Qed.

(** ** The properties *)
(** C25. From [encode] on one side to the callbacks on the other: however the
    stream of encoded messages is cut into the pieces that read events
    deliver, the callbacks that have been called are those of the first
    messages, each once and in order, with the messages that were sent, and
    every byte behind them is in the input buffer.  An event calls the next
    callback exactly if its frame has arrived in full, and one callback at
    most; so when no event completes two frames, every message that has
    arrived in full has been handled. *)
Theorem messages_handled_in_order (tbl : R) (cbs : C) (ms : list msg) (os : list (list Z)) (es : list (Z * list Z)) :
  nt_ok tbl -> nt_ok cbs -> (forall d, nt_fresh cbs (name_ptr d)) ->
  Forall encodable ms -> Forall (fun m => nt_model tbl !! msg_name m = Some (descriptor m)) ms ->
  Forall2 (fun m o => encode junk m = Ok (o, zlen o)) ms os ->
  Forall (fun e => nt_fresh tbl e.1 /\ chunk_ok e.2) es -> k_cheap_prepend + zlen (mjoin (snd <$> es)) <= max_object ->
  mjoin (snd <$> es) `prefix_of` mjoin os ->
  exists s' k, read_events name_ptr junk es (start junk tbl cbs) = Ok s' /\
    k = callbacks os 0 0 (snd <$> es) /\
    handled s' = (fun m => (m, nt_model cbs !! msg_name m)) <$> take k ms /\
    mjoin (snd <$> es) = mjoin (take k os) ++ contents (input s') /\
    (paced os 0 (snd <$> es) -> k = arrived (zlen (mjoin (snd <$> es))) os).
Proof using ProtobufOk0.
  intros Ht Hc Hn He Hr Hos Hes Hmax Hpre. rewrite (encode_all ms os He Hos) in *.
  destruct (read_events_stream es (start junk tbl cbs) ms) as (s'&k&Hrun&Hk&[H1 B1 _ _ _]).
  - by apply start_ok.
  - done.
  - apply Forall_and. split; [done|exact Hr].
  - exact Hmax.
  - cbn [start input]. by rewrite (proj2 (init_gp_buffer_wf junk)).
  - cbn [start input] in Hk, B1. rewrite (proj2 (init_gp_buffer_wf junk)) in Hk, B1. exists s', k.
    split_and!; [done|exact Hk|exact H1|by rewrite <-fmap_take|]. intros Hp. apply callbacks_paced in Hp.
    rewrite Z.add_0_l in Hp. rewrite <-Hp, Hk. f_equal. destruct ms as [|m ms]; [done|]. apply Forall_cons in He as [He _].
    destruct (frame_header m He) as (n&body&Hfr&_&_). rewrite fmap_cons, Hfr. cbn [arrived]. rewrite (proj2 (Z.leb_gt _ _)); [done|].
    rewrite !zlen_app, !zlen_be_bytes. pose proof (zlen_nonneg body). lia.
Qed.

(** Frames that arrive together are not all handled: when one read event
    delivers several, the callback of the first is called and the others stay
    in the input buffer until more bytes arrive. *)
Theorem burst_is_not_drained (tbl : R) (cbs : C) (p : Z) (m : msg) (ms : list msg) :
  nt_ok tbl -> nt_ok cbs -> (forall d, nt_fresh cbs (name_ptr d)) -> nt_fresh tbl p ->
  Forall encodable (m :: ms) -> Forall (fun m => nt_model tbl !! msg_name m = Some (descriptor m)) (m :: ms) ->
  chunk_ok (mjoin (frame <$> m :: ms)) ->
  exists s', read_event name_ptr junk (p, mjoin (frame <$> m :: ms)) (start junk tbl cbs) = Ok s' /\
    handled s' = [(m, nt_model cbs !! msg_name m)] /\ contents (input s') = mjoin (frame <$> ms).
Proof using ProtobufOk0.
  intros Ht Hc Hn Hp He Hr [Hb Hl]. unfold read_event. cbn [fst snd]. pose proof (iov_total_room (input (start (C := C) (msg := msg) (cb := cb) junk tbl cbs))) as Hi.
  destruct (init_gp_buffer_wf junk) as [Hw0 Hc0].
  destruct (buffer_read_fd_ok junk (init_gp_buffer junk) (mjoin (frame <$> m :: ms)) Hw0 Hb) as (b&Hrd&Hw&Hcb&_);
    [cbn in Hi; lia|unfold max_object, extrabuf_size in *; cbn [init_gp_buffer writer_index]; unfold k_cheap_prepend; lia|].
  cbn [start input]. rewrite Hrd. cbn [res_bind]. rewrite Hc0 in Hcb. apply Forall_cons in He as [He _]. apply Forall_cons in Hr as [Hr _].
  destruct (on_message_frame p (mk_app tbl cbs b []) m (mjoin (frame <$> ms))) as (s'&Ho&Hh&Hc'&_); [by split|done|done|exact Hcb|].
  exists s'. split_and!; [exact Ho|exact Hh|exact Hc'].
Qed.
End Props.

(** ** Three messages in two pieces *)
Definition demo_ptr (d : bool) : Z := if d then 5000 else 5001.
Definition demo_callbacks : registry Z :=
  match register_all DictRefine.demo_seed true None [(3000, lit "ping", 1, 2, 3); (3001, lit "pong", 2, 4, 5)] with Ok r => r | _ => None end.
#[local] Existing Instance demo_protobuf.
#[local] Existing Instance demo_protobuf_ok.
#[local] Instance demo_descs_table : NameTable (registry bool) bool := registry_table DictRefine.demo_seed.
#[local] Instance demo_cbs_table : NameTable (registry Z) Z := registry_table DictRefine.demo_seed.
Lemma demo_callbacks_ok : nt_ok demo_callbacks /\ forall d, nt_fresh demo_callbacks (demo_ptr d).
Proof.
  split.
  - destruct (register_all_spec DictRefine.demo_seed true [(3000, lit "ping", 1, 2, 3); (3001, lit "pong", 2, 4, 5)] None) as (r&Ha&Hr&_);
      [apply registry_ok_empty|by vm_compute|]. unfold demo_callbacks. by rewrite Ha.
  - intros []; apply (bool_decide_unpack (registry_fresh _ _)); vm_compute; exact I.
Qed.
Definition demo_bytes_sent : list Z := mjoin (frame <$> demo_msgs).
Definition demo_events : list (Z * list Z) := [(2000, take 30 demo_bytes_sent); (2001, drop 30 demo_bytes_sent)].

(** The three messages one by one, the second in two pieces. *)
Definition demo_pieces : list (list Z) :=
  match frame <$> demo_msgs with [a; b; c] => [a; take 9 b; drop 9 b; c] | _ => [] end.
Definition demo_paced : list (Z * list Z) := zip [2000; 2001; 2002; 2003] demo_pieces.
Lemma messages_handled_in_order_witness :
  callbacks (frame <$> demo_msgs) 0 0 (snd <$> demo_events) = 2%nat /\ callbacks (frame <$> demo_msgs) 0 0 (snd <$> demo_paced) = 3%nat /\
  exists s' k, read_events demo_ptr (fun _ => 7) demo_paced (start (fun _ => 7) demo_table demo_callbacks) = Ok s' /\
    k = callbacks (frame <$> demo_msgs) 0 0 (snd <$> demo_paced) /\
    handled s' = (fun m => (m, nt_model demo_callbacks !! msg_name m)) <$> take k demo_msgs /\
    mjoin (snd <$> demo_paced) = mjoin (take k (frame <$> demo_msgs)) ++ contents (input s') /\
    (paced (frame <$> demo_msgs) 0 (snd <$> demo_paced) -> k = arrived (zlen (mjoin (snd <$> demo_paced))) (frame <$> demo_msgs)).
Proof.
  split; [vm_compute; reflexivity|]. split; [vm_compute; reflexivity|].
  apply (messages_handled_in_order demo_ptr (fun _ => 7) demo_table demo_callbacks demo_msgs (frame <$> demo_msgs) demo_paced).
  - apply demo_table_ok.
  - apply demo_callbacks_ok.
  - apply demo_callbacks_ok.
  - repeat (apply Forall_cons; split; [apply demo_encodable|]). apply Forall_nil. exact I.
  - repeat (apply Forall_cons; split; [vm_compute; reflexivity|]). apply Forall_nil. exact I.
  - repeat (apply Forall2_cons; split; [apply encode_frame, demo_encodable|]). apply Forall2_nil. exact I.
  - repeat (apply Forall_cons; split; [split; [apply (bool_decide_unpack (registry_fresh _ _)); vm_compute; exact I|split; [apply demo_bytes; vm_compute; reflexivity|vm_compute; discriminate]]|]).
    apply Forall_nil. exact I.
  - vm_compute. discriminate.
  - exists []. rewrite app_nil_r. vm_compute. reflexivity.
Defined.
Lemma burst_is_not_drained_witness :
  exists s', read_event demo_ptr (fun _ => 7) (2000, mjoin (frame <$> demo_msgs)) (start (fun _ => 7) demo_table demo_callbacks) = Ok s' /\
    handled s' = [((true, true), nt_model demo_callbacks !! msg_name (true, true))] /\ contents (input s') = mjoin (frame <$> [(false, false); (true, false)]).
Proof.
  apply (burst_is_not_drained demo_ptr (fun _ => 7) demo_table demo_callbacks 2000 (true, true) [(false, false); (true, false)]).
  - apply demo_table_ok.
  - apply demo_callbacks_ok.
  - apply demo_callbacks_ok.
  - apply (bool_decide_unpack (registry_fresh _ _)). vm_compute. exact I.
  - repeat (apply Forall_cons; split; [apply demo_encodable|]). apply Forall_nil. exact I.
  - repeat (apply Forall_cons; split; [vm_compute; reflexivity|]). apply Forall_nil. exact I.
  - split; [apply demo_bytes; vm_compute; reflexivity|vm_compute; discriminate].
Defined.
