(* ===== verification/Client.v ===== *)
(** * gp_socketop.c, gp_sync_client.c: the blocking client

    A blocking socket is the list of answers that [read] and [write] will
    give: [None] for -1, the bytes delivered (none at the end of the stream)
    or the number of bytes taken.  A call that still waits when the answers
    are used up is [Ok None].  [closes] counts the calls of [close] on the
    client's descriptor. *)

From S2P Require Import Prelude Buffer DictTypes CStr Registry Codec.
Local Open Scope Z_scope.

(** *** gp_socketop.c *)
(** [while (total < *len) { n = write(...) ... }]: the bytes written, the last
    [n] if there was one, and [total]. *)
Fixpoint send_loop (answers : list Z) (msg : list Z) (len total : Z) (n : option Z) (sent : list Z)
    : res (option (list Z * option Z * Z * list Z)) :=
  if len <=? total then Ok (Some (sent, n, total, answers))
  else
    match answers with
    | [] => Ok None
    | n :: answers =>
        if n =? -1 then Ok (Some (sent, Some n, total, answers))
        else
          let* out := of_option (mem_read msg total n) in
          send_loop answers msg len (total + n) (Some n) (sent ++ out)
    end.
(** The result reads [n], which nothing has set when [*len <= 0]. *)
Definition sync_result (n : option Z) : res Z := let* n := of_option n in Ok (if n =? -1 then -1 else 0).
Definition send_all_sync (answers : list Z) (msg : list Z) (len : Z) : res (option (Z * Z * list Z * list Z)) :=
  let* r := send_loop answers msg len 0 None [] in
  match r with
  | None => Ok None
  | Some (sent, n, total, answers) => let* ret := sync_result n in Ok (Some (ret, total, sent, answers))
  end.

Definition reads : Type := list (option (list Z)).
Fixpoint read_loop (answers : reads) (msg : list Z) (len total : Z) (n : option Z)
    : res (option (list Z * option Z * Z * reads)) :=
  if len <=? total then Ok (Some (msg, n, total, answers))
  else
    match answers with
    | [] => Ok None
    | None :: answers => Ok (Some (msg, Some (-1), total, answers))
    | Some d :: answers =>
        let* msg := of_option (mem_write msg total d) in
        read_loop answers msg len (total + zlen d) (Some (zlen d))
    end.
(** The result, [*len] and the buffer. *)
Definition read_all_sync (answers : reads) (msg : list Z) (len : Z) : res (option (Z * Z * list Z * reads)) :=
  let* r := read_loop answers msg len 0 None in
  match r with
  | None => Ok None
  | Some (msg, n, total, answers) => let* ret := sync_result n in Ok (Some (ret, total, msg, answers))
  end.

(** *** gp_sync_client.c *)
Section Client.
Context {desc msg : Type} `{!Protobuf desc msg} (junk : nat -> Z).
Context {R : Type} `{!NameTable R desc}.

(** [read(fd, &x, 4)] into an [int] that holds anything; what is read is not
    checked to be four bytes. *)
Definition read_int (answers : reads) : option (option Z * reads) :=
  match answers with
  | [] => None
  | None :: answers => Some (None, answers)
  | Some d :: answers => Some (Some (s32 (le_val (take 4 (d ++ malloc junk 4)))), answers)
  end.

(** [Some (Some (name, msg_len))]: 0 was returned; the caller has the object
    that holds the name.  A negative length makes [malloc] fail and [read]
    with it. *)
Definition read_pb_header (answers : reads) : res (option (option (list Z * Z) * reads)) :=
  match read_int answers with
  | None => Ok None
  | Some (None, answers) => Ok (Some (None, answers))
  | Some (Some mg, answers) =>
      if negb (ntohl mg =? magic) then Ok (Some (None, answers))
      else
        match read_int answers with
        | None => Ok None
        | Some (None, answers) => Ok (Some (None, answers))
        | Some (Some len, answers) =>
            let len := s32 (ntohl len) in
            match read_int answers with
            | None => Ok None
            | Some (None, answers) => Ok (Some (None, answers))
            | Some (Some nl, answers) =>
                let name_len := s32 (ntohl nl) in
                if name_len <? 0 then Ok (Some (None, tail answers))
                else
                  match answers with
                  | [] => Ok None
                  | None :: answers => Ok (Some (None, answers))
                  | Some d :: answers =>
                      let* name := of_option (mem_write (malloc junk name_len) 0 d) in
                      let* l := int_ok (len - 4) in
                      let* msg_len := int_ok (l - name_len) in
                      Ok (Some (Some (name, msg_len), answers))
                  end
            end
        end
  end.

(** [send_all]: [socket], [connect] (whose failure shows in [write]), then
    everything or -1 with the descriptor closed. *)
Definition send_all (writes : list Z) (m : list Z) (len : Z) : res (option (Z * list Z * list Z)) :=
  let* r := send_all_sync writes m len in
  match r with
  | None => Ok None
  | Some (ret, _, sent, writes) => Ok (Some (ret, sent, writes))
  end.
(** The result, what was sent, and the calls of [close]. *)
Definition send_msg (writes : list Z) (m : list Z) (len : Z) : res (option (Z * list Z * nat)) :=
  let* r := send_all writes m len in
  match r with
  | None => Ok None
  | Some (ret, sent, _) => Ok (Some (if ret =? -1 then -1 else 0, sent, 1%nat))
  end.

(** The name must be terminated inside its object: [dictFetchValue] reads it
    as a string.  [p]: its address. *)
Record reply := mk_reply { answer : option msg; sent : list Z; closes : nat; table : R }.
Definition send_msg_and_recv (p : Z) (tbl : R) (writes : list Z) (answers : reads) (m : list Z) (len : Z)
    : res (option reply) :=
  let* r := send_all writes m len in
  match r with
  | None => Ok None
  | Some (ret, out, _) =>
      if ret =? -1 then Ok (Some (mk_reply None out 1 tbl))
      else
        let* h := read_pb_header answers in
        match h with
        | None => Ok None
        | Some (None, _) => Ok (Some (mk_reply None out 1 tbl))
        | Some (Some (name, msg_len), answers) =>
            if bool_decide (0 ∈ name) then
              let* (tbl, d) := nt_fetch tbl p (c_string name) in
              match d with
              | None => Ok (Some (mk_reply None out 1 tbl))
              | Some d =>
                  let* b := read_all_sync answers (malloc junk msg_len) msg_len in
                  match b with
                  | None => Ok None
                  | Some (n, total, msg_buf, _) =>
                      if n <? 0 then Ok (Some (mk_reply None out 1 tbl))
                      else
                        let* bytes := of_option (mem_read msg_buf 0 total) in
                        Ok (Some (mk_reply (unpack d bytes) out 1 tbl))
                  end
              end
            else Ub
        end
  end.
End Client.
Arguments mk_reply {msg R}.
Arguments answer {msg R}.
Arguments sent {msg R}.
Arguments closes {msg R}.
Arguments table {msg R}.

(** ** The loops *)
Lemma read_loop_full ds rest (a b : list Z) n len :
  Forall (fun d => d <> []) ds -> zlen b = zlen (mjoin ds) -> len = zlen a + zlen b -> (ds <> [] \/ n <> None) ->
  exists n', read_loop ((Some <$> ds) ++ rest) (a ++ b) len (zlen a) n = Ok (Some (a ++ mjoin ds, Some n', len, rest)) /\ (ds <> [] -> 0 < n') /\ (ds = [] -> n = Some n').
Proof.
  revert a b n. induction ds as [|d ds IH]; intros a b n Hne Hb Hlen Hn.
  - assert (b = []) as -> by (destruct b; [done|rewrite zlen_cons in Hb; cbn in Hb; pose proof (zlen_nonneg b); change (zlen []) with 0 in Hb; lia]).
    destruct n as [n|]; [|by destruct Hn]. exists n. cbn. assert (Hr : (len <=? zlen a) = true) by (apply Z.leb_le; change (zlen []) with 0 in Hlen; lia).
    destruct rest as [|x rest]; cbn [read_loop]; rewrite Hr, !app_nil_r; subst len; change (zlen []) with 0; rewrite Z.add_0_r; done.
  - apply Forall_cons in Hne as [Hd Hne]. change (mjoin (d :: ds)) with (d ++ mjoin ds) in *. rewrite zlen_app in Hb.
    pose proof (zlen_pos d Hd). pose proof (zlen_nonneg (mjoin ds)).
    cbn [fmap list_fmap app read_loop]. destruct (Z.leb_spec len (zlen a)); [lia|].
    destruct (split_junk b (zlen d)) as (b1&b2&->&Hb1&Hb2); [lia|].
    rewrite mem_write_app by (done || unfold zlen in *; lia). cbn [of_option res_bind].
    rewrite app_assoc. replace (zlen a + zlen d) with (zlen (a ++ d)) by apply zlen_app.
    destruct (IH (a ++ d) b2 (Some (zlen d)) Hne) as (n'&Hr&Hp&He); [lia|rewrite zlen_app in *; lia|by right|].
    exists n'. rewrite Hr, <-app_assoc. split_and!; [done| |done]. intros _. destruct ds; [specialize (He eq_refl); injection He as <-; lia|by apply Hp].
Qed.
Lemma send_loop_full ns rest (m : list Z) total n out :
  Forall (fun n => 0 < n) ns -> total = zlen out -> zlen m = total + foldr Z.add 0 ns -> (ns <> [] \/ n <> None) ->
  out `prefix_of` m ->
  exists n', send_loop (ns ++ rest) m (zlen m) total n out = Ok (Some (m, Some n', zlen m, rest)) /\ (ns <> [] -> 0 < n') /\ (ns = [] -> n = Some n').
Proof.
  revert total n out. induction ns as [|x ns IH]; intros total n out Hp Ht Hm Hn [more Hout]; cbn [foldr] in Hm.
  - assert (Hnil : more = []) by (rewrite Hout, zlen_app in Hm; pose proof (zlen_nonneg more); destruct more; [done|rewrite zlen_cons in *; pose proof (zlen_nonneg more); lia]).
    subst more. rewrite app_nil_r in Hout. subst out. destruct n as [n|]; [|by destruct Hn]. exists n. cbn.
    assert (Hr : (zlen m <=? total) = true) by (apply Z.leb_le; lia).
    destruct rest as [|y rest]; cbn [send_loop]; rewrite Hr; subst total; done.
  - apply Forall_cons in Hp as [Hx Hp].
    assert (Hsum : 0 <= foldr Z.add 0 ns) by (clear -Hp; induction Hp; simpl; lia).
    cbn [app send_loop]. destruct (Z.leb_spec (zlen m) total); [lia|]. destruct (Z.eqb_spec x (-1)); [lia|].
    rewrite Hout, zlen_app in Hm. destruct (split_junk more x) as (m1&m2&->&Hm1&Hm2); [lia|].
    assert (Hmr : mem_read m total x = Some m1) by (rewrite Hout; by apply mem_read_app).
    rewrite Hmr. cbn [of_option res_bind].
    destruct (IH (total + x) (Some x) (out ++ m1) Hp) as (n'&Hr&Hp'&He).
    + rewrite zlen_app. lia.
    + rewrite Hout, !zlen_app. rewrite zlen_app in Hm. lia.
    + by right.
    + exists m2. by rewrite <-app_assoc.
    + exists n'. rewrite Hr. split_and!; [done| |done]. intros _. destruct ns; [specialize (He eq_refl); injection He as <-; lia|by apply Hp'].
Qed.
Lemma send_all_sync_full ns rest (m : list Z) :
  m <> [] -> Forall (fun n => 0 < n) ns -> zlen m = foldr Z.add 0 ns ->
  send_all_sync (ns ++ rest) m (zlen m) = Ok (Some (0, zlen m, m, rest)).
Proof.
  intros Hm Hp Hs. pose proof (zlen_pos m Hm). unfold send_all_sync.
  assert (Hns : ns <> []) by (intros ->; simpl in Hs; lia).
  destruct (send_loop_full ns rest m 0 None [] Hp) as (n'&->&Hn'&_); [done|lia|by left|by exists m|]. cbn [res_bind sync_result of_option].
  specialize (Hn' Hns). destruct (Z.eqb_spec n' (-1)); [lia|done].
Qed.
Lemma read_all_sync_full ds rest (b : list Z) :
  ds <> [] -> Forall (fun d => d <> []) ds -> zlen b = zlen (mjoin ds) ->
  read_all_sync ((Some <$> ds) ++ rest) b (zlen b) = Ok (Some (0, zlen b, mjoin ds, rest)).
Proof.
  intros Hds Hne Hb. unfold read_all_sync.
  destruct (read_loop_full ds rest [] b None (zlen b) Hne Hb) as (n'&Hr&Hn'&_); [done|by left|].
  cbn [app] in Hr. change (zlen []) with 0 in Hr. rewrite Hr. cbn [res_bind sync_result of_option].
  specialize (Hn' Hds). destruct (Z.eqb_spec n' (-1)); [lia|done].
Qed.
(** Some bytes, then the end of the stream. *)
Lemma read_loop_eof k ds (a b : list Z) n len :
  Forall (fun d => d <> []) ds -> zlen (mjoin ds) <= zlen b -> zlen a + zlen (mjoin ds) < len ->
  read_loop ((Some <$> ds) ++ replicate k (Some [])) (a ++ b) len (zlen a) n = Ok None.
Proof.
  revert a b n. induction ds as [|d ds IH]; intros a b n Hne Hb Hlen.
  - cbn in *. change (zlen []) with 0 in Hlen. revert n. induction k as [|k IHk]; intros n; cbn [replicate read_loop].
    + destruct (Z.leb_spec len (zlen a)); [lia|done].
    + destruct (Z.leb_spec len (zlen a)); [lia|].
      replace (a ++ b) with (a ++ [] ++ b) by done. rewrite mem_write_app by done. cbn [of_option res_bind].
      change (zlen []) with 0. rewrite Z.add_0_r. apply IHk.
  - apply Forall_cons in Hne as [Hd Hne]. change (mjoin (d :: ds)) with (d ++ mjoin ds) in *. rewrite zlen_app in *.
    pose proof (zlen_pos d Hd). pose proof (zlen_nonneg (mjoin ds)).
    cbn [fmap list_fmap app read_loop]. destruct (Z.leb_spec len (zlen a)); [lia|].
    destruct (split_junk b (zlen d)) as (b1&b2&->&Hb1&Hb2); [lia|].
    rewrite mem_write_app by (done || unfold zlen in *; lia). cbn [of_option res_bind].
    rewrite app_assoc. replace (zlen a + zlen d) with (zlen (a ++ d)) by apply zlen_app.
    apply IH; [done|lia|rewrite zlen_app; lia].
Qed.

(** Some bytes, then an error. *)
Lemma read_loop_error ds rest (a b : list Z) n len :
  Forall (fun d => d <> []) ds -> zlen (mjoin ds) <= zlen b -> zlen a + zlen (mjoin ds) < len ->
  exists b', read_loop ((Some <$> ds) ++ None :: rest) (a ++ b) len (zlen a) n =
    Ok (Some (a ++ mjoin ds ++ b', Some (-1), zlen a + zlen (mjoin ds), rest)).
Proof.
  revert a b n. induction ds as [|d ds IH]; intros a b n Hne Hb Hlen.
  - cbn in *. change (zlen []) with 0 in *. destruct (Z.leb_spec len (zlen a)); [lia|]. exists b. by rewrite Z.add_0_r.
  - apply Forall_cons in Hne as [Hd Hne]. change (mjoin (d :: ds)) with (d ++ mjoin ds) in *. rewrite zlen_app in *.
    pose proof (zlen_pos d Hd). pose proof (zlen_nonneg (mjoin ds)).
    cbn [fmap list_fmap app read_loop]. destruct (Z.leb_spec len (zlen a)); [lia|].
    destruct (split_junk b (zlen d)) as (b1&b2&->&Hb1&Hb2); [lia|].
    rewrite mem_write_app by (done || unfold zlen in *; lia). cbn [of_option res_bind].
    rewrite app_assoc. replace (zlen a + zlen d) with (zlen (a ++ d)) by apply zlen_app.
    destruct (IH (a ++ d) b2 (Some (zlen d)) Hne) as (b'&->); [lia|rewrite zlen_app; lia|]. exists b'.
    rewrite zlen_app, <-!app_assoc. do 4 f_equal. lia.
Qed.

(** ** The reply *)
Section Reply.
Context {desc msg : Type} `{!Protobuf desc msg} `{!ProtobufOk desc msg} (junk : nat -> Z).
Context {R : Type} `{!NameTable R desc}.
Implicit Types (m : msg) (answers : reads).

Lemma read_int_be z answers : -2147483648 <= z < 2147483648 ->
  exists x, read_int junk (Some (be_bytes 4 z) :: answers) = Some (Some x, answers) /\ s32 (ntohl x) = z.
Proof using.
  intros Hz. eexists. split; [done|].
  rewrite take_app_length' by (by rewrite length_be_bytes).
  assert (Hv : u32 (s32 (le_val (be_bytes 4 z))) = le_val (be_bytes 4 z)).
  { assert (Hu : forall y, u32 (s32 y) = u32 y) by (intros; wrap_lia). rewrite Hu. apply u32_small.
    apply (le_val_bound (be_bytes 4 z)), be_bytes_byte. }
  unfold ntohl. rewrite Hv. by apply s32_be.
Qed.
Lemma ntohl_magic x : s32 (ntohl x) = magic -> ntohl x = magic.
Proof using.
  assert (Hr : 0 <= ntohl x < 4294967296) by (apply (le_val_bound (be_bytes 4 (u32 x))), be_bytes_byte).
  unfold magic. intros H. revert H Hr. wrap_lia.
Qed.

(** A header in four full reads. *)
Lemma read_header (len nl : Z) (nm : list Z) answers :
  zlen nm = nl -> 0 <= nl < 2147483648 -> 0 <= len - 4 - nl -> len < 2147483648 ->
  read_pb_header junk (Some (be_bytes 4 magic) :: Some (be_bytes 4 len) :: Some (be_bytes 4 nl) :: Some nm :: answers) =
    Ok (Some (Some (nm, len - 4 - nl), answers)).
Proof using.
  intros Hnm Hnl Hlen Hmax. unfold read_pb_header.
  destruct (read_int_be magic (Some (be_bytes 4 len) :: Some (be_bytes 4 nl) :: Some nm :: answers)) as (x&->&Hx); [unfold magic; lia|].
  rewrite (ntohl_magic x Hx), Z.eqb_refl. cbn [negb].
  destruct (read_int_be len (Some (be_bytes 4 nl) :: Some nm :: answers)) as (y&->&->); [lia|].
  destruct (read_int_be nl (Some nm :: answers)) as (z&->&->); [lia|].
  destruct (Z.ltb_spec nl 0); [lia|].
  pose proof (mem_write_app [] (malloc junk nl) nm [] 0) as Hw. cbn [app] in Hw. rewrite !app_nil_r in Hw.
  rewrite Hw; [|done|pose proof (zlen_malloc junk nl) as Hz; unfold zlen in *; lia]. cbn [of_option res_bind].
  unfold int_ok. rewrite !bool_decide_true by lia. cbn [res_bind]. rewrite bool_decide_true by lia. done.
Qed.

Lemma frame_pieces m h1 h2 h3 nm body :
  encodable m -> frame m = h1 ++ h2 ++ h3 ++ nm ++ body -> zlen h1 = 4 -> zlen h2 = 4 -> zlen h3 = 4 -> zlen nm = name_len m ->
  h1 = be_bytes 4 magic /\ h2 = be_bytes 4 (4 + name_len m + zlen (pack m)) /\ h3 = be_bytes 4 (name_len m) /\
  nm = msg_name m ++ [0] /\ body = pack m.
Proof using ProtobufOk0.
  intros He Hf H1 H2 H3 Hn. unfold frame in Hf. unfold zlen in H1, H2, H3.
  apply app_inj_1 in Hf as [<- Hf]; [|rewrite length_be_bytes; lia].
  apply app_inj_1 in Hf as [<- Hf]; [|rewrite length_be_bytes; lia].
  apply app_inj_1 in Hf as [<- Hf]; [|rewrite length_be_bytes; lia].
  rewrite app_assoc in Hf. apply app_inj_1 in Hf as [<- <-]; [done|].
  rewrite length_app. unfold name_len, zlen in *. simpl. lia.
Qed.

(** The client's call on a reply that starts with a frame. *)
Lemma recv_frame p (tbl : R) ns wrest (req : list Z) m ds rest :
  nt_ok tbl -> nt_fresh tbl p -> encodable m -> nt_model tbl !! msg_name m = Some (descriptor m) ->
  req <> [] -> Forall (fun n => 0 < n) ns -> zlen req = foldr Z.add 0 ns ->
  mjoin ds = pack m -> Forall (fun d => d <> []) ds ->
  exists tbl', send_msg_and_recv (msg := msg) junk p tbl (ns ++ wrest)
    (Some (be_bytes 4 magic) :: Some (be_bytes 4 (4 + name_len m + zlen (pack m))) :: Some (be_bytes 4 (name_len m)) ::
     Some (msg_name m ++ [0]) :: (Some <$> ds) ++ rest) req (zlen req) = Ok (Some (mk_reply (Some m) req 1 tbl')).
Proof using ProtobufOk0.
  intros Ht Hf He Hr Hreq Hns Hsum Hds Hne. pose proof He as (_&Hname&Hpk&Hsz). unfold name_len in Hsz.
  pose proof (zlen_nonneg (msg_name m)). pose proof (zlen_pos _ Hpk).
  unfold send_msg_and_recv, send_all. rewrite send_all_sync_full by done. cbn [res_bind]. change (0 =? -1) with false. cbv iota.
  rewrite read_header; [|unfold name_len; rewrite zlen_app; done|unfold name_len; lia|lia|unfold name_len; lia]. cbn [res_bind].
  rewrite bool_decide_true by (apply elem_of_app; right; by left). rewrite c_string_terminated by done.
  destruct (nt_fetch_spec tbl p (msg_name m) Ht Hf) as (tbl'&->&_); [split; [done|lia]|]. cbn [res_bind]. rewrite Hr.
  replace (4 + name_len m + zlen (pack m) - 4 - name_len m) with (zlen (pack m)) by lia.
  pose proof (read_all_sync_full ds rest (malloc junk (zlen (pack m)))) as Hread.
  assert (Hz : zlen (malloc junk (zlen (pack m))) = zlen (pack m)) by (rewrite zlen_malloc; lia).
  rewrite Hz in Hread. rewrite Hread; [|intros ->; by rewrite <-Hds in Hpk|done|by rewrite Hds]. cbn [res_bind].
  change (0 <? 0) with false. cbv iota. rewrite Hds.
  pose proof (mem_read_app [] (pack m) [] 0 (zlen (pack m))) as Hm. cbn [app] in Hm. rewrite app_nil_r in Hm. rewrite Hm by done.
  cbn [of_option res_bind]. rewrite unpack_pack. by exists tbl'.
Qed.

(** ** The properties *)
(** C26. A request and its reply: when the server sends what [encode] makes of
    a message, and each of the three words and the name of its header arrives
    in one read of its own (the code does not read on after a short one), the
    packed message in pieces of any size, then however the kernel splits the
    request [send_msg_and_recv] has sent all of it and returns that message, and the descriptor has been closed once. *)
Theorem client_receives_reply (p : Z) (tbl : R) (writes : list Z) (more : list Z) (req o : list Z) (m : msg)
    (h1 h2 h3 nm : list Z) (ds : list (list Z)) (rest : reads) :
  nt_ok tbl -> nt_fresh tbl p -> encodable m -> nt_model tbl !! msg_name m = Some (descriptor m) ->
  req <> [] -> Forall (fun n => 0 < n) writes -> zlen req = foldr Z.add 0 writes ->
  encode junk m = Ok (o, zlen o) -> o = h1 ++ h2 ++ h3 ++ nm ++ mjoin ds -> Forall (fun d => d <> []) ds ->
  zlen h1 = 4 -> zlen h2 = 4 -> zlen h3 = 4 -> zlen nm = name_len m ->
  exists tbl', send_msg_and_recv (msg := msg) junk p tbl (writes ++ more)
    ([Some h1; Some h2; Some h3; Some nm] ++ (Some <$> ds) ++ rest) req (zlen req) = Ok (Some (mk_reply (Some m) req 1 tbl')).
Proof using ProtobufOk0.
  intros Ht Hf He Hr Hreq Hns Hsum Henc Ho Hne H1 H2 H3 Hn.
  rewrite (encode_frame junk m He) in Henc. injection Henc as Hfr. rewrite <-Hfr in Ho.
  destruct (frame_pieces m h1 h2 h3 nm (mjoin ds) He Ho H1 H2 H3 Hn) as (->&->&->&->&Hds).
  by apply recv_frame.
Qed.

(** What [read_all_sync] does, by what [read] gives it: pieces that add
    up to the length are put together and 0 is returned; an error leaves -1
    and the number of bytes so far; at an early end of the stream it reads on
    for ever; and a length of 0 or less makes it return an unset variable,
    as [send_msg_and_recv] does for a message of no bytes. *)
Theorem read_all_sync_outcomes (b : list Z) (ds : list (list Z)) (rest : reads) (len : Z) :
  Forall (fun d => d <> []) ds -> zlen b = len ->
  (ds <> [] -> zlen (mjoin ds) = len -> read_all_sync ((Some <$> ds) ++ rest) b len = Ok (Some (0, len, mjoin ds, rest))) /\
  (zlen (mjoin ds) < len -> exists b', read_all_sync ((Some <$> ds) ++ None :: rest) b len = Ok (Some (-1, zlen (mjoin ds), b', rest)) /\
     take (length (mjoin ds)) b' = mjoin ds) /\
  (zlen (mjoin ds) < len -> forall k, read_all_sync ((Some <$> ds) ++ replicate k (Some [])) b len = Ok None) /\
  (len <= 0 -> read_all_sync rest b len = Ub).
Proof using.
  intros Hne Hb. split_and!.
  - intros Hds Hsum. subst len. by apply read_all_sync_full.
  - intros Hlt. unfold read_all_sync.
    destruct (read_loop_error ds rest [] b None len Hne) as (b'&Hr); [lia|done|]. cbn [app] in Hr. change (zlen []) with 0 in Hr. rewrite Hr.
    cbn [res_bind sync_result of_option]. change (-1 =? -1) with true. cbv iota. eexists. split; [done|].
    by rewrite take_app_length.
  - intros Hlt k. unfold read_all_sync. pose proof (read_loop_eof k ds [] b None len Hne) as Hr. cbn [app] in Hr.
    change (zlen []) with 0 in Hr. rewrite Hr by lia. done.
  - intros Hle. unfold read_all_sync. assert (Hz : (len <=? 0) = true) by (by apply Z.leb_le).
    destruct rest; cbn [read_loop]; by rewrite Hz.
Qed.
End Reply.

(** ** One exchange *)
#[local] Existing Instance demo_protobuf.
#[local] Existing Instance demo_protobuf_ok.
#[local] Instance demo_client_table : NameTable (registry bool) bool := registry_table DictRefine.demo_seed.
Lemma client_receives_reply_witness :
  exists tbl', send_msg_and_recv (msg := bool * bool) (fun _ => 7) 2000 demo_table ([2; 3] ++ [9])
    ([Some (take 4 (frame (true, true))); Some (take 4 (drop 4 (frame (true, true)))); Some (take 4 (drop 8 (frame (true, true))));
      Some (lit "ping" ++ [0])] ++ (Some <$> [[1]]) ++ [None]) (lit "hello") 5 = Ok (Some (mk_reply (Some (true, true)) (lit "hello") 1 tbl')).
Proof.
  apply (client_receives_reply (fun _ => 7) 2000 demo_table [2; 3] [9] (lit "hello") (frame (true, true)) (true, true)).
  - apply demo_table_ok.
  - apply (bool_decide_unpack (registry_fresh _ _)). vm_compute. exact I.
  - apply demo_encodable.
  - vm_compute. reflexivity.
  - vm_compute. discriminate.
  - repeat constructor.
  - reflexivity.
  - apply encode_frame, demo_encodable.
  - vm_compute. reflexivity.
  - repeat constructor. discriminate.
  - reflexivity.
  - reflexivity.
  - reflexivity.
  - reflexivity.
Defined.
Lemma read_all_sync_outcomes_witness :
  read_all_sync ((Some <$> [[1; 2]; [3]]) ++ [None]) [0; 0; 0] 3 = Ok (Some (0, 3, [1; 2; 3], [None])) /\
  (forall k, read_all_sync ((Some <$> [[1; 2]]) ++ replicate k (Some [])) [0; 0; 0] 3 = Ok None).
Proof.
  split.
  - apply (read_all_sync_outcomes [0; 0; 0] [[1; 2]; [3]] [None] 3); [repeat constructor; discriminate|reflexivity|discriminate|reflexivity].
  - apply (read_all_sync_outcomes [0; 0; 0] [[1; 2]] [] 3); [repeat constructor; discriminate|reflexivity|reflexivity].
Defined.
