(* ===== verification/Ring.v ===== *)
(** * gp_ringbuffer.c: the multi-producer, multi-consumer ring (operations)

    Every shared access of [gp_ring_push] and [gp_ring_pop] is a step of its
    own: reading the first counter, reading the other side's second counter,
    the compare-and-swap, each slot, each poll of the waiting loop, and the
    final store.  Steps of different threads interleave arbitrarily; memory is
    sequentially consistent.  The unrolled copying loops visit the slots in
    increasing order of [i]. *)

From S2P Require Import Prelude.
Local Open Scope Z_scope.

(** [x--] wraps for 0. *)
Definition gp_align32pow2 (x : Z) : Z :=
  let x := u32 (x - 1) in
  let x := Z.lor x (Z.shiftr x 1) in
  let x := Z.lor x (Z.shiftr x 2) in
  let x := Z.lor x (Z.shiftr x 4) in
  let x := Z.lor x (Z.shiftr x 8) in
  Z.lor x (Z.shiftr x 16).

Record gp_ring := mk_ring {
  size : Z;
  mask : Z;
  capacity : Z;
  head_first : Z;
  head_second : Z;
  tail_first : Z;
  tail_second : Z;
  msgs : list Z;
}.
Definition set_head_first (q : gp_ring) (x : Z) : gp_ring :=
  mk_ring (size q) (mask q) (capacity q) x (head_second q) (tail_first q) (tail_second q) (msgs q).
Definition set_head_second (q : gp_ring) (x : Z) : gp_ring :=
  mk_ring (size q) (mask q) (capacity q) (head_first q) x (tail_first q) (tail_second q) (msgs q).
Definition set_tail_first (q : gp_ring) (x : Z) : gp_ring :=
  mk_ring (size q) (mask q) (capacity q) (head_first q) (head_second q) x (tail_second q) (msgs q).
Definition set_tail_second (q : gp_ring) (x : Z) : gp_ring :=
  mk_ring (size q) (mask q) (capacity q) (head_first q) (head_second q) (tail_first q) x (msgs q).
Definition set_msgs (q : gp_ring) (m : list Z) : gp_ring :=
  mk_ring (size q) (mask q) (capacity q) (head_first q) (head_second q) (tail_first q) (tail_second q) m.

(** [count] is an [int], and so is [count+1]. *)
Definition init_gp_ring (q : gp_ring) (count : Z) : res gp_ring :=
  let* n := int_ok (count + 1) in
  let size := gp_align32pow2 (u32 n) in
  Ok (mk_ring size (u32 (size - 1)) (u32 count) (head_first q) (head_second q) (tail_first q) (tail_second q) (msgs q)).
(** [calloc] of the structure and [count] pointers. *)
Definition create_gp_ring (count : Z) : res gp_ring :=
  init_gp_ring (mk_ring 0 0 0 0 0 0 0 (calloc count)) count.

(** The slot of the [i]-th of [n] objects from counter value [start]: without
    wrapping when [idx + n < size], else on to slot 0 after [size - 1]. *)
Definition slot (q : gp_ring) (start n i : Z) : Z :=
  let idx := Z.land start (mask q) in
  if u32 (idx + n) <? size q then idx + i
  else if idx + i <? size q then idx + i else i - (size q - idx).
Definition ring_get (q : gp_ring) (j : Z) : res Z :=
  of_option (if 0 <=? j then msgs q !! Z.to_nat j else None).
Definition ring_set (q : gp_ring) (j v : Z) : res gp_ring :=
  let* m := of_option (mem_write (msgs q) j [v]) in Ok (set_msgs q m).

(** *** Threads *)
Inductive call :=
  | Push (n : Z) (obj : list Z)
  | Pop (n : Z).
(** Between the steps of a call: what its locals hold. *)
Inductive pc :=
  | Idle
  | PushStart (max : Z) (obj : list Z)
  | PushHead (max : Z) (obj : list Z) (head : Z)
  | PushCas (max : Z) (obj : list Z) (head n : Z)
  | PushCopy (obj : list Z) (head n i : Z)
  | PushWait (head n : Z)
  | PushPublish (head n : Z)
  | PopStart (max : Z)
  | PopTail (max : Z) (tail : Z)
  | PopCas (max : Z) (tail n : Z)
  | PopCopy (tail n : Z) (got : list Z)
  | PopWait (tail n : Z) (got : list Z)
  | PopPublish (tail n : Z) (got : list Z).
(** The calls still to make, the current one, and what the finished ones
    returned: the count, and for pops the objects. *)
Record thread := mk_thread { calls : list call; at_pc : pc; results : list (Z * list Z) }.

(** [if (n > free_entries) n = free_entries;] with an [int] and a
    [uint32_t]. *)
Definition clamp (n avail : Z) : Z := if avail <? u32 n then s32 avail else n.

Definition goto (t : thread) (p : pc) : thread := mk_thread (calls t) p (results t).
Definition return_ (t : thread) (n : Z) (got : list Z) : thread :=
  mk_thread (calls t) Idle (results t ++ [(n, got)]).

(** One step of a thread; a thread without calls left stays. *)
Definition step (q : gp_ring) (t : thread) : res (gp_ring * thread) :=
  match at_pc t with
  | Idle =>
      match calls t with
      | [] => Ok (q, t)
      | Push n obj :: cs => Ok (q, mk_thread cs (PushStart n obj) (results t))
      | Pop n :: cs => Ok (q, mk_thread cs (PopStart n) (results t))
      end
  | PushStart max obj => Ok (q, goto t (PushHead max obj (head_first q)))
  | PushHead max obj head =>
      let free_entries := u32 (capacity q + tail_second q - head) in
      let n := clamp max free_entries in
      if n =? 0 then Ok (q, return_ t 0 []) else Ok (q, goto t (PushCas max obj head n))
  | PushCas max obj head n =>
      if head_first q =? head then
        Ok (set_head_first q (u32 (head + n)), goto t (PushCopy obj head n 0))
      else Ok (q, goto t (PushStart max obj))
  | PushCopy obj head n i =>
      if i <? n then
        let* v := of_option (obj !! Z.to_nat i) in
        let* q := ring_set q (slot q head n i) v in
        Ok (q, goto t (PushCopy obj head n (i + 1)))
      else Ok (q, goto t (PushWait head n))
  | PushWait head n =>
      if head_second q =? head then Ok (q, goto t (PushPublish head n)) else Ok (q, t)
  | PushPublish head n => Ok (set_head_second q (u32 (head + n)), return_ t n [])
  | PopStart max => Ok (q, goto t (PopTail max (tail_first q)))
  | PopTail max tail =>
      let entries := u32 (head_second q - tail) in
      let n := clamp max entries in
      if n =? 0 then Ok (q, return_ t 0 []) else Ok (q, goto t (PopCas max tail n))
  | PopCas max tail n =>
      if tail_first q =? tail then
        Ok (set_tail_first q (u32 (tail + n)), goto t (PopCopy tail n []))
      else Ok (q, goto t (PopStart max))
  | PopCopy tail n got =>
      if zlen got <? n then
        let* v := ring_get q (slot q tail n (zlen got)) in
        Ok (q, goto t (PopCopy tail n (got ++ [v])))
      else Ok (q, goto t (PopWait tail n got))
  | PopWait tail n got =>
      if tail_second q =? tail then Ok (q, goto t (PopPublish tail n got)) else Ok (q, t)
  | PopPublish tail n got => Ok (set_tail_second q (u32 (tail + n)), return_ t n got)
  end.

(** A system: the ring and its threads; thread [i] moves. *)
Definition sys : Type := (gp_ring * list thread)%type.
Definition sys_step (s : sys) (i : nat) : res sys :=
  let (q, ts) := s in
  match ts !! i with
  | None => Ok s
  | Some t => let* (q, t) := step q t in Ok (q, <[i := t]> ts)
  end.
Fixpoint run (s : sys) (sched : list nat) : res sys :=
  match sched with [] => Ok s | i :: sched => let* s := sys_step s i in run s sched end.

(** A call made while no other thread is active: the thread runs alone until
    it is idle.  [fuel]: nine steps and one per object copied. *)
Fixpoint alone (fuel : nat) (q : gp_ring) (t : thread) : res (gp_ring * thread) :=
  match fuel with
  | O => Ok (q, t)
  | S fuel => let* (q, t) := step q t in
              match at_pc t with Idle => Ok (q, t) | _ => alone fuel q t end
  end.
Definition gp_ring_push (q : gp_ring) (n : Z) (obj : list Z) : res (gp_ring * Z) :=
  let* (q, t) := alone (9 + Z.to_nat n) q (mk_thread [Push n obj] Idle []) in
  match results t with [(n, _)] => Ok (q, n) | _ => Ub end.
Definition gp_ring_pop (q : gp_ring) (n : Z) : res (gp_ring * Z * list Z) :=
  let* (q, t) := alone (9 + Z.to_nat n) q (mk_thread [Pop n] Idle []) in
  match results t with [(n, got)] => Ok (q, n, got) | _ => Ub end.
