(* ===== verification/RingInv.v ===== *)
(** * gp_ringbuffer.c: how threads share the ring

    Reservations: a thread whose compare-and-swap succeeded owns an interval
    of the counter until it publishes it.  The invariant says that the pending
    push reservations tile the counter from [head_second] to [head_first], the
    pop reservations from [tail_second] to [tail_first], and that the counters
    stay within one capacity of each other, whatever the interleaving. *)

From S2P Require Import Prelude Ring.
Local Open Scope Z_scope.

(** ** Reservations *)
Definition push_resv (t : thread) : option (Z * Z) :=
  match at_pc t with
  | PushCopy _ head n _ | PushWait head n | PushPublish head n => Some (head, head + n)
  | _ => None
  end.
Definition pop_resv (t : thread) : option (Z * Z) :=
  match at_pc t with
  | PopCopy tail n _ | PopWait tail n _ | PopPublish tail n _ => Some (tail, tail + n)
  | _ => None
  end.

(** Nonempty intervals, one after another from [a] to [b]. *)
Fixpoint chain (a : Z) (l : list (Z * Z)) (b : Z) : Prop :=
  match l with
  | [] => a = b
  | (s, e) :: l => a = s /\ s < e /\ chain e l b
  end.
Definition tiles (a b : Z) (l : list (Z * Z)) : Prop := exists l', l ≡ₚ l' /\ chain a l' b.

Lemma chain_le a l b : chain a l b -> a <= b.
Proof. revert a. induction l as [|[s e] l IH]; simpl; intros a; [lia|]. intros (->&?&?%IH). lia. Qed.
Lemma chain_start a l b s e : chain a l b -> (s, e) ∈ l -> a <= s < e /\ e <= b.
Proof.
  revert a. induction l as [|[s' e'] l IH]; simpl; intros a; [by intros _ ?%elem_of_nil|].
  intros (->&Hlt&Hc) [[= -> ->]|Hin]%elem_of_cons.
  - apply chain_le in Hc. lia.
  - destruct (IH e' Hc Hin). lia.
Qed.
Lemma chain_snoc a l b e : chain a l b -> b < e -> chain a (l ++ [(b, e)]) e.
Proof. revert a. induction l as [|[s' e'] l IH]; simpl; intros a; [intros ->; done|]. intros (->&?&?) ?. auto. Qed.

Lemma tiles_le a b l : tiles a b l -> a <= b.
Proof. intros (l'&_&Hc). by eapply chain_le. Qed.
Lemma tiles_reserve a b l e : tiles a b l -> b < e -> tiles a e ((b, e) :: l).
Proof.
  intros (l'&Hp&Hc) He. exists (l' ++ [(b, e)]). split; [|by apply chain_snoc].
  rewrite Hp. apply Permutation_cons_append.
Qed.
(** The reservation that starts at the bottom can go. *)
Lemma tiles_publish a b l e : tiles a b ((a, e) :: l) -> tiles e b l.
Proof.
  intros (l'&Hp&Hc). assert (Hin : (a, e) ∈ l') by (rewrite <-Hp; by left).
  destruct l' as [|[s' e'] l']; [by apply elem_of_nil in Hin|]. simpl in Hc. destruct Hc as (<-&Hlt&Hc).
  assert (e' = e) as ->.
  { apply elem_of_cons in Hin as [[= ->]|Hin]; [done|]. destruct (chain_start _ _ _ _ _ Hc Hin). lia. }
  exists l'. split; [by eapply Permutation_cons_inv|done].
Qed.
Lemma tiles_elem a b l s e : tiles a b l -> (s, e) ∈ l -> a <= s < e /\ e <= b.
Proof. intros (l'&Hp&Hc). rewrite Hp. by apply chain_start. Qed.
(** If anything is pending, something starts at the bottom. *)
Lemma tiles_first a b l : tiles a b l -> l <> [] -> exists e, (a, e) ∈ l.
Proof.
  intros (l'&Hp&Hc) Hne. destruct l' as [|[s e] l']; [apply Permutation_nil_r in Hp; done|].
  destruct Hc as (->&_). exists e. rewrite Hp. by left.
Qed.

Lemma omap_insert_perm {A B} (f : A -> option B) (l : list A) i x :
  l !! i = Some x ->
  exists rest, omap f l ≡ₚ option_list (f x) ++ rest /\
    forall y, omap f (<[i := y]> l) ≡ₚ option_list (f y) ++ rest.
Proof.
  intros Hi. exists (omap f (take i l) ++ omap f (drop (S i) l)).
  assert (Hgen : forall y r, omap f (take i l ++ y :: r) ≡ₚ option_list (f y) ++ omap f (take i l) ++ omap f r).
  { intros y r. rewrite omap_app. cbn. destruct (f y); cbn; [|done]. by rewrite Permutation_middle. }
  split.
  - rewrite <-(take_drop_middle _ _ _ Hi) at 1. apply Hgen.
  - intros y. rewrite insert_take_drop by (by eapply lookup_lt_Some). apply Hgen.
Qed.

(** ** The invariant *)
Implicit Types (ts : list thread) (t u : thread) (q : gp_ring) (i j : nat).
Definition call_ok (c : call) : Prop :=
  match c with Push n obj => 0 <= n < 2147483648 /\ n <= zlen obj | Pop n => 0 <= n < 2147483648 end.
#[export] Instance call_ok_dec c : Decision (call_ok c).
Proof. destruct c; simpl; apply _. Defined.

Definition pc_ok (q : gp_ring) (p : pc) : Prop :=
  match p with
  | Idle => True
  | PushStart max obj => call_ok (Push max obj)
  | PushHead max obj head => call_ok (Push max obj) /\ 0 <= head <= head_first q
  | PushCas max obj head n =>
      call_ok (Push max obj) /\ 0 <= head <= head_first q /\ 0 < n <= max /\ head + n <= tail_second q + capacity q
  | PushCopy obj head n i => n <= zlen obj /\ 0 <= i <= n /\ 0 <= head
  | PushWait head n => 0 <= head
  | PushPublish head n => head = head_second q
  | PopStart max => call_ok (Pop max)
  | PopTail max tail => call_ok (Pop max) /\ 0 <= tail <= tail_first q
  | PopCas max tail n => call_ok (Pop max) /\ 0 <= tail <= tail_first q /\ 0 < n <= max /\ tail + n <= head_second q
  | PopCopy tail n got => zlen got <= n /\ 0 <= tail
  | PopWait tail n got => 0 <= tail
  | PopPublish tail n got => tail = tail_second q
  end.

(** The objects a thread may still push. *)
Definition call_demand (c : call) : Z := match c with Push n _ => n | Pop _ => 0 end.
Definition calls_demand (cs : list call) : Z := foldr Z.add 0 (call_demand <$> cs).
Definition demand (t : thread) : Z :=
  match at_pc t with PushStart max _ | PushHead max _ _ | PushCas max _ _ _ => max | _ => 0 end + calls_demand (calls t).
Definition total_demand (ts : list thread) : Z := foldr Z.add 0 (demand <$> ts).

Record counters_ok (q : gp_ring) (ts : list thread) : Prop := {
  co_push : tiles (head_second q) (head_first q) (omap push_resv ts);
  co_pop : tiles (tail_second q) (tail_first q) (omap pop_resv ts);
  co_start : 0 <= tail_second q;
  co_data : tail_first q <= head_second q;
  co_room : head_first q <= tail_second q + capacity q;
}.
Record inv (s : sys) : Prop := {
  in_counters : counters_ok (fst s) (snd s);
  in_pcs : Forall (fun t => pc_ok (fst s) (at_pc t) /\ Forall call_ok (calls t)) (snd s);
  in_budget : head_first (fst s) + total_demand (snd s) + capacity (fst s) < 4294967296;
}.

Lemma calls_demand_nonneg cs : Forall call_ok cs -> 0 <= calls_demand cs.
Proof.
  unfold calls_demand. induction 1 as [|c cs Hc _ IH]; [done|].
  rewrite fmap_cons; cbn [foldr]. destruct c; cbn [call_demand call_ok] in *; lia.
Qed.
Lemma thread_demand_nonneg q t : pc_ok q (at_pc t) -> Forall call_ok (calls t) -> 0 <= demand t.
Proof.
  intros Hp Hc%calls_demand_nonneg. unfold demand. destruct (at_pc t); cbn [pc_ok call_ok] in *; lia.
Qed.
Lemma threads_demand_nonneg q ts : Forall (fun t => pc_ok q (at_pc t) /\ Forall call_ok (calls t)) ts -> 0 <= total_demand ts.
Proof.
  unfold total_demand. induction 1 as [|t ts [Hp Hc] _ IH]; [done|]. rewrite fmap_cons; cbn [foldr]. pose proof (thread_demand_nonneg q t Hp Hc). lia.
Qed.
Lemma total_demand_insert ts i t t' : ts !! i = Some t -> total_demand (<[i := t']> ts) = total_demand ts - demand t + demand t'.
Proof.
  unfold total_demand. revert i. induction ts as [|u ts IH]; intros [|i] Hi; [done|done| |].
  - injection Hi as ->. change (<[0%nat := t']> (t :: ts)) with (t' :: ts). rewrite !fmap_cons; cbn [foldr]. lia.
  - change (<[S i := t']> (u :: ts)) with (u :: <[i := t']> ts). rewrite !fmap_cons; cbn [foldr]. rewrite IH by done. lia.
Qed.
Lemma total_demand_elem q ts i t :
  Forall (fun t => pc_ok q (at_pc t) /\ Forall call_ok (calls t)) ts -> ts !! i = Some t -> demand t <= total_demand ts.
Proof.
  intros Hf Hi. pose proof (total_demand_insert ts i t (mk_thread [] Idle []) Hi) as Ht.
  assert (demand (mk_thread [] Idle []) = 0) by done.
  assert (0 <= total_demand (<[i := mk_thread [] Idle []]> ts)); [|lia].
  apply (threads_demand_nonneg q). by apply Forall_insert.
Qed.

(** Counters only grow, so what a waiting thread knows stays true. *)
Record grows (q q' : gp_ring) : Prop := {
  gr_cap : capacity q' = capacity q;
  gr_hf : head_first q <= head_first q';
  gr_hs : head_second q <= head_second q';
  gr_tf : tail_first q <= tail_first q';
  gr_ts : tail_second q <= tail_second q';
}.
Lemma pc_ok_grows q q' (p : pc) :
  grows q q' -> pc_ok q p ->
  (forall head n, p = PushPublish head n -> head_second q' <= head) ->
  (forall tail n got, p = PopPublish tail n got -> tail_second q' <= tail) -> pc_ok q' p.
Proof.
  intros [Hc H1 H2 H3 H4] Hp Hpush Hpop. destruct p; simpl in *; rewrite ?Hc; try lia.
  - specialize (Hpush _ _ eq_refl). lia.
  - specialize (Hpop _ _ _ eq_refl). lia.
Qed.

Lemma push_resv_publish ts j t head n :
  ts !! j = Some t -> at_pc t = PushPublish head n -> (head, head + n) ∈ omap push_resv ts.
Proof.
  intros Hj Hp. apply list_elem_of_omap. exists t. split; [by eapply list_elem_of_lookup_2|]. unfold push_resv. by rewrite Hp.
Qed.
Lemma pop_resv_publish ts j t tail n got :
  ts !! j = Some t -> at_pc t = PopPublish tail n got -> (tail, tail + n) ∈ omap pop_resv ts.
Proof.
  intros Hj Hp. apply list_elem_of_omap. exists t. split; [by eapply list_elem_of_lookup_2|]. unfold pop_resv. by rewrite Hp.
Qed.

(** What a thread's step must establish. *)
Record good_step (q q' : gp_ring) (t t' : thread) : Prop := {
  gs_grows : grows q q';
  gs_data : tail_first q' <= head_second q';
  gs_room : head_first q' <= tail_second q' + capacity q';
  gs_pc : pc_ok q' (at_pc t') /\ Forall call_ok (calls t');
  gs_demand : head_first q' + demand t' <= head_first q + demand t;
  gs_push : forall rest, tiles (head_second q) (head_first q) (option_list (push_resv t) ++ rest) ->
    tiles (head_second q') (head_first q') (option_list (push_resv t') ++ rest);
  gs_pop : forall rest, tiles (tail_second q) (tail_first q) (option_list (pop_resv t) ++ rest) ->
    tiles (tail_second q') (tail_first q') (option_list (pop_resv t') ++ rest);
}.

Lemma tiles_perm a b l l' : l ≡ₚ l' -> tiles a b l -> tiles a b l'.
Proof. intros Hp (k&Hk&Hc). exists k. split; [by rewrite <-Hp|done]. Qed.

Lemma good_step_inv q q' ts i t t' :
  inv (q, ts) -> ts !! i = Some t -> good_step q q' t t' -> inv (q', <[i := t']> ts).
Proof.
  intros [Hc Hp Hb] Hi G. cbn [fst snd] in *. destruct Hc as [Cpush Cpop Cs Cd Cr].
  assert (Hpush : tiles (head_second q') (head_first q') (omap push_resv (<[i := t']> ts))).
  { destruct (omap_insert_perm push_resv ts i t Hi) as (rest&Hr&Hr'). eapply tiles_perm; [symmetry; apply Hr'|].
    apply (gs_push _ _ _ _ G). by eapply tiles_perm. }
  assert (Hpop : tiles (tail_second q') (tail_first q') (omap pop_resv (<[i := t']> ts))).
  { destruct (omap_insert_perm pop_resv ts i t Hi) as (rest&Hr&Hr'). eapply tiles_perm; [symmetry; apply Hr'|].
    apply (gs_pop _ _ _ _ G). by eapply tiles_perm. }
  pose proof (gs_grows _ _ _ _ G) as Hg. constructor; cbn [fst snd].
  - constructor; try done; try apply G. destruct Hg. lia.
  - apply Forall_lookup. intros j u Hj. destruct (decide (i = j)) as [<-|Hne].
    + rewrite list_lookup_insert_eq in Hj by (by eapply lookup_lt_Some). injection Hj as <-. apply G.
    + pose proof Hj as Hj'. rewrite list_lookup_insert_ne in Hj by done.
      destruct (proj1 (Forall_lookup _ _) Hp j u Hj) as [Hu Hcu]. split; [|done].
      apply (pc_ok_grows q); [done..| |].
      * intros head n E. pose proof (tiles_elem _ _ _ _ _ Hpush (push_resv_publish _ _ _ _ _ Hj' E)). lia.
      * intros tail n got E. pose proof (tiles_elem _ _ _ _ _ Hpop (pop_resv_publish _ _ _ _ _ _ Hj' E)). lia.
  - rewrite (total_demand_insert _ _ _ _ Hi). pose proof (gs_demand _ _ _ _ G). destruct Hg. lia.
Qed.

Lemma clamp_spec n avail : 0 <= n < 2147483648 -> 0 <= avail < 4294967296 -> clamp n avail = Z.min n avail.
Proof.
  intros Hn Ha. unfold clamp. rewrite u32_small by lia. destruct (Z.ltb_spec avail n); [|lia].
  rewrite s32_small; lia.
Qed.

Lemma land_le_r a b : 0 <= b -> Z.land a b <= b.
Proof.
  intros Hb. assert (Hz : Z.ldiff (Z.land a b) b = 0).
  { apply Z.bits_inj'. intros k _. rewrite Z.ldiff_spec, Z.land_spec, Z.bits_0.
    by destruct (Z.testbit a k), (Z.testbit b k). }
  apply Z.sub_nocarry_ldiff in Hz. assert (0 <= Z.ldiff b (Z.land a b)) by (apply Z.ldiff_nonneg; lia). lia.
Qed.

(** The slots a reservation uses. *)
Definition slots_ok (q : gp_ring) : Prop :=
  0 < size q /\ mask q = size q - 1 /\ capacity q <= size q /\ size q <= zlen (msgs q) /\ size q < 2147483648.
Lemma slot_range q start n k :
  slots_ok q -> 0 <= start -> 0 <= k < n -> n <= capacity q -> 0 <= slot q start n k < zlen (msgs q).
Proof.
  intros (Hs&Hm&Hc&Hl&Hb) Hst Hi Hn. unfold slot. rewrite Hm.
  assert (Hidx : 0 <= Z.land start (size q - 1) <= size q - 1).
  { split; [apply Z.land_nonneg; lia|apply land_le_r; lia]. }
  set (idx := Z.land _ _) in *. rewrite u32_small by lia.
  destruct (Z.ltb_spec (idx + n) (size q)); [lia|]. destruct (Z.ltb_spec (idx + k) (size q)); lia.
Qed.
Lemma ring_set_ok q k v : 0 <= k < zlen (msgs q) -> exists m, ring_set q k v = Ok (set_msgs q m) /\ zlen m = zlen (msgs q).
Proof.
  intros Hj. unfold ring_set. destruct (mem_write_fits (msgs q) k [v]) as [m Hm]; [lia|change (zlen [v]) with 1; lia|].
  rewrite Hm. exists m. split; [done|]. by eapply zlen_mem_write.
Qed.
Lemma ring_get_ok q k : 0 <= k < zlen (msgs q) -> exists v, ring_get q k = Ok v.
Proof.
  intros Hj. unfold ring_get. destruct (Z.leb_spec 0 k); [|lia].
  destruct (lookup_lt_is_Some_2 (msgs q) (Z.to_nat k)) as [v ->]; [unfold zlen in *; lia|]. by exists v.
Qed.

(** ** Steps *)
Lemma inv_thread q ts i t : inv (q, ts) -> ts !! i = Some t -> pc_ok q (at_pc t) /\ Forall call_ok (calls t).
Proof. intros [_ Hp _] Hi. exact (proj1 (Forall_lookup _ _) Hp i t Hi). Qed.
Lemma inv_ranges q ts i t :
  inv (q, ts) -> ts !! i = Some t ->
  0 <= tail_second q <= tail_first q /\ tail_first q <= head_second q <= head_first q /\
  head_first q <= tail_second q + capacity q /\ head_first q + demand t + capacity q < 4294967296 /\ 0 <= demand t.
Proof.
  intros H Hi. pose proof H as [[Cpush%tiles_le Cpop%tiles_le ???] Hp Hb]. cbn [fst snd] in *.
  pose proof (total_demand_elem q ts i t Hp Hi). destruct (inv_thread q ts i t H Hi).
  pose proof (thread_demand_nonneg q t ltac:(done) ltac:(done)). lia.
Qed.
Lemma inv_push_resv q ts i t s e :
  inv (q, ts) -> ts !! i = Some t -> push_resv t = Some (s, e) ->
  head_second q <= s < e /\ e <= head_first q.
Proof.
  intros [[Cpush _ _ _ _] _ _] Hi Hr. cbn [fst snd] in *. eapply tiles_elem; [exact Cpush|].
  apply list_elem_of_omap. exists t. split; [by eapply list_elem_of_lookup_2|done].
Qed.
Lemma inv_pop_resv q ts i t s e :
  inv (q, ts) -> ts !! i = Some t -> pop_resv t = Some (s, e) ->
  tail_second q <= s < e /\ e <= tail_first q.
Proof.
  intros [[_ Cpop _ _ _] _ _] Hi Hr. cbn [fst snd] in *. eapply tiles_elem; [exact Cpop|].
  apply list_elem_of_omap. exists t. split; [by eapply list_elem_of_lookup_2|done].
Qed.

(** A step on the thread's own locals and, at most, a slot. *)
Lemma good_local q m t t' ts i :
  inv (q, ts) -> ts !! i = Some t ->
  push_resv t' = push_resv t -> pop_resv t' = pop_resv t -> demand t' <= demand t ->
  pc_ok q (at_pc t') -> Forall call_ok (calls t') -> good_step q (set_msgs q m) t t'.
Proof.
  intros H Hi Hpush Hpop Hd Hp Hc. destruct (inv_ranges q ts i t H Hi) as (?&?&?&_).
  constructor; cbn; rewrite ?Hpush, ?Hpop; try done; try lia.
Qed.
Lemma set_msgs_id q : set_msgs q (msgs q) = q.
Proof. by destruct q. Qed.
Lemma good_stay q t t' ts i :
  inv (q, ts) -> ts !! i = Some t ->
  push_resv t' = push_resv t -> pop_resv t' = pop_resv t -> demand t' <= demand t ->
  pc_ok q (at_pc t') -> Forall call_ok (calls t') -> good_step q q t t'.
Proof. intros. rewrite <-(set_msgs_id q) at 2. by eapply good_local. Qed.

Ltac thread_eq := intros; unfold push_resv, pop_resv, demand, goto, return_ in *; cbn [at_pc calls results] in *.

(** Reserving and publishing, on either side. *)
Lemma good_push_reserve q ts i t cs max obj head n rs :
  inv (q, ts) -> ts !! i = Some t -> t = mk_thread cs (PushCas max obj head n) rs -> head_first q = head ->
  good_step q (set_head_first q (u32 (head + n))) t (goto t (PushCopy obj head n 0)).
Proof.
  intros H Hi -> <-. destruct (inv_thread _ _ _ _ H Hi) as [Hp Hc]. destruct (inv_ranges _ _ _ _ H Hi) as (R1&R2&R3&R4&R5).
  pose proof (calls_demand_nonneg _ Hc). thread_eq. cbn in Hp. rewrite u32_small by lia.
  constructor; cbn; try lia; thread_eq; try done.
  - constructor; cbn; lia.
  - split; [lia|done].
  - lia.
  - apply tiles_reserve; [done|lia].
Qed.
Lemma good_push_publish q ts i t cs head n rs :
  inv (q, ts) -> ts !! i = Some t -> t = mk_thread cs (PushPublish head n) rs ->
  good_step q (set_head_second q (u32 (head + n))) t (return_ t n []).
Proof.
  intros H Hi ->. destruct (inv_thread _ _ _ _ H Hi) as [Hp Hc]. destruct (inv_ranges _ _ _ _ H Hi) as (R1&R2&R3&R4&R5).
  destruct (inv_push_resv _ _ _ _ head (head + n) H Hi eq_refl). thread_eq. cbn in Hp. rewrite u32_small by lia. subst head.
  constructor; cbn; try lia; thread_eq; try done; try lia.
  - constructor; cbn; lia.
  - eapply tiles_publish. eassumption.
Qed.
Lemma good_pop_reserve q ts i t cs max tail n rs :
  inv (q, ts) -> ts !! i = Some t -> t = mk_thread cs (PopCas max tail n) rs -> tail_first q = tail ->
  good_step q (set_tail_first q (u32 (tail + n))) t (goto t (PopCopy tail n [])).
Proof.
  intros H Hi -> <-. destruct (inv_thread _ _ _ _ H Hi) as [Hp Hc]. destruct (inv_ranges _ _ _ _ H Hi) as (R1&R2&R3&R4&R5).
  thread_eq. cbn in Hp. rewrite u32_small by lia. constructor; cbn; try lia; thread_eq; try done; try lia.
  - constructor; cbn; lia.
  - split; [rewrite zlen_nil; lia|done].
  - apply tiles_reserve; [done|lia].
Qed.
Lemma good_pop_publish q ts i t cs tail n got rs :
  inv (q, ts) -> ts !! i = Some t -> t = mk_thread cs (PopPublish tail n got) rs ->
  good_step q (set_tail_second q (u32 (tail + n))) t (return_ t n got).
Proof.
  intros H Hi ->. destruct (inv_thread _ _ _ _ H Hi) as [Hp Hc]. destruct (inv_ranges _ _ _ _ H Hi) as (R1&R2&R3&R4&R5).
  destruct (inv_pop_resv _ _ _ _ tail (tail + n) H Hi eq_refl). thread_eq. cbn in Hp. rewrite u32_small by lia. subst tail.
  constructor; cbn; try lia; thread_eq; try done; try lia.
  - constructor; cbn; lia.
  - eapply tiles_publish. eassumption.
Qed.

Ltac stay H Hi := eapply good_stay; [exact H|exact Hi|..]; thread_eq; try done; cbn in *; try lia.

Lemma step_good q ts i t q' t' :
  inv (q, ts) -> ts !! i = Some t -> step q t = Ok (q', t') -> good_step q q' t t'.
Proof.
  intros H Hi Hs. destruct (inv_thread q ts i t H Hi) as [Hp Hc].
  destruct (inv_ranges q ts i t H Hi) as (R1&R2&R3&R4&R5). pose proof (calls_demand_nonneg _ Hc) as Hcd.
  destruct t as [cs p rs]. unfold step in Hs. cbn [at_pc calls results] in *.
  destruct p as [|max obj|max obj head|max obj head n|obj head n k|head n|head n|max|max tail|max tail n|tail n got|tail n got|tail n got];
    cbn [pc_ok call_ok] in Hp.
  - destruct cs as [|[n obj|n] cs]; injection Hs as <- <-; try apply Forall_cons in Hc as [Hc1 Hc]; stay H Hi.
  - injection Hs as <- <-. stay H Hi.
  - rewrite u32_small, clamp_spec in Hs by (rewrite ?u32_small; unfold demand in *; cbn in *; lia).
    case_match eqn:E; injection Hs as <- <-; stay H Hi.
  - case_match eqn:E; injection Hs as <- <-; [|by stay H Hi]. apply Z.eqb_eq in E. by eapply good_push_reserve.
  - destruct (Z.ltb_spec k n); [|injection Hs as <- <-; by stay H Hi].
    inv_res. unfold ring_set in *. inv_res. eapply good_local; [done|done|..]; thread_eq; try done. cbn. lia.
  - case_match eqn:E; injection Hs as <- <-; stay H Hi.
  - injection Hs as <- <-. by eapply good_push_publish.
  - injection Hs as <- <-. stay H Hi.
  - rewrite u32_small, clamp_spec in Hs by (rewrite ?u32_small; unfold demand in *; cbn in *; lia).
    case_match eqn:E; injection Hs as <- <-; stay H Hi.
  - case_match eqn:E; injection Hs as <- <-; [|by stay H Hi]. apply Z.eqb_eq in E. by eapply good_pop_reserve.
  - destruct (Z.ltb_spec (zlen got) n); [|injection Hs as <- <-; by stay H Hi].
    inv_res. stay H Hi. rewrite zlen_app. change (zlen [a]) with 1. lia.
  - case_match eqn:E; injection Hs as <- <-; stay H Hi.
  - injection Hs as <- <-. by eapply good_pop_publish.
Qed.

(** Every schedule keeps the invariant. *)
Lemma run_inv s sched s' : inv s -> run s sched = Ok s' -> inv s' /\ capacity (fst s') = capacity (fst s).
Proof.
  revert s. induction sched as [|i sched IH]; intros [q ts] H Hr; cbn [run] in Hr; [by injection Hr as <-|].
  unfold sys_step in Hr. destruct (ts !! i) as [t|] eqn:Hi; cbn [res_bind] in Hr; [|by apply IH].
  destruct (step q t) as [[q1 t1]| |] eqn:Hs; cbn [res_bind] in Hr; try done.
  pose proof (step_good _ _ _ _ _ _ H Hi Hs) as G.
  destruct (IH _ (good_step_inv _ _ _ _ _ _ H Hi G) Hr) as [H' Hc]. split; [done|]. rewrite Hc. apply G.
Qed.

Lemma step_ok q ts i t :
  inv (q, ts) -> ts !! i = Some t -> slots_ok q -> exists q' t', step q t = Ok (q', t') /\ slots_ok q'.
Proof.
  intros H Hi Hs. destruct (inv_thread q ts i t H Hi) as [Hp Hc]. destruct (inv_ranges q ts i t H Hi) as (R1&R2&R3&_).
  pose proof (inv_push_resv q ts i t) as Rpush. pose proof (inv_pop_resv q ts i t) as Rpop.
  unfold step. destruct t as [cs p rs]; cbn [at_pc calls results] in *.
  destruct p as [|max obj|max obj head|max obj head n|obj head n k|head n|head n|max|max tail|max tail n|tail n got|tail n got|tail n got];
    cbn [pc_ok call_ok] in Hp; try (repeat case_match; by eexists _, _).
  - destruct (Z.ltb_spec k n); [|by eexists _, _]. specialize (Rpush head (head + n) H Hi eq_refl).
    destruct (lookup_lt_is_Some_2 obj (Z.to_nat k)) as [v Hv]; [unfold zlen in *; lia|]. rewrite Hv. cbn [of_option res_bind].
    destruct (ring_set_ok q (slot q head n k) v) as (m&->&Hm); [apply slot_range; done || lia|].
    cbn [res_bind]. eexists _, _. split; [done|]. unfold slots_ok in *; cbn. by rewrite Hm.
  - destruct (Z.ltb_spec (zlen got) n); [|by eexists _, _]. specialize (Rpop tail (tail + n) H Hi eq_refl).
    pose proof (zlen_nonneg got).
    destruct (ring_get_ok q (slot q tail n (zlen got))) as (v&->); [apply slot_range; done || lia|]. by eexists _, _.
Qed.
Lemma run_ok s sched : inv s -> slots_ok (fst s) -> exists s', run s sched = Ok s' /\ slots_ok (fst s').
Proof.
  revert s. induction sched as [|i sched IH]; intros [q ts] H Hs; cbn [run]; [by exists (q, ts)|].
  unfold sys_step. destruct (ts !! i) as [t|] eqn:Hi; cbn [res_bind]; [|by apply IH].
  destruct (step_ok q ts i t H Hi Hs) as (q1&t1&Hst&Hs1). rewrite Hst. cbn [res_bind].
  apply IH; [|done]. eapply good_step_inv; [done..|]. by eapply step_good.
Qed.

(** ** A thread whose turn it is runs to the end of its call *)
Lemma push_copy_alone q cs obj head n k rs :
  slots_ok q -> head_second q = head -> 0 <= head -> n <= capacity q -> n <= zlen obj -> 0 <= k <= n ->
  exists q', alone (Z.to_nat (n - k) + 3) q (mk_thread cs (PushCopy obj head n k) rs) =
      Ok (q', mk_thread cs Idle (rs ++ [(n, [])])) /\ head_second q' = u32 (head + n).
Proof.
  intros Hs Hh H0 Hc Ho Hk. remember (Z.to_nat (n - k)) as d eqn:Hd. revert q k Hs Hh Hc Hk Hd.
  induction d as [|d IH]; intros q k Hs Hh Hc Hk Hd; cbn [Nat.add alone]; unfold step; cbn [at_pc].
  - destruct (Z.ltb_spec k n); [lia|]. cbn [res_bind goto at_pc calls results]. rewrite Hh, Z.eqb_refl.
    cbn [res_bind goto at_pc calls results return_]. by eexists.
  - destruct (Z.ltb_spec k n); [|lia].
    destruct (lookup_lt_is_Some_2 obj (Z.to_nat k)) as [v Hv]; [unfold zlen in *; lia|]. rewrite Hv. cbn [of_option res_bind].
    destruct (ring_set_ok q (slot q head n k) v) as (m&->&Hm); [apply slot_range; done || lia|].
    cbn [res_bind goto at_pc calls results]. apply IH; cbn; try done; try lia. unfold slots_ok in *; cbn. by rewrite Hm.
Qed.
Lemma pop_copy_alone q cs tail n got rs :
  slots_ok q -> tail_second q = tail -> 0 <= tail -> n <= capacity q -> zlen got <= n ->
  exists q' got', alone (Z.to_nat (n - zlen got) + 3) q (mk_thread cs (PopCopy tail n got) rs) =
      Ok (q', mk_thread cs Idle (rs ++ [(n, got')])) /\ tail_second q' = u32 (tail + n).
Proof.
  intros Hs Hh H0 Hc Hk. remember (Z.to_nat (n - zlen got)) as d eqn:Hd. revert got Hk Hd.
  induction d as [|d IH]; intros got Hk Hd; cbn [Nat.add alone]; unfold step; cbn [at_pc].
  - destruct (Z.ltb_spec (zlen got) n); [lia|]. cbn [res_bind goto at_pc calls results]. rewrite Hh, Z.eqb_refl.
    cbn [res_bind goto at_pc calls results return_]. by eexists _, _.
  - destruct (Z.ltb_spec (zlen got) n); [|lia]. pose proof (zlen_nonneg got).
    destruct (ring_get_ok q (slot q tail n (zlen got))) as (v&->); [apply slot_range; done || lia|].
    cbn [res_bind goto at_pc calls results]. apply IH; rewrite zlen_app; change (zlen [v]) with 1; lia.
Qed.

Lemma push_owner_returns q ts i t e :
  inv (q, ts) -> slots_ok q -> ts !! i = Some t -> push_resv t = Some (head_second q, e) ->
  exists fuel q' t', alone fuel q t = Ok (q', t') /\ at_pc t' = Idle /\ head_second q' = e.
Proof.
  intros H Hs Hi Hr. destruct (inv_thread q ts i t H Hi) as [Hp _]. destruct (inv_ranges q ts i t H Hi) as (R1&R2&R3&R4&R5).
  pose proof (inv_push_resv q ts i t _ _ H Hi Hr) as Rp.
  destruct t as [cs p rs]. unfold push_resv in Hr. cbn [at_pc] in *.
  destruct p as [|max obj|max obj head|max obj head n|obj head n k|head n|head n|max|max tail|max tail n|tail n got|tail n got|tail n got];
    try done; injection Hr as Hh He; cbn [pc_ok] in Hp.
  - destruct (push_copy_alone q cs obj head n k rs) as (q'&Ha&Hq'); try done; try lia.
    eexists _, q', _. split; [exact Ha|]. split; [done|]. rewrite Hq', u32_small; lia.
  - exists 2%nat. cbn [alone]. unfold step; cbn [at_pc]. rewrite Hh, Z.eqb_refl.
    cbn [res_bind goto at_pc calls results return_]. eexists _, _. split; [done|]. split; [done|]. cbn. rewrite u32_small; lia.
  - exists 1%nat. cbn [alone]. unfold step; cbn [at_pc]. cbn [res_bind goto at_pc calls results return_].
    eexists _, _. split; [done|]. split; [done|]. cbn. rewrite u32_small; lia.
Qed.
Lemma pop_owner_returns q ts i t e :
  inv (q, ts) -> slots_ok q -> ts !! i = Some t -> pop_resv t = Some (tail_second q, e) ->
  exists fuel q' t', alone fuel q t = Ok (q', t') /\ at_pc t' = Idle /\ tail_second q' = e.
Proof.
  intros H Hs Hi Hr. destruct (inv_thread q ts i t H Hi) as [Hp _]. destruct (inv_ranges q ts i t H Hi) as (R1&R2&R3&R4&R5).
  pose proof (inv_pop_resv q ts i t _ _ H Hi Hr) as Rp.
  destruct t as [cs p rs]. unfold pop_resv in Hr. cbn [at_pc] in *.
  destruct p as [|max obj|max obj head|max obj head n|obj head n k|head n|head n|max|max tail|max tail n|tail n got|tail n got|tail n got];
    try done; injection Hr as Hh He; cbn [pc_ok] in Hp.
  - destruct (pop_copy_alone q cs tail n got rs) as (q'&got'&Ha&Hq'); try done; try lia.
    eexists _, q', _. split; [exact Ha|]. split; [done|]. rewrite Hq', u32_small; lia.
  - exists 2%nat. cbn [alone]. unfold step; cbn [at_pc]. rewrite Hh, Z.eqb_refl.
    cbn [res_bind goto at_pc calls results return_]. eexists _, _. split; [done|]. split; [done|]. cbn. rewrite u32_small; lia.
  - exists 1%nat. cbn [alone]. unfold step; cbn [at_pc]. cbn [res_bind goto at_pc calls results return_].
    eexists _, _. split; [done|]. split; [done|]. cbn. rewrite u32_small; lia.
Qed.

(** ** The size computed *)
(** The [w] bits below bit [L], the highest one, are set. *)
Definition smeared (L w y : Z) : Prop :=
  0 <= y /\ (forall k, L - w < k <= L -> 0 <= k -> Z.testbit y k = true) /\ (forall k, L < k -> Z.testbit y k = false).
Lemma smear_step L w y : 0 < w -> smeared L w y -> smeared L (2 * w) (Z.lor y (Z.shiftr y w)).
Proof.
  intros Hw (H0&Hs&Hz). split; [apply Z.lor_nonneg; split; [done|by apply Z.shiftr_nonneg]|]. split.
  - intros k Hk Hk0. rewrite Z.lor_spec, Z.shiftr_spec by lia.
    destruct (Z_lt_dec (L - w) k); [by rewrite Hs by lia|]. rewrite (Hs (k + w)) by lia. apply orb_true_r.
  - intros k Hk. rewrite Z.lor_spec. destruct (Z_lt_dec k 0); [by rewrite !Z.testbit_neg_r by lia|].
    rewrite Z.shiftr_spec by lia. by rewrite !Hz by lia.
Qed.
Lemma align32pow2_spec x : 1 < x < 4294967296 -> gp_align32pow2 x = 2 ^ (Z.log2 (x - 1) + 1) - 1.
Proof.
  intros Hx. unfold gp_align32pow2. rewrite (u32_small (x - 1)) by lia. set (L := Z.log2 (x - 1)).
  assert (HL : 0 <= L < 32).
  { split; [apply Z.log2_nonneg|]. apply Z.log2_lt_pow2; lia. }
  assert (H0 : smeared L 1 (x - 1)).
  { split; [lia|]. split.
    - intros k Hk _. replace k with L by lia. apply Z.bit_log2. lia.
    - intros k Hk. apply Z.bits_above_log2; lia. }
  apply smear_step in H0; [|lia]. do 4 (apply smear_step in H0; [cbn [Z.mul Pos.mul] in H0|lia]).
  destruct H0 as (Hn&Hs&Hz).
  match goal with |- ?a = _ => assert (a = Z.ones (L + 1)) as -> end; [|rewrite Z.ones_equiv; lia].
  apply Z.bits_inj'. intros k Hk. destruct (Z_le_dec k L).
  - rewrite Hs, Z.ones_spec_low by lia. done.
  - rewrite Hz, Z.ones_spec_high by lia. done.
Qed.

(** One object, nobody else active. *)
Lemma alone_step fuel q t q' t' : step q t = Ok (q', t') -> at_pc t' <> Idle -> alone (S fuel) q t = alone fuel q' t'.
Proof. intros Hs Hn. cbn [alone]. rewrite Hs. cbn [res_bind]. by destruct (at_pc t'). Qed.
Lemma alone_done fuel q t q' t' : step q t = Ok (q', t') -> at_pc t' = Idle -> alone (S fuel) q t = Ok (q', t').
Proof. intros Hs Hn. cbn [alone]. rewrite Hs. cbn [res_bind]. by rewrite Hn. Qed.

Lemma push_one q v m :
  head_second q = head_first q -> 0 <= head_first q -> 0 < capacity q + tail_second q - head_first q < 4294967296 ->
  mem_write (msgs q) (slot q (head_first q) 1 0) [v] = Some m ->
  gp_ring_push q 1 [v] = Ok (set_head_second (set_msgs (set_head_first q (u32 (head_first q + 1))) m) (u32 (head_first q + 1)), 1).
Proof.
  intros Hh H0 Hf Hm. unfold gp_ring_push. change (9 + Z.to_nat 1)%nat with 10%nat.
  set (h := head_first q) in *.
  rewrite (alone_step 9 q _ q (mk_thread [] (PushStart 1 [v]) [])) by done.
  rewrite (alone_step 8 q _ q (mk_thread [] (PushHead 1 [v] h) [])) by done.
  rewrite (alone_step 7 q _ q (mk_thread [] (PushCas 1 [v] h 1) [])); [| |done].
  2: { unfold step; cbn [at_pc]. by rewrite u32_small, clamp_spec, Z.min_l by lia. }
  rewrite (alone_step 6 q _ (set_head_first q (u32 (h + 1))) (mk_thread [] (PushCopy [v] h 1 0) [])); [| |done].
  2: { unfold step; cbn [at_pc]. by rewrite Z.eqb_refl. }
  rewrite (alone_step 5 _ _ (set_msgs (set_head_first q (u32 (h + 1))) m) (mk_thread [] (PushCopy [v] h 1 1) [])); [| |done].
  2: { unfold step; cbn [at_pc]. change (0 <? 1) with true. cbv iota. change ([v] !! Z.to_nat 0) with (Some v). cbn [of_option res_bind].
       unfold ring_set. change (slot (set_head_first q (u32 (h + 1))) h 1 0) with (slot q h 1 0).
       change (msgs (set_head_first q (u32 (h + 1)))) with (msgs q). by rewrite Hm. }
  rewrite (alone_step 4 _ _ (set_msgs (set_head_first q (u32 (h + 1))) m) (mk_thread [] (PushWait h 1) [])) by done.
  rewrite (alone_step 3 _ _ (set_msgs (set_head_first q (u32 (h + 1))) m) (mk_thread [] (PushPublish h 1) [])); [| |done].
  2: { unfold step; cbn [at_pc]. cbn [set_msgs set_head_first head_second]. by rewrite Hh, Z.eqb_refl. }
  rewrite (alone_done 2 _ _ (set_head_second (set_msgs (set_head_first q (u32 (h + 1))) m) (u32 (h + 1))) (mk_thread [] Idle [(1, [])])) by done. done.
Qed.
Lemma pop_one q v :
  tail_second q = tail_first q -> 0 <= tail_first q -> 0 < head_second q - tail_first q < 4294967296 ->
  ring_get q (slot q (tail_first q) 1 0) = Ok v ->
  gp_ring_pop q 1 = Ok (set_tail_second (set_tail_first q (u32 (tail_first q + 1))) (u32 (tail_first q + 1)), 1, [v]).
Proof.
  intros Hh H0 Hf Hm. unfold gp_ring_pop. change (9 + Z.to_nat 1)%nat with 10%nat.
  set (h := tail_first q) in *.
  rewrite (alone_step 9 q _ q (mk_thread [] (PopStart 1) [])) by done.
  rewrite (alone_step 8 q _ q (mk_thread [] (PopTail 1 h) [])) by done.
  rewrite (alone_step 7 q _ q (mk_thread [] (PopCas 1 h 1) [])); [| |done].
  2: { unfold step; cbn [at_pc]. by rewrite u32_small, clamp_spec, Z.min_l by lia. }
  rewrite (alone_step 6 q _ (set_tail_first q (u32 (h + 1))) (mk_thread [] (PopCopy h 1 []) [])); [| |done].
  2: { unfold step; cbn [at_pc]. by rewrite Z.eqb_refl. }
  rewrite (alone_step 5 _ _ (set_tail_first q (u32 (h + 1))) (mk_thread [] (PopCopy h 1 [v]) [])); [| |done].
  2: { unfold step; cbn [at_pc]. change (zlen (@nil Z)) with 0. change (0 <? 1) with true. cbv iota.
       change (ring_get (set_tail_first q (u32 (h + 1))) (slot (set_tail_first q (u32 (h + 1))) h 1 0)) with (ring_get q (slot q h 1 0)).
       by rewrite Hm. }
  rewrite (alone_step 4 _ _ (set_tail_first q (u32 (h + 1))) (mk_thread [] (PopWait h 1 [v]) [])) by done.
  rewrite (alone_step 3 _ _ (set_tail_first q (u32 (h + 1))) (mk_thread [] (PopPublish h 1 [v]) [])); [| |done].
  2: { unfold step; cbn [at_pc]. cbn [set_tail_first tail_second]. by rewrite Hh, Z.eqb_refl. }
  rewrite (alone_done 2 _ _ (set_tail_second (set_tail_first q (u32 (h + 1))) (u32 (h + 1))) (mk_thread [] Idle [(1, [v])])) by done. done.
Qed.

Definition start_threads (progs : list (list call)) : list thread := (fun cs => mk_thread cs Idle []) <$> progs.
Definition total_pushed (progs : list (list call)) : Z := foldr Z.add 0 (calls_demand <$> progs).
Lemma start_no_resv {A} (f : thread -> option A) progs :
  (forall cs, f (mk_thread cs Idle []) = None) -> omap f (start_threads progs) = [].
Proof. intros Hf. induction progs as [|p ps IH]; [done|]. unfold start_threads in *. rewrite fmap_cons. cbn. by rewrite Hf. Qed.
Lemma total_pushed_nonneg progs : Forall (Forall call_ok) progs -> 0 <= total_pushed progs.
Proof.
  unfold total_pushed. induction 1 as [|p ps Hp _ IH]; [done|]. rewrite fmap_cons; cbn [foldr].
  pose proof (calls_demand_nonneg _ Hp). lia.
Qed.
(** A new ring, for a count whose successor is an [int]. *)
Definition fresh_ring (count : Z) : gp_ring :=
  let size := gp_align32pow2 (u32 (count + 1)) in mk_ring size (u32 (size - 1)) (u32 count) 0 0 0 0 (calloc count).
Lemma create_ok count : -2147483648 <= count + 1 < 2147483648 -> create_gp_ring count = Ok (fresh_ring count).
Proof. intros H. unfold create_gp_ring, init_gp_ring. by rewrite int_ok_small. Qed.
Lemma create_inv {A} count (k : gp_ring -> res A) (x : A) :
  (let* q := create_gp_ring count in k q) = Ok x -> k (fresh_ring count) = Ok x.
Proof. unfold create_gp_ring, init_gp_ring, int_ok. destruct (bool_decide _); [done|discriminate]. Qed.

Lemma start_inv count progs :
  0 <= count -> Forall (Forall call_ok) progs -> total_pushed progs + count < 4294967296 ->
  inv (fresh_ring count, start_threads progs) /\ capacity (fresh_ring count) = count.
Proof.
  intros Hc Hp Hb. pose proof (total_pushed_nonneg progs Hp).
  assert (Hd : total_demand (start_threads progs) = total_pushed progs).
  { unfold total_demand, total_pushed, start_threads. rewrite <-list_fmap_compose. f_equal. }
  assert (Hcap : capacity (fresh_ring count) = count) by (cbn; rewrite u32_small; lia).
  split; [|done]. constructor; cbn [fst snd].
  - constructor; rewrite ?start_no_resv by done; cbn; try lia; try (by exists []). rewrite u32_small; lia.
  - unfold start_threads. rewrite Forall_fmap. eapply Forall_impl; [exact Hp|]. intros cs Hcs. by split.
  - rewrite Hcap, Hd. cbn. lia.
Qed.

Lemma pow2_ring (k : Z) : 1 <= k <= 30 -> slots_ok (fresh_ring (2 ^ k - 1)).
Proof.
  intros Hk. assert (Hp : 2 <= 2 ^ k <= 1073741824).
  { change 1073741824 with (2 ^ 30). split; [change 2 with (2 ^ 1) at 1|]; apply Z.pow_le_mono_r; lia. }
  assert (Hsz : gp_align32pow2 (u32 (2 ^ k - 1 + 1)) = 2 ^ k - 1).
  { rewrite u32_small, align32pow2_spec by lia. replace (2 ^ k - 1 + 1 - 1) with (Z.pred (2 ^ k)) by lia.
    rewrite Z.log2_pred_pow2 by lia. by replace (Z.pred k + 1) with k by lia. }
  unfold slots_ok, fresh_ring. cbn [size mask capacity msgs]. rewrite Hsz, zlen_calloc by lia.
  rewrite !u32_small by lia. lia.
Qed.

(** ** Properties *)
(** C6.  Whatever the interleaving of the threads' steps, the reservations
    of the running pushes are disjoint and cover exactly the counter values
    between [head.second] and [head.first], those of the pops the values
    between [tail.second] and [tail.first], and the ring never holds more than
    its capacity nor gives out what was not published, as long as fewer than
    2^32 objects pass through. *)
Theorem ring_reservations_tile (count : Z) (progs : list (list call)) (sched : list nat) (q : gp_ring) (ts : list thread) :
  0 <= count -> Forall (Forall call_ok) progs -> total_pushed progs + count < 4294967296 ->
  (let* q0 := create_gp_ring count in run (q0, start_threads progs) sched) = Ok (q, ts) ->
  tiles (head_second q) (head_first q) (omap push_resv ts) /\
  tiles (tail_second q) (tail_first q) (omap pop_resv ts) /\
  0 <= tail_second q <= tail_first q /\ tail_first q <= head_second q <= head_first q /\
  head_first q <= tail_second q + count.
Proof.
  intros Hc Hp Hb Hr%create_inv. destruct (start_inv count progs Hc Hp Hb) as [Hi Hcap].
  destruct (run_inv _ _ _ Hi Hr) as [[[Cpush Cpop ???] _ _] Hcap']. cbn [fst snd] in *.
  pose proof (tiles_le _ _ _ Cpush). pose proof (tiles_le _ _ _ Cpop). rewrite Hcap', Hcap in *. lia || (split; [done|]; split; [done|]; lia).
Qed.

(** C13.  With a capacity of the form 2^k - 1 the slots computed always lie
    inside the allocation: no schedule of any threads goes out of bounds. *)
Theorem ring_stays_in_bounds (k : Z) (progs : list (list call)) (sched : list nat) :
  1 <= k <= 30 -> Forall (Forall call_ok) progs -> total_pushed progs + (2 ^ k - 1) < 4294967296 ->
  exists s, (let* q := create_gp_ring (2 ^ k - 1) in run (q, start_threads progs) sched) = Ok s.
Proof.
  intros Hk Hp Hb. assert (0 < 2 ^ k <= 2 ^ 30) by (split; [apply Z.pow_pos_nonneg|apply Z.pow_le_mono_r]; lia). rewrite create_ok by lia.
  destruct (start_inv (2 ^ k - 1) progs) as [Hi _]; [lia|done|done|].
  destruct (run_ok _ sched Hi (pow2_ring k Hk)) as (s&Hs&_). cbn [res_bind]. by exists s.
Qed.

(** C14.  The waiting loops cannot deadlock: at any moment, if some push is
    pending then the thread whose reservation is the oldest finishes its call
    by its own steps and so lets the next one through; likewise for pops. *)
Theorem ring_waiters_progress (k : Z) (progs : list (list call)) (sched : list nat) (q : gp_ring) (ts : list thread) :
  1 <= k <= 30 -> Forall (Forall call_ok) progs -> total_pushed progs + (2 ^ k - 1) < 4294967296 ->
  (let* q0 := create_gp_ring (2 ^ k - 1) in run (q0, start_threads progs) sched) = Ok (q, ts) ->
  (omap push_resv ts <> [] ->
     exists i t e fuel q' t', ts !! i = Some t /\ push_resv t = Some (head_second q, e) /\
       alone fuel q t = Ok (q', t') /\ at_pc t' = Idle /\ head_second q' = e) /\
  (omap pop_resv ts <> [] ->
     exists i t e fuel q' t', ts !! i = Some t /\ pop_resv t = Some (tail_second q, e) /\
       alone fuel q t = Ok (q', t') /\ at_pc t' = Idle /\ tail_second q' = e).
Proof.
  intros Hk Hp Hb Hr%create_inv. assert (0 < 2 ^ k) by (apply Z.pow_pos_nonneg; lia).
  destruct (start_inv (2 ^ k - 1) progs) as [Hi _]; [lia|done|done|].
  destruct (run_inv _ _ _ Hi Hr) as [H' _]. destruct (run_ok _ sched Hi (pow2_ring k Hk)) as (s&Hs&Hok).
  rewrite Hr in Hs. injection Hs as <-. cbn [fst] in Hok. destruct (in_counters _ H') as [Cpush Cpop _ _ _]. cbn [fst snd] in *. split.
  - intros Hne. destruct (tiles_first _ _ _ Cpush Hne) as (e&He). apply list_elem_of_omap in He as (t&Ht&Hrt).
    apply list_elem_of_lookup in Ht as [i Ht].
    destruct (push_owner_returns q ts i t e H' Hok Ht Hrt) as (fuel&q'&t'&?&?&?). by exists i, t, e, fuel, q', t'.
  - intros Hne. destruct (tiles_first _ _ _ Cpop Hne) as (e&He). apply list_elem_of_omap in He as (t&Ht&Hrt).
    apply list_elem_of_lookup in Ht as [i Ht].
    destruct (pop_owner_returns q ts i t e H' Hok Ht Hrt) as (fuel&q'&t'&?&?&?). by exists i, t, e, fuel, q', t'.
Qed.

(** [gp_align32pow2] yields one less than a power of two, so the mask
    is even and two consecutive single pushes meet in slot 0: the first object
    is lost and the pop returns the second. *)
Theorem ring_slots_collide (count a b : Z) :
  2 <= count < 2147483647 ->
  gp_align32pow2 (count + 1) = 2 ^ (Z.log2 count + 1) - 1 /\
  exists q0 q1 q2 q3, create_gp_ring count = Ok q0 /\ gp_ring_push q0 1 [a] = Ok (q1, 1) /\
    gp_ring_push q1 1 [b] = Ok (q2, 1) /\ gp_ring_pop q2 1 = Ok (q3, 1, [b]).
Proof.
  intros Hc. assert (Hsz : gp_align32pow2 (count + 1) = 2 ^ (Z.log2 count + 1) - 1).
  { rewrite align32pow2_spec by lia. by replace (count + 1 - 1) with count by lia. }
  split; [done|]. set (L := Z.log2 count) in *.
  assert (HL : 1 <= L) by (change 1 with (Z.log2 2); apply Z.log2_le_mono; lia).
  assert (HL2 : L < 31) by (apply Z.log2_lt_pow2; [lia|change (2 ^ 31) with 2147483648; lia]).
  assert (Hp : 4 <= 2 ^ (L + 1) <= 2147483648).
  { change 4 with (2 ^ 2). change 2147483648 with (2 ^ 31). split; apply Z.pow_le_mono_r; lia. }
  assert (Hq : fresh_ring count =
    mk_ring (2 ^ (L + 1) - 1) (2 ^ (L + 1) - 2) count 0 0 0 0 (calloc count)).
  { unfold fresh_ring.
    rewrite (u32_small (count + 1)), Hsz, !u32_small by lia. f_equal. lia. }
  assert (Hmask : Z.land 1 (2 ^ (L + 1) - 2) = 0).
  { replace (2 ^ (L + 1) - 2) with (2 * (2 ^ L - 1)) by (rewrite Z.pow_add_r by lia; lia).
    change 1 with (Z.ones 1). rewrite Z.land_comm, Z.land_ones by lia. change (2 ^ 1) with 2.
    rewrite Z.mul_comm. apply Z.mod_mul. lia. }
  assert (Hslot : forall q h, size q = 2 ^ (L + 1) - 1 -> mask q = 2 ^ (L + 1) - 2 -> h = 0 \/ h = 1 -> slot q h 1 0 = 0).
  { intros q h Hs Hm Hh. unfold slot. rewrite Hs, Hm.
    assert (Z.land h (2 ^ (L + 1) - 2) = 0) as -> by (destruct Hh as [->| ->]; done).
    change (u32 (0 + 1)) with 1. destruct (Z.ltb_spec 1 (2 ^ (L + 1) - 1)); lia. }
  rewrite create_ok by lia. rewrite Hq. destruct (mem_write_fits (calloc count) 0 [a]) as [m1 Hm1]; [lia|rewrite zlen_calloc by lia; change (zlen [a]) with 1; lia|].
  pose proof (zlen_mem_write _ _ _ _ Hm1) as Hz1. rewrite zlen_calloc in Hz1 by lia.
  destruct (mem_write_fits m1 0 [b]) as [m2 Hm2]; [lia|change (zlen [b]) with 1; lia|].
  pose proof (mem_read_write_eq _ _ _ _ Hm2) as Hr2. pose proof (zlen_mem_write _ _ _ _ Hm2) as Hz2.
  eexists _, _, _, _. split; [done|]. split; [|split].
  - apply push_one; [done|done|change (0 < count + 0 - 0 < 4294967296); lia|]. rewrite Hslot by auto. exact Hm1.
  - apply push_one; [done|done|change (0 < count + 0 - 1 < 4294967296); lia|]. rewrite Hslot by auto. exact Hm2.
  - apply pop_one; [done|done|change (0 < 2 - 0 < 4294967296); lia|]. rewrite Hslot by auto.
    unfold ring_get. apply mem_read_inv in Hr2 as (_&_&_&Hb). change (Z.to_nat (zlen [b])) with 1%nat in Hb.
    change (Z.to_nat 0) with 0%nat in Hb. rewrite drop_0 in Hb. cbn. destruct m2; [done|]. cbn in *. by injection Hb as <-.
Qed.

(** *** Three threads on a ring of three *)
Definition demo_progs : list (list call) := [[Push 2 [11; 12]]; [Push 1 [21]; Pop 1]; [Pop 2]].
Definition demo_sched : list nat := [0; 1; 0; 1; 0; 0; 1; 1; 1; 1; 1; 1; 0; 0; 2; 2; 1]%nat.
Lemma demo_progs_ok : Forall (Forall call_ok) demo_progs.
Proof. apply (bool_decide_unpack _). vm_compute. exact I. Qed.
Definition demo_state : sys :=
  match run (fresh_ring 3, start_threads demo_progs) demo_sched with Ok s => s | _ => (fresh_ring 0, []) end.

Lemma ring_reservations_tile_witness :
  let (q, ts) := demo_state in
  omap push_resv ts <> [] /\
  tiles (head_second q) (head_first q) (omap push_resv ts) /\
  tiles (tail_second q) (tail_first q) (omap pop_resv ts) /\
  0 <= tail_second q <= tail_first q /\ tail_first q <= head_second q <= head_first q /\
  head_first q <= tail_second q + 3.
Proof.
  split; [vm_compute; discriminate|].
  apply (ring_reservations_tile 3 demo_progs demo_sched).
  - lia.
  - apply demo_progs_ok.
  - vm_compute. reflexivity.
  - vm_compute. reflexivity.
Defined.

Lemma ring_stays_in_bounds_witness : exists s, (let* q := create_gp_ring (2 ^ 2 - 1) in run (q, start_threads demo_progs) demo_sched) = Ok s.
Proof.
  apply (ring_stays_in_bounds 2 demo_progs demo_sched).
  - lia.
  - apply demo_progs_ok.
  - vm_compute. reflexivity.
Defined.

Lemma ring_waiters_progress_witness :
  let (q, ts) := demo_state in
  exists i t e fuel q' t', ts !! i = Some t /\ push_resv t = Some (head_second q, e) /\
    alone fuel q t = Ok (q', t') /\ at_pc t' = Idle /\ head_second q' = e.
Proof.
  apply (ring_waiters_progress 2 demo_progs demo_sched).
  - lia.
  - apply demo_progs_ok.
  - vm_compute. reflexivity.
  - vm_compute. reflexivity.
  - vm_compute. discriminate.
Defined.

Lemma ring_slots_collide_witness :
  gp_align32pow2 (2 + 1) = 2 ^ (Z.log2 2 + 1) - 1 /\
  exists q0 q1 q2 q3, create_gp_ring 2 = Ok q0 /\ gp_ring_push q0 1 [7] = Ok (q1, 1) /\
    gp_ring_push q1 1 [8] = Ok (q2, 1) /\ gp_ring_pop q2 1 = Ok (q3, 1, [8]).
Proof. apply (ring_slots_collide 2 7 8). lia. Defined.

(** With room for two the third object is written past the allocation. *)
Example ring_out_of_bounds :
  (let* q := create_gp_ring 2 in
   let* (q, _) := gp_ring_push q 2 [1; 2] in
   let* (q, _, _) := gp_ring_pop q 2 in gp_ring_push q 1 [3]) = Ub.
Proof. vm_compute. reflexivity. Qed.
