(* ===== verification/Handler.v ===== *)
(** * gp_handler.c and gp_epoller.c: which events the kernel watches

    A handler carries the event mask its owner wants; the epoller passes every
    change on to epoll.  The calls to [epoll_ctl], whose results the code
    ignores, are recorded in order in [ctl_calls].  The epoller's dictionary
    from descriptors to handlers is a finite map here, as the hash table
    provides it. *)

From S2P Require Import Prelude.
Local Open Scope Z_scope.

(** [<poll.h>] and [<sys/epoll.h>] *)
Definition POLLIN : Z := 1.
Definition POLLPRI : Z := 2.
Definition POLLOUT : Z := 4.
Definition POLLERR : Z := 8.
Definition POLLHUP : Z := 16.
Definition POLLNVAL : Z := 32.
Definition POLLRDHUP : Z := 8192.
Definition EPOLL_CTL_ADD : Z := 1.
Definition EPOLL_CTL_DEL : Z := 2.
Definition EPOLL_CTL_MOD : Z := 3.

Definition knone_event : Z := 0.
Definition kread_event : Z := Z.lor POLLIN POLLPRI.
Definition kwrite_event : Z := POLLOUT.
Definition k_new : Z := -1.
Definition k_added : Z := 1.
Definition k_deleted : Z := 2.

(** The callbacks are set or NULL; their code belongs to the owner. *)
Record gp_handler := mk_handler {
  add_to_loop : Z;
  event_handling : Z;
  index : Z;
  fd : Z;
  events : Z;
  revents : Z;
  read_callback : bool;
  write_callback : bool;
  close_callback : bool;
  error_callback : bool;
}.
Definition set_index (h : gp_handler) (i : Z) : gp_handler :=
  mk_handler (add_to_loop h) (event_handling h) i (fd h) (events h) (revents h)
             (read_callback h) (write_callback h) (close_callback h) (error_callback h).
Definition set_events (h : gp_handler) (e : Z) : gp_handler :=
  mk_handler (add_to_loop h) (event_handling h) (index h) (fd h) e (revents h)
             (read_callback h) (write_callback h) (close_callback h) (error_callback h).
Definition set_add_to_loop (h : gp_handler) (x : Z) : gp_handler :=
  mk_handler x (event_handling h) (index h) (fd h) (events h) (revents h)
             (read_callback h) (write_callback h) (close_callback h) (error_callback h).
Definition set_event_handling (h : gp_handler) (x : Z) : gp_handler :=
  mk_handler (add_to_loop h) x (index h) (fd h) (events h) (revents h)
             (read_callback h) (write_callback h) (close_callback h) (error_callback h).
Definition set_callbacks (h : gp_handler) (r w c e : bool) : gp_handler :=
  mk_handler (add_to_loop h) (event_handling h) (index h) (fd h) (events h) (revents h) r w c e.
Definition put_revents (h : gp_handler) (r : Z) : gp_handler :=
  mk_handler (add_to_loop h) (event_handling h) (index h) (fd h) (events h) r
             (read_callback h) (write_callback h) (close_callback h) (error_callback h).

(** [hid]: what a [gp_handler *] points to. *)
Record gp_epoller {hid : Type} := mk_epoller {
  handlers : gmap Z hid;
  ctl_calls : list (Z * Z * Z);
}.
Arguments gp_epoller : clear implicits.
Arguments mk_epoller {hid} _ _.

Definition init_gp_handler (fd : Z) : gp_handler := mk_handler 0 0 (-1) fd 0 0 false false false false.
(** [create_gp_handler]: zeroed memory, then initialised. *)
Definition create_gp_handler (fd : Z) : gp_handler := init_gp_handler fd.
Definition set_read_callback (h : gp_handler) : gp_handler :=
  set_callbacks h true (write_callback h) (close_callback h) (error_callback h).
Definition set_write_callback (h : gp_handler) : gp_handler :=
  set_callbacks h (read_callback h) true (close_callback h) (error_callback h).
Definition set_close_callback (h : gp_handler) : gp_handler :=
  set_callbacks h (read_callback h) (write_callback h) true (error_callback h).
Definition set_error_callback (h : gp_handler) : gp_handler :=
  set_callbacks h (read_callback h) (write_callback h) (close_callback h) true.

Definition is_writing (h : gp_handler) : bool := negb (Z.land (events h) kwrite_event =? 0).
Definition is_reading (h : gp_handler) : bool := negb (Z.land (events h) kread_event =? 0).
Definition is_none_event (h : gp_handler) : bool := events h =? knone_event.

Section Epoller.
Context {hid : Type}.
Implicit Types (ep : gp_epoller hid).

Definition init_gp_epoller : gp_epoller hid := mk_epoller ∅ [].
Definition create_gp_epoller : gp_epoller hid := init_gp_epoller.

Definition poller_update ep (operation : Z) (h : gp_handler) : gp_epoller hid :=
  mk_epoller (handlers ep) (ctl_calls ep ++ [(operation, fd h, events h)]).
(** [dictAdd] keeps an entry that exists. *)
Definition handlers_add ep (f : Z) (p : hid) : gp_epoller hid :=
  match handlers ep !! f with
  | Some _ => ep
  | None => mk_epoller (<[f := p]> (handlers ep)) (ctl_calls ep)
  end.

Definition update_handler ep (p : hid) (h : gp_handler) : gp_epoller hid * gp_handler :=
  if (index h =? k_new) || (index h =? k_deleted) then
    let ep := if index h =? k_new then handlers_add ep (fd h) p else ep in
    (poller_update ep EPOLL_CTL_ADD h, set_index h k_added)
  else if is_none_event h then (poller_update ep EPOLL_CTL_DEL h, set_index h k_deleted)
  else (poller_update ep EPOLL_CTL_MOD h, h).
Definition remove_handler ep (h : gp_handler) : gp_epoller hid * gp_handler :=
  let ep := mk_epoller (delete (fd h) (handlers ep)) (ctl_calls ep) in
  let ep := if index h =? k_added then poller_update ep EPOLL_CTL_DEL h else ep in
  (ep, set_index h k_new).

(** [gp_loop_update_handler], [gp_loop_remove_handler] pass the call on. *)
Definition gp_loop_update_handler := update_handler.
Definition gp_loop_remove_handler := remove_handler.
Definition update ep (p : hid) (h : gp_handler) : gp_epoller hid * gp_handler :=
  gp_loop_update_handler ep p (set_add_to_loop h 1).
Definition set_revents ep (p : hid) (h : gp_handler) (revt : Z) : gp_epoller hid * gp_handler :=
  update ep p (put_revents h revt).
Definition enable_reading ep (p : hid) (h : gp_handler) : gp_epoller hid * gp_handler :=
  update ep p (set_events h (Z.lor (events h) kread_event)).
Definition enable_writing ep (p : hid) (h : gp_handler) : gp_epoller hid * gp_handler :=
  update ep p (set_events h (Z.lor (events h) kwrite_event)).
Definition disable_reading ep (p : hid) (h : gp_handler) : gp_epoller hid * gp_handler :=
  update ep p (set_events h (Z.land (events h) (Z.lnot kread_event))).
Definition disable_writing ep (p : hid) (h : gp_handler) : gp_epoller hid * gp_handler :=
  update ep p (set_events h (Z.land (events h) (Z.lnot kwrite_event))).
Definition disable_all ep (p : hid) (h : gp_handler) : gp_epoller hid * gp_handler :=
  update ep p (set_events h knone_event).
Definition handler_remove ep (p : hid) (h : gp_handler) : gp_epoller hid * gp_handler :=
  gp_loop_remove_handler ep (set_add_to_loop h 0).
End Epoller.

(** ** What epoll makes of the calls

    epoll_ctl(2): ADD fails on a descriptor already watched, MOD and DEL on
    one that is not. *)
Definition epoll_ctl (s : gmap Z Z * bool) (c : Z * Z * Z) : gmap Z Z * bool :=
  let '(m, ok) := s in
  let '(op, f, e) := c in
  if op =? EPOLL_CTL_ADD then
    match m !! f with Some _ => (m, false) | None => (<[f := e]> m, ok) end
  else if op =? EPOLL_CTL_MOD then
    match m !! f with Some _ => (<[f := e]> m, ok) | None => (m, false) end
  else match m !! f with Some _ => (delete f m, ok) | None => (m, false) end.
(** The interest list after the calls, and whether all of them succeeded. *)
Definition epoll_state (cs : list (Z * Z * Z)) : gmap Z Z * bool := foldl epoll_ctl (∅, true) cs.

(** The operations of a handler's owner. *)
Inductive hop := HSetRevents (r : Z) | HEnableReading | HEnableWriting | HDisableReading | HDisableWriting
  | HDisableAll | HRemove.
Definition hop_exec {hid} (ep : gp_epoller hid) (p : hid) (h : gp_handler) (o : hop) : gp_epoller hid * gp_handler :=
  match o with
  | HSetRevents r => set_revents ep p h r
  | HEnableReading => enable_reading ep p h
  | HEnableWriting => enable_writing ep p h
  | HDisableReading => disable_reading ep p h
  | HDisableWriting => disable_writing ep p h
  | HDisableAll => disable_all ep p h
  | HRemove => handler_remove ep p h
  end.
(** Handlers by number, and a sequence of operations on them. *)
Fixpoint hops_run (ep : gp_epoller nat) (hs : list gp_handler) (l : list (nat * hop)) : gp_epoller nat * list gp_handler :=
  match l with
  | [] => (ep, hs)
  | (i, o) :: l =>
      match hs !! i with
      | None => hops_run ep hs l
      | Some h => let (ep, h) := hop_exec ep i h o in hops_run ep (<[i := h]> hs) l
      end
  end.

(** One handler in step with epoll. *)
Definition watched (m : gmap Z Z) (h : gp_handler) : Prop :=
  (index h = k_added /\ m !! fd h = Some (events h)) \/
  ((index h = k_new \/ index h = k_deleted) /\ m !! fd h = None).

(** Every operation keeps a handler in step and touches no other descriptor. *)
Definition in_step {hid} (ep : gp_epoller hid) (h : gp_handler) : Prop :=
  watched (fst (epoll_state (ctl_calls ep))) h.
Lemma epoll_state_snoc cs c : epoll_state (cs ++ [c]) = epoll_ctl (epoll_state cs) c.
Proof. unfold epoll_state. by rewrite foldl_app. Qed.

Lemma update_handler_spec {hid} (ep : gp_epoller hid) p h h0 :
  in_step ep h0 -> fd h = fd h0 -> index h = index h0 -> (epoll_state (ctl_calls ep)).2 = true ->
  forall ep' h', update_handler ep p h = (ep', h') ->
  in_step ep' h' /\ (epoll_state (ctl_calls ep')).2 = true /\ fd h' = fd h /\ events h' = events h /\
  forall f, f <> fd h -> (epoll_state (ctl_calls ep')).1 !! f = (epoll_state (ctl_calls ep)).1 !! f.
Proof.
  unfold in_step, watched. intros Hw Hfd Hix Hok ep' h' Hu. rewrite <-Hfd, <-Hix in Hw.
  unfold update_handler in Hu.
  assert (Hadd : forall f q, ctl_calls (handlers_add ep f q) = ctl_calls ep).
  { intros. unfold handlers_add. by destruct (handlers ep !! f). }
  destruct Hw as [[Hi Hl]|[Hi Hl]].
  - rewrite Hi in Hu. change (k_added =? k_new) with false in Hu. change (k_added =? k_deleted) with false in Hu. cbn [orb] in Hu.
    destruct (is_none_event h); injection Hu as <- <-; unfold poller_update; cbn [ctl_calls]; rewrite epoll_state_snoc;
      destruct (epoll_state (ctl_calls ep)) as [m b]; cbn in *; rewrite Hl; cbn.
    + split; [right; split; [by right|apply lookup_delete_eq]|]. split_and!; try done. intros f Hf. by rewrite lookup_delete_ne.
    + split; [left; by rewrite lookup_insert_eq|]. split_and!; try done. intros f Hf. by rewrite lookup_insert_ne.
  - assert (Hor : (index h =? k_new) || (index h =? k_deleted) = true) by (destruct Hi as [-> | ->]; done).
    rewrite Hor in Hu. injection Hu as <- <-. unfold poller_update; cbn [ctl_calls].
    assert (Hcs : ctl_calls (if index h =? k_new then handlers_add ep (fd h) p else ep) = ctl_calls ep) by (destruct (index h =? k_new); auto).
    rewrite Hcs, epoll_state_snoc. destruct (epoll_state (ctl_calls ep)) as [m b]; cbn in *; rewrite Hl; cbn.
    split; [left; by rewrite lookup_insert_eq|]. split_and!; try done. intros f Hf. by rewrite lookup_insert_ne.
Qed.

Lemma remove_handler_spec {hid} (ep : gp_epoller hid) h h0 :
  in_step ep h0 -> fd h = fd h0 -> index h = index h0 -> (epoll_state (ctl_calls ep)).2 = true ->
  forall ep' h', remove_handler ep h = (ep', h') ->
  in_step ep' h' /\ (epoll_state (ctl_calls ep')).2 = true /\ fd h' = fd h /\ index h' = k_new /\
  forall f, f <> fd h -> (epoll_state (ctl_calls ep')).1 !! f = (epoll_state (ctl_calls ep)).1 !! f.
Proof.
  unfold in_step, watched. intros Hw Hfd Hix Hok ep' h' Hu. rewrite <-Hfd, <-Hix in Hw. unfold remove_handler in Hu.
  destruct Hw as [[Hi Hl]|[Hi Hl]].
  - rewrite Hi in Hu. change (k_added =? k_added) with true in Hu. injection Hu as <- <-.
    unfold poller_update; cbn [ctl_calls]. rewrite epoll_state_snoc.
    destruct (epoll_state (ctl_calls ep)) as [m b]; cbn in *; rewrite Hl; cbn.
    split; [right; split; [by left|apply lookup_delete_eq]|]. split_and!; try done. intros f Hf. by rewrite lookup_delete_ne.
  - assert (Hor : (index h =? k_added) = false) by (destruct Hi as [-> | ->]; done).
    rewrite Hor in Hu. injection Hu as <- <-. cbn. split_and!; try done. right. split; [by left|done].
Qed.

(** The operations as updates of the wanted events. *)
Definition hop_events (o : hop) (e : Z) : Z :=
  match o with
  | HSetRevents _ | HRemove => e
  | HEnableReading => Z.lor e kread_event
  | HEnableWriting => Z.lor e kwrite_event
  | HDisableReading => Z.land e (Z.lnot kread_event)
  | HDisableWriting => Z.land e (Z.lnot kwrite_event)
  | HDisableAll => knone_event
  end.
Lemma hop_exec_spec {hid} (ep : gp_epoller hid) p h o :
  in_step ep h -> (epoll_state (ctl_calls ep)).2 = true ->
  forall ep' h', hop_exec ep p h o = (ep', h') ->
  in_step ep' h' /\ (epoll_state (ctl_calls ep')).2 = true /\ fd h' = fd h /\ events h' = hop_events o (events h) /\
  forall f, f <> fd h -> (epoll_state (ctl_calls ep')).1 !! f = (epoll_state (ctl_calls ep)).1 !! f.
Proof.
  intros Hs Hok ep' h' He.
  destruct o; cbn [hop_exec] in He;
    try (eapply (update_handler_spec ep p _ h Hs) in He; [|reflexivity|reflexivity|exact Hok]; exact He).
  pose proof He as He2. eapply (remove_handler_spec ep _ h Hs) in He; [|reflexivity|reflexivity|exact Hok].
  destruct He as (?&?&?&_&?). split_and!; try done. unfold handler_remove, gp_loop_remove_handler, remove_handler in He2.
  injection He2 as _ <-. done.
Qed.

Lemma hops_run_spec l (ep : gp_epoller nat) (hs : list gp_handler) :
  NoDup (fd <$> hs) -> Forall (in_step ep) hs -> (epoll_state (ctl_calls ep)).2 = true ->
  forall ep' hs', hops_run ep hs l = (ep', hs') ->
  Forall (in_step ep') hs' /\ (epoll_state (ctl_calls ep')).2 = true.
Proof.
  revert ep hs. induction l as [|[i o] l IH]; intros ep hs Hnd Hf Hok ep' hs' Hr; cbn [hops_run] in Hr.
  { by injection Hr as <- <-. }
  destruct (hs !! i) as [h|] eqn:Hi; [|by eapply IH]. destruct (hop_exec ep i h o) as [ep1 h1] eqn:He.
  destruct (hop_exec_spec ep i h o) with (ep' := ep1) (h' := h1) as (Hs1&Hok1&Hfd1&_&Hfr); [|done|done|].
  { exact (proj1 (Forall_lookup _ _) Hf i h Hi). }
  eapply IH; [|  |exact Hok1|exact Hr].
  - rewrite list_fmap_insert, Hfd1. rewrite list_insert_id; [done|]. by rewrite list_lookup_fmap, Hi.
  - apply Forall_lookup. intros j u Hj. apply list_lookup_insert_Some in Hj as [(->&<-&_)|[Hne Hj]]; [done|].
    pose proof (proj1 (Forall_lookup _ _) Hf j u Hj) as Hu. unfold in_step, watched in *. rewrite Hfr; [done|].
    intros Heq. apply Hne. apply (NoDup_lookup (fd <$> hs) i j (fd h)); [done| |]; rewrite list_lookup_fmap; [by rewrite Hi|by rewrite Hj, <-Heq].
Qed.

(** C16.  However the owners of any handlers with distinct descriptors enable,
    disable and remove them, the kernel watches exactly the handlers that the
    epoller believes to be added, for exactly the events they want, and no
    call of epoll_ctl fails. *)
Theorem epoll_matches_handlers (fds : list Z) (l : list (nat * hop)) (ep : gp_epoller nat) (hs : list gp_handler) :
  NoDup fds -> hops_run init_gp_epoller (init_gp_handler <$> fds) l = (ep, hs) ->
  (epoll_state (ctl_calls ep)).2 = true /\
  forall i h, hs !! i = Some h ->
    (epoll_state (ctl_calls ep)).1 !! fd h = if index h =? k_added then Some (events h) else None.
Proof.
  intros Hnd Hr. eapply hops_run_spec in Hr as [Hf Hok].
  - split; [done|]. intros i h Hi. pose proof (proj1 (Forall_lookup _ _) Hf i h Hi) as [[-> ->]|[[-> | ->] ->]]; done.
  - rewrite <-list_fmap_compose. change (NoDup ((fun f : Z => f) <$> fds)). by rewrite list_fmap_id.
  - apply Forall_fmap, Forall_true. intros f. right. split; [by left|done].
  - done.
Qed.

Definition demo_hops : list (nat * hop) :=
  [(0, HEnableReading); (1, HEnableWriting); (0, HEnableWriting); (1, HDisableAll); (0, HDisableReading);
   (1, HSetRevents 5); (1, HRemove)]%nat.
Lemma epoll_matches_handlers_witness :
  exists ep hs, hops_run init_gp_epoller (init_gp_handler <$> [5; 6]) demo_hops = (ep, hs) /\
    (epoll_state (ctl_calls ep)).2 = true /\
    forall i h, hs !! i = Some h ->
      (epoll_state (ctl_calls ep)).1 !! fd h = if index h =? k_added then Some (events h) else None.
Proof.
  destruct (hops_run init_gp_epoller (init_gp_handler <$> [5; 6]) demo_hops) as [ep hs] eqn:E.
  exists ep, hs. split; [reflexivity|]. apply (epoll_matches_handlers [5; 6] demo_hops).
  - apply (bool_decide_unpack _). vm_compute. exact I.
  - exact E.
Defined.
