(* ===== verification/Conn.v ===== *)
(** * gp_conn.c, gp_pending_task.c, gp_server.c, gp_loop.c: connections in an
    event loop (data and operations)

    The world of one server and its loop: the connections that are allocated,
    by address; the server's dictionary of them; the loop's list of pending
    tasks; the epoller; and the record [log] of what was asked of the kernel
    and handed over by the application.  A connection that has been freed is
    absent from [conns], and reaching it is [Ub].

    The application's callbacks are parameters: given the world they answer
    with the calls of the library's interface they make, in order.  What
    [write], [readv] and the kernel's clock of calls return is a parameter
    too. *)

From S2P Require Import Prelude Buffer Handler.
Local Open Scope Z_scope.

Inductive gp_state := k_disconnected | k_connecting | k_connected | k_disconnecting.
#[export] Instance gp_state_eq_dec : EqDecision gp_state.
Proof. solve_decision. Defined.

Record gp_connection := mk_conn {
  ref : Z;
  state : gp_state;
  handler : gp_handler;
  input_buffer : gp_buffer;
  output_buffer : gp_buffer;
}.
Definition set_ref (c : gp_connection) (r : Z) : gp_connection :=
  mk_conn r (state c) (handler c) (input_buffer c) (output_buffer c).
Definition set_state (c : gp_connection) (s : gp_state) : gp_connection :=
  mk_conn (ref c) s (handler c) (input_buffer c) (output_buffer c).
Definition set_handler (c : gp_connection) (h : gp_handler) : gp_connection :=
  mk_conn (ref c) (state c) h (input_buffer c) (output_buffer c).
Definition set_input (c : gp_connection) (b : gp_buffer) : gp_connection :=
  mk_conn (ref c) (state c) (handler c) b (output_buffer c).
Definition set_output (c : gp_connection) (b : gp_buffer) : gp_connection :=
  mk_conn (ref c) (state c) (handler c) (input_buffer c) b.

(** [pending_func] is one of these, on the task's connection. *)
Inductive pending_func :=
  | run_in_loop_trans
  | run_in_loop_shutdown
  | queue_in_loop_force_close
  | run_in_loop_create_conn
  | run_in_loop_remove_conn
  | queue_in_loop_destroy_conn.
Record gp_pending_task := mk_task { func : pending_func; conn : nat; msg : list Z }.

(** What [write] returned: a count, or -1 with an [errno]. *)
Inductive wres := Wrote (n : Z) | WErr (e : werr)
with werr := EWOULDBLOCK | EPIPE_or_ECONNRESET | EOTHER.
Inductive event :=
  | EvSend (c : nat) (data : list Z)                        (* accepted by [conn_send_in_loop] *)
  | EvDirect (c : nat) (data : list Z) (r : wres)           (* [write] from [conn_send_in_loop] *)
  | EvDrain (c : nat) (data : list Z) (r : wres)            (* [write] from [connection_handler_write] *)
  | EvShutdown (c : nat)                                    (* [shutdown(fd, SHUT_WR)] *)
  | EvClose (f : Z)                                         (* [close(fd)] *)
  | EvFree (c : nat)
  | EvMessage (c : nat)                                     (* [message_callback] *)
  | EvConnection (c : nat) (s : gp_state)                   (* [connection_callback] *)
  | EvWakeup.

Record world := mk_world {
  conns : gmap nat gp_connection;
  connections : gmap Z nat;
  pending_list : list gp_pending_task;
  calling_pending_functors : bool;
  active_handler_list : list nat;
  epoller : gp_epoller nat;
  log : list event;
  ticks : nat;
}.
Definition set_conns (w : world) (x : gmap nat gp_connection) : world :=
  mk_world x (connections w) (pending_list w) (calling_pending_functors w) (active_handler_list w) (epoller w) (log w) (ticks w).
Definition set_connections (w : world) (x : gmap Z nat) : world :=
  mk_world (conns w) x (pending_list w) (calling_pending_functors w) (active_handler_list w) (epoller w) (log w) (ticks w).
Definition set_pending (w : world) (x : list gp_pending_task) : world :=
  mk_world (conns w) (connections w) x (calling_pending_functors w) (active_handler_list w) (epoller w) (log w) (ticks w).
Definition set_calling (w : world) (x : bool) : world :=
  mk_world (conns w) (connections w) (pending_list w) x (active_handler_list w) (epoller w) (log w) (ticks w).
Definition set_active (w : world) (x : list nat) : world :=
  mk_world (conns w) (connections w) (pending_list w) (calling_pending_functors w) x (epoller w) (log w) (ticks w).
Definition set_epoller (w : world) (x : gp_epoller nat) : world :=
  mk_world (conns w) (connections w) (pending_list w) (calling_pending_functors w) (active_handler_list w) x (log w) (ticks w).
Definition emit (w : world) (e : event) : world :=
  mk_world (conns w) (connections w) (pending_list w) (calling_pending_functors w) (active_handler_list w) (epoller w)
           (log w ++ [e]) (ticks w).
Definition tick (w : world) : world :=
  mk_world (conns w) (connections w) (pending_list w) (calling_pending_functors w) (active_handler_list w) (epoller w)
           (log w) (S (ticks w)).

(** Dereferencing a [gp_connection *], and writing through it. *)
Definition get (c : nat) (w : world) : res gp_connection := of_option (conns w !! c).
Definition put (c : nat) (x : gp_connection) (w : world) : world := set_conns w (<[c := x]> (conns w)).

(** The calls an application makes from a callback. *)
Inductive api :=
  | Send (c : nat) (data : list Z)
  | ShutdownConn (c : nat)
  | ForceClose (c : nat)
  | Retrieve (c : nat) (n : Z).

Section World.
Context (junk : nat -> Z).
(** The [k]-th call of [write] with [len] bytes and of [readv] with [room]. *)
Context (kernel_write : nat -> Z -> wres) (kernel_read : nat -> Z -> readv_result).
Context (on_connection on_message : nat -> world -> list api).
(** [is_in_loop_thread]: whether the calling thread runs the loop. *)
Context (in_loop : bool).

(** An operation of [handler] on a connection's handler. *)
Definition on_handler (f : gp_epoller nat -> nat -> gp_handler -> gp_epoller nat * gp_handler) (c : nat) (w : world)
    : res world :=
  let* x := get c w in
  let (ep, h) := f (epoller w) c (handler x) in
  Ok (put c (set_handler x h) (set_epoller w ep)).

(** *** References and life time *)
Definition conn_ref_inc (c : nat) (w : world) : res world :=
  let* x := get c w in Ok (put c (set_ref x (ref x + 1)) w).
Definition destruct_gp_connection (c : nat) (w : world) : res world :=
  let w := set_active w (filter (fun i => i <> c) (active_handler_list w)) in
  let* w := on_handler handler_remove c w in
  let* x := get c w in
  let w := emit w (EvClose (fd (handler x))) in
  Ok (emit (set_conns w (delete c (conns w))) (EvFree c)).
(** [true]: the connection was freed and the pointer set to NULL. *)
Definition conn_ref_dec (c : nat) (w : world) : res (world * bool) :=
  let* x := get c w in
  let w := put c (set_ref x (ref x - 1)) w in
  if ref x - 1 =? 0 then let* w := destruct_gp_connection c w in Ok (w, true) else Ok (w, false).

Definition init_gp_connection (f : Z) : gp_connection :=
  mk_conn 1 k_connecting
    (set_error_callback (set_close_callback (set_write_callback (set_read_callback (init_gp_handler f)))))
    (create_gp_buffer junk) (create_gp_buffer junk).
Definition create_gp_connection (c : nat) (f : Z) (w : world) : world := put c (init_gp_connection f) w.

(** *** Tasks *)
Definition create_gp_pending_task (f : pending_func) (c : nat) (m : list Z) : gp_pending_task := mk_task f c m.
Definition wakeup (w : world) : world := emit (tick w) EvWakeup.
Definition gp_queue_in_loop (t : gp_pending_task) (w : world) : res world :=
  let* w := conn_ref_inc (conn t) w in
  let w := set_pending w (pending_list w ++ [t]) in
  Ok (if negb in_loop || calling_pending_functors w then wakeup w else w).
(** [run] is the task's [pending_func]. *)
Definition gp_run_in_loop (run : gp_pending_task -> world -> res world) (t : gp_pending_task) (w : world) : res world :=
  if in_loop then
    let* w := conn_ref_inc (conn t) w in
    let* w := run t w in
    let* (w, _) := conn_ref_dec (conn t) w in Ok w
  else gp_queue_in_loop t w.

(** *** Sending *)
Definition conn_send_in_loop (c : nat) (m : list Z) (w : world) : res world :=
  let* x := get c w in
  if decide (state x = k_disconnected) then Ok w
  else
    let w := emit w (EvSend c m) in
    let direct := negb (is_writing (handler x)) && (readable_bytes (output_buffer x) =? 0) in
    let r := kernel_write (ticks w) (zlen m) in
    let w := if direct then emit (tick w) (EvDirect c m r) else w in
    let '(nwrote, remaining, faultError) :=
      if direct then
        match r with
        | Wrote n => (n, zlen m - n, false)
        | WErr EPIPE_or_ECONNRESET => (0, zlen m, true)
        | WErr _ => (0, zlen m, false)
        end
      else (0, zlen m, false) in
    if negb faultError && (0 <? remaining) then
      let* x := get c w in
      let* b := buffer_append junk (output_buffer x) (drop (Z.to_nat nwrote) m) remaining in
      let w := put c (set_output x b) w in
      if is_writing (handler x) then Ok w else on_handler enable_writing c w
    else Ok w.
Definition trans (t : gp_pending_task) (w : world) : res world := conn_send_in_loop (conn t) (msg t) w.
Definition conn_send (c : nat) (data : list Z) (w : world) : res world :=
  let* x := get c w in
  if decide (state x = k_connected) then
    if in_loop then conn_send_in_loop c data w
    else gp_run_in_loop trans (create_gp_pending_task run_in_loop_trans c data) w
  else Ok w.

(** *** Closing down *)
Definition shutdown (t : gp_pending_task) (w : world) : res world :=
  let* x := get (conn t) w in
  if is_writing (handler x) then Ok w else Ok (emit w (EvShutdown (conn t))).
Definition conn_shutdown (c : nat) (w : world) : res world :=
  let* x := get c w in
  if decide (state x = k_connected) then
    gp_run_in_loop shutdown (create_gp_pending_task run_in_loop_shutdown c []) (put c (set_state x k_disconnecting) w)
  else Ok w.
Definition conn_force_close (c : nat) (w : world) : res world :=
  let* x := get c w in
  if decide (state x = k_connected \/ state x = k_disconnecting) then
    gp_queue_in_loop (create_gp_pending_task queue_in_loop_force_close c []) (put c (set_state x k_disconnecting) w)
  else Ok w.

(** The application, from a callback or from its own code. *)
Definition api_call (a : api) (w : world) : res world :=
  match a with
  | Send c data => conn_send c data w
  | ShutdownConn c => conn_shutdown c w
  | ForceClose c => conn_force_close c w
  | Retrieve c n => let* x := get c w in Ok (put c (set_input x (retrieve (input_buffer x) n)) w)
  end.
Fixpoint api_calls (l : list api) (w : world) : res world :=
  match l with [] => Ok w | a :: l => let* w := api_call a w in api_calls l w end.
Definition connection_callback (c : nat) (w : world) : res world :=
  let* x := get c w in let w := emit w (EvConnection c (state x)) in api_calls (on_connection c w) w.
Definition message_callback (c : nat) (w : world) : res world :=
  let* _ := get c w in let w := emit w (EvMessage c) in api_calls (on_message c w) w.

(** *** The server's end of a connection *)
Definition remove_task (t : gp_pending_task) (w : world) : res world :=
  let* _ := get (conn t) w in
  gp_queue_in_loop (create_gp_pending_task queue_in_loop_destroy_conn (conn t) []) w.
(** The close callback.  A pointer that [conn_ref_dec] cleared is
    dereferenced. *)
Definition remove_conn (c : nat) (w : world) : res world :=
  let* x := get c w in
  let w := set_connections w (delete (fd (handler x)) (connections w)) in
  let* (w, gone) := conn_ref_dec c w in
  if gone : bool then Ub
  else gp_run_in_loop remove_task (create_gp_pending_task run_in_loop_remove_conn c []) w.

Definition connection_handler_close (c : nat) (w : world) : res world :=
  let* w := conn_ref_inc c w in
  let* x := get c w in
  let* w := on_handler disable_all c (put c (set_state x k_disconnected) w) in
  let* w := connection_callback c w in
  let* w := remove_conn c w in
  let* (w, _) := conn_ref_dec c w in Ok w.

Definition connection_established (c : nat) (w : world) : res world :=
  let* x := get c w in
  let* w := on_handler enable_reading c (put c (set_state x k_connected) w) in
  connection_callback c w.
Definition connection_destroyed (c : nat) (w : world) : res world :=
  let* x := get c w in
  let* w :=
    if decide (state x = k_connected) then
      let* w := on_handler disable_all c (put c (set_state x k_disconnected) w) in
      connection_callback c w
    else Ok w in
  on_handler handler_remove c w.

Definition force_close (t : gp_pending_task) (w : world) : res world :=
  let* x := get (conn t) w in
  if decide (state x = k_connected \/ state x = k_disconnecting) then connection_handler_close (conn t) w else Ok w.
Definition create_task (t : gp_pending_task) (w : world) : res world := connection_established (conn t) w.
Definition destroy_task (t : gp_pending_task) (w : world) : res world := connection_destroyed (conn t) w.
Definition call_pending (t : gp_pending_task) (w : world) : res world :=
  match func t with
  | run_in_loop_trans => trans t w
  | run_in_loop_shutdown => shutdown t w
  | queue_in_loop_force_close => force_close t w
  | run_in_loop_create_conn => create_task t w
  | run_in_loop_remove_conn => remove_task t w
  | queue_in_loop_destroy_conn => destroy_task t w
  end.

(** [accept4] gave descriptor [f]; the connection is allocated at [c]. *)
Definition new_connection_callback (c : nat) (f : Z) (w : world) : res world :=
  let w := create_gp_connection c f w in
  let w := match connections w !! f with
           | Some _ => w
           | None => set_connections w (<[f := c]> (connections w))
           end in
  let* w := conn_ref_inc c w in
  let* w := gp_run_in_loop create_task (create_gp_pending_task run_in_loop_create_conn c []) w in
  let* (w, _) := conn_ref_dec c w in Ok w.

(** *** Events of a descriptor *)
Definition connection_handler_write (c : nat) (w : world) : res world :=
  let* x := get c w in
  let* data := peek (output_buffer x) (readable_bytes (output_buffer x)) in
  let r := kernel_write (ticks w) (zlen data) in
  let w := emit (tick w) (EvDrain c data r) in
  (* [size_t n]: -1 is the largest value *)
  let n := match r with Wrote n => n | WErr _ => u64 (-1) end in
  if 0 <? n then
    let b := retrieve (output_buffer x) n in
    let w := put c (set_output x b) w in
    if readable_bytes b =? 0 then
      let* w := on_handler disable_writing c w in
      Ok (if decide (state x = k_disconnecting) then emit w (EvShutdown c) else w)
    else Ok w
  else Ok w.

Definition connection_handler_read (c : nat) (w : world) : res world :=
  let* x := get c w in
  let r := kernel_read (ticks w) (iov_total (input_buffer x)) in
  let* (b, n, _) := buffer_read_fd junk (input_buffer x) r in
  let w := put c (set_input x b) (tick w) in
  if 0 <? n then
    let* w := conn_ref_inc c w in
    let* w := message_callback c w in
    let* (w, _) := conn_ref_dec c w in Ok w
  else connection_handler_close c w.

Definition bits (revents mask : Z) : bool := negb (Z.land revents mask =? 0).
(** The tests read [_revents] again after each callback. *)
Definition handle_event (c : nat) (w : world) : res world :=
  let* x := get c w in
  let w := put c (set_handler x (set_event_handling (handler x) 1)) w in
  let* x := get c w in
  let r := revents (handler x) in
  let* w := if bits r POLLHUP && negb (bits r POLLIN) && close_callback (handler x)
            then connection_handler_close c w else Ok w in
  let* x := get c w in
  (* [connection_handler_error] does nothing *)
  let r := revents (handler x) in
  let* w := if bits r (Z.lor POLLIN (Z.lor POLLPRI POLLRDHUP)) && read_callback (handler x)
            then connection_handler_read c w else Ok w in
  let* x := get c w in
  let* w := if bits (revents (handler x)) POLLOUT && write_callback (handler x)
            then connection_handler_write c w else Ok w in
  let* x := get c w in
  Ok (put c (set_handler x (set_event_handling (handler x) 0)) w).

(** *** The loop *)
(** What [epoll_wait] reported: connections with their events. *)
Fixpoint fill_active_handlers (evs : list (nat * Z)) (w : world) : res world :=
  match evs with
  | [] => Ok w
  | (c, e) :: evs =>
      let* w := on_handler (fun ep p h => set_revents ep p h e) c w in
      fill_active_handlers evs (set_active w (active_handler_list w ++ [c]))
  end.
(** [GP_LIST_FOREACH_SAFE] over the active handlers. *)
Fixpoint handle_active (l : list nat) (w : world) : res world :=
  match l with
  | [] => Ok w
  | c :: l =>
      let* w := handle_event c w in
      let* _ := get c w in
      handle_active l (set_active w (filter (fun i => i <> c) (active_handler_list w)))
  end.
(** One task of [do_pending_functors]: the function, the reference taken when
    it was queued, the task itself. *)
Definition run_pending (t : gp_pending_task) (w : world) : res world :=
  let* w := call_pending t w in
  let* (w, _) := conn_ref_dec (conn t) w in
  Ok (set_pending w (tail (pending_list w))).
(** The traversal keeps the next task before it runs one: a task queued by
    the last one waits for the next round. *)
Fixpoint pending_loop (fuel : nat) (w : world) : res (world * bool) :=
  match fuel with
  | O => Ok (w, false)
  | S fuel =>
      match pending_list w with
      | [] => Ok (w, true)
      | [t] => let* w := run_pending t w in Ok (w, true)
      | t :: _ => let* w := run_pending t w in pending_loop fuel w
      end
  end.
(** [false]: out of fuel. *)
Definition do_pending_functors (fuel : nat) (w : world) : res (world * bool) :=
  let* (w, done) := pending_loop fuel (set_calling w true) in Ok (set_calling w false, done).
End World.
