(* ===== verification/ConnInv.v ===== *)
(** * Connections: reference counts, byte streams and their invariant

    [winv T p h cl w] describes a world in the middle of the library's code:
    every buffer's writer index is at most [T], [p] is the part of the pending
    list whose references are accounted for by the running frames, [h] lists
    the references those frames hold, and [cl] is the connection that is just
    being closed.  A connection's count is the number of references to it: the
    server's dictionary, the queued tasks, the frames. *)

From S2P Require Import Prelude Buffer Handler Conn.
Local Open Scope Z_scope.

(** ** What the log says about a connection *)
Definition accepted1 (c : nat) (e : event) : list Z :=
  match e with EvSend c' d => if decide (c' = c) then d else [] | _ => [] end.
Definition written1 (c : nat) (e : event) : list Z :=
  match e with
  | EvDirect c' d (Wrote n) | EvDrain c' d (Wrote n) => if decide (c' = c) then take (Z.to_nat n) d else []
  | _ => []
  end.
(** The bytes the application handed over, and those the kernel took. *)
Definition accepted (c : nat) (l : list event) : list Z := mjoin (accepted1 c <$> l).
Definition written (c : nat) (l : list event) : list Z := mjoin (written1 c <$> l).
(** Errors of [write] that the code takes for success or gives up on. *)
Definition lost (c : nat) (e : event) : Prop :=
  match e with
  | EvDrain c' _ (WErr _) | EvDirect c' _ (WErr EPIPE_or_ECONNRESET) => c' = c
  | _ => False
  end.
Definition clean (c : nat) (l : list event) : Prop := Forall (fun e => ~ lost c e) l.
Definition about (c : nat) (e : event) : Prop :=
  match e with
  | EvSend c' _ | EvDirect c' _ _ | EvDrain c' _ _ | EvShutdown c' | EvFree c' | EvMessage c' | EvConnection c' _ => c' = c
  | EvClose _ | EvWakeup => False
  end.
#[export] Instance about_dec c e : Decision (about c e).
Proof. destruct e; simpl; apply _. Defined.

Lemma accepted_snoc c l e : accepted c (l ++ [e]) = accepted c l ++ accepted1 c e.
Proof. unfold accepted. rewrite fmap_app, join_app. simpl. by rewrite app_nil_r. Qed.
Lemma written_snoc c l e : written c (l ++ [e]) = written c l ++ written1 c e.
Proof. unfold written. rewrite fmap_app, join_app. simpl. by rewrite app_nil_r. Qed.
Lemma clean_snoc c l e : clean c (l ++ [e]) <-> clean c l /\ ~ lost c e.
Proof. unfold clean. rewrite Forall_app, Forall_singleton. done. Qed.
Lemma not_about c e : ~ about c e -> accepted1 c e = [] /\ written1 c e = [] /\ ~ lost c e.
Proof.
  destruct e as [c' d|c' d [n|[]]|c' d [n|e]|c'|f|c'|c'|c' s|]; simpl; intros Hn;
    rewrite ?decide_False by done; repeat split; tauto.
Qed.

Definition stream_ok (c : nat) (l : list event) (x : gp_connection) : Prop :=
  clean c l -> accepted c l = written c l ++ contents (output_buffer x).
(** A shutdown comes after everything accepted has been written, unless the
    connection was closed before. *)
Definition shutdown_ok (l : list event) : Prop :=
  forall l1 c l2, l = l1 ++ EvShutdown c :: l2 -> clean c l1 ->
    EvConnection c k_disconnected ∈ l1 \/ accepted c l1 = written c l1.

Lemma shutdown_ok_snoc l e :
  shutdown_ok l ->
  (forall c, e = EvShutdown c -> clean c l -> EvConnection c k_disconnected ∈ l \/ accepted c l = written c l) ->
  shutdown_ok (l ++ [e]).
Proof.
  intros H He l1 c l2 Heq Hc. destruct l2 as [|e2 l2 _] using rev_ind.
  - apply app_inj_tail in Heq as [-> ->]. by apply (He c).
  - rewrite app_comm_cons, app_assoc in Heq. apply app_inj_tail in Heq as [-> _]. by apply (H l1 c l2).
Qed.

(** ** The invariant *)
Definition task_count (c : nat) (q : list gp_pending_task) : Z := zlen (filter (fun t => conn t = c) q).
Definition held (c : nat) (h : list nat) : Z := zlen (filter (fun i => i = c) h).
Definition registered (w : world) (c : nat) (x : gp_connection) : bool :=
  bool_decide (connections w !! fd (handler x) = Some c).
Definition queued (p : list gp_pending_task) (w : world) : list gp_pending_task := drop (length p) (pending_list w).

Record local_ok (T : Z) (x : gp_connection) : Prop := {
  lo_in : wf (input_buffer x) /\ writer_index (input_buffer x) <= T;
  lo_out : wf (output_buffer x) /\ writer_index (output_buffer x) <= T;
  lo_events : state x = k_disconnected -> events (handler x) = knone_event;
  lo_idle : state x <> k_disconnected -> is_writing (handler x) = false -> contents (output_buffer x) = [];
}.

(** The tasks that are queued: destroying what was closed, or a forced close. *)
Definition task_ok (w : world) (t : gp_pending_task) : Prop :=
  func t = queue_in_loop_force_close \/
  func t = queue_in_loop_destroy_conn /\ forall x, conns w !! conn t = Some x -> state x = k_disconnected.

Record winv (T : Z) (p : list gp_pending_task) (h : list nat) (cl : option nat) (w : world) : Prop := {
  wi_local : forall c x, conns w !! c = Some x -> local_ok T x /\ stream_ok c (log w) x;
  wi_ref : forall c x, conns w !! c = Some x ->
    ref x = Z.b2z (registered w c x) + task_count c (queued p w) + held c h /\ 1 <= ref x;
  wi_state : forall c x, conns w !! c = Some x -> cl <> Some c ->
    registered w c x = negb (bool_decide (state x = k_disconnected));
  wi_closing : forall c x, conns w !! c = Some x -> cl = Some c -> state x = k_disconnected /\ registered w c x = true;
  wi_prefix : p `prefix_of` pending_list w;
  wi_tasks : forall t, t ∈ queued p w -> is_Some (conns w !! conn t);
  wi_held : forall c, c ∈ h -> is_Some (conns w !! c);
  wi_funcs : forall t, t ∈ queued p w -> task_ok w t;
  wi_fds : forall c c' x x', conns w !! c = Some x -> conns w !! c' = Some x' -> fd (handler x) = fd (handler x') -> c = c';
  wi_dict : forall f c, connections w !! f = Some c -> exists x, conns w !! c = Some x /\ fd (handler x) = f;
  wi_log : shutdown_ok (log w);
  wi_closed : forall c x, conns w !! c = Some x -> state x = k_disconnected -> cl <> Some c ->
    EvConnection c k_disconnected ∈ log w;
}.

Lemma task_count_app c q q' : task_count c (q ++ q') = task_count c q + task_count c q'.
Proof. unfold task_count. by rewrite filter_app, zlen_app. Qed.
Lemma task_count_one c t : task_count c [t] = if decide (conn t = c) then 1 else 0.
Proof. unfold task_count. rewrite filter_cons, filter_nil. by destruct (decide _). Qed.
Lemma task_count_nonneg c q : 0 <= task_count c q.
Proof. apply zlen_nonneg. Qed.
Lemma held_nonneg c h : 0 <= held c h.
Proof. apply zlen_nonneg. Qed.
Lemma held_cons c i h : held c (i :: h) = (if decide (i = c) then 1 else 0) + held c h.
Proof. unfold held. rewrite filter_cons. destruct (decide (i = c)); [by rewrite zlen_cons|done]. Qed.
Lemma task_count_elem c q t : t ∈ q -> conn t = c -> 1 <= task_count c q.
Proof.
  intros Ht Hc. apply list_elem_of_split in Ht as (q1&q2&->). rewrite task_count_app.
  change (t :: q2) with ([t] ++ q2). rewrite task_count_app, task_count_one, decide_True by done.
  pose proof (task_count_nonneg c q1). pose proof (task_count_nonneg c q2). lia.
Qed.

Lemma held_elem c h : c ∈ h -> 1 <= held c h.
Proof.
  intros Hi. apply list_elem_of_split in Hi as (h1&h2&->). unfold held. rewrite filter_app, filter_cons, decide_True by done.
  rewrite zlen_app, zlen_cons. pose proof (zlen_nonneg (filter (fun i => i = c) h1)). pose proof (zlen_nonneg (filter (fun i => i = c) h2)). lia.
Qed.
Lemma held_zero c h : c ∉ h -> held c h = 0.
Proof.
  induction h as [|i h IH]; [done|]. rewrite not_elem_of_cons, held_cons. intros [Hn Hi]. rewrite decide_False by done. auto.
Qed.

Lemma local_ok_mono T T' x : T <= T' -> local_ok T x -> local_ok T' x.
Proof. intros ? [[] [] ? ?]. constructor; try done; split; try done; lia. Qed.
Lemma winv_mono T T' p h cl w : T <= T' -> winv T p h cl w -> winv T' p h cl w.
Proof.
  intros HT [H1 ???????????]. constructor; try done. intros c x Hc. destruct (H1 c x Hc). split; [|done]. by eapply local_ok_mono.
Qed.

(** Logging something that concerns no stream. *)
Definition silent (e : event) : Prop :=
  (forall c, accepted1 c e = [] /\ written1 c e = [] /\ ~ lost c e) /\ (forall c, e <> EvShutdown c).
Lemma winv_emit_silent T p h cl w e : silent e -> winv T p h cl w -> winv T p h cl (emit w e).
Proof.
  intros [Hs Hd] [H1 ?????????? H9]. constructor; try done; cbn [conns log emit].
  - intros c x Hc. destruct (H1 c x Hc) as [? Hst]. split; [done|]. unfold stream_ok in *.
    destruct (Hs c) as (Ha&Hw&Hl). rewrite clean_snoc, accepted_snoc, written_snoc, Ha, Hw, !app_nil_r. tauto.
  - apply shutdown_ok_snoc; [done|]. intros c He. by destruct (Hd c).
  - intros c x Hc Hst Hcl. apply elem_of_app. left. eauto.
Qed.
Lemma winv_tick T p h cl w : winv T p h cl w -> winv T p h cl (tick w).
Proof. intros []. by constructor. Qed.
Lemma winv_epoller T p h cl w ep : winv T p h cl w -> winv T p h cl (set_epoller w ep).
Proof. intros []. by constructor. Qed.
Lemma winv_active T p h cl w l : winv T p h cl w -> winv T p h cl (set_active w l).
Proof. intros []. by constructor. Qed.
Lemma winv_calling T p h cl w b : winv T p h cl w -> winv T p h cl (set_calling w b).
Proof. intros []. by constructor. Qed.

(** ** Replacing one connection *)
Record updates (w w' : world) (c : nat) (x' : gp_connection) : Prop := {
  up_conns : conns w' = <[c := x']> (conns w);
  up_dict : connections w' = connections w;
  up_pending : pending_list w' = pending_list w;
  up_active : active_handler_list w' = active_handler_list w;
}.
Definition log_grows (w w' : world) (c : nat) : Prop :=
  (forall i y, i <> c -> stream_ok i (log w) y -> stream_ok i (log w') y) /\ shutdown_ok (log w') /\
  (forall e, e ∈ log w -> e ∈ log w').

Lemma winv_upd T p h h' cl cl' w w' c x x' :
  winv T p h cl w -> conns w !! c = Some x -> updates w w' c x' -> log_grows w w' c ->
  fd (handler x') = fd (handler x) ->
  (forall i, i <> c -> held i h' = held i h) -> ref x' - ref x = held c h' - held c h -> 1 <= ref x' ->
  (forall i, i ∈ h' -> i = c \/ i ∈ h) ->
  local_ok T x' -> stream_ok c (log w') x' ->
  (forall i, i <> c -> cl' = Some i <-> cl = Some i) ->
  (cl' <> Some c -> registered w c x = negb (bool_decide (state x' = k_disconnected))) ->
  (cl' = Some c -> state x' = k_disconnected /\ registered w c x = true) ->
  (state x' = k_disconnected -> cl' <> Some c -> EvConnection c k_disconnected ∈ log w') ->
  (state x = k_disconnected -> state x' = k_disconnected) ->
  winv T p h' cl' w'.
Proof.
  intros [W1 W2 W3 W3' W4 W5 W6 W6' W7 W8 W9 W10] Hx [Uc Ud Up Ua] (Gs&Gd&Ge) Hfd Hh Href Hpos Hin Hloc Hst Hcl S1 S2 S3 S4.
  assert (Hreg : forall i y y', fd (handler y') = fd (handler y) -> registered w' i y' = registered w i y).
  { intros i y y' Hf. unfold registered. by rewrite Ud, Hf. }
  assert (Hq : queued p w' = queued p w) by (unfold queued; by rewrite Up).
  assert (Halive : forall i, is_Some (conns w !! i) -> is_Some (conns w' !! i)).
  { intros i [y Hy]. rewrite Uc. destruct (decide (i = c)) as [->|]; [rewrite lookup_insert_eq|rewrite lookup_insert_ne by done]; eauto. }
  constructor.
  - intros i y Hy. rewrite Uc in Hy. apply lookup_insert_Some in Hy as [[<- <-]|[Hne Hy]]; [done|].
    destruct (W1 i y Hy). split; [done|]. auto.
  - intros i y Hy. rewrite Uc in Hy. rewrite Hq. apply lookup_insert_Some in Hy as [[<- <-]|[Hne Hy]].
    + rewrite (Hreg c x x' Hfd). destruct (W2 c x Hx). split; [lia|done].
    + rewrite (Hreg i y y eq_refl), Hh by done. apply (W2 i y Hy).
  - intros i y Hy Hncl. rewrite Uc in Hy. apply lookup_insert_Some in Hy as [[<- <-]|[Hne Hy]].
    + rewrite (Hreg c x x' Hfd). auto.
    + rewrite (Hreg i y y eq_refl). apply W3; [done|]. by rewrite <-Hcl.
  - intros i y Hy Hicl. rewrite Uc in Hy. apply lookup_insert_Some in Hy as [[<- <-]|[Hne Hy]].
    + rewrite (Hreg c x x' Hfd). auto.
    + rewrite (Hreg i y y eq_refl). apply W3'; [done|]. by rewrite <-Hcl.
  - by rewrite Up.
  - intros t Ht. rewrite Hq in Ht. auto.
  - intros i Hi. destruct (Hin i Hi) as [->|]; [|auto]. rewrite Uc, lookup_insert_eq. eauto.
  - intros t Ht. rewrite Hq in Ht. destruct (W6' t Ht) as [|[Hfu Hd]]; [by left|right]. split; [done|]. intros y Hy.
    rewrite Uc in Hy. apply lookup_insert_Some in Hy as [[Heq <-]|[_ Hy]]; [apply S4, Hd; by rewrite <-Heq|by apply Hd].
  - intros i j y z Hy Hz Hf. rewrite Uc in Hy, Hz.
    apply lookup_insert_Some in Hy as [[<- <-]|[Hne Hy]]; apply lookup_insert_Some in Hz as [[<- <-]|[Hne' Hz]]; try done.
    + rewrite Hfd in Hf. by apply (W7 c j x z).
    + rewrite Hfd in Hf. by apply (W7 i c y x).
    + by apply (W7 i j y z).
  - intros f i Hi. rewrite Ud in Hi. destruct (W8 f i Hi) as (y&Hy&Hf). rewrite Uc. destruct (decide (i = c)) as [->|].
    + exists x'. rewrite lookup_insert_eq. split; [done|]. by simplify_eq.
    + exists y. by rewrite lookup_insert_ne.
  - done.
  - intros i y Hy Hsd Hncl. rewrite Uc in Hy. apply lookup_insert_Some in Hy as [[<- <-]|[Hne Hy]]; [auto|].
    apply Ge. apply (W10 i y); [done|done|]. by rewrite <-Hcl.
Qed.

Lemma log_grows_refl w w' c T p h cl : winv T p h cl w -> log w' = log w -> log_grows w w' c.
Proof. intros H Hl. unfold log_grows. rewrite Hl. split; [done|]. split; [apply H|done]. Qed.

(** A change of the locals: neither the count nor whether it is closed. *)
Lemma winv_local T p h cl w w' c x x' :
  winv T p h cl w -> conns w !! c = Some x -> updates w w' c x' -> log_grows w w' c ->
  fd (handler x') = fd (handler x) -> ref x' = ref x -> local_ok T x' -> stream_ok c (log w') x' ->
  (state x' = k_disconnected <-> state x = k_disconnected) -> winv T p h cl w'.
Proof.
  intros H Hx Hu Hg Hfd Hr Hl Hs Hst. pose proof H as [W1 W2 W3 W3' W4 W5 W6 W6' W7 W8 W9 W10].
  eapply (winv_upd T p h h cl cl w w' c x x'); try done.
  - lia.
  - rewrite Hr. apply (W2 c x Hx).
  - by right.
  - intros Hn. rewrite (W3 c x Hx Hn). f_equal. apply bool_decide_ext. by rewrite Hst.
  - intros Hc. rewrite Hst. by apply W3'.
  - intros Hd Hn. destruct Hg as (_&_&Ge). apply Ge, (W10 c x); [done|by apply Hst|done].
  - apply Hst.
Qed.

(** ** Handlers *)
Definition on_fd (f : gp_epoller nat -> nat -> gp_handler -> gp_epoller nat * gp_handler) (g : Z -> Z) : Prop :=
  forall ep c h ep' h', f ep c h = (ep', h') -> fd h' = fd h /\ events h' = g (events h).
Lemma update_fd ep (c : nat) h ep' h' : update ep c h = (ep', h') -> fd h' = fd h /\ events h' = events h.
Proof.
  unfold update, gp_loop_update_handler, update_handler. intros Hu.
  destruct (_ || _); [by injection Hu as _ <-|]. by destruct (is_none_event _); injection Hu as _ <-.
Qed.
Lemma enable_reading_fd : on_fd enable_reading (fun e => Z.lor e kread_event).
Proof. intros ep c h ep' h' Hu%update_fd. done. Qed.
Lemma enable_writing_fd : on_fd enable_writing (fun e => Z.lor e kwrite_event).
Proof. intros ep c h ep' h' Hu%update_fd. done. Qed.
Lemma disable_writing_fd : on_fd disable_writing (fun e => Z.land e (Z.lnot kwrite_event)).
Proof. intros ep c h ep' h' Hu%update_fd. done. Qed.
Lemma disable_all_fd : on_fd disable_all (fun _ => knone_event).
Proof. intros ep c h ep' h' Hu%update_fd. done. Qed.
Lemma set_revents_fd r : on_fd (fun ep p h => set_revents ep p h r) (fun e => e).
Proof. intros ep c h ep' h' Hu%update_fd. done. Qed.
Lemma handler_remove_fd : on_fd handler_remove (fun e => e).
Proof.
  intros ep c h ep' h'. unfold handler_remove, gp_loop_remove_handler, remove_handler. by intros [= _ <-].
Qed.

Lemma on_handler_ok f g c w x : on_fd f g -> conns w !! c = Some x ->
  exists h' ep', on_handler f c w = Ok (put c (set_handler x h') (set_epoller w ep')) /\
    fd h' = fd (handler x) /\ events h' = g (events (handler x)).
Proof.
  intros Hf Hx. unfold on_handler, get. rewrite Hx. cbn [of_option res_bind].
  destruct (f (epoller w) c (handler x)) as [ep h] eqn:E. exists h, ep. split; [done|]. by apply Hf in E.
Qed.

(** The wanted events and the two tests on them. *)
Lemma is_writing_events h e : events h = e -> is_writing h = negb (Z.land e kwrite_event =? 0).
Proof. intros <-. done. Qed.
Lemma testbit_land_4 e : (Z.land e 4 =? 0) = negb (Z.testbit e 2).
Proof.
  assert (Hl : Z.land e 4 = if Z.testbit e 2 then 4 else 0).
  { apply Z.bits_inj'. intros k Hk. rewrite Z.land_spec. change 4 with (2 ^ 2). rewrite Z.pow2_bits_eqb by lia.
    destruct (Z.eqb_spec 2 k) as [<-|Hne].
    - destruct (Z.testbit e 2); [by rewrite Z.pow2_bits_true|by rewrite Z.bits_0].
    - rewrite andb_false_r. destruct (Z.testbit e 2); [by rewrite Z.pow2_bits_false|by rewrite Z.bits_0]. }
  rewrite Hl. by destruct (Z.testbit e 2).
Qed.
Lemma enable_writing_is e : negb (Z.land (Z.lor e kwrite_event) kwrite_event =? 0) = true.
Proof. unfold kwrite_event, POLLOUT. rewrite testbit_land_4, Z.lor_spec. change (Z.testbit 4 2) with true. by rewrite orb_true_r. Qed.
Lemma enable_reading_is e : (Z.land (Z.lor e kread_event) kwrite_event =? 0) = (Z.land e kwrite_event =? 0).
Proof. unfold kwrite_event, POLLOUT. rewrite !testbit_land_4, Z.lor_spec. change (Z.testbit kread_event 2) with false. by rewrite orb_false_r. Qed.

(** ** References *)
Lemma conn_ref_inc_ok T p h cl w c x :
  winv T p h cl w -> conns w !! c = Some x ->
  conn_ref_inc c w = Ok (put c (set_ref x (ref x + 1)) w) /\ winv T p (c :: h) cl (put c (set_ref x (ref x + 1)) w).
Proof.
  intros H Hx. split; [unfold conn_ref_inc, get; by rewrite Hx|]. pose proof H as [W1 W2 W3 W3' W4 W5 W6 W6' W7 W8 W9 W10].
  destruct (W1 c x Hx) as [[] Hs]. destruct (W2 c x Hx).
  eapply (winv_upd T p h (c :: h) cl cl w _ c x (set_ref x (ref x + 1))); try done.
  - intros i Hi. by rewrite held_cons, decide_False by congruence.
  - rewrite held_cons, decide_True by done. cbn. lia.
  - cbn. lia.
  - intros i. rewrite elem_of_cons. tauto.
  - apply (W3 c x Hx).
  - apply (W3' c x Hx).
  - intros. by apply (W10 c x).
Qed.

Lemma winv_delete T p h cl w c x ep l :
  winv T p (c :: h) cl w -> conns w !! c = Some x -> ref x = 1 ->
  winv T p h cl (emit (set_conns (emit (set_epoller (set_active w l) ep) (EvClose (fd (handler x)))) (delete c (conns w))) (EvFree c)).
Proof.
  intros H Hx Hr. pose proof H as [W1 W2 W3 W3' W4 W5 W6 W6' W7 W8 W9 W10].
  destruct (W2 c x Hx) as [Hc _]. rewrite held_cons, decide_True in Hc by done.
  pose proof (task_count_nonneg c (queued p w)). pose proof (held_nonneg c h).
  assert (Hreg : registered w c x = false) by (destruct (registered w c x); [simpl in Hc; lia|done]).
  assert (Hncl : cl <> Some c).
  { intros ->. destruct (W3' c x Hx eq_refl). congruence. }
  rewrite Hreg in Hc. cbn [Z.b2z] in Hc. assert (Hq0 : task_count c (queued p w) = 0) by lia. assert (Hh0 : held c h = 0) by lia.
  apply winv_emit_silent; [split; [intros; repeat split; auto|done]|].
  constructor; cbn [conns connections pending_list log set_conns emit set_epoller set_active].
  - intros i y [Hne Hy]%lookup_delete_Some. destruct (W1 i y Hy) as [? Hst]. split; [done|].
    unfold stream_ok in *. rewrite clean_snoc, accepted_snoc, written_snoc, !app_nil_r. tauto.
  - intros i y [Hne Hy]%lookup_delete_Some. destruct (W2 i y Hy) as [Hi ?]. rewrite held_cons, decide_False in Hi by done. done.
  - intros i y [Hne Hy]%lookup_delete_Some. by apply W3.
  - intros i y [Hne Hy]%lookup_delete_Some. by apply W3'.
  - done.
  - intros t Ht. destruct (W5 t Ht) as [y Hy]. exists y. apply lookup_delete_Some. split; [|done].
    intros Heq. pose proof (task_count_elem c _ t Ht (eq_sym Heq)). change (queued p _) with (queued p w) in *. lia.
  - intros i Hi. destruct (W6 i) as [y Hy]; [by right|]. exists y. apply lookup_delete_Some. split; [|done].
    intros <-. pose proof (held_elem c h Hi). lia.
  - intros t Ht. destruct (W6' t Ht) as [|[Hfu Hd]]; [by left|right]. split; [done|]. intros y Hy. cbn in Hy. apply lookup_delete_Some in Hy as [_ Hy]. by apply Hd.
  - intros i j y z [_ Hy]%lookup_delete_Some [_ Hz]%lookup_delete_Some. by apply W7.
  - intros f i Hi. destruct (W8 f i Hi) as (y&Hy&Hf). exists y. split; [|done]. apply lookup_delete_Some. split; [|done].
    intros <-. assert (y = x) by congruence. subst y. unfold registered in Hreg. apply bool_decide_eq_false in Hreg. by rewrite Hf in Hreg.
  - apply shutdown_ok_snoc; done.
  - intros i y [Hne Hy]%lookup_delete_Some Hd Hn. apply elem_of_app. left. by apply (W10 i y).
Qed.

(** What releasing a reference does to the rest of the world. *)
Record released (w w' : world) (c : nat) (b : bool) : Prop := {
  re_others : forall i, i <> c -> conns w' !! i = conns w !! i;
  re_self : conns w' !! c = if b then None else (fun x => set_ref x (ref x - 1)) <$> conns w !! c;
  re_dict : connections w' = connections w;
  re_pending : pending_list w' = pending_list w;
  re_calling : calling_pending_functors w' = calling_pending_functors w;
  re_active : active_handler_list w' = if b then filter (fun i => i <> c) (active_handler_list w) else active_handler_list w;
  re_log : forall e, e ∈ log w -> e ∈ log w';
}.
Lemma conn_ref_dec_ok T p h cl w c :
  winv T p (c :: h) cl w ->
  exists w' b, conn_ref_dec c w = Ok (w', b) /\ winv T p h cl w' /\ released w w' c b /\
    (forall x, conns w !! c = Some x -> registered w c x = true \/ c ∈ h \/ 1 <= task_count c (queued p w) -> b = false).
Proof.
  intros H. pose proof H as [W1 W2 W3 W3' W4 W5 W6 W6' W7 W8 W9 W10].
  destruct (W6 c) as [x Hx]; [by left|]. destruct (W1 c x Hx) as [[] Hs]. destruct (W2 c x Hx) as [Hr Hr1].
  rewrite held_cons, decide_True in Hr by done. unfold conn_ref_dec, get. rewrite Hx. cbn [of_option res_bind].
  destruct (Z.eqb_spec (ref x - 1) 0) as [Hz|Hz].
  - unfold destruct_gp_connection.
    destruct (on_handler_ok handler_remove (fun e => e) c (set_active (put c (set_ref x (ref x - 1)) w) (filter (fun i => i <> c) (active_handler_list w))) (set_ref x (ref x - 1)) handler_remove_fd)
      as (h'&ep'&He&Hf&_); [apply lookup_insert_eq|].
    change (active_handler_list (put c (set_ref x (ref x - 1)) w)) with (active_handler_list w).
    rewrite He. cbn [res_bind]. unfold get, put at 1. cbn [conns set_conns]. rewrite lookup_insert_eq. cbn [of_option res_bind].
    eexists _, true. split; [done|]. split.
    + pose proof (winv_delete T p h cl w c x ep' (filter (fun i => i <> c) (active_handler_list w)) H Hx ltac:(lia)) as Hd.
      cbn in Hf. cbn [handler set_handler]. rewrite Hf.
      match goal with |- winv _ _ _ _ ?w1 => match type of Hd with winv _ _ _ _ ?w2 => assert (w1 = w2) as ->; [|done] end end.
      unfold put, emit, set_conns, set_epoller, set_active. cbn. by rewrite insert_insert_eq, delete_insert_eq.
    + split.
      * constructor; cbn; try done; intros; [|by rewrite lookup_delete_eq|rewrite !elem_of_app; auto]. rewrite lookup_delete_ne, !lookup_insert_ne by done. done.
      * intros y Hy Hor. exfalso. assert (y = x) by congruence. subst y.
        pose proof (task_count_nonneg c (queued p w)). pose proof (held_nonneg c h).
        destruct Hor as [Hreg|[Hin|Hq]]; [rewrite Hreg in Hr; simpl in Hr; lia| |destruct (registered w c x); simpl in Hr; lia].
        pose proof (held_elem c h Hin). destruct (registered w c x); simpl in Hr; lia.
  - eexists _, false. split; [done|]. split; [|split].
    + eapply (winv_upd T p (c :: h) h cl cl w _ c x (set_ref x (ref x - 1))); try done.
      * intros i Hi. by rewrite held_cons, decide_False by congruence.
      * rewrite held_cons, decide_True by done. cbn. lia.
      * cbn. lia.
      * intros i Hi. right. by right.
      * apply (W3 c x Hx).
      * apply (W3' c x Hx).
      * intros. by apply (W10 c x).
    + constructor; cbn; try done; [intros; by rewrite lookup_insert_ne|by rewrite lookup_insert_eq, Hx].
    + done.
Qed.

(** ** What the calls of the interface leave alone *)
Definition like (x x' : gp_connection) : Prop :=
  fd (handler x') = fd (handler x) /\ revents (handler x') = revents (handler x) /\
  (state x' = k_disconnected <-> state x = k_disconnected).
Record frame (w w' : world) : Prop := {
  fr_conns : forall c x, conns w !! c = Some x -> exists x', conns w' !! c = Some x' /\ like x x';
  fr_back : forall c, is_Some (conns w' !! c) -> is_Some (conns w !! c);
  fr_dict : connections w' = connections w;
  fr_pending : exists l, pending_list w' = pending_list w ++ l;
  fr_calling : calling_pending_functors w' = calling_pending_functors w;
  fr_active : active_handler_list w' = active_handler_list w;
  fr_log : forall e, e ∈ log w -> e ∈ log w';
}.
#[export] Instance frame_refl : Reflexive frame.
Proof. intros w. constructor; try done; [|exists []; by rewrite app_nil_r]. intros c x Hx. by exists x. Qed.
#[export] Instance frame_trans : Transitive frame.
Proof.
  intros w1 w2 w3 [A1 A0 A2 [l1 A3] A4 A6 A5] [B1 B0 B2 [l2 B3] B4 B6 B5]. constructor; [|auto|congruence| |congruence|congruence|auto].
  - intros c x Hx. destruct (A1 c x Hx) as (y&Hy&(?&?&?)). destruct (B1 c y Hy) as (z&Hz&(?&?&?)).
    exists z. split; [done|]. split; [congruence|]. split; [congruence|]. tauto.
  - exists (l1 ++ l2). by rewrite B3, A3, app_assoc.
Qed.
Lemma frame_updates w w' c x x' :
  conns w !! c = Some x -> updates w w' c x' -> calling_pending_functors w' = calling_pending_functors w ->
  like x x' -> (forall e, e ∈ log w -> e ∈ log w') -> frame w w'.
Proof.
  intros Hx [Uc Ud Up Ua] Hcl Hl Hlg. constructor; try done.
  - intros i y Hy. rewrite Uc. destruct (decide (i = c)) as [->|].
    + rewrite lookup_insert_eq. exists x'. by simplify_eq.
    + rewrite lookup_insert_ne by done. exists y. by split.
  - intros i. rewrite Uc. destruct (decide (i = c)) as [->|]; [by eauto|by rewrite lookup_insert_ne].
  - exists []. by rewrite app_nil_r.
Qed.

Lemma log_grows_about w w' c evs :
  shutdown_ok (log w) -> log w' = log w ++ evs ->
  Forall (fun e => (forall i, i <> c -> ~ about i e) /\ (forall i, e <> EvShutdown i)) evs -> log_grows w w' c.
Proof.
  unfold log_grows. intros Hs -> Hf. revert Hs. generalize (log w). cut (forall l : list event, shutdown_ok l ->
    (forall i y, i <> c -> stream_ok i l y -> stream_ok i (l ++ evs) y) /\ shutdown_ok (l ++ evs) /\ (forall e, e ∈ l -> e ∈ l ++ evs)).
  { intros Hcut. apply Hcut. }
  induction Hf as [|e evs [He Hn] _ IH]; intros l Hs; [rewrite app_nil_r; by repeat split|].
  change (e :: evs) with ([e] ++ evs). rewrite app_assoc.
  destruct (IH (l ++ [e])) as (I1&I2&I3).
  { apply shutdown_ok_snoc; [done|]. intros i ->. by destruct (Hn i). }
  split; [|split; [done|]].
  - intros i y Hi Hst. apply I1; [done|]. destruct (not_about i e (He i Hi)) as (Ha&Hw&Hl).
    unfold stream_ok in *. rewrite clean_snoc, accepted_snoc, written_snoc, Ha, Hw, !app_nil_r. tauto.
  - intros e' He'. apply I3, elem_of_app. by left.
Qed.

(** [wakeup] is seen by nobody. *)
Lemma silent_wakeup : silent EvWakeup.
Proof. split; [intros; repeat split; auto|done]. Qed.

Section Calls.
Context (junk : nat -> Z) (kernel_write : nat -> Z -> wres).
(** write(2) takes a prefix of what it is offered. *)
Context (Hwrite : forall k len n, 0 <= len -> kernel_write k len = Wrote n -> 0 <= n <= len).

Lemma gp_queue_in_loop_ok T p h cl w t x :
  winv T p h cl w -> conns w !! conn t = Some x -> task_ok w t ->
  exists w', gp_queue_in_loop true t w = Ok w' /\ winv T p h cl w' /\ frame w w' /\
    pending_list w' = pending_list w ++ [t].
Proof.
  intros H Hx Htok. unfold gp_queue_in_loop. destruct (conn_ref_inc_ok T p h cl w (conn t) x H Hx) as [-> Hi]. cbn [res_bind].
  set (w1 := put _ _ w) in *. change (pending_list w1) with (pending_list w).
  set (w2 := set_pending w1 (pending_list w ++ [t])).
  assert (H2 : winv T p h cl w2).
  { destruct Hi as [W1 W2 W3 W3' W4 W5 W6 W6' W7 W8 W9 W10].
    assert (Hq : queued p w2 = queued p w1 ++ [t]).
    { unfold queued. cbn. destruct W4 as [q Hq]. cbn in Hq. rewrite Hq, <-app_assoc, !drop_app_length. done. }
    constructor; try done.
    - intros c y Hy. rewrite Hq, task_count_app, task_count_one. destruct (W2 c y Hy) as [Hc ?].
      rewrite held_cons in Hc. split; [|done]. change (registered w2 c y) with (registered w1 c y).
      destruct (decide (conn t = c)); lia.
    - cbn. destruct W4 as [q Hq4]. cbn in Hq4. rewrite Hq4, <-app_assoc. by apply prefix_app_r.
    - intros t' Ht'. rewrite Hq in Ht'. apply elem_of_app in Ht' as [Ht'|Ht']; [by apply W5|].
      apply list_elem_of_singleton in Ht' as ->. apply W6. by left.
    - intros c Hc. apply W6. by right.
    - intros t' Ht'. rewrite Hq in Ht'. apply elem_of_app in Ht' as [Ht'|Ht']; [by apply W6'|].
      apply list_elem_of_singleton in Ht' as ->. destruct Htok as [|[Hfu Hd]]; [by left|right]. split; [done|].
      intros y Hy. cbn in Hy. rewrite lookup_insert_eq in Hy. injection Hy as <-. by apply (Hd x). }
  assert (F2 : frame w w2).
  { etransitivity; [by eapply (frame_updates w w1 (conn t) x (set_ref x (ref x + 1)))|].
    constructor; try done; [intros c y Hy; by exists y|by exists [t]]. }
  fold w2. destruct (negb true || calling_pending_functors w2).
  - exists (wakeup w2). split; [done|]. split; [by apply winv_emit_silent, winv_tick; [apply silent_wakeup|]|].
    split; [|done]. destruct F2. constructor; try done. intros e He. apply elem_of_app. left. auto.
  - by exists w2.
Qed.

(** Sending: some prefix goes out at once, the rest is appended. *)
Lemma append_local T x b n m :
  local_ok T x -> state x <> k_disconnected -> 0 <= n < zlen m -> Forall is_byte m -> T + zlen m <= max_object ->
  buffer_append junk (output_buffer x) (drop (Z.to_nat n) m) (zlen m - n) = Ok b ->
  forall h', (is_writing h' = true) ->
  local_ok (T + zlen m) (set_handler (set_output x b) h') /\ contents b = contents (output_buffer x) ++ drop (Z.to_nat n) m.
Proof.
  intros [[Li Lit] [Lo Lot] Le Lid] Hst Hn Hm HT Hb h' Hw.
  assert (Hl : zlen (drop (Z.to_nat n) m) = zlen m - n) by (unfold zlen in *; rewrite length_drop; lia).
  destruct (buffer_append_wf junk (output_buffer x) (drop (Z.to_nat n) m) (zlen m - n)) as (b'&Hb'&Hwf&Hc&Hwi&_);
    [done|lia|lia|by apply Forall_drop|]. rewrite Hb in Hb'. injection Hb' as <-. split.
  - constructor; cbn; try (split; [done|lia]); [done|]. congruence.
  - rewrite Hc. f_equal. apply take_ge. unfold zlen in *. lia.
Qed.
Lemma output_append_ok T x n m :
  local_ok T x -> 0 <= n < zlen m -> Forall is_byte m -> T + zlen m <= max_object ->
  exists b, buffer_append junk (output_buffer x) (drop (Z.to_nat n) m) (zlen m - n) = Ok b.
Proof.
  intros [[Li Lit] [Lo Lot] Le Lid] Hn Hm HT.
  assert (Hl : zlen (drop (Z.to_nat n) m) = zlen m - n) by (unfold zlen in *; rewrite length_drop; lia).
  destruct (buffer_append_wf junk (output_buffer x) (drop (Z.to_nat n) m) (zlen m - n)) as (b'&Hb'&_);
    [done|lia|lia|by apply Forall_drop|]. by exists b'.
Qed.

(** The rest of the message, once [nwrote] bytes are out or none could be. *)
Lemma send_rest T p h cl w w1 c x m n :
  winv T p h cl w -> conns w !! c = Some x -> state x <> k_disconnected ->
  Forall is_byte m -> T + zlen m <= max_object -> 0 <= n < zlen m ->
  updates w w1 c x -> calling_pending_functors w1 = calling_pending_functors w -> log_grows w w1 c ->
  (clean c (log w1) -> clean c (log w) /\ accepted c (log w1) = accepted c (log w) ++ m /\
     written c (log w1) ++ contents (output_buffer x) = written c (log w) ++ contents (output_buffer x) ++ take (Z.to_nat n) m) ->
  exists w', (let* b := buffer_append junk (output_buffer x) (drop (Z.to_nat n) m) (zlen m - n) in
      if is_writing (handler x) then Ok (put c (set_output x b) w1) else on_handler enable_writing c (put c (set_output x b) w1)) = Ok w' /\
    winv (T + zlen m) p h cl w' /\ frame w w'.
Proof.
  intros H Hx Hst Hm HT Hn [Uc Ud Up Ua] Hcal Hg Hlog. pose proof (zlen_nonneg m) as Hm0.
  pose proof H as [W1 _ _ _ _ _ _ _ _ _ _ _]. destruct (W1 c x Hx) as [Hl Hs].
  destruct (output_append_ok T x n m Hl Hn Hm HT) as (b&Hb). rewrite Hb. cbn [res_bind].
  assert (Hfin : forall w' h', conns w' = <[c := set_handler (set_output x b) h']> (conns w) -> connections w' = connections w ->
    pending_list w' = pending_list w -> log w' = log w1 -> calling_pending_functors w' = calling_pending_functors w ->
    active_handler_list w' = active_handler_list w -> fd h' = fd (handler x) -> revents h' = revents (handler x) -> is_writing h' = true ->
    winv (T + zlen m) p h cl w' /\ frame w w').
  { intros w' h' C1 C2 C3 C4 C5 C6 Hf Hr Hw. destruct (append_local T x b n m Hl Hst Hn Hm HT Hb h' Hw) as [Hl' Hc'].
    assert (U : updates w w' c (set_handler (set_output x b) h')) by (by constructor). split.
    - eapply (winv_local (T + zlen m) p h cl w w' c x); [eapply winv_mono; [|done]; lia|done|done| |done|done|done| |done].
      + unfold log_grows in *. by rewrite C4.
      + unfold stream_ok. rewrite C4. cbn. intros Hcl. destruct (Hlog Hcl) as (Hcl0&->&Hwr). rewrite (Hs Hcl0), Hc'.
        rewrite app_assoc, Hwr, <-!app_assoc, take_drop. done.
    - eapply frame_updates; try done. rewrite C4. apply Hg. }
  destruct (is_writing (handler x)) eqn:Ew.
  - eexists. split; [done|]. apply (Hfin _ (handler x)); try done. cbn. rewrite Uc, insert_insert_eq. by destruct x.
  - destruct (on_handler_ok enable_writing _ c (put c (set_output x b) w1) (set_output x b) enable_writing_fd) as (h'&ep'&He&Hf&Hev);
      [apply lookup_insert_eq|].
    rewrite He. eexists. split; [done|]. apply (Hfin _ h'); try done.
    + cbn. by rewrite Uc, !insert_insert_eq.
    + unfold on_handler, get in He. cbn in He. rewrite lookup_insert_eq in He. cbn in He.
      destruct (enable_writing _ _ _) as [ep1 h1] eqn:E1. injection He as Heq _.
      apply (f_equal (fun mm => mm !! c)) in Heq. rewrite !lookup_insert_eq in Heq. injection Heq as <-.
      revert E1. unfold enable_writing, update, gp_loop_update_handler, update_handler.
      destruct (_ || _); [by intros [= _ <-]|]. by destruct (is_none_event _); intros [= _ <-].
    + rewrite (is_writing_events h' _ Hev). apply enable_writing_is.
Qed.

(** Nothing is left to send. *)
Lemma send_done T p h cl w w1 c x :
  winv T p h cl w -> conns w !! c = Some x -> updates w w1 c x ->
  calling_pending_functors w1 = calling_pending_functors w -> log_grows w w1 c -> stream_ok c (log w1) x ->
  winv T p h cl w1 /\ frame w w1.
Proof.
  intros H Hx Hu Hcal Hg Hs. pose proof H as [W1 _ _ _ _ _ _ _ _ _ _ _]. destruct (W1 c x Hx) as [Hl _]. split.
  - eapply (winv_local T p h cl w w1 c x x); done.
  - eapply frame_updates; try done. apply Hg.
Qed.
Lemma updates_same w w1 c x :
  conns w !! c = Some x -> conns w1 = conns w -> connections w1 = connections w -> pending_list w1 = pending_list w ->
  active_handler_list w1 = active_handler_list w -> updates w w1 c x.
Proof. intros Hx Hc Hd Hp Ha. constructor; try done. by rewrite Hc, insert_id. Qed.

(** The second half of [conn_send_in_loop], [n] bytes being out. *)
Lemma send_tail T p h cl w w1 c x m n rem :
  winv T p h cl w -> conns w !! c = Some x -> state x <> k_disconnected ->
  Forall is_byte m -> T + zlen m <= max_object -> 0 <= n <= zlen m -> rem = zlen m - n ->
  conns w1 = conns w -> updates w w1 c x -> calling_pending_functors w1 = calling_pending_functors w -> log_grows w w1 c ->
  (clean c (log w1) -> clean c (log w) /\ accepted c (log w1) = accepted c (log w) ++ m /\
     written c (log w1) ++ contents (output_buffer x) = written c (log w) ++ contents (output_buffer x) ++ take (Z.to_nat n) m) ->
  exists w', (if 0 <? rem then
      let* x := of_option (conns w1 !! c) in
      let* b := buffer_append junk (output_buffer x) (drop (Z.to_nat n) m) rem in
      if is_writing (handler x) then Ok (put c (set_output x b) w1) else on_handler enable_writing c (put c (set_output x b) w1)
    else Ok w1) = Ok w' /\ winv (T + zlen m) p h cl w' /\ frame w w'.
Proof.
  intros H Hx Hst Hm HT Hn -> Hcs Hu Hcal Hg Hlog. destruct (Z.ltb_spec 0 (zlen m - n)).
  - rewrite Hcs, Hx. cbn [of_option res_bind]. apply (send_rest T p h cl w w1); try done. lia.
  - exists w1. split; [done|]. destruct (send_done T p h cl w w1 c x) as [? ?]; try done.
    + destruct (wi_local _ _ _ _ _ H c x Hx) as [_ Hs]. intros Hcl. destruct (Hlog Hcl) as (Hc0&->&->).
      rewrite (Hs Hc0), <-app_assoc. do 2 f_equal. symmetry. apply take_ge. unfold zlen in *. lia.
    + split; [eapply winv_mono; [|done]; pose proof (zlen_nonneg m); lia|done].
Qed.

Lemma conn_send_in_loop_ok T p h cl w c x m :
  winv T p h cl w -> conns w !! c = Some x -> Forall is_byte m -> T + zlen m <= max_object ->
  exists w', conn_send_in_loop junk kernel_write c m w = Ok w' /\ winv (T + zlen m) p h cl w' /\ frame w w'.
Proof.
  intros H Hx Hm HT. pose proof (zlen_nonneg m) as Hm0. unfold conn_send_in_loop, get. rewrite Hx. cbn [of_option res_bind].
  destruct (decide (state x = k_disconnected)) as [Hd|Hd].
  { exists w. split; [done|]. split; [eapply winv_mono; [|done]; lia|reflexivity]. }
  destruct (wi_local _ _ _ _ _ H c x Hx) as [[_ [Lo _] _ _] Hs]. pose proof (wi_log _ _ _ _ _ H) as Wlog.
  set (w0 := emit w (EvSend c m)). set (r := kernel_write (ticks w0) (zlen m)). set (w1 := emit (tick w0) (EvDirect c m r)).
  assert (G0 : log_grows w w0 c) by (eapply log_grows_about; [done|done|]; repeat constructor; cbn; congruence || done).
  assert (G1 : log_grows w w1 c).
  { eapply log_grows_about; [done|by cbn; rewrite <-?app_assoc|]; repeat constructor; cbn; congruence || done. }
  assert (U0 : updates w w0 c x) by by apply updates_same. assert (U1 : updates w w1 c x) by by apply updates_same.
  destruct (negb (is_writing (handler x)) && (readable_bytes (output_buffer x) =? 0)) eqn:Edir.
  2: { apply (send_tail T p h cl w w0 c x m 0); try done; try lia. cbn [log emit w0].
    rewrite clean_snoc, accepted_snoc, written_snoc. cbn. rewrite decide_True by done. rewrite !app_nil_r. tauto. }
  apply andb_true_iff in Edir as [_ Hempty%Z.eqb_eq]. rewrite readable_bytes_contents in Hempty by done.
  assert (Hnil : contents (output_buffer x) = []).
  { destruct (contents _) as [|z l]; [done|]. rewrite zlen_cons in Hempty. pose proof (zlen_nonneg l). lia. }
  assert (Hlogs : forall n, (clean c (log w1) -> written1 c (EvDirect c m r) = take (Z.to_nat n) m) -> clean c (log w1) ->
    clean c (log w) /\ accepted c (log w1) = accepted c (log w) ++ m /\
    written c (log w1) ++ contents (output_buffer x) = written c (log w) ++ contents (output_buffer x) ++ take (Z.to_nat n) m).
  { intros n Hn Hcl. pose proof (Hn Hcl) as Hw. revert Hcl. cbn [log emit tick w1 w0].
    rewrite !clean_snoc, !accepted_snoc, !written_snoc, Hw, Hnil. cbn. rewrite decide_True by done. rewrite !app_nil_r. tauto. }
  destruct r as [n|e] eqn:Er.
  - pose proof (Hwrite _ _ _ Hm0 Er) as Hn. apply (send_tail T p h cl w w1 c x m n); try done. apply Hlogs. intros _. cbn. by rewrite decide_True.
  - destruct e; [apply (send_tail T p h cl w w1 c x m 0); try done; try lia; by apply Hlogs| |apply (send_tail T p h cl w w1 c x m 0); try done; try lia; by apply Hlogs].
    exists w1. split; [done|]. destruct (send_done T p h cl w w1 c x) as [? ?]; try done.
    + unfold stream_ok. cbn [log emit tick w1 w0]. rewrite !clean_snoc. cbn. tauto.
    + split; [eapply winv_mono; [|done]; lia|done].
Qed.

End Calls.

(** Moving between states that are not [k_disconnected]. *)
Lemma set_state_ok T p h cl w c x st :
  winv T p h cl w -> conns w !! c = Some x -> state x <> k_disconnected -> st <> k_disconnected ->
  winv T p h cl (put c (set_state x st) w) /\ frame w (put c (set_state x st) w).
Proof.
  intros H Hx Hs Hst. destruct (wi_local _ _ _ _ _ H c x Hx) as [[L1 L2 L3 L4] Hstr]. split.
  - eapply (winv_local T p h cl w _ c x (set_state x st)); try done; [by eapply log_grows_refl|constructor; try done; by intros; apply L4].
  - by eapply (frame_updates w _ c x (set_state x st)).
Qed.

Lemma emit_shutdown_ok T p h cl w c x :
  winv T p h cl w -> conns w !! c = Some x ->
  (EvConnection c k_disconnected ∈ log w \/ contents (output_buffer x) = []) -> winv T p h cl (emit w (EvShutdown c)).
Proof.
  intros H Hx Hor. pose proof H as [W1 W2 W3 W3' W4 W5 W6 W6' W7 W8 W9 W10]. constructor; try done; cbn [conns log emit].
  - intros i y Hy. destruct (W1 i y Hy) as [? Hst]. split; [done|]. unfold stream_ok in *.
    rewrite clean_snoc, accepted_snoc, written_snoc. cbn. rewrite !app_nil_r. tauto.
  - apply shutdown_ok_snoc; [done|]. intros i [= <-] Hc. destruct Hor as [|He]; [by left|right].
    destruct (W1 c x Hx) as [_ Hstr]. by rewrite (Hstr Hc), He, app_nil_r.
  - intros i y Hy Hd Hn. apply elem_of_app. left. by apply (W10 i y).
Qed.
Lemma frame_emit w e : frame w (emit w e).
Proof.
  constructor; try done; [intros c x Hx; by exists x|exists []; by rewrite app_nil_r|]. intros e' He. apply elem_of_app. by left.
Qed.
Lemma shutdown_task_ok T p h cl w t x :
  winv T p h cl w -> conns w !! conn t = Some x -> (state x = k_disconnected -> cl <> Some (conn t)) ->
  exists w', shutdown t w = Ok w' /\ winv T p h cl w' /\ frame w w'.
Proof.
  intros H Hx Hcl. unfold shutdown, get. rewrite Hx. cbn [of_option res_bind].
  destruct (is_writing (handler x)) eqn:Ew; [by exists w|]. eexists. split; [done|]. split; [|apply frame_emit].
  apply (emit_shutdown_ok T p h cl w _ x H Hx). destruct (decide (state x = k_disconnected)) as [Hd|Hd].
  - left. apply (wi_closed _ _ _ _ _ H _ x); auto.
  - right. destruct (wi_local _ _ _ _ _ H _ x Hx) as [Hl _]. by apply Hl.
Qed.

Lemma released_frame w w' c : released w w' c false -> frame w w'.
Proof.
  intros [R1 R2 R3 R4 R5 RA R6]. constructor; try done; [| |exists []; by rewrite app_nil_r].
  - intros i y Hy. destruct (decide (i = c)) as [->|Hne]; [rewrite R2, Hy; by eexists|rewrite R1 by done; by exists y].
  - intros i. destruct (decide (i = c)) as [->|Hne]; [|by rewrite R1]. rewrite R2. by destruct (conns w !! c); [eauto|intros []].
Qed.
(** Running a task at once or queueing it. *)
Lemma gp_run_in_loop_ok T T' p h cl w t x run :
  winv T p h cl w -> conns w !! conn t = Some x ->
  (forall w1 x1, winv T p (conn t :: h) cl w1 -> conns w1 !! conn t = Some x1 -> like x x1 ->
     exists w', run t w1 = Ok w' /\ winv T' p (conn t :: h) cl w' /\ frame w1 w') ->
  exists w', gp_run_in_loop true run t w = Ok w' /\ winv T' p h cl w' /\ frame w w'.
Proof.
  intros H Hx Hrun. unfold gp_run_in_loop.
  destruct (conn_ref_inc_ok T p h cl w (conn t) x H Hx) as [-> Hi]. cbn [res_bind].
  set (w0 := put _ _ w) in *.
  destruct (Hrun w0 (set_ref x (ref x + 1)) Hi) as (w1&->&H1&F1); [apply lookup_insert_eq|done|]. cbn [res_bind].
  destruct (conn_ref_dec_ok _ _ _ _ _ _ H1) as (w2&b&->&H2&R2&Hb). cbn [res_bind].
  exists w2. split; [done|]. split; [done|].
  assert (F0 : frame w w0) by by eapply (frame_updates w w0 (conn t) x (set_ref x (ref x + 1))).
  destruct F1 as [F1 FB F2 [l F3] F4 FA F5].
  destruct (F1 (conn t) (set_ref x (ref x + 1))) as (y&Hy&Hly); [apply lookup_insert_eq|].
  assert (b = false) as ->.
  { apply (Hb y Hy). destruct (wi_ref _ _ _ _ _ H (conn t) x Hx) as [Hr Hr1]. pose proof (held_nonneg (conn t) h).
    destruct (registered w (conn t) x) eqn:Ereg; [left|right].
    - unfold registered in *. rewrite F2. destruct Hly as (->&_). exact Ereg.
    - destruct (decide (conn t ∈ h)) as [|Hnin]; [by left|right].
      simpl in Hr. rewrite (held_zero _ h Hnin) in Hr.
      assert (Hq : exists l, queued p w1 = queued p w ++ l).
      { exists l. unfold queued. rewrite F3. destruct (wi_prefix _ _ _ _ _ H) as [q0 Hq0]. cbn. rewrite Hq0, <-app_assoc, !drop_app_length. done. }
      destruct Hq as [l' ->]. rewrite task_count_app. pose proof (task_count_nonneg (conn t) l'). lia. }
  etransitivity; [exact F0|]. transitivity w1; [constructor; try done; by exists l|].
  by apply (released_frame w1 w2 (conn t)).
Qed.

Lemma conn_shutdown_ok T p h cl w c x :
  winv T p h cl w -> conns w !! c = Some x ->
  exists w', conn_shutdown true c w = Ok w' /\ winv T p h cl w' /\ frame w w'.
Proof.
  intros H Hx. unfold conn_shutdown, get. rewrite Hx. cbn [of_option res_bind].
  destruct (decide (state x = k_connected)) as [Hs|]; [|by exists w].
  destruct (set_state_ok T p h cl w c x k_disconnecting H Hx) as [H1 F1]; [by rewrite Hs|done|].
  destruct (gp_run_in_loop_ok T T p h cl _ (create_gp_pending_task run_in_loop_shutdown c []) (set_state x k_disconnecting) shutdown H1)
    as (w'&->&H2&F2); [apply lookup_insert_eq| |].
  - intros w1 x1 W1 Hx1 (_&_&Hl). apply (shutdown_task_ok _ _ _ _ _ _ x1); [done|done|]. by intros ?%Hl.
  - exists w'. split; [done|]. split; [done|]. by etransitivity.
Qed.
Lemma conn_force_close_ok T p h cl w c x :
  winv T p h cl w -> conns w !! c = Some x ->
  exists w', conn_force_close true c w = Ok w' /\ winv T p h cl w' /\ frame w w'.
Proof.
  intros H Hx. unfold conn_force_close, get. rewrite Hx. cbn [of_option res_bind].
  destruct (decide _) as [Hs|]; [|by exists w].
  destruct (set_state_ok T p h cl w c x k_disconnecting H Hx) as [H1 F1]; [by destruct Hs as [-> | ->]|done|].
  destruct (gp_queue_in_loop_ok T p h cl _ (create_gp_pending_task queue_in_loop_force_close c []) (set_state x k_disconnecting) H1)
    as (w'&->&H2&F2&_); [apply lookup_insert_eq|by left|].
  exists w'. split; [done|]. split; [done|]. by etransitivity.
Qed.

(** ** The application's callbacks *)
Definition api_ok (w : world) (a : api) : Prop :=
  match a with
  | Send c d => is_Some (conns w !! c) /\ Forall is_byte d
  | ShutdownConn c | ForceClose c => is_Some (conns w !! c)
  | Retrieve c n => is_Some (conns w !! c) /\ 0 <= n
  end.
Definition sent (l : list api) : Z := foldr (fun a z => (match a with Send _ d => zlen d | _ => 0 end) + z) 0 l.
Lemma sent_nonneg l : 0 <= sent l.
Proof. induction l as [|[] l IH]; simpl; try lia. pose proof (zlen_nonneg data). lia. Qed.
Lemma api_ok_frame w w' a : frame w w' -> api_ok w a -> api_ok w' a.
Proof.
  intros [F _ _ _ _ _ _]. assert (H : forall c, is_Some (conns w !! c) -> is_Some (conns w' !! c)).
  { intros c [x Hx]. destruct (F c x Hx) as (y&Hy&_). eauto. }
  destruct a; simpl; intuition.
Qed.

(** Callbacks use connections that exist and send at most [S] bytes. *)
Definition user_ok (S : Z) (f : nat -> world -> list api) : Prop :=
  forall c w, is_Some (conns w !! c) -> Forall (api_ok w) (f c w) /\ sent (f c w) <= S.

Section Application.
Context (junk : nat -> Z) (kernel_write : nat -> Z -> wres) (kernel_read : nat -> Z -> readv_result).
Context (on_connection on_message : nat -> world -> list api) (S : Z).
Context (Hwrite : forall k len n, 0 <= len -> kernel_write k len = Wrote n -> 0 <= n <= len).
(** readv(2) fills at most the room it is offered, and a read is at most [S]
    bytes. *)
Context (Hread : forall k room d, kernel_read k room = readv_data d -> zlen d <= room /\ zlen d <= S /\ Forall is_byte d).
Context (Hcon : user_ok S on_connection) (Hmsg : user_ok S on_message) (HS : 0 <= S).

Lemma api_call_ok T p h cl w a :
  winv T p h cl w -> api_ok w a -> T + sent [a] <= max_object ->
  exists w', api_call junk kernel_write true a w = Ok w' /\ winv (T + sent [a]) p h cl w' /\ frame w w'.
Proof.
  intros H Ha HT. pose proof (sent_nonneg [a]) as Hnn.
  assert (Hm : forall w', winv T p h cl w' /\ frame w w' -> winv (T + sent [a]) p h cl w' /\ frame w w').
  { intros w' [? ?]. split; [eapply winv_mono; [|done]; lia|done]. }
  destruct a as [c d|c|c|c n]; cbn [api_call api_ok sent foldr] in *.
  - destruct Ha as [[x Hx] Hd]. unfold conn_send, get. rewrite Hx. cbn [of_option res_bind].
    destruct (decide (state x = k_connected)); [|exists w; split; [done|]; by apply Hm].
    rewrite Z.add_0_r in *. by apply (conn_send_in_loop_ok junk kernel_write Hwrite T p h cl w c x d).
  - destruct Ha as [x Hx]. destruct (conn_shutdown_ok T p h cl w c x H Hx) as (w'&?&?&?). exists w'. split; [done|]. by apply Hm.
  - destruct Ha as [x Hx]. destruct (conn_force_close_ok T p h cl w c x H Hx) as (w'&?&?&?). exists w'. split; [done|]. by apply Hm.
  - destruct Ha as [[x Hx] Hn]. unfold get. rewrite Hx. cbn [of_option res_bind]. eexists. split; [done|]. apply Hm.
    destruct (wi_local _ _ _ _ _ H c x Hx) as [[[L1 L1'] L2 L3 L4] Hstr].
    destruct (retrieve_wf (input_buffer x) n L1 Hn) as [Hw _]. pose proof (retrieve_writer (input_buffer x) n L1). split.
    + eapply (winv_local T p h cl w _ c x (set_input x (retrieve (input_buffer x) n))); try done; [by eapply log_grows_refl|].
      constructor; try done. split; [done|]. cbn. lia.
    + by eapply (frame_updates w _ c x (set_input x (retrieve (input_buffer x) n))).
Qed.

Lemma api_calls_ok T p h cl l w :
  winv T p h cl w -> Forall (api_ok w) l -> T + sent l <= max_object ->
  exists w', api_calls junk kernel_write true l w = Ok w' /\ winv (T + sent l) p h cl w' /\ frame w w'.
Proof.
  revert T w. induction l as [|a l IH]; intros T w H Hl HT; cbn [api_calls].
  { exists w. split; [done|]. cbn. rewrite Z.add_0_r. split; [done|reflexivity]. }
  apply Forall_cons in Hl as [Ha Hl]. pose proof (sent_nonneg l). pose proof (sent_nonneg [a]).
  assert (Hs : sent (a :: l) = sent [a] + sent l) by (unfold sent; cbn [foldr]; lia).
  destruct (api_call_ok T p h cl w a H Ha) as (w1&->&K1&F1); [lia|]. cbn [res_bind].
  destruct (IH (T + sent [a]) w1 K1) as (w2&->&K2&F2); [|lia|].
  - eapply Forall_impl; [exact Hl|]. intros b. by apply api_ok_frame.
  - exists w2. split; [done|]. replace (T + sent (a :: l)) with (T + sent [a] + sent l) by lia. split; [done|by etransitivity].
Qed.

Lemma callback_ok T p h cl w e f l :
  winv T p h cl w -> silent e -> user_ok S f -> T + S <= max_object -> (exists c, is_Some (conns w !! c) /\ l = f c (emit w e)) ->
  exists w', api_calls junk kernel_write true l (emit w e) = Ok w' /\ winv (T + S) p h cl w' /\ frame w w' /\ e ∈ log w'.
Proof.
  intros H He Hf HT (c&Hc&->). destruct (Hf c (emit w e) Hc) as [Hok Hs].
  destruct (api_calls_ok T p h cl (f c (emit w e)) (emit w e)) as (w'&->&H'&F'); [by apply winv_emit_silent|done|lia|].
  exists w'. split; [done|]. split; [eapply winv_mono; [|done]; lia|]. split; [etransitivity; [apply frame_emit|done]|].
  apply F', elem_of_app. right. by apply list_elem_of_singleton.
Qed.
Lemma connection_callback_ok T p h cl w c x :
  winv T p h cl w -> conns w !! c = Some x -> T + S <= max_object ->
  exists w', connection_callback junk kernel_write on_connection true c w = Ok w' /\ winv (T + S) p h cl w' /\ frame w w' /\
    EvConnection c (state x) ∈ log w'.
Proof.
  intros H Hx HT. unfold connection_callback, get. rewrite Hx. cbn [of_option res_bind].
  apply (callback_ok T p h cl w _ on_connection); [done|split; [intros; repeat split; auto|done]|done|done|]. exists c. split; [eauto|done].
Qed.
Lemma message_callback_ok T p h cl w c x :
  winv T p h cl w -> conns w !! c = Some x -> T + S <= max_object ->
  exists w', message_callback junk kernel_write on_message true c w = Ok w' /\ winv (T + S) p h cl w' /\ frame w w'.
Proof.
  intros H Hx HT. unfold message_callback, get. rewrite Hx. cbn [of_option res_bind].
  destruct (callback_ok T p h cl w (EvMessage c) on_message (on_message c (emit w (EvMessage c)))) as (w'&?&?&?&_);
    [done|split; [intros; repeat split; auto|done]|done|done|exists c; split; [eauto|done]|]. by exists w'.
Qed.
End Application.
