(* ===== verification/ConnSafe.v ===== *)
(** * Connections: closing, events of descriptors, the loop

    The event handlers and the loop keep the invariant of ConnInv, hence the
    properties: no connection is used after it was freed, each is freed once
    its last reference is gone, and the bytes of a stream arrive in order. *)

From S2P Require Import Prelude Buffer Handler Conn ConnInv.
Local Open Scope Z_scope.

(** What closing [c] leaves alone. *)
Record cframe (c : nat) (w w' : world) : Prop := {
  cf_conns : forall i x, conns w !! i = Some x -> exists x', conns w' !! i = Some x' /\
    fd (handler x') = fd (handler x) /\ revents (handler x') = revents (handler x) /\
    (i <> c -> state x' = k_disconnected <-> state x = k_disconnected) /\
    (state x = k_disconnected -> state x' = k_disconnected);
  cf_back : forall i, is_Some (conns w' !! i) -> is_Some (conns w !! i);
  cf_pending : exists l, pending_list w' = pending_list w ++ l;
  cf_calling : calling_pending_functors w' = calling_pending_functors w;
  cf_active : active_handler_list w' = active_handler_list w;
  cf_log : forall e, e ∈ log w -> e ∈ log w';
}.
Lemma frame_cframe c w w' : frame w w' -> cframe c w w'.
Proof.
  intros [F1 F2 F3 F4 F5 FA F6]. constructor; try done. intros i x Hx. destruct (F1 i x Hx) as (y&Hy&?&?&Hs). exists y.
  split_and!; try done. apply Hs.
Qed.
Lemma cframe_trans c w1 w2 w3 : cframe c w1 w2 -> cframe c w2 w3 -> cframe c w1 w3.
Proof.
  intros [A1 A0 [l1 A2] A3 A5 A4] [B1 B0 [l2 B2] B3 B5 B4]. constructor; [|auto| |congruence|congruence|auto].
  - intros i x Hx. destruct (A1 i x Hx) as (y&Hy&?&?&Hs&Hd). destruct (B1 i y Hy) as (z&Hz&?&?&Hs'&Hd'). exists z.
    split_and!; [done|congruence..| |auto]. intros Hi. rewrite Hs', Hs by done. done.
  - exists (l1 ++ l2). by rewrite B2, A2, app_assoc.
Qed.
Lemma cframe_updates w w' c x x' :
  conns w !! c = Some x -> updates w w' c x' -> calling_pending_functors w' = calling_pending_functors w ->
  fd (handler x') = fd (handler x) -> revents (handler x') = revents (handler x) ->
  (state x = k_disconnected -> state x' = k_disconnected) -> (forall e, e ∈ log w -> e ∈ log w') ->
  cframe c w w'.
Proof.
  intros Hx [Uc Ud Up Ua] Hcl Hf Hr Hs Hl. constructor; try done; [| |exists []; by rewrite app_nil_r].
  2: { intros i. rewrite Uc. destruct (decide (i = c)) as [->|]; [by eauto|by rewrite lookup_insert_ne]. }
  intros i y Hy. rewrite Uc. destruct (decide (i = c)) as [->|].
  - rewrite lookup_insert_eq. exists x'. by simplify_eq.
  - rewrite lookup_insert_ne by done. by exists y.
Qed.
(** Handlers whose operation leaves [_revents] alone. *)
Lemma update_revents ep (c : nat) h ep' h' : update ep c h = (ep', h') -> revents h' = revents h.
Proof.
  unfold update, gp_loop_update_handler, update_handler. intros Hu.
  destruct (_ || _); [by injection Hu as _ <-|]. by destruct (is_none_event _); injection Hu as _ <-.
Qed.
Definition on_fdr f g : Prop :=
  on_fd f g /\ forall ep c h ep' h', f ep c h = (ep', h') -> revents h' = revents h.
Lemma on_handler_spec f g c w x : on_fdr f g -> conns w !! c = Some x ->
  exists h' ep', on_handler f c w = Ok (put c (set_handler x h') (set_epoller w ep')) /\
    fd h' = fd (handler x) /\ events h' = g (events (handler x)) /\ revents h' = revents (handler x).
Proof.
  intros [Hf Hr] Hx. unfold on_handler, get. rewrite Hx. cbn [of_option res_bind].
  destruct (f (epoller w) c (handler x)) as [ep h] eqn:E. exists h, ep. split; [done|].
  destruct (Hf _ _ _ _ _ E). split; [done|]. split; [done|]. by eapply Hr.
Qed.
Lemma enable_reading_fdr : on_fdr enable_reading (fun e => Z.lor e kread_event).
Proof. split; [apply enable_reading_fd|]. intros ep c h ep' h' Hu%update_revents. done. Qed.
Lemma disable_writing_fdr : on_fdr disable_writing (fun e => Z.land e (Z.lnot kwrite_event)).
Proof. split; [apply disable_writing_fd|]. intros ep c h ep' h' Hu%update_revents. done. Qed.
Lemma disable_all_fdr : on_fdr disable_all (fun _ => knone_event).
Proof. split; [apply disable_all_fd|]. intros ep c h ep' h' Hu%update_revents. done. Qed.
Lemma handler_remove_fdr : on_fdr handler_remove (fun e => e).
Proof.
  split; [apply handler_remove_fd|]. intros ep c h ep' h'. unfold handler_remove, gp_loop_remove_handler, remove_handler.
  by intros [= _ <-].
Qed.

Lemma on_handler_keeps f g T p h cl w c x :
  on_fdr f g -> winv T p h cl w -> conns w !! c = Some x ->
  (forall h', fd h' = fd (handler x) -> events h' = g (events (handler x)) -> local_ok T (set_handler x h')) ->
  exists h' w', on_handler f c w = Ok w' /\ winv T p h cl w' /\ frame w w' /\
    conns w' = <[c := set_handler x h']> (conns w) /\ pending_list w' = pending_list w.
Proof.
  intros Hf H Hx Hl. destruct (on_handler_spec f g c w x Hf Hx) as (h'&ep'&->&Hfd&He&Hr). eexists h', _. split; [done|].
  destruct (wi_local _ _ _ _ _ H c x Hx) as [_ Hs]. split; [|split; [|done]].
  - eapply (winv_local T p h cl w _ c x (set_handler x h')); try done; [by eapply log_grows_refl|by apply Hl].
  - by eapply (frame_updates w _ c x (set_handler x h')).
Qed.

(** ** Closing *)
(** Taking [c] out of the dictionary turns the server's reference into one of
    the running code. *)
Lemma unregister_ok T p h w c x :
  winv T p h (Some c) w -> conns w !! c = Some x -> EvConnection c k_disconnected ∈ log w ->
  winv T p (c :: h) None (set_connections w (delete (fd (handler x)) (connections w))).
Proof.
  intros [W1 W2 W3 W3' W4 W5 W6 W6' W7 W8 W9 W10] Hx Hev. set (w' := set_connections _ _).
  destruct (W3' c x Hx eq_refl) as [Hst Hreg].
  assert (Hr : forall i y, conns w !! i = Some y -> registered w' i y = if decide (i = c) then false else registered w i y).
  { intros i y Hy. unfold registered. cbn. destruct (decide (i = c)) as [->|Hne].
    - assert (y = x) as -> by congruence. rewrite lookup_delete_eq. done.
    - rewrite lookup_delete_ne; [done|]. intros Hf. apply Hne. symmetry. by apply (W7 c i x y). }
  constructor; try done.
  - intros i y Hy. change (conns w !! i = Some y) in Hy. rewrite (Hr i y Hy), held_cons. change (queued p w') with (queued p w). destruct (W2 i y Hy) as [Hi ?].
    destruct (decide (i = c)) as [->|Hne]; [|by rewrite decide_False by done].
    assert (y = x) as -> by congruence. rewrite Hreg in Hi. rewrite decide_True by done. cbn in *. lia.
  - intros i y Hy _. change (conns w !! i = Some y) in Hy. rewrite (Hr i y Hy). destruct (decide (i = c)) as [->|Hne]; [|by apply W3; [done|intros [= ->]]].
    assert (y = x) as -> by congruence. by rewrite Hst.
  - intros i. rewrite elem_of_cons. intros [->|]; [eauto|by apply W6].
  - intros f i Hi. cbn in Hi. apply lookup_delete_Some in Hi as [_ Hi]. by apply W8.
  - intros i y Hy Hd _. cbn. destruct (decide (i = c)) as [->|Hne]; [done|]. apply (W10 i y); [done|done|by intros [= ->]].
Qed.

Lemma run_remove_ok T p h w c x :
  winv T p h None w -> conns w !! c = Some x -> state x = k_disconnected ->
  exists w', gp_run_in_loop true (remove_task true) (create_gp_pending_task run_in_loop_remove_conn c []) w = Ok w' /\
    winv T p h None w' /\ frame w w' /\ 1 <= task_count c (queued p w').
Proof.
  intros H Hx Hst. unfold gp_run_in_loop. cbn [conn create_gp_pending_task].
  destruct (conn_ref_inc_ok T p h None w c x H Hx) as [-> Hi]. cbn [res_bind]. set (w0 := put _ _ w) in *.
  unfold remove_task at 1, get. cbn [conn create_gp_pending_task].
  assert (Hx0 : conns w0 !! c = Some (set_ref x (ref x + 1))) by apply lookup_insert_eq. rewrite Hx0. cbn [of_option res_bind].
  destruct (gp_queue_in_loop_ok T p (c :: h) None w0 (create_gp_pending_task queue_in_loop_destroy_conn c []) (set_ref x (ref x + 1)) Hi)
    as (w1&->&H1&F1&P1); [done| |].
  { right. split; [done|]. intros y Hy. cbn in Hy. rewrite lookup_insert_eq in Hy. by injection Hy as <-. }
  cbn [res_bind]. destruct (conn_ref_dec_ok _ _ _ _ _ _ H1) as (w2&b&->&H2&R2&Hb). cbn [res_bind].
  assert (Hq : 1 <= task_count c (queued p w1)).
  { apply (task_count_elem c _ (create_gp_pending_task queue_in_loop_destroy_conn c [])); [|done].
    unfold queued. rewrite P1. destruct (wi_prefix _ _ _ _ _ H) as [q0 Hq0]. cbn. rewrite Hq0, <-app_assoc, drop_app_length.
    apply elem_of_app. right. by left. }
  destruct (fr_conns _ _ F1 c _ Hx0) as (y&Hy&_).
  assert (b = false) as -> by (apply (Hb y Hy); auto).
  exists w2. split; [done|]. split; [done|]. pose proof (released_frame _ _ _ R2) as F2. split.
  - assert (F0 : frame w w0) by by eapply (frame_updates w w0 c x (set_ref x (ref x + 1))).
    etransitivity; [exact F0|]. by etransitivity.
  - unfold queued in *. by rewrite (re_pending _ _ _ _ R2).
Qed.

Lemma remove_conn_ok T p h w c x :
  winv T p (c :: h) (Some c) w -> conns w !! c = Some x -> EvConnection c k_disconnected ∈ log w ->
  exists w', remove_conn true c w = Ok w' /\ winv T p (c :: h) None w' /\ cframe c w w' /\ 1 <= task_count c (queued p w').
Proof.
  intros H Hx Hev. destruct (wi_closing _ _ _ _ _ H c x Hx eq_refl) as [Hst _].
  unfold remove_conn, get. rewrite Hx. cbn [of_option res_bind].
  pose proof (unregister_ok T p (c :: h) w c x H Hx Hev) as H1. set (w1 := set_connections _ _) in *.
  destruct (conn_ref_dec_ok _ _ _ _ _ _ H1) as (w2&b&->&H2&R2&Hb). cbn [res_bind].
  assert (Hx1 : conns w1 !! c = Some x) by done.
  assert (b = false) as -> by (apply (Hb x Hx1); right; left; by left).
  pose proof (released_frame _ _ _ R2) as F2.
  assert (Hx2 : conns w2 !! c = Some (set_ref x (ref x - 1))) by (by rewrite (re_self _ _ _ _ R2), Hx1).
  destruct (run_remove_ok T p (c :: h) w2 c _ H2 Hx2 Hst) as (w3&->&H3&F3&Hq).
  exists w3. split; [done|]. split; [done|]. split; [|done].
  apply (cframe_trans c w w1); [|eapply cframe_trans; apply frame_cframe; done].
  constructor; try done; [intros i y Hy; by exists y|exists []; by rewrite app_nil_r].
Qed.

(** The events that [handle_event] treats soundly: not a hang-up that
    [POLLIN] does not accompany and [POLLPRI] or [POLLRDHUP] does. *)
Definition deliverable (r : Z) : Prop :=
  bits r POLLHUP && negb (bits r POLLIN) && bits r (Z.lor POLLIN (Z.lor POLLPRI POLLRDHUP)) = false.

Section Safe.
Context (junk : nat -> Z) (kernel_write : nat -> Z -> wres) (kernel_read : nat -> Z -> readv_result).
Context (on_connection on_message : nat -> world -> list api) (S : Z).
Context (Hwrite : forall k len n, 0 <= len -> kernel_write k len = Wrote n -> 0 <= n <= len).
Context (Hread : forall k room d, kernel_read k room = readv_data d -> zlen d <= room /\ zlen d <= S /\ Forall is_byte d).
Context (Hcon : user_ok S on_connection) (Hmsg : user_ok S on_message) (HS : 0 <= S).

Lemma connection_handler_close_ok T p h w c x :
  winv T p h None w -> conns w !! c = Some x -> state x <> k_disconnected -> T + S <= max_object ->
  exists w', connection_handler_close junk kernel_write on_connection true c w = Ok w' /\ winv (T + S) p h None w' /\ cframe c w w' /\
    forall y, conns w' !! c = Some y -> state y = k_disconnected.
Proof.
  intros H Hx Hst HT. unfold connection_handler_close.
  destruct (conn_ref_inc_ok T p h None w c x H Hx) as [-> H1]. cbn [res_bind]. set (w1 := put _ _ w) in *.
  set (x1 := set_ref x (ref x + 1)) in *. assert (Hx1 : conns w1 !! c = Some x1) by apply lookup_insert_eq.
  unfold get at 1. rewrite Hx1. cbn [of_option res_bind].
  destruct (on_handler_spec disable_all _ c (put c (set_state x1 k_disconnected) w1) (set_state x1 k_disconnected) disable_all_fdr)
    as (h'&ep'&->&Hf&He&Hrv); [apply lookup_insert_eq|]. cbn [res_bind]. set (w2 := put _ _ _). set (x2 := set_handler _ h') in w2.
  assert (Hx2 : conns w2 !! c = Some x2) by apply lookup_insert_eq.
  assert (U2 : updates w1 w2 c x2) by (constructor; try done; cbn; by rewrite insert_insert_eq).
  assert (H2 : winv T p (c :: h) (Some c) w2).
  { destruct (wi_local _ _ _ _ _ H1 c x1 Hx1) as [[L1 L2 L3 L4] Hstr]. destruct (wi_ref _ _ _ _ _ H1 c x1 Hx1) as [_ Hr1].
    eapply (winv_upd T p (c :: h) (c :: h) None (Some c) w1 w2 c x1 x2); try done.
    - by eapply log_grows_refl.
    - cbn. lia.
    - by right.
    - intros i Hi. split; intros [=]; congruence.
    - intros _. split; [done|]. rewrite (wi_state _ _ _ _ _ H1 c x1 Hx1) by done. by rewrite bool_decide_false. }
  destruct (connection_callback_ok junk kernel_write on_connection S Hwrite Hcon T p (c :: h) (Some c) w2 c x2 H2 Hx2 HT)
    as (w3&->&H3&F3&Hev). cbn [res_bind]. change (state x2) with k_disconnected in Hev.
  destruct (fr_conns _ _ F3 c x2 Hx2) as (x3&Hx3&_).
  destruct (remove_conn_ok _ p h w3 c x3 H3 Hx3 Hev) as (w4&->&H4&F4&Hq). cbn [res_bind].
  destruct (conn_ref_dec_ok _ _ _ _ _ _ H4) as (w5&b&->&H5&R5&Hb). cbn [res_bind].
  destruct (cf_conns _ _ _ F4 c x3 Hx3) as (x4&Hx4&_).
  assert (b = false) as -> by (apply (Hb x4 Hx4); auto).
  pose proof (released_frame _ _ _ R5) as F5.
  assert (C2 : cframe c w2 w5).
  { apply (cframe_trans c w2 w3); [by apply frame_cframe|]. apply (cframe_trans c w3 w4); [done|by apply frame_cframe]. }
  exists w5. split; [done|]. split; [done|]. split.
  - apply (cframe_trans c w w1); [by eapply (cframe_updates w w1 c x x1)|].
    apply (cframe_trans c w1 w2); [by eapply (cframe_updates w1 w2 c x1 x2)|done].
  - intros y Hy. destruct (cf_conns _ _ _ C2 c x2 Hx2) as (y'&Hy'&_&_&_&Hd). replace y with y' by congruence. by apply Hd.
Qed.

(** *** Opening, sending on and destroying *)
Lemma connection_established_ok T p h w c x :
  winv T p h None w -> conns w !! c = Some x -> state x <> k_disconnected -> T + S <= max_object ->
  exists w', connection_established junk kernel_write on_connection true c w = Ok w' /\ winv (T + S) p h None w' /\ frame w w'.
Proof.
  intros H Hx Hst HT. unfold connection_established, get. rewrite Hx. cbn [of_option res_bind].
  destruct (set_state_ok T p h None w c x k_connected H Hx Hst) as [H1 F1]; [done|].
  destruct (on_handler_keeps enable_reading _ T p h None _ c (set_state x k_connected) enable_reading_fdr H1)
    as (h'&w2&->&H2&F2&C2&_); [apply lookup_insert_eq| |].
  { intros h' _ He. destruct (wi_local _ _ _ _ _ H1 c (set_state x k_connected)) as [[L1 L2 L3 L4] _]; [apply lookup_insert_eq|].
    constructor; try done. intros _ Hw. apply L4; [done|]. cbn [handler set_handler] in Hw.
    rewrite (is_writing_events h' _ He), enable_reading_is in Hw. exact Hw. }
  cbn [res_bind].
  destruct (connection_callback_ok junk kernel_write on_connection S Hwrite Hcon T p h None w2 c (set_handler (set_state x k_connected) h') H2)
    as (w3&->&H3&F3&_); [by rewrite C2, lookup_insert_eq|done|].
  exists w3. split; [done|]. split; [done|]. etransitivity; [exact F1|]. by etransitivity.
Qed.

Lemma connection_destroyed_ok T p h w c x :
  winv T p h None w -> conns w !! c = Some x -> state x = k_disconnected ->
  exists w', connection_destroyed junk kernel_write on_connection true c w = Ok w' /\ winv T p h None w' /\ frame w w' /\
    pending_list w' = pending_list w.
Proof.
  intros H Hx Hst. unfold connection_destroyed, get. rewrite Hx. cbn [of_option res_bind].
  rewrite decide_False by (by rewrite Hst). cbn [res_bind].
  destruct (on_handler_keeps handler_remove _ T p h None w c x handler_remove_fdr H Hx) as (h'&w2&->&H2&F2&_&?); [|by exists w2].
  intros h' _ He. destruct (wi_local _ _ _ _ _ H c x Hx) as [[L1 L2 L3 L4] _].
  constructor; try done. cbn. by rewrite He.
Qed.

(** Taking [n] bytes that went out from the output buffer. *)
Lemma drain_ok T p h w w1 c x n :
  winv T p h None w -> conns w !! c = Some x -> 0 <= n -> updates w w1 c x ->
  calling_pending_functors w1 = calling_pending_functors w -> log_grows w w1 c ->
  let b := retrieve (output_buffer x) n in stream_ok c (log w1) (set_output x b) ->
  exists w', (let w := put c (set_output x b) w1 in
    if readable_bytes b =? 0 then
      let* w := on_handler disable_writing c w in
      Ok (if decide (state x = k_disconnecting) then emit w (EvShutdown c) else w)
    else Ok w) = Ok w' /\ winv T p h None w' /\ frame w w'.
Proof.
  intros H Hx Hn [Uc Ud Up Ua] Hcal Hg b Hstr. cbv zeta. set (w2 := put c _ w1).
  destruct (wi_local _ _ _ _ _ H c x Hx) as [[L1 [L2 L2'] L3 L4] _].
  destruct (retrieve_wf (output_buffer x) n L2 Hn) as [Hb Hbc]. pose proof (retrieve_writer (output_buffer x) n L2) as Hbw. fold b in Hb, Hbc, Hbw.
  assert (U2 : updates w w2 c (set_output x b)) by (constructor; try done; cbn; by rewrite Uc, insert_insert_eq).
  assert (L : local_ok T (set_output x b)).
  { constructor; try done; cbn; [split; [done|lia]|]. intros ? ?. by rewrite Hbc, L4, drop_nil. }
  assert (H2 : winv T p h None w2) by (by eapply (winv_local T p h None w w2 c x (set_output x b))).
  assert (F2 : frame w w2) by (eapply frame_updates; try done; apply Hg).
  destruct (Z.eqb_spec (readable_bytes b) 0) as [He|He]; [|by exists w2].
  rewrite readable_bytes_contents in He by done.
  assert (Hnil : contents b = []) by (destruct (contents b) as [|z l]; [done|]; rewrite zlen_cons in He; pose proof (zlen_nonneg l); lia).
  destruct (on_handler_keeps disable_writing _ T p h None w2 c (set_output x b) disable_writing_fdr H2)
    as (h'&w3&->&H3&F3&C3&_); [by apply lookup_insert_eq| |].
  { intros h' _ Hev. constructor; try done; cbn; [split; [done|lia]|]. intros Hd. rewrite Hev. cbn. by rewrite (L3 Hd). }
  cbn [res_bind]. destruct (decide _); [|exists w3; split; [done|]; split; [done|by etransitivity]].
  eexists. split; [done|]. split; [|etransitivity; [exact F2|]; etransitivity; [exact F3|apply frame_emit]].
  apply (emit_shutdown_ok T p h None w3 c (set_handler (set_output x b) h') H3); [by rewrite C3, lookup_insert_eq|by right].
Qed.

Lemma connection_handler_write_ok T p h w c x :
  winv T p h None w -> conns w !! c = Some x ->
  exists w', connection_handler_write kernel_write c w = Ok w' /\ winv T p h None w' /\ frame w w'.
Proof.
  intros H Hx. unfold connection_handler_write, get. rewrite Hx. cbn [of_option res_bind].
  destruct (wi_local _ _ _ _ _ H c x Hx) as [Hl Hs]. pose proof Hl as [_ [Lo _] _ _]. set (out := output_buffer x) in *.
  rewrite readable_bytes_contents, peek_contents by (try done; pose proof (zlen_nonneg (contents out)); lia).
  replace (take (Z.to_nat (zlen (contents out))) (contents out)) with (contents out)
    by (symmetry; apply take_ge; unfold zlen; lia).
  cbn [res_bind]. set (r := kernel_write _ _). set (w1 := emit (tick w) (EvDrain c (contents out) r)).
  assert (G1 : log_grows w w1 c).
  { eapply log_grows_about; [apply H|done|]; repeat constructor; cbn; congruence || done. }
  assert (U1 : updates w w1 c x) by by apply updates_same. pose proof (zlen_nonneg (contents out)) as Hz.
  assert (Hlog : forall n, 0 <= n <= zlen (contents out) -> r = Wrote n -> stream_ok c (log w1) (set_output x (retrieve out n))).
  { intros n Hn Hr. unfold stream_ok in *. cbn [log emit tick w1 set_output output_buffer]. rewrite Hr.
    rewrite clean_snoc, accepted_snoc, written_snoc. intros [Hc _]. rewrite (Hs Hc). cbn. rewrite decide_True by done.
    destruct (retrieve_wf out n Lo) as [_ ->]; [lia|]. rewrite app_nil_r, <-app_assoc. f_equal. fold out. by rewrite take_drop. }
  destruct r as [n|e] eqn:Er.
  - pose proof (Hwrite _ _ _ Hz Er) as Hn. destruct (Z.ltb_spec 0 n).
    + apply (drain_ok T p h w w1 c x n); try done; [lia|by apply Hlog].
    + assert (n = 0) as -> by lia. exists w1. split; [done|]. apply (send_done T p h None w w1 c x); try done.
      unfold stream_ok in *. cbn [log emit tick w1]. rewrite clean_snoc, accepted_snoc, written_snoc. cbn. rewrite decide_True by done.
      rewrite !app_nil_r. tauto.
  - change (0 <? u64 (-1)) with true. cbv iota. apply (drain_ok T p h w w1 c x (u64 (-1))); try done.
    unfold stream_ok. cbn [log emit tick w1]. rewrite clean_snoc. cbn. tauto.
Qed.
(** A read that failed looks like one that delivered something. *)
Lemma connection_handler_read_ok T p h w c x :
  winv T p h None w -> conns w !! c = Some x -> state x <> k_disconnected -> T + 2 * S <= max_object ->
  exists w', connection_handler_read junk kernel_write kernel_read on_connection on_message true c w = Ok w' /\
    winv (T + 2 * S) p h None w' /\ cframe c w w'.
Proof.
  intros H Hx Hst HT. unfold connection_handler_read, get. rewrite Hx. cbn [of_option res_bind].
  destruct (wi_local _ _ _ _ _ H c x Hx) as [[[L1 L1'] L2 L3 L4] Hstr]. set (r := kernel_read _ _).
  assert (Hr : exists b n e, buffer_read_fd junk (input_buffer x) r = Ok (b, n, e) /\ wf b /\ writer_index b <= T + S).
  { destruct r as [errno|d] eqn:Er; [by eexists _, _, _; split; [done|split; [done|lia]]|].
    destruct (Hread _ _ _ Er) as (?&?&?).
    destruct (buffer_read_fd_ok junk (input_buffer x) d) as (b&->&?&?&?); [done..|lia|]. eexists _, _, _. split; [done|]. split; [done|lia]. }
  destruct Hr as (b&n&e&->&Hb&Hbw). cbn [res_bind]. set (w1 := put c (set_input x b) (tick w)).
  assert (U1 : updates w w1 c (set_input x b)) by (by constructor).
  assert (H1 : winv (T + S) p h None w1).
  { eapply (winv_local (T + S) p h None w w1 c x (set_input x b)); try done; [eapply winv_mono; [|done]; lia|by eapply log_grows_refl|].
    constructor; try done; cbn. split; [apply L2|]. destruct L2. lia. }
  assert (F1 : frame w w1) by (by eapply frame_updates).
  assert (Hx1 : conns w1 !! c = Some (set_input x b)) by apply lookup_insert_eq.
  replace (T + 2 * S) with (T + S + S) by lia. destruct (Z.ltb_spec 0 n).
  2: { destruct (connection_handler_close_ok (T + S) p h w1 c _ H1 Hx1 Hst) as (w2&->&H2&F2&_); [lia|].
       exists w2. split; [done|]. split; [done|]. eapply cframe_trans; [by apply frame_cframe|done]. }
  destruct (conn_ref_inc_ok _ p h None w1 c _ H1 Hx1) as [-> H2]. cbn [res_bind]. set (w2 := put _ _ w1) in *.
  destruct (message_callback_ok junk kernel_write on_message S Hwrite Hmsg _ p (c :: h) None w2 c _ H2 (lookup_insert_eq _ _ _))
    as (w3&->&H3&F3); [lia|]. cbn [res_bind].
  destruct (conn_ref_dec_ok _ _ _ _ _ _ H3) as (w4&g&->&H4&R4&Hg). cbn [res_bind].
  destruct (fr_conns _ _ F3 c _ (lookup_insert_eq _ _ _)) as (x3&Hx3&_&_&Hs3).
  assert (g = false) as ->.
  { apply (Hg x3 Hx3). left. assert (Hs : state x3 <> k_disconnected) by (by rewrite Hs3).
    rewrite (wi_state _ _ _ _ _ H3 c x3 Hx3) by done. by rewrite bool_decide_false. }
  exists w4. split; [done|]. split; [done|]. apply frame_cframe. etransitivity; [exact F1|].
  etransitivity; [by eapply (frame_updates w1 w2 c (set_input x b))|]. etransitivity; [exact F3|by eapply released_frame].
Qed.
(** *** Events *)
Lemma put_handling_ok T p h cl w c x v :
  winv T p h cl w -> conns w !! c = Some x ->
  winv T p h cl (put c (set_handler x (set_event_handling (handler x) v)) w) /\
  frame w (put c (set_handler x (set_event_handling (handler x) v)) w).
Proof.
  intros H Hx. destruct (wi_local _ _ _ _ _ H c x Hx) as [[L1 L2 L3 L4] Hs]. split.
  - eapply (winv_local T p h cl w _ c x); try done; by eapply log_grows_refl.
  - by eapply (frame_updates w _ c x).
Qed.
Lemma finish_event_ok T p h w c x :
  winv T p h None w -> conns w !! c = Some x ->
  exists w', (let* x := get c w in
    let* w := if bits (revents (handler x)) POLLOUT && write_callback (handler x)
              then connection_handler_write kernel_write c w else Ok w in
    let* x := get c w in
    Ok (put c (set_handler x (set_event_handling (handler x) 0)) w)) = Ok w' /\ winv T p h None w' /\ frame w w'.
Proof.
  intros H Hx. unfold get at 1. rewrite Hx. cbn [of_option res_bind].
  assert (Hw1 : exists w1, (if bits (revents (handler x)) POLLOUT && write_callback (handler x)
    then connection_handler_write kernel_write c w else Ok w) = Ok w1 /\ winv T p h None w1 /\ frame w w1).
  { destruct (_ && _); [by eapply connection_handler_write_ok|by exists w]. }
  destruct Hw1 as (w1&->&H1&F1). cbn [res_bind]. destruct (fr_conns _ _ F1 c x Hx) as (x1&Hx1&_).
  unfold get. rewrite Hx1. cbn [of_option res_bind]. eexists. split; [done|].
  destruct (put_handling_ok T p h None w1 c x1 0 H1 Hx1) as [H2 F2]. split; [done|by etransitivity].
Qed.

Lemma handle_event_ok T p h w c x :
  winv T p h None w -> conns w !! c = Some x -> state x <> k_disconnected -> deliverable (revents (handler x)) ->
  T + 2 * S <= max_object ->
  exists w', handle_event junk kernel_write kernel_read on_connection on_message true c w = Ok w' /\
    winv (T + 2 * S) p h None w' /\ cframe c w w'.
Proof.
  intros H Hx Hst Hdel HT. unfold handle_event. unfold get at 1. rewrite Hx. cbn [of_option res_bind].
  destruct (put_handling_ok T p h None w c x 1 H Hx) as [H0 F0]. set (w0 := put c _ w) in *.
  set (x0 := set_handler x _) in w0. assert (Hx0 : conns w0 !! c = Some x0) by apply lookup_insert_eq.
  unfold get at 1. rewrite Hx0. cbn [of_option res_bind]. change (revents (handler x0)) with (revents (handler x)).
  set (r := revents (handler x)) in *.
  match goal with |- context [if ?b then connection_handler_close _ _ _ _ _ _ else _] => destruct b eqn:E1 end.
  - destruct (connection_handler_close_ok T p h w0 c x0 H0 Hx0 Hst) as (w1&->&H1&F1&_); [lia|]. cbn [res_bind].
    destruct (cf_conns _ _ _ F1 c x0 Hx0) as (x1&Hx1&_&Hr1&_). unfold get at 1. rewrite Hx1. cbn [of_option res_bind].
    rewrite Hr1. change (revents (handler x0)) with r. apply andb_true_iff in E1 as [E1 _].
    unfold deliverable in Hdel. rewrite E1 in Hdel. cbn [andb] in Hdel. rewrite Hdel. cbn [andb res_bind].
    apply (winv_mono _ (T + 2 * S)) in H1; [|lia].
    destruct (finish_event_ok _ p h w1 c x1 H1 Hx1) as (w2&->&H2&F2). exists w2. split; [done|]. split; [done|].
    eapply cframe_trans; [by apply frame_cframe|]. eapply cframe_trans; [done|by apply frame_cframe].
  - cbn [res_bind]. unfold get at 1. rewrite Hx0. cbn [of_option res_bind]. change (revents (handler x0)) with r.
    assert (Hw1 : exists w1, (if bits r (Z.lor POLLIN (Z.lor POLLPRI POLLRDHUP)) && read_callback (handler x0)
        then connection_handler_read junk kernel_write kernel_read on_connection on_message true c w0 else Ok w0) = Ok w1 /\
        winv (T + 2 * S) p h None w1 /\ cframe c w0 w1).
    { clear E1. destruct (_ && _); [by apply (connection_handler_read_ok T p h w0 c x0)|]. exists w0. split; [done|].
      split; [eapply winv_mono; [|done]; lia|by apply frame_cframe]. }
    destruct Hw1 as (w1&->&H1&F1). cbn [res_bind]. destruct (cf_conns _ _ _ F1 c x0 Hx0) as (x1&Hx1&_).
    destruct (finish_event_ok _ p h w1 c x1 H1 Hx1) as (w2&->&H2&F2). exists w2. split; [done|]. split; [done|].
    eapply cframe_trans; [by apply frame_cframe|]. eapply cframe_trans; [done|by apply frame_cframe].
Qed.
End Safe.
