(* ===== verification/Loop.v ===== *)
(** * The event loop: what holds between its steps

    The loop accepts connections, hands out the events that epoll reported,
    runs the tasks that were queued, and runs timers whose callbacks use the
    interface.  [reachable n w]: such steps lead from the empty server to [w],
    and at most [S * n] bytes went into any one buffer.  Names of connections
    are not used again, whereas descriptors are. *)

From S2P Require Import Prelude Buffer Handler Conn ConnInv ConnSafe.
Local Open Scope Z_scope.

(** ** Definitions *)
Definition init_world : world := mk_world ∅ ∅ [] false [] init_gp_epoller [] 0.
(** Connections that are not closed. *)
Definition live_conns (w : world) : gmap nat gp_connection := filter (fun kv => state kv.2 <> k_disconnected) (conns w).
Definition live (w : world) : Z := Z.of_nat (size (live_conns w)).

Inductive loop_step :=
  | Accept (c : nat) (f : Z)
  | Handle (evs : list (nat * Z))
  | Timers (calls : list api)
  | Pending.

#[export] Instance deliverable_dec r : Decision (deliverable r).
Proof. unfold deliverable. apply _. Defined.
#[export] Instance api_ok_dec w a : Decision (api_ok w a).
Proof. unfold api_ok, is_byte. destruct a; apply _. Defined.

Definition legal (S : Z) (w : world) (s : loop_step) : Prop :=
  match s with
  | Accept c f => conns w !! c = None /\ Forall (fun e => ~ about c e) (log w) /\
      map_Forall (fun _ x => fd (handler x) <> f) (conns w)
  | Handle evs => NoDup evs.*1 /\
      Forall (fun ce : nat * Z => is_Some (live_conns w !! ce.1) /\ deliverable ce.2) evs
  | Timers calls => Forall (api_ok w) calls /\ sent calls <= S
  | Pending => True
  end.
#[export] Instance legal_dec S w s : Decision (legal S w s).
Proof. unfold legal. destruct s; apply _. Defined.
(** Callbacks that a step can run, each with a buffer to read before it. *)
Definition cost (w : world) (s : loop_step) : Z :=
  match s with
  | Accept _ _ | Timers _ => 1
  | Handle evs => 2 * zlen evs
  | Pending => live w
  end.

(** [w'] has no connection and no open connection that [w] does not have,
    and no handler that waits for its turn. *)
Definition shrinks (w w' : world) : Prop :=
  (forall i y', conns w' !! i = Some y' -> exists y, conns w !! i = Some y /\ (state y = k_disconnected -> state y' = k_disconnected)) /\
  (active_handler_list w = [] -> active_handler_list w' = []).
#[export] Instance shrinks_refl : Reflexive shrinks.
Proof. intros w. split; [|done]. intros i y Hy. by exists y. Qed.
#[export] Instance shrinks_trans : Transitive shrinks.
Proof.
  intros w1 w2 w3 [A A'] [B B']. split; [|auto]. intros i y Hy. destruct (B i y Hy) as (y2&Hy2&?). destruct (A i y2 Hy2) as (y1&Hy1&?). exists y1. auto.
Qed.
Lemma cframe_shrinks c w w' : cframe c w w' -> shrinks w w'.
Proof.
  intros [F1 F2 _ _ FA _]. split; [|congruence]. intros i y' Hy'. destruct (F2 i) as [y Hy]; [by eexists|]. exists y. split; [done|].
  destruct (F1 i y Hy) as (z&Hz&_&_&_&Hd). replace y' with z by congruence. done.
Qed.
Lemma frame_shrinks w w' : frame w w' -> shrinks w w'.
Proof. intros F. by apply (cframe_shrinks 0%nat), frame_cframe. Qed.
Lemma live_lookup w i y : live_conns w !! i = Some y <-> conns w !! i = Some y /\ state y <> k_disconnected.
Proof. unfold live_conns. by rewrite map_lookup_filter_Some. Qed.
Lemma live_dom w w' : shrinks w w' -> dom (live_conns w') ⊆ dom (live_conns w).
Proof.
  intros [H _] i [y' [Hy Hs]%live_lookup]%elem_of_dom. destruct (H i y' Hy) as (y&Hy0&Hd). apply elem_of_dom. exists y.
  apply live_lookup. split; [done|auto].
Qed.
Lemma live_mono w w' : shrinks w w' -> live w' <= live w.
Proof. intros H%live_dom%subseteq_size. rewrite !size_dom in H. unfold live. lia. Qed.
Lemma live_less w w' c x :
  shrinks w w' -> conns w !! c = Some x -> state x <> k_disconnected ->
  (forall y, conns w' !! c = Some y -> state y = k_disconnected) -> live w' < live w.
Proof.
  intros H Hx Hs Hd. assert (Hsub : dom (live_conns w') ⊂ dom (live_conns w)).
  { split; [by apply live_dom|]. intros Hback. assert (Hc : c ∈ dom (live_conns w)) by (apply elem_of_dom; exists x; by apply live_lookup).
    apply Hback, elem_of_dom in Hc as [y [Hy Hys]%live_lookup]. auto. }
  apply subset_size in Hsub. rewrite !size_dom in Hsub. unfold live. lia.
Qed.
Lemma live_nonneg w : 0 <= live w.
Proof. unfold live. lia. Qed.
Lemma live_pos w c x : conns w !! c = Some x -> state x <> k_disconnected -> 1 <= live w.
Proof.
  intros Hx Hs. unfold live. destruct (size (live_conns w)) eqn:E; [|lia]. exfalso. apply map_size_empty_inv in E.
  assert (Hl : live_conns w !! c = Some x) by (by apply live_lookup). by rewrite E, lookup_empty in Hl.
Qed.

(** ** Filling the list of active handlers *)
Lemma set_revents_spec e c w x :
  conns w !! c = Some x -> exists h' ep', on_handler (fun ep p h => set_revents ep p h e) c w = Ok (put c (set_handler x h') (set_epoller w ep')) /\
    fd h' = fd (handler x) /\ events h' = events (handler x) /\ revents h' = e.
Proof.
  intros Hx. unfold on_handler, get. rewrite Hx. cbn [of_option res_bind].
  destruct (set_revents (epoller w) c (handler x) e) as [ep h] eqn:E. exists h, ep. split; [done|].
  destruct (set_revents_fd e _ _ _ _ _ E). split; [done|]. split; [done|]. by apply update_revents in E.
Qed.
Lemma fill_ok T evs w :
  winv T [] [] None w -> NoDup evs.*1 -> Forall (fun ce : nat * Z => is_Some (live_conns w !! ce.1)) evs ->
  exists w', fill_active_handlers evs w = Ok w' /\ winv T [] [] None w' /\
    active_handler_list w' = active_handler_list w ++ evs.*1 /\ (forall c, c ∉ evs.*1 -> conns w' !! c = conns w !! c) /\
    Forall (fun ce : nat * Z => exists x, live_conns w' !! ce.1 = Some x /\ revents (handler x) = ce.2) evs.
Proof.
  revert w. induction evs as [|[c e] evs IH]; intros w H Hnd Hl; cbn [fill_active_handlers].
  { exists w. rewrite app_nil_r. by split_and!. }
  rewrite fmap_cons in Hnd. apply NoDup_cons in Hnd as [Hc Hnd]. apply Forall_cons in Hl as [[x [Hx Hs]%live_lookup] Hl]. cbn in Hc, Hx.
  destruct (set_revents_spec e c w x Hx) as (h'&ep'&->&Hf&He&Hr). cbn [res_bind]. set (w1 := set_active _ _).
  destruct (wi_local _ _ _ _ _ H c x Hx) as [[L1 L2 L3 L4] Hstr].
  assert (H1 : winv T [] [] None w1).
  { apply winv_active. eapply (winv_local T [] [] None w _ c x (set_handler x h')); try done; [by eapply log_grows_refl|].
    constructor; try done. cbn. rewrite (is_writing_events h' _ He). exact L4. }
  destruct (IH w1) as (w2&->&H2&A2&O2&R2); [done|done| |].
  { eapply Forall_impl; [exact Hl|]. intros ce [y [Hy Hsy]%live_lookup]. destruct (decide (ce.1 = c)) as [Hcc|Hne].
    - exists (set_handler x h'). apply live_lookup. cbn. by rewrite Hcc, lookup_insert_eq.
    - exists y. apply live_lookup. cbn. by rewrite lookup_insert_ne. }
  exists w2. split; [done|]. split; [done|]. split; [by rewrite A2; cbn; rewrite <-app_assoc|]. split.
  - intros i Hi. rewrite fmap_cons, not_elem_of_cons in Hi. destruct Hi as [Hi1 Hi]. cbn in Hi1. rewrite O2 by done. cbn. by rewrite lookup_insert_ne.
  - constructor; [|done]. exists (set_handler x h'). split; [|done]. apply live_lookup. cbn [fst]. rewrite O2 by done. cbn. by rewrite lookup_insert_eq.
Qed.

Lemma filter_others (c : nat) (l : list nat) : c ∉ l -> filter (fun i => i <> c) l = l.
Proof.
  induction l as [|i l IH]; [done|]. rewrite not_elem_of_cons. intros [Hn Hc]. rewrite filter_cons, decide_True by congruence.
  by rewrite IH.
Qed.
(** A queued task becomes the running one: its reference is the frame's. *)
Lemma take_task_ok T t l w :
  winv T [] [] None w -> pending_list w = t :: l -> winv T [t] [conn t] None w.
Proof.
  intros [W1 W2 W3 W3' W4 W5 W6 W6' W7 W8 W9 W10] Hp.
  assert (Hq : queued [] w = t :: l) by done. assert (Hq' : queued [t] w = l) by (unfold queued; by rewrite Hp).
  rewrite Hq in W5, W6'. constructor; try done; rewrite ?Hq'.
  - intros i y Hy. destruct (W2 i y Hy) as [Hi ?]. rewrite Hq in Hi. change (t :: l) with ([t] ++ l) in Hi.
    rewrite task_count_app, task_count_one in Hi. rewrite held_cons. change (held i []) with 0 in *. split; [lia|done].
  - rewrite Hp. by exists l.
  - intros u Hu. apply W5. by right.
  - intros i Hi. apply list_elem_of_singleton in Hi as ->. apply W5. by left.
  - intros u Hu. apply W6'. by right.
Qed.
Lemma drop_task_ok T t w :
  winv T [t] [] None w -> winv T [] [] None (set_pending w (tail (pending_list w))).
Proof.
  intros [W1 W2 W3 W3' W4 W5 W6 W6' W7 W8 W9 W10]. constructor; try done. apply prefix_nil.
Qed.
Lemma released_shrinks w w' c b : released w w' c b -> shrinks w w'.
Proof.
  intros [R1 R2 _ _ _ RA _]. split; [|intros Ha; rewrite RA, Ha; by destruct b]. intros i y' Hy'. destruct (decide (i = c)) as [->|Hne]; [|rewrite R1 in Hy' by done; by exists y'].
  rewrite R2 in Hy'. destruct b; [done|]. destruct (conns w !! c) as [y|]; [|done]. injection Hy' as <-. by exists y.
Qed.

(** ** A new connection *)
Lemma log_fresh c l : Forall (fun e => ~ about c e) l -> accepted c l = [] /\ written c l = [].
Proof.
  induction 1 as [|e l He _ [IH1 IH2]]; [done|]. destruct (not_about c e He) as (Ha&Hw&_).
  change (accepted c (e :: l)) with (accepted1 c e ++ accepted c l). change (written c (e :: l)) with (written1 c e ++ written c l).
  by rewrite Ha, Hw, IH1, IH2.
Qed.
Lemma register_ok junk T w c f :
  winv T [] [] None w -> conns w !! c = None -> Forall (fun e => ~ about c e) (log w) ->
  map_Forall (fun _ x => fd (handler x) <> f) (conns w) -> k_cheap_prepend <= T ->
  connections w !! f = None /\
  winv T [] [] None (set_connections (create_gp_connection junk c f w) (<[f := c]> (connections w))).
Proof.
  intros [W1 W2 W3 W3' W4 W5 W6 W6' W7 W8 W9 W10] Hc Hlog Hf HT.
  assert (Hnf : connections w !! f = None).
  { destruct (connections w !! f) as [i|] eqn:E; [|done]. destruct (W8 f i E) as (x&Hx&Hfd). by destruct (Hf i x Hx). }
  split; [done|]. set (x0 := init_gp_connection junk f). set (w' := set_connections _ _).
  assert (Hq : task_count c (pending_list w) = 0).
  { unfold task_count. replace (filter _ _) with (@nil gp_pending_task); [done|]. symmetry.
    destruct (filter _ _) as [|t l] eqn:E; [done|]. assert (Ht : t ∈ filter (fun t => conn t = c) (pending_list w)) by (rewrite E; by left).
    apply list_elem_of_filter in Ht as [Htc Ht]. destruct (W5 t Ht) as [x Hx]. congruence. }
  assert (Hreg : forall i x, conns w !! i = Some x -> registered w' i x = registered w i x).
  { intros i x Hx. unfold registered. cbn. by rewrite lookup_insert_ne by (intros Heq; by apply (Hf i x Hx)). }
  assert (Hreg0 : registered w' c x0 = true) by (unfold registered; cbn; rewrite lookup_insert_eq; by apply bool_decide_eq_true).
  destruct (init_gp_buffer_wf junk) as [Hb Hbc]. constructor; try done.
  - intros i x Hx. cbn in Hx. apply lookup_insert_Some in Hx as [[<- <-]|[_ Hx]]; [|by apply W1]. split.
    + constructor; try done.
    + intros _. destruct (log_fresh c (log w) Hlog) as [Ha Hw]. change (log w') with (log w). by rewrite Ha, Hw.
  - intros i x Hx. cbn in Hx. apply lookup_insert_Some in Hx as [[<- <-]|[_ Hx]].
    + fold x0. rewrite Hreg0. change (queued [] w') with (pending_list w). rewrite Hq. done.
    + rewrite Hreg by done. by apply W2.
  - intros i x Hx Hcl. cbn in Hx. apply lookup_insert_Some in Hx as [[<- <-]|[_ Hx]]; [by fold x0; rewrite Hreg0|]. rewrite Hreg by done. by apply W3.
  - intros t Ht. destruct (W5 t Ht) as [x Hx]. exists x. cbn. rewrite lookup_insert_ne; [done|congruence].
  - intros i Hi. by apply not_elem_of_nil in Hi.
  - intros t Ht. destruct (W6' t Ht) as [|[Hfu Hd]]; [by left|right]. split; [done|]. intros x Hx. destruct (W5 t Ht) as [y Hy].
    cbn in Hx. rewrite lookup_insert_ne in Hx by congruence. by apply Hd.
  - intros i j x y Hx Hy Hfd. cbn in Hx, Hy. apply lookup_insert_Some in Hx as [[<- <-]|[_ Hx]]; apply lookup_insert_Some in Hy as [[<- <-]|[_ Hy]]; try done.
    + by destruct (Hf j y Hy).
    + by destruct (Hf i x Hx).
    + by apply (W7 i j x y).
  - intros g i Hi. cbn in Hi. apply lookup_insert_Some in Hi as [[<- <-]|[_ Hi]]; [exists x0; cbn; by rewrite lookup_insert_eq|].
    destruct (W8 g i Hi) as (x&Hx&?). exists x. cbn. rewrite lookup_insert_ne; [done|congruence].
  - intros i x Hx Hd Hcl. cbn in Hx. apply lookup_insert_Some in Hx as [[<- <-]|[_ Hx]]; [done|]. by apply (W10 i x).
Qed.

Section Loop.
Context (junk : nat -> Z) (kernel_write : nat -> Z -> wres) (kernel_read : nat -> Z -> readv_result).
Context (on_connection on_message : nat -> world -> list api) (S : Z).
Context (Hwrite : forall k len n, 0 <= len -> kernel_write k len = Wrote n -> 0 <= n <= len).
Context (Hread : forall k room d, kernel_read k room = readv_data d -> zlen d <= room /\ zlen d <= S /\ Forall is_byte d).
Context (Hcon : user_ok S on_connection) (Hmsg : user_ok S on_message) (HS : 0 <= S).
Notation handle_active := (handle_active junk kernel_write kernel_read on_connection on_message true).
Notation run_pending := (run_pending junk kernel_write on_connection true).
Notation pending_loop := (pending_loop junk kernel_write on_connection true).
Notation do_pending_functors := (do_pending_functors junk kernel_write on_connection true).

Lemma handle_active_ok l T w :
  winv T [] [] None w -> NoDup l -> T + 2 * S * zlen l <= max_object ->
  Forall (fun c => exists x, live_conns w !! c = Some x /\ deliverable (revents (handler x))) l ->
  active_handler_list w = l ->
  exists w', handle_active l w = Ok w' /\ winv (T + 2 * S * zlen l) [] [] None w' /\ active_handler_list w' = [].
Proof.
  revert T w. induction l as [|c l IH]; intros T w H Hnd HT Hl Ha; cbn [Conn.handle_active].
  { exists w. change (zlen (@nil nat)) with 0. by rewrite Z.mul_0_r, Z.add_0_r. }
  rewrite zlen_cons in *. pose proof (zlen_nonneg l) as Hz. apply NoDup_cons in Hnd as [Hc Hnd].
  apply Forall_cons in Hl as [(x&[Hx Hs]%live_lookup&Hd) Hl].
  assert (Hsz : 0 <= 2 * S * zlen l) by (apply Z.mul_nonneg_nonneg; lia).
  destruct (handle_event_ok junk kernel_write kernel_read on_connection on_message S Hwrite Hread Hcon Hmsg HS T [] [] w c x H Hx Hs Hd)
    as (w1&->&H1&F1); [lia|]. cbn [res_bind].
  destruct (cf_conns _ _ _ F1 c x Hx) as (x1&Hx1&_). unfold get. rewrite Hx1. cbn [of_option res_bind].
  destruct (IH (T + 2 * S) (set_active w1 (filter (fun i => i <> c) (active_handler_list w1)))) as (w2&->&H2&A2);
    [by apply winv_active|done|lia| | |].
  - apply Forall_forall. intros i Hi. rewrite Forall_forall in Hl. destruct (Hl i Hi) as (y&[Hy Hsy]%live_lookup&Hdy).
    destruct (cf_conns _ _ _ F1 i y Hy) as (z&Hz2&_&Hr&Hst&_). exists z. rewrite Hr. split; [|done].
    apply live_lookup. split; [done|]. rewrite Hst; [done|]. by intros ->.
  - cbn. rewrite (cf_active _ _ _ F1), Ha, filter_cons, decide_False by tauto. apply filter_others. done.
  - exists w2. split; [done|]. split; [|done]. replace (T + 2 * S * (1 + zlen l)) with (T + 2 * S + 2 * S * zlen l) by lia. done.
Qed.

(** One task: either it closes a connection, or the list gets shorter. *)
Lemma call_pending_ok T t w :
  winv T [t] [conn t] None w -> task_ok w t -> T + S * live w <= max_object ->
  exists w', call_pending junk kernel_write on_connection true t w = Ok w' /\ shrinks w w' /\
    ((live w' < live w /\ winv (T + S) [t] [conn t] None w') \/
     (pending_list w' = pending_list w /\ winv T [t] [conn t] None w')).
Proof.
  intros H Ht HT. destruct (wi_held _ _ _ _ _ H (conn t)) as [x Hx]; [by left|]. unfold call_pending.
  destruct Ht as [->|[-> Hd]]; cbn match.
  - unfold force_close, get. rewrite Hx. cbn [of_option res_bind]. destruct (decide _) as [Hs|]; [|exists w; split; [done|]; split; [reflexivity|by right]].
    assert (Hs' : state x <> k_disconnected) by (by destruct Hs as [-> | ->]).
    pose proof (live_pos w _ x Hx Hs'). assert (HT' : T + S <= max_object) by nia.
    destruct (connection_handler_close_ok junk kernel_write on_connection S Hwrite Hcon T [t] [conn t] w _ x H Hx Hs' HT') as (w'&->&H'&F'&Hd).
    exists w'. apply cframe_shrinks in F'. split; [done|]. split; [done|]. left. split; [|done]. by apply (live_less w w' (conn t) x).
  - unfold destroy_task. destruct (connection_destroyed_ok junk kernel_write on_connection T [t] [conn t] w _ x H Hx (Hd x Hx)) as (w'&->&H'&F'&Hp).
    exists w'. split; [done|]. split; [by apply frame_shrinks|]. by right.
Qed.
Lemma run_pending_ok T t l w :
  winv T [] [] None w -> pending_list w = t :: l -> T + S * live w <= max_object ->
  exists w', run_pending t w = Ok w' /\ shrinks w w' /\
    ((live w' < live w /\ winv (T + S) [] [] None w') \/ (pending_list w' = l /\ winv T [] [] None w')).
Proof.
  intros H Hp HT. unfold Conn.run_pending. assert (Ht : task_ok w t) by (apply H; unfold queued; rewrite Hp; by left).
  destruct (call_pending_ok T t w (take_task_ok T t l w H Hp) Ht HT) as (w1&->&S1&Hor). cbn [res_bind].
  assert (H1 : exists T', winv T' [t] [conn t] None w1) by (destruct Hor as [[_ H1]|[_ H1]]; eauto). destruct H1 as [T' H1].
  destruct (conn_ref_dec_ok _ _ _ _ _ _ H1) as (w2&b&E2&_&R2&_). rewrite E2. cbn [res_bind]. eexists. split; [done|].
  assert (H2 : forall T, winv T [t] [conn t] None w1 -> winv T [] [] None (set_pending w2 (tail (pending_list w2)))).
  { intros T1 Hw. destruct (conn_ref_dec_ok _ _ _ _ _ _ Hw) as (w2'&b'&E2'&H2&_). rewrite E2 in E2'. injection E2' as <- _. by eapply drop_task_ok. }
  pose proof (released_shrinks _ _ _ _ R2) as S2. split.
  - etransitivity; [exact S1|]. etransitivity; [exact S2|]. split; [|done]. intros i y Hy. by exists y.
  - destruct Hor as [[Hl Hw]|[Hl Hw]]; [left|right]; (split; [|by apply H2]).
    + apply live_mono in S2. unfold live, live_conns in *. cbn. lia.
    + cbn. by rewrite (re_pending _ _ _ _ R2), Hl, Hp.
Qed.
(** The tasks that are run may queue further ones, but only a closing
    connection's does. *)
Lemma pending_loop_ok a T w :
  live w < Z.of_nat a -> winv T [] [] None w -> T + S * live w <= max_object ->
  exists fuel w', pending_loop fuel w = Ok (w', true) /\ winv (T + S * live w) [] [] None w' /\ shrinks w w'.
Proof.
  revert T w. induction a as [|a IHa]; intros T w Ha; [pose proof (live_nonneg w); lia|].
  remember (pending_list w) as l eqn:Hp. revert T w Ha Hp. induction l as [|t l IHl]; intros T w Ha Hp H HT; symmetry in Hp.
  { exists 1%nat, w. cbn [Conn.pending_loop]. rewrite Hp. split; [done|]. split; [|reflexivity]. eapply winv_mono; [|done]. pose proof (live_nonneg w). nia. }
  destruct (run_pending_ok T t l w H Hp HT) as (w1&E1&S1&Hor). pose proof (live_mono _ _ S1). pose proof (live_nonneg w1) as Hn.
  assert (Hrest : winv (T + S * live w) [] [] None w1 /\
    exists fuel w', pending_loop fuel w1 = Ok (w', true) /\ winv (T + S * live w) [] [] None w' /\ shrinks w1 w').
  { destruct Hor as [[Hl H1]|[Hl H1]].
    - split; [eapply winv_mono; [|exact H1]; nia|].
      destruct (IHa (T + S) w1) as (fu&w'&?&H'&?); [lia|done|nia|]. exists fu, w'. split; [done|]. split; [|done]. eapply winv_mono; [|exact H']. nia.
    - split; [eapply winv_mono; [|exact H1]; nia|].
      destruct (IHl T w1) as (fu&w'&?&H'&?); [lia|done|done|nia|]. exists fu, w'. split; [done|]. split; [|done]. eapply winv_mono; [|exact H']. nia. }
  destruct Hrest as [H1 (fu&w'&E'&H'&S')]. destruct l as [|t' l].
  - exists 1%nat, w1. cbn [Conn.pending_loop]. by rewrite Hp, E1.
  - exists (Datatypes.S fu), w'. cbn [Conn.pending_loop]. rewrite Hp, E1. split; [done|]. split; [done|by etransitivity].
Qed.
Lemma pending_loop_mono f g w w' : (f <= g)%nat -> pending_loop f w = Ok (w', true) -> pending_loop g w = Ok (w', true).
Proof.
  revert g w. induction f as [|f IH]; intros g w Hg Hr; [done|]. destruct g as [|g]; [lia|]. cbn [Conn.pending_loop] in *.
  destruct (pending_list w) as [|t [|t' l]]; [done|done|]. destruct (run_pending t w) as [w1| |]; [|done|done]. cbn [res_bind] in *.
  apply IH; [lia|done].
Qed.

Lemma new_connection_ok T w c f :
  winv T [] [] None w -> legal S w (Accept c f) -> k_cheap_prepend <= T -> T + S <= max_object ->
  exists w', new_connection_callback junk kernel_write on_connection true c f w = Ok w' /\ winv (T + S) [] [] None w' /\
    (active_handler_list w = [] -> active_handler_list w' = []).
Proof.
  intros H (Hc&Hlog&Hf) Hk HT. unfold new_connection_callback.
  destruct (register_ok junk T w c f H Hc Hlog Hf Hk) as [Hnf H0].
  change (connections (create_gp_connection junk c f w)) with (connections w). rewrite Hnf. set (w0 := set_connections _ _) in *.
  set (x0 := init_gp_connection junk f). assert (Hx0 : conns w0 !! c = Some x0) by apply lookup_insert_eq.
  destruct (conn_ref_inc_ok T [] [] None w0 c x0 H0 Hx0) as [-> H1]. cbn [res_bind]. set (w1 := put _ _ w0) in *.
  set (x1 := set_ref x0 _) in w1. assert (Hx1 : conns w1 !! c = Some x1) by apply lookup_insert_eq.
  destruct (gp_run_in_loop_ok T (T + S) [] [c] None w1 (create_gp_pending_task run_in_loop_create_conn c []) x1
    (create_task junk kernel_write on_connection true) H1 Hx1) as (w2&->&H2&F2).
  { intros w' x' H' Hx' (_&_&Hl). apply (connection_established_ok junk kernel_write on_connection S Hwrite Hcon T [] _ w' c x' H' Hx'); [|done].
    intros Hd%Hl. done. }
  cbn [res_bind]. destruct (conn_ref_dec_ok _ _ _ _ _ _ H2) as (w3&b&->&H3&R3&_). cbn [res_bind].
  exists w3. split; [done|]. split; [done|]. intros Ha. rewrite (re_active _ _ _ _ R3), (fr_active _ _ F2). cbn. rewrite Ha. by destruct b.
Qed.

(** ** Steps *)
Definition step_run (fuel : nat) (s : loop_step) (w : world) : res (world * bool) :=
  match s with
  | Accept c f => let* w := new_connection_callback junk kernel_write on_connection true c f w in Ok (w, true)
  | Handle evs =>
      let* w := fill_active_handlers evs w in let* w := handle_active (active_handler_list w) w in Ok (w, true)
  | Timers calls => let* w := api_calls junk kernel_write true calls w in Ok (w, true)
  | Pending => do_pending_functors fuel w
  end.
Inductive reachable : Z -> world -> Prop :=
  | reach_init : reachable 0 init_world
  | reach_step n w s fuel w' : reachable n w -> legal S w s -> step_run fuel s w = Ok (w', true) -> reachable (n + cost w s) w'.

Lemma step_run_mono f g s w w' : (f <= g)%nat -> step_run f s w = Ok (w', true) -> step_run g s w = Ok (w', true).
Proof.
  intros Hg. destruct s; try done. cbn [step_run]. unfold Conn.do_pending_functors. intros Hr.
  destruct (pending_loop f _) as [[w1 d]| |] eqn:E; try done. cbn [res_bind] in Hr. injection Hr as <- ->.
  by rewrite (pending_loop_mono f g _ _ Hg E).
Qed.

(** ** Reachable worlds *)
Definition between (n : Z) (w : world) : Prop :=
  0 <= n /\ winv (k_cheap_prepend + S * n) [] [] None w /\ active_handler_list w = [].
Lemma between_init : between 0 init_world.
Proof.
  split; [lia|]. split; [|done]. rewrite Z.mul_0_r, Z.add_0_r.
  constructor; try done; try (intros i x Hx; by rewrite lookup_empty in Hx); try (intros i Hi; by apply not_elem_of_nil in Hi).
  intros l1 c l2 Heq. by destruct l1.
Qed.
Lemma cost_nonneg w s : 0 <= cost w s.
Proof. destruct s as [| |l|]; cbn [cost]; try lia; [pose proof (zlen_nonneg evs); lia|apply live_nonneg]. Qed.

Lemma handle_ok n w evs :
  between n w -> legal S w (Handle evs) -> k_cheap_prepend + S * (n + 2 * zlen evs) <= max_object ->
  exists w', step_run 0 (Handle evs) w = Ok (w', true) /\ between (n + 2 * zlen evs) w'.
Proof.
  intros (Hn&H&Ha) [Hnd Hl] HT. pose proof (zlen_nonneg evs). cbn [step_run].
  destruct (fill_ok _ evs w H Hnd) as (w1&->&H1&A1&_&R1); [eapply Forall_impl; [exact Hl|]; by intros ? []|].
  cbn [res_bind]. rewrite Ha in A1. cbn [app] in A1. assert (Hz : zlen evs.*1 = zlen evs) by (unfold zlen; by rewrite length_fmap).
  assert (Hmax : k_cheap_prepend + S * n + 2 * S * zlen evs.*1 <= max_object) by (rewrite Hz; lia).
  destruct (handle_active_ok evs.*1 _ w1 H1) as (w2&E2&H2&A2); try done.
  { apply Forall_fmap. rewrite Forall_forall in *. intros ce Hce. destruct (Hl ce Hce) as [_ Hd]. destruct (R1 ce Hce) as (x&Hx&Hr).
    exists x. split; [done|]. by rewrite Hr. }
  exists w2. rewrite A1, E2. split; [done|]. split; [lia|]. split; [|done]. rewrite Hz in H2. eapply winv_mono; [|exact H2]. lia.
Qed.
Lemma pending_ok n w :
  between n w -> k_cheap_prepend + S * (n + live w) <= max_object ->
  exists fuel w', step_run fuel Pending w = Ok (w', true) /\ between (n + live w) w'.
Proof.
  intros (Hn&H&Ha) HT. pose proof (live_nonneg w). cbn [step_run]. unfold Conn.do_pending_functors.
  destruct (pending_loop_ok (Datatypes.S (Z.to_nat (live w))) (k_cheap_prepend + S * n) (set_calling w true)) as (fu&w1&E1&H1&S1);
    [change (live (set_calling w true)) with (live w); lia|by apply winv_calling|change (live (set_calling w true)) with (live w); lia|].
  change (live (set_calling w true)) with (live w) in H1.
  exists fu, (set_calling w1 false). rewrite E1. split; [done|]. split; [lia|]. split; [|by apply S1].
  apply winv_calling. eapply winv_mono; [|exact H1]. lia.
Qed.
Lemma loop_step_ok n w s :
  between n w -> legal S w s -> k_cheap_prepend + S * (n + cost w s) <= max_object ->
  exists fuel w', step_run fuel s w = Ok (w', true) /\ between (n + cost w s) w'.
Proof.
  intros Hb Hs HT. pose proof Hb as (Hn&H&Ha). destruct s as [c f|evs|calls|]; cbn [cost] in *.
  - destruct (new_connection_ok _ w c f H Hs) as (w'&E&H'&A'); [nia|lia|]. exists 0%nat, w'. cbn [step_run]. rewrite E.
    split; [done|]. split; [lia|]. split; [|auto]. eapply winv_mono; [|exact H']. lia.
  - destruct (handle_ok n w evs Hb Hs HT) as (w'&?&?). by exists 0%nat, w'.
  - destruct Hs as [Hok Hsent]. destruct (api_calls_ok junk kernel_write Hwrite _ [] [] None calls w H Hok) as (w'&E&H'&F'); [lia|].
    exists 0%nat, w'. cbn [step_run]. rewrite E. split; [done|]. split; [lia|]. split; [|by rewrite (fr_active _ _ F')].
    eapply winv_mono; [|exact H']. lia.
  - by apply pending_ok.
Qed.
Lemma reachable_nonneg n w : reachable n w -> 0 <= n.
Proof. induction 1 as [|n w s fu w' _ IH _ _]; [lia|]. pose proof (cost_nonneg w s). lia. Qed.
Lemma reachable_between n w : reachable n w -> k_cheap_prepend + S * n <= max_object -> between n w.
Proof.
  induction 1 as [|n w s fu w' Hr IH Hs Hrun]; intros HT; [apply between_init|]. pose proof (cost_nonneg w s).
  destruct (loop_step_ok n w s) as (fu2&w2&E2&Hb); [apply IH; nia|done|done|].
  pose proof (step_run_mono fu (fu + fu2) s w w' ltac:(lia) Hrun) as E. pose proof (step_run_mono fu2 (fu + fu2) s w w2 ltac:(lia) E2) as E'.
  rewrite E in E'. injection E' as ->. done.
Qed.
End Loop.

(** ** The environment, and executions *)
Record environment_ok (kernel_write : nat -> Z -> wres) (kernel_read : nat -> Z -> readv_result)
    (on_connection on_message : nat -> world -> list api) (S : Z) : Prop := {
  (* write(2) takes a prefix of what it is offered *)
  env_write : forall k len n, 0 <= len -> kernel_write k len = Wrote n -> 0 <= n <= len;
  (* readv(2) fills at most the room it is offered; a read is at most [S] bytes *)
  env_read : forall k room d, kernel_read k room = readv_data d -> zlen d <= room /\ zlen d <= S /\ Forall is_byte d;
  (* callbacks use connections that exist and send at most [S] bytes *)
  env_connection : user_ok S on_connection;
  env_message : user_ok S on_message;
  env_size : 0 <= S;
}.

Section Execution.
Context (junk : nat -> Z) (kernel_write : nat -> Z -> wres) (kernel_read : nat -> Z -> readv_result).
Context (on_connection on_message : nat -> world -> list api) (S : Z).
Fixpoint execute (fuel : nat) (l : list loop_step) (n : Z) (w : world) : option (Z * world) :=
  match l with
  | [] => Some (n, w)
  | s :: l =>
      if decide (legal S w s) then
        match step_run junk kernel_write kernel_read on_connection on_message fuel s w with
        | Ok (w', true) => execute fuel l (n + cost w s) w'
        | _ => None
        end
      else None
  end.
Lemma execute_reachable fuel l n w n' w' :
  reachable junk kernel_write kernel_read on_connection on_message S n w -> execute fuel l n w = Some (n', w') ->
  reachable junk kernel_write kernel_read on_connection on_message S n' w'.
Proof.
  revert n w. induction l as [|s l IH]; intros n w Hr; cbn [execute]; [by intros [= <- <-]|].
  destruct (decide _) as [Hl|]; [|done]. destruct (step_run _ _ _ _ _ _ _ _) as [[w1 []]| |] eqn:E; try done.
  apply IH. by eapply reach_step.
Qed.
End Execution.

(** A kernel that takes a byte at a time and delivers three, and an
    application that answers every message. *)
Definition demo_write (k : nat) (len : Z) : wres := Wrote (Z.max 0 (Z.min len 1)).
Definition demo_read (k : nat) (room : Z) : readv_result := if 3 <=? room then readv_data [1; 2; 3] else readv_error 11.
Definition demo_connection (c : nat) (w : world) : list api := [].
Definition demo_message (c : nat) (w : world) : list api := [Send c [104; 105; 33]; Retrieve c 2].
Lemma demo_environment : environment_ok demo_write demo_read demo_connection demo_message 3.
Proof.
  constructor.
  - intros k len n Hl [= <-]. lia.
  - intros k room d. unfold demo_read. destruct (Z.leb_spec 3 room); [|done]. intros [= <-].
    split; [done|]. split; [done|]. repeat constructor; unfold is_byte; lia.
  - intros c w Hc. split; [constructor|done].
  - intros c w Hc. split; [|done]. repeat constructor; try done; unfold is_byte; lia.
  - lia.
Qed.
Definition demo_steps : list loop_step :=
  [Accept 1 5; Handle [(1%nat, POLLIN)]; Timers [ShutdownConn 1]; Handle [(1%nat, POLLOUT)]; Handle [(1%nat, POLLOUT)]; Pending;
   Accept 2 6; Timers [ForceClose 2]; Pending].
Definition demo_steps' : list loop_step := demo_steps ++ [Pending; Accept 3 6].
Notation demo_run l := (execute (fun _ => 0) demo_write demo_read demo_connection demo_message 3 5 l 0 init_world).
Example demo_log :
  (fun r : Z * world => (fst r, log (snd r))) <$> demo_run demo_steps' =
  Some (15,
    [EvConnection 1 k_connected; EvMessage 1; EvSend 1 [104; 105; 33]; EvDirect 1 [104; 105; 33] (Wrote 1);
     EvDrain 1 [105; 33] (Wrote 1); EvDrain 1 [33] (Wrote 1); EvShutdown 1; EvConnection 2 k_connected;
     EvConnection 2 k_disconnected; EvWakeup; EvClose 6; EvFree 2; EvConnection 3 k_connected]).
Proof. vm_compute. reflexivity. Qed.

(** ** Properties *)
Section Statements.
Context (junk : nat -> Z) (kernel_write : nat -> Z -> wres) (kernel_read : nat -> Z -> readv_result).
Context (on_connection on_message : nat -> world -> list api) (S : Z).
Notation environment := (environment_ok kernel_write kernel_read on_connection on_message S).
Notation reachable := (reachable junk kernel_write kernel_read on_connection on_message S).
Notation step_run := (step_run junk kernel_write kernel_read on_connection on_message).

(** C1.  However the loop has run, whatever the kernel answers and whatever
    the application's callbacks call on connections that exist, the next
    step never touches a connection that was freed, never accesses a buffer
    out of bounds, and terminates: [do_pending_functors] runs out of tasks. *)
Theorem loop_steps_safe (n : Z) (w : world) (s : loop_step) :
  environment -> reachable n w -> legal S w s -> k_cheap_prepend + S * (n + cost w s) <= max_object ->
  exists fuel w', forall g, (fuel <= g)%nat -> step_run g s w = Ok (w', true).
Proof.
  intros [E1 E2 E3 E4 E5] Hr Hs HT. pose proof (cost_nonneg w s).
  apply (reachable_between junk kernel_write kernel_read on_connection on_message S E1 E2 E3 E4 E5) in Hr; [|nia].
  destruct (loop_step_ok junk kernel_write kernel_read on_connection on_message S E1 E2 E3 E4 E5 n w s Hr Hs HT) as (fuel&w'&E&_).
  exists fuel, w'. intros g Hg. by eapply step_run_mono.
Qed.

(** C2.  The bytes that the application handed over for a connection are, in
    order and without gaps, those the kernel took followed by those in the
    output buffer, unless a [write] failed in a way the code gives up on. *)
Theorem streams_in_order (n : Z) (w : world) (c : nat) (x : gp_connection) :
  environment -> reachable n w -> k_cheap_prepend + S * n <= max_object ->
  conns w !! c = Some x -> clean c (log w) ->
  accepted c (log w) = written c (log w) ++ contents (output_buffer x).
Proof.
  intros [E1 E2 E3 E4 E5] Hr HT Hx Hc.
  destruct (reachable_between junk kernel_write kernel_read on_connection on_message S E1 E2 E3 E4 E5 n w Hr HT) as (_&H&_).
  destruct (wi_local _ _ _ _ _ H c x Hx) as [_ Hs]. by apply Hs.
Qed.

(** C12.  As long as no [write] on a connection has failed in a way the code
    gives up on, its write side is shut down, while it is open, only after
    every byte the application handed over was written.  (A failed write
    empties the output buffer, and the shutdown then follows.) *)
Theorem shutdown_waits_for_output (n : Z) (w : world) (l1 l2 : list event) (c : nat) :
  environment -> reachable n w -> k_cheap_prepend + S * n <= max_object ->
  log w = l1 ++ EvShutdown c :: l2 -> clean c l1 ->
  EvConnection c k_disconnected ∈ l1 \/ accepted c l1 = written c l1.
Proof.
  intros [E1 E2 E3 E4 E5] Hr HT Hl Hc.
  destruct (reachable_between junk kernel_write kernel_read on_connection on_message S E1 E2 E3 E4 E5 n w Hr HT) as (_&H&_).
  by apply (wi_log _ _ _ _ _ H l1 c l2).
Qed.

(** C5.  Between two steps of the loop a connection's count is the number of
    references to it, by the server's dictionary and by queued tasks.  A
    closed one is kept by the task that will destroy it, so that none leaks:
    without a task in the list all connections are open and listed. *)
Theorem references_are_exact (n : Z) (w : world) (c : nat) (x : gp_connection) :
  environment -> reachable n w -> k_cheap_prepend + S * n <= max_object -> conns w !! c = Some x ->
  ref x = (if decide (connections w !! fd (handler x) = Some c) then 1 else 0) + task_count c (pending_list w) /\ 1 <= ref x /\
  (connections w !! fd (handler x) = Some c <-> state x <> k_disconnected) /\
  (pending_list w = [] -> state x <> k_disconnected).
Proof.
  intros [E1 E2 E3 E4 E5] Hr HT Hx.
  destruct (reachable_between junk kernel_write kernel_read on_connection on_message S E1 E2 E3 E4 E5 n w Hr HT) as (_&H&_).
  destruct (wi_ref _ _ _ _ _ H c x Hx) as [Href Hpos]. pose proof (wi_state _ _ _ _ _ H c x Hx ltac:(done)) as Hst.
  change (queued [] w) with (pending_list w) in Href. change (held c []) with 0 in Href. unfold registered in *.
  destruct (decide (connections w !! fd (handler x) = Some c)) as [Hd|Hd]; [rewrite bool_decide_true in Href, Hst by done|rewrite bool_decide_false in Href, Hst by done];
    destruct (decide (state x = k_disconnected)) as [Hs|Hs]; [rewrite bool_decide_true in Hst by done|rewrite bool_decide_false in Hst by done|rewrite bool_decide_true in Hst by done|rewrite bool_decide_false in Hst by done]; try done;
    cbn [Z.b2z] in Href; (split; [lia|]; split; [done|]; split; [tauto|]).
  - done.
  - intros Hp. rewrite Hp in Href. change (task_count c []) with 0 in Href. lia.
Qed.

(** When [write] fails on the output buffer's contents, whatever the
    error, [connection_handler_write] takes the -1 for a count: all that was
    waiting is dropped, and the kernel has taken none of it. *)
Theorem write_error_drops_output (c : nat) (w : world) (x : gp_connection) (e : werr) :
  conns w !! c = Some x -> wf (output_buffer x) ->
  kernel_write (ticks w) (zlen (contents (output_buffer x))) = WErr e ->
  exists w' x', connection_handler_write kernel_write c w = Ok w' /\ conns w' !! c = Some x' /\
    contents (output_buffer x') = [] /\ written c (log w') = written c (log w).
Proof.
  intros Hx Hwf He. unfold connection_handler_write, get. rewrite Hx. cbn [of_option res_bind].
  rewrite readable_bytes_contents, peek_contents by (try done; pose proof (zlen_nonneg (contents (output_buffer x))); lia).
  replace (take (Z.to_nat (zlen (contents (output_buffer x)))) (contents (output_buffer x))) with (contents (output_buffer x))
    by (symmetry; apply take_ge; unfold zlen; lia).
  cbn [res_bind]. rewrite He. change (0 <? u64 (-1)) with true. cbv iota.
  assert (Hw : written c (log w ++ [EvDrain c (contents (output_buffer x)) (WErr e)]) = written c (log w)) by (rewrite written_snoc; apply app_nil_r).
  set (b := retrieve _ _). assert (Hb : contents b = []).
  { destruct (retrieve_wf (output_buffer x) (u64 (-1)) Hwf) as [_ Hd]; [done|]. unfold b. etransitivity; [exact Hd|]. apply drop_ge.
    pose proof (zlen_contents _ Hwf) as Hz. change (u64 (-1)) with 18446744073709551615. unfold max_object in *. unfold zlen in Hz. destruct Hwf. unfold max_object, k_cheap_prepend in *. lia. }
  assert (Hwb : wf b) by (by apply retrieve_wf). rewrite readable_bytes_contents, Hb by done. change (zlen (@nil Z) =? 0) with true. cbv iota.
  set (w1 := put c (set_output x b) _).
  destruct (on_handler_ok disable_writing _ c w1 (set_output x b) disable_writing_fd) as (h'&ep'&->&_); [apply lookup_insert_eq|]. cbn [res_bind].
  destruct (decide _); eexists _, _; (split; [done|]; split; [apply lookup_insert_eq|]; split; [done|]); [|exact Hw].
  cbn [log emit put set_conns set_epoller w1 tick]. rewrite written_snoc, Hw. apply app_nil_r.
Qed.
End Statements.

(** ** Instances *)
#[export] Instance werr_eq_dec : EqDecision werr.
Proof. solve_decision. Defined.
#[export] Instance wres_eq_dec : EqDecision wres.
Proof. solve_decision. Defined.
#[export] Instance event_eq_dec : EqDecision event.
Proof. solve_decision. Defined.
#[export] Instance lost_dec c e : Decision (lost c e).
Proof. destruct e as [c' d|c' d [n|[]]|c' d [n|e]|c'|f|c'|c'|c' s|]; simpl; apply _. Defined.
Lemma demo_reachable l (check : Z -> world -> bool) :
  match demo_run l with Some (n, w) => check n w | None => false end = true ->
  exists n w, reachable (fun _ => 0) demo_write demo_read demo_connection demo_message 3 n w /\ check n w = true.
Proof.
  intros Hc. destruct (demo_run l) as [[n w]|] eqn:E; [|done]. exists n, w. split; [|done].
  apply (execute_reachable (fun _ => 0) demo_write demo_read demo_connection demo_message 3 5 l 0 init_world n w); [constructor|exact E].
Qed.
Lemma loop_steps_safe_witness : exists n w fuel w',
  reachable (fun _ => 0) demo_write demo_read demo_connection demo_message 3 n w /\
  forall g, (fuel <= g)%nat -> step_run (fun _ => 0) demo_write demo_read demo_connection demo_message g (Handle [(1%nat, POLLIN)]) w = Ok (w', true).
Proof.
  destruct (demo_reachable (take 3 demo_steps) (fun n w => bool_decide (legal 3 w (Handle [(1%nat, POLLIN)])) && (n <=? 100))) as (n&w&Hr&Hc);
    [vm_compute; reflexivity|].
  apply andb_true_iff in Hc as [Hl%bool_decide_eq_true Hn%Z.leb_le]. exists n, w.
  destruct (loop_steps_safe (fun _ => 0) demo_write demo_read demo_connection demo_message 3 n w (Handle [(1%nat, POLLIN)])) as (fuel&w'&Hs);
    [apply demo_environment|exact Hr|exact Hl|cbn [cost]; change (zlen [(1%nat, POLLIN)]) with 1; unfold k_cheap_prepend, max_object; lia|].
  exists fuel, w'. split; [exact Hr|exact Hs].
Defined.
#[export] Instance clean_dec c l : Decision (clean c l).
Proof. unfold clean. apply _. Defined.
Lemma streams_in_order_witness : exists n w x,
  reachable (fun _ => 0) demo_write demo_read demo_connection demo_message 3 n w /\ conns w !! 1%nat = Some x /\
  accepted 1 (log w) = written 1 (log w) ++ contents (output_buffer x).
Proof.
  destruct (demo_reachable (take 4 demo_steps)
    (fun n w => bool_decide (is_Some (conns w !! 1%nat)) && (n <=? 100) && bool_decide (clean 1 (log w)))) as (n&w&Hr&Hc);
    [vm_compute; reflexivity|].
  apply andb_true_iff in Hc as [[Hx%bool_decide_eq_true Hn%Z.leb_le]%andb_true_iff Hcl%bool_decide_eq_true].
  destruct Hx as [x Hx]. exists n, w, x. split; [exact Hr|]. split; [exact Hx|].
  apply (streams_in_order (fun _ => 0) demo_write demo_read demo_connection demo_message 3 n w 1 x);
    [apply demo_environment|exact Hr|unfold k_cheap_prepend, max_object; lia|exact Hx|exact Hcl].
Defined.
Lemma shutdown_waits_for_output_witness : exists n w l1 l2,
  reachable (fun _ => 0) demo_write demo_read demo_connection demo_message 3 n w /\ log w = l1 ++ EvShutdown 1 :: l2 /\
  (EvConnection 1 k_disconnected ∈ l1 \/ accepted 1 l1 = written 1 l1).
Proof.
  destruct (demo_reachable demo_steps (fun n w => bool_decide (log w = take 6 (log w) ++ EvShutdown 1 :: drop 7 (log w)) && (n <=? 100) &&
    bool_decide (clean 1 (take 6 (log w))))) as (n&w&Hr&Hc); [vm_compute; reflexivity|].
  apply andb_true_iff in Hc as [[Hx%bool_decide_eq_true Hn%Z.leb_le]%andb_true_iff Hcl%bool_decide_eq_true].
  exists n, w, (take 6 (log w)), (drop 7 (log w)). split; [exact Hr|]. split; [exact Hx|].
  apply (shutdown_waits_for_output (fun _ => 0) demo_write demo_read demo_connection demo_message 3 n w (take 6 (log w)) (drop 7 (log w)) 1);
    [apply demo_environment|exact Hr|unfold k_cheap_prepend, max_object; lia|exact Hx|exact Hcl].
Defined.
Lemma references_are_exact_witness : exists n w x,
  reachable (fun _ => 0) demo_write demo_read demo_connection demo_message 3 n w /\ conns w !! 2%nat = Some x /\
  ref x = (if decide (connections w !! fd (handler x) = Some 2%nat) then 1 else 0) + task_count 2 (pending_list w).
Proof.
  destruct (demo_reachable demo_steps (fun n w => bool_decide (is_Some (conns w !! 2%nat)) && (n <=? 100))) as (n&w&Hr&Hc);
    [vm_compute; reflexivity|].
  apply andb_true_iff in Hc as [Hx%bool_decide_eq_true Hn%Z.leb_le]. destruct Hx as [x Hx]. exists n, w, x.
  split; [exact Hr|]. split; [exact Hx|].
  apply (references_are_exact (fun _ => 0) demo_write demo_read demo_connection demo_message 3 n w 2 x);
    [apply demo_environment|exact Hr|unfold k_cheap_prepend, max_object; lia|exact Hx].
Defined.

Definition demo_full : gp_connection :=
  set_output (init_gp_connection (fun _ => 0) 5) (set_writer (init_gp_buffer (fun _ => 0)) 11).
Lemma write_error_drops_output_witness : exists w' x',
  connection_handler_write (fun _ _ => WErr EWOULDBLOCK) 1 (put 1 demo_full init_world) = Ok w' /\ conns w' !! 1%nat = Some x' /\
  zlen (contents (output_buffer demo_full)) = 3 /\ contents (output_buffer x') = [].
Proof.
  destruct (write_error_drops_output (fun _ _ => WErr EWOULDBLOCK) 1 (put 1 demo_full init_world) demo_full EWOULDBLOCK)
    as (w'&x'&He&Hx&Hc&_).
  - reflexivity.
  - constructor; [reflexivity|vm_compute; discriminate..|]. apply (bool_decide_unpack _). vm_compute. exact I.
  - reflexivity.
  - exists w', x'. split; [exact He|]. split; [exact Hx|]. split; [vm_compute; reflexivity|exact Hc].
Defined.

(** A hang-up that the peer's shutdown accompanies: [handle_event] closes the
    connection twice, and the second of the two tasks that destroy it finds
    it freed. *)
Example hangup_closes_twice :
  let kernel_read := fun _ _ => readv_data [] in
  (let* (w, _) := step_run (fun _ => 0) demo_write kernel_read demo_connection demo_connection 0 (Accept 1 5) init_world in
   let* (w, _) := step_run (fun _ => 0) demo_write kernel_read demo_connection demo_connection 0
     (Handle [(1%nat, Z.lor POLLHUP POLLRDHUP)]) w in
   step_run (fun _ => 0) demo_write kernel_read demo_connection demo_connection 5 Pending w) = Ub.
Proof. vm_compute. reflexivity. Qed.
