(* ===== verification/Wakeup.v ===== *)
(** * gp_loop.c: queued tasks, the wakeup descriptor and the round of the loop

    A task that is queued while the tasks are run may have to wait for the
    next round; the loop then writes to an eventfd that it watches itself, so
    that the next [epoll_wait] returns.  The relation [queues] is what every
    call in the loop's thread does to the list of tasks; it needs no
    invariant of the world it starts from. *)

From S2P Require Import Prelude Buffer Handler Conn ConnInv ConnSafe Loop.
Local Open Scope Z_scope.

(** ** The wakeup descriptor *)
(** An eventfd: what a write and a read of eight bytes do to it and return,
    and whether epoll reports it as readable. *)
Class Eventfd (E : Type) := {
  efd_write : E -> E * Z;
  efd_read : E -> E * Z;
  efd_readable : E -> bool;
}.
Class EventfdLaws (E : Type) `{Eventfd E} := {
  efd_write_readable : forall e, efd_readable (fst (efd_write e)) = true;
  efd_read_drains : forall e, efd_readable (fst (efd_read e)) = false;
}.
(** The counter of eventfd(2) with EFD_NONBLOCK; -1 is EAGAIN. *)
#[export] Instance counter_eventfd : Eventfd N := {
  efd_write e := if decide (e < 18446744073709551614)%N then ((e + 1)%N, 8) else (e, -1);
  efd_read e := if decide (e = 0%N) then (e, -1) else (0%N, 8);
  efd_readable e := bool_decide (0 < e)%N;
}.
#[export] Instance counter_eventfd_laws : EventfdLaws N.
Proof. split; intros e; cbn; case_decide; cbn; try (apply bool_decide_eq_true; lia); by subst. Qed.

Definition create_eventfd (evtfd : Z) : res Z := if evtfd <? 0 then Abort else Ok evtfd.
Section Descriptor.
Context `{Eventfd E}.
(** Both ignore the result. *)
Definition wakeup_write (e : E) : E := fst (efd_write e).
Definition handler_wakeup_read (e : E) : E := fst (efd_read e).
Definition wakeup_handler_read_callback (e : E) : E := handler_wakeup_read e.
(** What the wakeups of a piece of the log do. *)
Definition woken (l : list event) (e : E) : E :=
  foldl (fun e ev => match ev with EvWakeup => wakeup_write e | _ => e end) e l.
Lemma woken_readable `{!EventfdLaws E} l e : EvWakeup ∈ l -> efd_readable (woken l e) = true.
Proof.
  intros Hl. assert (Hk : forall l e, efd_readable e = true -> efd_readable (woken l e) = true).
  { clear l e Hl. induction l as [|ev l IH]; intros e He; [done|]. destruct ev; apply IH; try done. apply efd_write_readable. }
  apply list_elem_of_split in Hl as (l1&l2&->). unfold woken. rewrite foldl_app. cbn [foldl].
  apply Hk, efd_write_readable.
Qed.
End Descriptor.

(** The handler that [init_gp_loop] makes for it. *)
Definition init_wakeup_handler {hid} `{EqDecision hid} (evtfd : Z) (ep : gp_epoller hid) (p : hid) : res (gp_epoller hid * gp_handler) :=
  let* fd := create_eventfd evtfd in
  Ok (enable_reading ep p (set_read_callback (create_gp_handler fd))).

(** *** One round of [gp_loop_run] *)
(** What [epoll_wait] returned. *)
Inductive epoll_result := Reported (evs : list (nat * Z)) | TimedOut | Failed (errno : Z).
(** With the errors it prints. *)
Definition poller_poll (r : epoll_result) (w : world) : res (world * list Z) :=
  match r with
  | Reported evs => let* w := fill_active_handlers evs w in Ok (w, [])
  | TimedOut => Ok (w, [])
  | Failed errno => Ok (w, if errno =? 4 then [] else [errno])
  end.
(** [calls]: what the callbacks of the timers that are due call. *)
Definition loop_round (junk : nat -> Z) (kernel_write : nat -> Z -> wres) (kernel_read : nat -> Z -> readv_result)
    (on_connection on_message : nat -> world -> list api) (fuel : nat) (calls : list api) (r : epoll_result) (w : world) : res (world * bool) :=
  let* w := api_calls junk kernel_write true calls w in
  let* (w, _) := poller_poll r w in
  let* w := handle_active junk kernel_write kernel_read on_connection on_message true (active_handler_list w) w in
  do_pending_functors junk kernel_write on_connection true fuel w.

(** ** What a call does to the list of tasks *)
Definition closing (t : gp_pending_task) : Prop := func t = queue_in_loop_force_close \/ func t = queue_in_loop_destroy_conn.
Definition open_in (w : world) (c : nat) : Prop := exists y, conns w !! c = Some y /\ state y <> k_disconnected.
(** Connections appear from nowhere or open again nowhere; new tasks belong
    to open connections, or to those of [X]. *)
Record queues (X : nat -> Prop) (w w' : world) : Prop := {
  qu_conns : forall i y', conns w' !! i = Some y' -> exists y, conns w !! i = Some y /\ (state y = k_disconnected -> state y' = k_disconnected);
  qu_calling : calling_pending_functors w' = calling_pending_functors w;
  qu_new : exists q e, pending_list w' = pending_list w ++ q /\ log w' = log w ++ e /\
    (calling_pending_functors w = true -> q <> [] -> EvWakeup ∈ e) /\
    Forall (fun t => closing t /\ (X (conn t) \/ open_in w (conn t))) q;
}.
#[export] Instance queues_refl X : Reflexive (queues X).
Proof. intros w. split; [intros i y Hy; by exists y|done|]. exists [], []. rewrite !app_nil_r. by split_and!. Qed.
#[export] Instance queues_trans X : Transitive (queues X).
Proof.
  intros w1 w2 w3 [A1 B1 (q1&e1&Hp1&Hl1&Hw1&Hq1)] [A2 B2 (q2&e2&Hp2&Hl2&Hw2&Hq2)]. split; [|congruence|].
  - intros i y Hy. destruct (A2 i y Hy) as (y2&Hy2&?). destruct (A1 i y2 Hy2) as (y1&Hy1&?). exists y1. auto.
  - exists (q1 ++ q2), (e1 ++ e2). rewrite Hp2, Hp1, Hl2, Hl1, <-!app_assoc. split; [done|]. split; [done|]. rewrite B1 in Hw2. split.
    + intros Hc Hq. apply elem_of_app. destruct q1 as [|t q1]; [right|left; by apply Hw1]. by apply Hw2.
    + apply Forall_app. split; [done|]. eapply Forall_impl; [exact Hq2|]. intros t [Ht [HX|(y&Hy&Hs)]]; (split; [done|]); [by left|right].
      destruct (A1 _ y Hy) as (y1&Hy1&Hd). exists y1. split; [done|]. auto.
Qed.
Lemma queues_weaken (X Y : nat -> Prop) w w' : (forall i, X i -> Y i \/ open_in w i) -> queues X w w' -> queues Y w w'.
Proof.
  intros HX [A B (q&e&Hp&Hl&Hw&Hq)]. split; [done|done|]. exists q, e. split_and!; try done.
  eapply Forall_impl; [exact Hq|]. intros t [? [Hc%HX|?]]; tauto.
Qed.
(** Everything but the connections, the tasks and the log. *)
Lemma queues_same X w w' e : conns w' = conns w -> pending_list w' = pending_list w -> calling_pending_functors w' = calling_pending_functors w ->
  log w' = log w ++ e -> queues X w w'.
Proof.
  intros Hc Hp Hk Hl. split; [rewrite Hc; intros i y Hy; by exists y|done|]. exists [], e. rewrite app_nil_r. by split_and!.
Qed.
Lemma put_queues X c x x' w : conns w !! c = Some x -> (state x = k_disconnected -> state x' = k_disconnected) -> queues X w (put c x' w).
Proof.
  intros Hx Hs. split; [|done|exists [], []; rewrite !app_nil_r; by split_and!].
  intros i y. cbn. rewrite lookup_insert_Some. intros [[<- <-]|[_ Hy]]; eauto.
Qed.
Lemma emit_queues X w ev : queues X w (emit w ev).
Proof. by apply (queues_same X w _ [ev]). Qed.
Lemma get_ok c w x : get c w = Ok x -> conns w !! c = Some x.
Proof. unfold get. destruct (conns w !! c); [|done]. by intros [= ->]. Qed.

Section Calls.
Context (junk : nat -> Z) (kernel_write : nat -> Z -> wres) (on_connection : nat -> world -> list api).

Lemma on_handler_queues X f c w w' : on_handler f c w = Ok w' -> queues X w w'.
Proof.
  intros (x&Hx%get_ok&H)%res_bind_ok. destruct (f _ _ _) as [ep h]. injection H as <-.
  etransitivity; [by apply (queues_same X w (set_epoller w ep) []); rewrite ?app_nil_r|]. by apply (put_queues X c x).
Qed.
Lemma ref_inc_queues X c w w' : conn_ref_inc c w = Ok w' -> queues X w w'.
Proof. intros (x&Hx%get_ok&[= <-])%res_bind_ok. by apply (put_queues X c x). Qed.
Lemma ref_dec_queues X c w w' b : conn_ref_dec c w = Ok (w', b) -> queues X w w'.
Proof.
  intros (x&Hx%get_ok&H)%res_bind_ok. assert (Hp : queues X w (put c (set_ref x (ref x - 1)) w)) by (by apply (put_queues X c x)).
  destruct (_ =? 0); [|by injection H as <- _]. apply res_bind_ok in H as (w1&H&[= <- _]).
  etransitivity; [exact Hp|]. unfold destruct_gp_connection in H. apply res_bind_ok in H as (w2&H2&H). apply res_bind_ok in H as (y&_&[= <-]).
  etransitivity; [by apply (queues_same X _ (set_active (put c (set_ref x (ref x - 1)) w) (filter (fun i => i <> c) (active_handler_list w))) []); rewrite ?app_nil_r|].
  etransitivity; [exact (on_handler_queues X _ _ _ _ H2)|]. etransitivity; [apply emit_queues|]. etransitivity; [|apply emit_queues].
  split; [|done|exists [], []; rewrite !app_nil_r; by split_and!]. intros i z Hz. cbn in Hz. apply lookup_delete_Some in Hz as [_ Hz]. eauto.
Qed.
Lemma queue_queues (X : nat -> Prop) t w w' : closing t -> (X (conn t) \/ open_in w (conn t)) -> gp_queue_in_loop true t w = Ok w' -> queues X w w'.
Proof.
  intros Ht HX (w1&H1&H)%res_bind_ok. pose proof (ref_inc_queues X _ _ _ H1) as Q1. etransitivity; [exact Q1|].
  assert (HX1 : X (conn t) \/ open_in w1 (conn t)).
  { destruct HX as [?|(y&Hy&Hs)]; [by left|right]. apply res_bind_ok in H1 as (x&Hx%get_ok&[= <-]). exists (set_ref x (ref x + 1)).
    split; [apply lookup_insert_eq|]. cbn. congruence. }
  cbn in H. destruct (calling_pending_functors w1) eqn:Ec; injection H as <-.
  - split; [intros i y Hy; by exists y|done|]. exists [t], [EvWakeup]. split_and!; try done; [intros _ _; by left|by constructor].
  - split; [intros i y Hy; by exists y|done|]. exists [t], []. rewrite app_nil_r. split_and!; try done; [by rewrite Ec|by constructor].
Qed.
(** In the loop's thread a task is run at once. *)
Lemma run_in_loop_queues X run t w w' : (forall v v', run t v = Ok v' -> queues X v v') -> gp_run_in_loop true run t w = Ok w' -> queues X w w'.
Proof.
  intros Hr (w1&H1&H)%res_bind_ok. apply res_bind_ok in H as (w2&H2&H). apply res_bind_ok in H as ([w3 b]&H3&[= <-]).
  etransitivity; [exact (ref_inc_queues X _ _ _ H1)|]. etransitivity; [exact (Hr _ _ H2)|]. exact (ref_dec_queues X _ _ _ _ H3).
Qed.
Lemma send_in_loop_queues X c m w w' : conn_send_in_loop junk kernel_write c m w = Ok w' -> queues X w w'.
Proof.
  intros (x&Hx%get_ok&H)%res_bind_ok. destruct (decide _); [by injection H as <-|]. cbv zeta in H.
  set (direct := negb _ && _) in H. set (w0 := emit w (EvSend c m)) in H.
  set (w1 := if direct then emit (tick w0) (EvDirect c m (kernel_write (ticks w0) (zlen m))) else w0) in H.
  assert (Q1 : queues X w w1).
  { etransitivity; [apply (emit_queues X w (EvSend c m))|]. unfold w1. destruct direct; [|done].
    by apply (queues_same X _ _ [EvDirect c m (kernel_write (ticks w0) (zlen m))]). }
  etransitivity; [exact Q1|]. clearbody w1 direct. destruct (if direct then _ else _) as [[nw r] f]. destruct (negb f && _); [|by injection H as <-].
  apply res_bind_ok in H as (y&Hy%get_ok&H). apply res_bind_ok in H as (b&_&H). pose proof (put_queues X c y (set_output y b) w1 Hy ltac:(done)) as Q2.
  etransitivity; [exact Q2|]. destruct (is_writing _); [by injection H as <-|]. exact (on_handler_queues X _ _ _ _ H).
Qed.
Lemma conn_shutdown_queues X c w w' : conn_shutdown true c w = Ok w' -> queues X w w'.
Proof.
  intros (x&Hx%get_ok&H)%res_bind_ok. destruct (decide _) as [Hs|]; [|by injection H as <-].
  etransitivity; [apply (put_queues X c x (set_state x k_disconnecting)); [done|congruence]|].
  eapply run_in_loop_queues; [|exact H]. intros v v' (y&_&Hv)%res_bind_ok. destruct (is_writing _); [by injection Hv as <-|].
  injection Hv as <-. apply emit_queues.
Qed.
Lemma force_close_call_queues X c w w' : conn_force_close true c w = Ok w' -> queues X w w'.
Proof.
  intros (x&Hx%get_ok&H)%res_bind_ok. destruct (decide _) as [Hs|]; [|by injection H as <-].
  etransitivity; [apply (put_queues X c x (set_state x k_disconnecting)); [done|destruct Hs; congruence]|].
  refine (queue_queues X _ _ _ _ _ H); [by left|]. right. exists (set_state x k_disconnecting). split; [apply lookup_insert_eq|done].
Qed.
Lemma api_calls_queues X l w w' : api_calls junk kernel_write true l w = Ok w' -> queues X w w'.
Proof.
  revert w. induction l as [|a l IH]; intros w; [by intros [= <-]|]. intros (w1&H1&H)%res_bind_ok. etransitivity; [|exact (IH _ H)].
  destruct a as [c m|c|c|c n]; cbn [api_call] in H1.
  - apply res_bind_ok in H1 as (x&_&H1). destruct (decide _); [exact (send_in_loop_queues X _ _ _ _ H1)|by injection H1 as <-].
  - exact (conn_shutdown_queues X _ _ _ H1).
  - exact (force_close_call_queues X _ _ _ H1).
  - apply res_bind_ok in H1 as (x&Hx%get_ok&[= <-]). by apply (put_queues X c x).
Qed.
Lemma connection_callback_queues X c w w' : connection_callback junk kernel_write on_connection true c w = Ok w' -> queues X w w'.
Proof. intros (x&_&H)%res_bind_ok. etransitivity; [apply emit_queues|]. exact (api_calls_queues X _ _ _ H). Qed.

(** ** Closing a connection *)
Lemma remove_conn_queues (X : nat -> Prop) c w w' : X c -> remove_conn true c w = Ok w' -> queues X w w'.
Proof.
  intros HX (x&Hx%get_ok&H)%res_bind_ok. apply res_bind_ok in H as ([w1 b]&H1&H). destruct b; [done|].
  etransitivity; [by apply (queues_same X w (set_connections w (delete (fd (handler x)) (connections w))) []); rewrite ?app_nil_r|].
  etransitivity; [exact (ref_dec_queues X _ _ _ _ H1)|]. eapply run_in_loop_queues; [|exact H].
  intros v v' (y&_&Hv)%res_bind_ok. refine (queue_queues X _ _ _ _ _ Hv); [by right|by left].
Qed.
Lemma handler_close_queues c w w' :
  open_in w c -> connection_handler_close junk kernel_write on_connection true c w = Ok w' -> queues (fun _ => False) w w'.
Proof.
  intros Ho H. apply (queues_weaken (eq c)); [intros i <-; by right|]. apply res_bind_ok in H as (w1&H1&H). apply res_bind_ok in H as (x&Hx%get_ok&H).
  apply res_bind_ok in H as (w2&H2&H). apply res_bind_ok in H as (w3&H3&H). apply res_bind_ok in H as (w4&H4&H). apply res_bind_ok in H as ([w5 b]&H5&[= <-]).
  etransitivity; [exact (ref_inc_queues _ _ _ _ H1)|]. etransitivity; [by apply (put_queues _ c x (set_state x k_disconnected))|].
  etransitivity; [exact (on_handler_queues _ _ _ _ _ H2)|]. etransitivity; [exact (connection_callback_queues _ _ _ _ H3)|].
  etransitivity; [exact (remove_conn_queues _ c _ _ eq_refl H4)|]. exact (ref_dec_queues _ _ _ _ _ H5).
Qed.
Lemma call_pending_queues t w w' :
  closing t -> call_pending junk kernel_write on_connection true t w = Ok w' -> queues (fun _ => False) w w'.
Proof.
  unfold call_pending. intros [-> | ->]; cbn match; intros (x&Hx%get_ok&H)%res_bind_ok.
  - destruct (decide _) as [Hs|]; [|by injection H as <-]. apply (handler_close_queues (conn t)); [|done]. exists x. split; [done|]. destruct Hs; congruence.
  - apply res_bind_ok in H as (w1&H1&H). etransitivity; [|exact (on_handler_queues _ _ _ _ _ H)].
    destruct (decide _); [|by injection H1 as <-]. apply res_bind_ok in H1 as (w2&H2&H1).
    etransitivity; [by apply (put_queues _ (conn t) x (set_state x k_disconnected))|]. etransitivity; [exact (on_handler_queues _ _ _ _ _ H2)|].
    exact (connection_callback_queues _ _ _ _ H1).
Qed.
End Calls.

(** ** A pass over the tasks *)
(** What is left was queued on connections open before, and has woken the
    loop. *)
Record passed (w w' : world) : Prop := {
  pa_conns : forall i y', conns w' !! i = Some y' -> exists y, conns w !! i = Some y /\ (state y = k_disconnected -> state y' = k_disconnected);
  pa_left : exists e, log w' = log w ++ e /\ (pending_list w' <> [] -> EvWakeup ∈ e);
  pa_open : Forall (fun t => open_in w (conn t)) (pending_list w');
}.
Section Pass.
Context (junk : nat -> Z) (kernel_write : nat -> Z -> wres) (on_connection : nat -> world -> list api).
Lemma run_pending_queues t l w w' :
  closing t -> pending_list w = t :: l -> run_pending junk kernel_write on_connection true t w = Ok w' ->
  exists w1, queues (fun _ => False) w w1 /\ w' = set_pending w1 (tail (pending_list w1)).
Proof.
  intros Ht Hp (w1&H1&H)%res_bind_ok. apply res_bind_ok in H as ([w2 b]&H2&[= <-]). exists w2. split; [|done].
  etransitivity; [exact (call_pending_queues _ _ _ _ _ _ Ht H1)|]. exact (ref_dec_queues _ _ _ _ _ H2).
Qed.
Lemma pending_loop_passed fuel w w' :
  calling_pending_functors w = true -> Forall closing (pending_list w) ->
  pending_loop junk kernel_write on_connection true fuel w = Ok (w', true) -> passed w w'.
Proof.
  revert w. induction fuel as [|fuel IH]; intros w Hc Hcl H; [done|]. cbn [pending_loop] in H.
  destruct (pending_list w) as [|t l] eqn:Hp.
  { injection H as <-. split; [intros i y Hy; by exists y|exists []; by rewrite app_nil_r, Hp|by rewrite Hp]. }
  apply Forall_cons in Hcl as [Ht Hl].
  assert (Hrun : exists v, run_pending junk kernel_write on_connection true t w = Ok v /\
    (l = [] /\ v = w' \/ pending_loop junk kernel_write on_connection true fuel v = Ok (w', true))).
  { destruct l; apply res_bind_ok in H as (v&Hv&H); exists v; (split; [exact Hv|]); [left; by injection H as <-|by right]. }
  destruct Hrun as (v&Hv&Hrest). destruct (run_pending_queues t l w v Ht Hp Hv) as (w1&[A B (q&e&Hp1&Hl1&Hw1&Hq)]&->).
  rewrite Hp in Hp1. assert (Hq' : Forall (fun t => open_in w (conn t)) q) by (eapply Forall_impl; [exact Hq|]; by intros u [_ [[]|?]]).
  assert (Hpv : pending_list (set_pending w1 (tail (pending_list w1))) = l ++ q) by (cbn; by rewrite Hp1).
  set (v := set_pending w1 _) in *. change (conns w1) with (conns v) in A. change (log w1) with (log v) in Hl1.
  change (calling_pending_functors w1) with (calling_pending_functors v) in B. clearbody v. destruct Hrest as [[-> ->]|Hrest].
  - split; [done|exists e; split; [done|rewrite Hpv; auto]|by rewrite Hpv].
  - destruct (IH v) as [A2 (e2&Hl2&Hw2) O2]; [congruence| |done|].
    { rewrite Hpv. apply Forall_app. split; [done|]. eapply Forall_impl; [exact Hq|]. by intros u [? _]. }
    split.
    + intros i y Hy. destruct (A2 i y Hy) as (y2&Hy2&?). destruct (A i y2 Hy2) as (y1&Hy1&?). exists y1. auto.
    + exists (e ++ e2). rewrite Hl2, Hl1, <-app_assoc. split; [done|]. intros Hne. apply elem_of_app. right. auto.
    + eapply Forall_impl; [exact O2|]. intros u (y&Hy&Hs). destruct (A _ y Hy) as (y1&Hy1&Hd). exists y1. split; [done|]. auto.
Qed.
Lemma do_pending_passed fuel w w' :
  Forall closing (pending_list w) -> do_pending_functors junk kernel_write on_connection true fuel w = Ok (w', true) -> passed w w'.
Proof.
  intros Hcl ([w1 b]&H1&[= <- ->])%res_bind_ok. destruct (pending_loop_passed fuel (set_calling w true) w1) as [A L O]; try done.
Qed.
End Pass.

Lemma task_count_left c l : task_count c l <> 0 -> exists t, t ∈ l /\ conn t = c.
Proof.
  induction l as [|t l IH]; [done|]. intros H. destruct (decide (conn t = c)) as [Hc|Hc]; [exists t; split; [by left|done]|].
  destruct IH as (u&Hu&?); [|exists u; split; [by right|done]]. intros E. apply H. revert E. unfold task_count. rewrite ?filter_cons, ?decide_False by done. done.
Qed.

Section Statements.
Context (junk : nat -> Z) (kernel_write : nat -> Z -> wres) (kernel_read : nat -> Z -> readv_result).
Context (on_connection on_message : nat -> world -> list api) (S : Z).
Notation environment := (environment_ok kernel_write kernel_read on_connection on_message S).
Notation reachable := (reachable junk kernel_write kernel_read on_connection on_message S).
Notation step_run := (step_run junk kernel_write kernel_read on_connection on_message).
Notation sound := (reachable_between junk kernel_write kernel_read on_connection on_message S).

Lemma reachable_passed n w g w' :
  environment -> reachable n w -> k_cheap_prepend + S * n <= max_object -> step_run g Pending w = Ok (w', true) -> passed w w'.
Proof.
  intros [E1 E2 E3 E4 E5] Hr HT Hrun. destruct (sound E1 E2 E3 E4 E5 n w Hr HT) as (_&H&_).
  apply (do_pending_passed junk kernel_write on_connection g); [|exact Hrun]. apply Forall_forall. intros t Ht.
  destruct (wi_funcs _ _ _ _ _ H t Ht) as [?|[? _]]; [by left|by right].
Qed.

(** A round is three steps of the loop. *)
Lemma loop_round_reachable n w calls r g w' :
  environment -> reachable n w -> k_cheap_prepend + S * (n + 1) <= max_object -> legal S w (Timers calls) ->
  (forall w1, api_calls junk kernel_write true calls w = Ok w1 -> match r with Reported evs => legal S w1 (Handle evs) | _ => True end) ->
  loop_round junk kernel_write kernel_read on_connection on_message g calls r w = Ok (w', true) -> exists n', reachable n' w'.
Proof.
  intros [E1 E2 E3 E4 E5] Hr HT Ht Hh (w1&H1&H)%res_bind_ok. specialize (Hh w1 H1).
  assert (Hr1 : reachable (n + 1) w1) by (apply (reach_step _ _ _ _ _ _ n w (Timers calls) 0 w1 Hr Ht); cbn [Loop.step_run]; by rewrite H1).
  apply res_bind_ok in H as ([w2 pr]&H2&H). apply res_bind_ok in H as (w3&H3&H).
  destruct (sound E1 E2 E3 E4 E5 (n + 1) w1 Hr1 HT) as (_&_&Ha).
  assert (Hr3 : exists n3, reachable n3 w3).
  { destruct r as [evs| |errno]; cbn [poller_poll] in H2.
    - apply res_bind_ok in H2 as (w2'&H2&[= <- <-]). eexists. apply (reach_step _ _ _ _ _ _ (n + 1) w1 (Handle evs) 0 w3 Hr1 Hh).
      cbn [Loop.step_run]. rewrite H2. cbn [res_bind]. by rewrite H3.
    - injection H2 as <- <-. rewrite Ha in H3. injection H3 as <-. by exists (n + 1).
    - injection H2 as <- <-. rewrite Ha in H3. injection H3 as <-. by exists (n + 1). }
  destruct Hr3 as [n3 Hr3]. eexists. by apply (reach_step _ _ _ _ _ _ n3 w3 Pending g w' Hr3 I).
Qed.

(** C38.  When the loop comes to [epoll_wait], after a pass over its tasks and
    the timers that are due, either the pass has left no task or the eventfd
    is readable, whatever its state was before the pass, so that the wait
    returns at once.  Only tasks that the callbacks of those timers have queued
    meanwhile can be slept over; without such a call there are none. *)
Theorem queued_tasks_wake_loop `{EventfdLaws E} (n : Z) (w w1 w2 : world) (g : nat) (calls : list api) (efd : E) :
  environment -> reachable n w -> k_cheap_prepend + S * n <= max_object ->
  step_run g Pending w = Ok (w1, true) -> step_run g (Timers calls) w1 = Ok (w2, true) ->
  exists evs by_timers, log w2 = log w ++ evs /\ pending_list w2 = pending_list w1 ++ by_timers /\
    (calls = [] -> by_timers = []) /\ (pending_list w1 = [] \/ efd_readable (woken evs efd) = true).
Proof.
  intros He Hr HT H1 H2. destruct (reachable_passed n w g w1 He Hr HT H1) as [_ (e&Hl&Hw) _].
  apply res_bind_ok in H2 as (v&H2&[= <-]). destruct (qu_new _ _ _ (api_calls_queues _ _ (fun _ => False) _ _ _ H2)) as (q&e2&Hp&Hl2&_&_).
  exists (e ++ e2), q. rewrite Hl2, Hl, app_assoc. split; [done|]. split; [done|]. split.
  - intros ->. injection H2 as <-. rewrite <-(app_nil_r (pending_list w1)) in Hp at 1. by apply app_inv_head in Hp.
  - destruct (pending_list w1) as [|t l]; [by left|right]. apply woken_readable. apply elem_of_app. left. by apply Hw.
Qed.

(** C39.  A closed connection lives until the next pass over the tasks and no
    longer: once the close callback has run, one call of
    [do_pending_functors] frees it, whatever else its tasks do. *)
Theorem closed_connection_is_freed (n : Z) (w w' : world) (g c : nat) (x : gp_connection) :
  environment -> reachable n w -> k_cheap_prepend + S * (n + live w) <= max_object ->
  conns w !! c = Some x -> state x = k_disconnected -> step_run g Pending w = Ok (w', true) -> conns w' !! c = None.
Proof.
  intros He Hr HT Hx Hs Hrun. pose proof (live_nonneg w). pose proof He as [E1 E2 E3 E4 E5].
  destruct (reachable_passed n w g w' He Hr ltac:(nia) Hrun) as [A _ O]. destruct (conns w' !! c) as [y|] eqn:Hy; [exfalso|done].
  destruct (A c y Hy) as (x'&Hx'&Hd). rewrite Hx in Hx'. injection Hx' as <-. specialize (Hd Hs).
  destruct (sound E1 E2 E3 E4 E5 (n + live w) w') as (_&H'&_); [exact (reach_step _ _ _ _ _ _ n w Pending g w' Hr I Hrun)|done|].
  destruct (wi_ref _ _ _ _ _ H' c y Hy) as [Href Hpos]. rewrite (wi_state _ _ _ _ _ H' c y Hy), Hd in Href by done.
  change (queued [] w') with (pending_list w') in Href. change (held c []) with 0 in Href. rewrite bool_decide_eq_true_2 in Href by done. cbn [negb Z.b2z] in Href.
  destruct (task_count_left c (pending_list w')) as (t&Ht&Hc); [lia|]. rewrite Forall_forall in O. destruct (O t Ht) as (z&Hz&Hzs). congruence.
Qed.
End Statements.

(** *** Concrete runs *)
(** The timers run before the wait, and what they queue does not wake the
    loop: a connection that a timer's callback closes by force stays open
    until something else ends the wait. *)
Example timer_task_is_slept_over :
  (fun r : Z * world => (map func (pending_list (snd r)), log (snd r))) <$>
    execute (fun _ => 0) demo_write demo_read demo_connection demo_message 3 5 [Accept 2 6; Timers [ForceClose 2]] 0 init_world =
  Some ([queue_in_loop_force_close], [EvConnection 2 k_connected]).
Proof. vm_compute. reflexivity. Qed.
Lemma demo_steps_run l1 l2 (check : Z -> world -> world -> bool) :
  match execute (fun _ => 0) demo_write demo_read demo_connection demo_message 3 5 l1 0 init_world with
  | Some (n, w) =>
      match step_run (fun _ => 0) demo_write demo_read demo_connection demo_message 5 l2 w with
      | Ok (w', true) => check n w w'
      | _ => false
      end
  | None => false
  end = true ->
  exists n w w', reachable (fun _ => 0) demo_write demo_read demo_connection demo_message 3 n w /\
    step_run (fun _ => 0) demo_write demo_read demo_connection demo_message 5 l2 w = Ok (w', true) /\ check n w w' = true.
Proof.
  destruct (execute _ _ _ _ _ _ _ l1 _ _) as [[n w]|] eqn:E; [|done].
  destruct (step_run _ _ _ _ _ _ _ _) as [[w' []]| |] eqn:E'; try done. intros Hc. exists n, w, w'. split; [|done].
  apply (execute_reachable (fun _ => 0) demo_write demo_read demo_connection demo_message 3 5 l1 0 init_world n w); [constructor|exact E].
Qed.
Lemma queued_tasks_wake_loop_witness : exists n w w1 evs,
  reachable (fun _ => 0) demo_write demo_read demo_connection demo_message 3 n w /\ pending_list w1 <> [] /\ log w1 = log w ++ evs /\
  (pending_list w1 = [] \/ efd_readable (woken evs 0%N) = true).
Proof.
  destruct (demo_steps_run [Accept 2 6; Timers [ForceClose 2]] Pending (fun n w w1 => (n <=? 100) && negb (bool_decide (pending_list w1 = []))))
    as (n&w&w1&Hr&Hs&Hc); [vm_compute; reflexivity|]. apply andb_true_iff in Hc as [Hn%Z.leb_le Hp%negb_true_iff%bool_decide_eq_false].
  destruct (queued_tasks_wake_loop (fun _ => 0) demo_write demo_read demo_connection demo_message 3 n w w1 w1 5 [] 0%N) as (evs&q&?&_&_&?);
    [apply demo_environment|exact Hr|unfold k_cheap_prepend, max_object; lia|exact Hs|reflexivity|].
  exists n, w, w1, evs. split; [exact Hr|]. split; [exact Hp|]. by split.
Defined.
Lemma closed_connection_is_freed_witness : exists n w w' x,
  reachable (fun _ => 0) demo_write demo_read demo_connection demo_message 3 n w /\ conns w !! 2%nat = Some x /\ conns w' !! 2%nat = None.
Proof.
  destruct (demo_steps_run [Accept 2 6; Timers [ForceClose 2]; Pending] Pending
    (fun n w w' => (n + live w <=? 100) && bool_decide (state <$> conns w !! 2%nat = Some k_disconnected))) as (n&w&w'&Hr&Hs&Hc);
    [vm_compute; reflexivity|].
  apply andb_true_iff in Hc as [Hn%Z.leb_le Hx%bool_decide_eq_true]. apply fmap_Some in Hx as (x&Hx&Hst). exists n, w, w', x.
  split; [exact Hr|]. split; [exact Hx|].
  apply (closed_connection_is_freed (fun _ => 0) demo_write demo_read demo_connection demo_message 3 n w w' 5 2 x);
    [apply demo_environment|exact Hr|unfold k_cheap_prepend, max_object; lia|exact Hx|done|exact Hs].
Defined.
