(* ===== verification/Pool.v ===== *)
(** * gp_threadpool.c: workers, tasks and their clients (operations)

    Every call of the pthreads library, every access to the list of tasks and
    to a task's fields is a step of its own; the steps of different threads
    interleave arbitrarily.  A mutex is the thread that holds it; locking a
    mutex that is taken leaves the thread where it is, also when the thread
    holds it itself, as for the default kind of mutex.  A thread that waits
    for a condition variable has released its mutex and takes it again when
    woken, which can happen spuriously.  Tasks are known by their addresses;
    [task_node] is the first member, so that a task and its node have the same
    address. *)

From S2P Require Import Prelude GpList.
Local Open Scope Z_scope.

(** ** Tasks and threads *)
Record gp_task := mk_task {
  task_tmr : option nat;
  task_busy : Z;
  task_mtx : option nat;
}.
(** [task_cb] is not NULL; its code is the program's own. *)
Definition init_task : gp_task := mk_task None 0 None.
Definition set_busy (k : gp_task) (b : Z) : gp_task := mk_task (task_tmr k) b (task_mtx k).
Definition set_tmr (k : gp_task) (o : option nat) : gp_task := mk_task o (task_busy k) (task_mtx k).
Definition set_task_mtx (k : gp_task) (o : option nat) : gp_task := mk_task (task_tmr k) (task_busy k) o.

(** What a client does: [run_task], [wait_task], [destroy_task], and
    [destroy_task_processor] up to joining the workers. *)
Inductive call := Run (t : Z) | Wait (t : Z) | Destroy (t : Z) | Stop.
Inductive pc :=
  (* gp_task_thread *)
  | WLock | WFirst | WTakeLock (t : Z) | WTake (t : Z) | WTakeUnlock (t : Z) | WUnlock (t : Z)
  | WCall (t : Z) | WDoneLock (t : Z) | WDone (t : Z) | WWake (t : Z) | WDoneUnlock (t : Z)
  | WEmpty | WWaiting | WExit | WFinished
  (* a client between two calls *)
  | Idle
  (* run_task *)
  | RLock (t : Z) | RBusy (t : Z) | RUnlock (t : Z) | RPoolLock (t : Z) | RAppend (t : Z) | RSignal | RPoolUnlock
  (* destroy_task *)
  | DLock (t : Z) | DTest (t : Z) | DWaiting (t : Z) | DUnlock (t : Z) | DFree (t : Z)
  (* wait_task *)
  | TLock (t : Z) | TTest (t : Z) | TWaiting (t : Z) | TAgain (t : Z)
  (* destroy_task_processor *)
  | SLock | SStop | SWake | SUnlock | SJoin (k : nat).
Record thread := mk_thread { calls : list call; at_pc : pc }.
#[export] Instance pc_eq_dec : EqDecision pc.
Proof. solve_decision. Defined.

(** [retired] records the tasks whose callback has returned, [called] those
    whose callback was called. *)
Record pool := mk_pool {
  memory : mem;
  tasks : gmap Z gp_task;
  tp_mtx : option nat;
  tp_run : Z;
  threads : list thread;
  called : list Z;
  retired : list Z;
}.
Definition set_memory (s : pool) (m : mem) : pool :=
  mk_pool m (tasks s) (tp_mtx s) (tp_run s) (threads s) (called s) (retired s).
Definition set_tasks (s : pool) (k : gmap Z gp_task) : pool :=
  mk_pool (memory s) k (tp_mtx s) (tp_run s) (threads s) (called s) (retired s).
Definition set_tp_mtx (s : pool) (o : option nat) : pool :=
  mk_pool (memory s) (tasks s) o (tp_run s) (threads s) (called s) (retired s).
Definition set_tp_run (s : pool) (z : Z) : pool :=
  mk_pool (memory s) (tasks s) (tp_mtx s) z (threads s) (called s) (retired s).
Definition set_threads (s : pool) (l : list thread) : pool :=
  mk_pool (memory s) (tasks s) (tp_mtx s) (tp_run s) l (called s) (retired s).
Definition log_call (s : pool) (t : Z) : pool :=
  mk_pool (memory s) (tasks s) (tp_mtx s) (tp_run s) (threads s) (called s ++ [t]) (retired s).
Definition log_retired (s : pool) (t : Z) : pool :=
  mk_pool (memory s) (tasks s) (tp_mtx s) (tp_run s) (threads s) (called s) (retired s ++ [t]).

(** Following a [gp_task *]. *)
Definition get_task (s : pool) (t : Z) : res gp_task := of_option (tasks s !! t).
Definition put_task (s : pool) (t : Z) (k : gp_task) : pool := set_tasks s (<[t := k]> (tasks s)).
Definition put_thread (s : pool) (i : nat) (th : thread) : pool := set_threads s (<[i := th]> (threads s)).

Section Pool.
(** The address of [tp_tasks]. *)
Context (tp : Z).

(** [pthread_cond_broadcast] on a task's [task_cv]. *)
Definition wake_task (t : Z) (th : thread) : thread :=
  match at_pc th with
  | DWaiting t' => if decide (t' = t) then mk_thread (calls th) (DLock t) else th
  | TWaiting t' => if decide (t' = t) then mk_thread (calls th) (TLock t) else th
  | _ => th
  end.
(** ... on [tp_sched_cv]. *)
Definition wake_worker (th : thread) : thread :=
  match at_pc th with WWaiting => mk_thread (calls th) WLock | _ => th end.

Definition lock_pool (s : pool) (i : nat) (th : thread) (p : pc) : res pool :=
  match tp_mtx s with
  | Some _ => Ok s
  | None => Ok (put_thread (set_tp_mtx s (Some i)) i (mk_thread (calls th) p))
  end.
Definition unlock_pool (s : pool) (i : nat) (th : thread) (p : pc) : res pool :=
  Ok (put_thread (set_tp_mtx s None) i (mk_thread (calls th) p)).
Definition lock_task (s : pool) (i : nat) (th : thread) (t : Z) (p : pc) : res pool :=
  let* k := get_task s t in
  match task_mtx k with
  | Some _ => Ok s
  | None => Ok (put_thread (put_task s t (set_task_mtx k (Some i))) i (mk_thread (calls th) p))
  end.
Definition unlock_task (s : pool) (i : nat) (th : thread) (t : Z) (p : pc) : res pool :=
  let* k := get_task s t in
  Ok (put_thread (put_task s t (set_task_mtx k None)) i (mk_thread (calls th) p)).

(** One step of a worker.  [destroy_task_processor] wakes it up. *)
Definition gp_task_thread (s : pool) (i : nat) (th : thread) : res pool :=
  let goto s p := Ok (put_thread s i (mk_thread (calls th) p)) in
  match at_pc th with
  | WLock => lock_pool s i th WFirst
  | WFirst =>
      let* task := gp_list_first (memory s) tp in
      goto s (if task =? 0 then WEmpty else WTakeLock task)
  | WTakeLock t => lock_task s i th t (WTake t)
  | WTake t =>
      let* m := gp_list_remove (memory s) tp t in
      let* k := get_task s t in
      goto (put_task (set_memory s m) t (set_tmr k (Some i))) (WTakeUnlock t)
  | WTakeUnlock t => unlock_task s i th t (WUnlock t)
  | WUnlock t => unlock_pool s i th (WCall t)
  | WCall t => let* _ := get_task s t in goto (log_call s t) (WDoneLock t)
  | WDoneLock t => lock_task s i th t (WDone t)
  | WDone t =>
      let* k := get_task s t in
      goto (log_retired (put_task s t (set_tmr (set_busy k (u32 (task_busy k - 1))) None)) t) (WWake t)
  | WWake t =>
      let* k := get_task s t in
      let s := if task_busy k =? 0 then set_threads s (wake_task t <$> threads s) else s in
      goto s (WDoneUnlock t)
  | WDoneUnlock t => unlock_task s i th t WLock
  | WEmpty => if tp_run s =? 0 then goto s WExit else unlock_pool s i th WWaiting
  | WExit => unlock_pool s i th WFinished
  | _ => Ok s
  end.

Definition run_task (s : pool) (i : nat) (choice : nat) (th : thread) : res pool :=
  let goto s p := Ok (put_thread s i (mk_thread (calls th) p)) in
  match at_pc th with
  | RLock t => lock_task s i th t (RBusy t)
  | RBusy t =>
      let* k := get_task s t in
      goto (put_task s t (set_busy k (u32 (task_busy k + 1)))) (RUnlock t)
  | RUnlock t => unlock_task s i th t (RPoolLock t)
  | RPoolLock t => lock_pool s i th (RAppend t)
  | RAppend t => let* m := gp_list_append (memory s) tp t in goto (set_memory s m) RSignal
  | RSignal =>
      (* pthread_cond_signal: one of the threads that wait *)
      if existsb (fun th => bool_decide (at_pc th = WWaiting)) (threads s) then
        match threads s !! choice with
        | Some (mk_thread cs WWaiting) => goto (put_thread s choice (mk_thread cs WLock)) RPoolUnlock
        | _ => Ok s
        end
      else goto s RPoolUnlock
  | RPoolUnlock => unlock_pool s i th Idle
  | _ => Ok s
  end.

Definition destroy_task (s : pool) (i : nat) (th : thread) : res pool :=
  let goto s p := Ok (put_thread s i (mk_thread (calls th) p)) in
  match at_pc th with
  | DLock t => lock_task s i th t (DTest t)
  | DTest t =>
      let* k := get_task s t in
      if task_busy k =? 0 then goto s (DUnlock t) else unlock_task s i th t (DWaiting t)
  | DUnlock t => unlock_task s i th t (DFree t)
  | DFree t => let* _ := get_task s t in goto (set_tasks s (delete t (tasks s))) Idle
  | _ => Ok s
  end.

(** The second [gp_mtx_lock] comes where an unlock was meant. *)
Definition wait_task (s : pool) (i : nat) (th : thread) : res pool :=
  let goto s p := Ok (put_thread s i (mk_thread (calls th) p)) in
  match at_pc th with
  | TLock t => lock_task s i th t (TTest t)
  | TTest t =>
      let* k := get_task s t in
      if task_busy k =? 0 then goto s (TAgain t) else unlock_task s i th t (TWaiting t)
  | TAgain t => lock_task s i th t Idle
  | _ => Ok s
  end.

Definition destroy_task_processor (s : pool) (i : nat) (th : thread) : res pool :=
  let goto s p := Ok (put_thread s i (mk_thread (calls th) p)) in
  match at_pc th with
  | SLock => lock_pool s i th SStop
  | SStop => goto (set_tp_run s 0) SWake
  | SWake => goto (set_threads s (wake_worker <$> threads s)) SUnlock
  | SUnlock => unlock_pool s i th (SJoin 0)
  | SJoin k =>
      (* gp_tmr_finish of the threads that are workers *)
      match threads s !! k with
      | None => goto s Idle
      | Some (mk_thread _ p) =>
          match p with
          | WLock | WFirst | WTakeLock _ | WTake _ | WTakeUnlock _ | WUnlock _ | WCall _ | WDoneLock _ | WDone _
          | WWake _ | WDoneUnlock _ | WEmpty | WWaiting | WExit => Ok s
          | _ => goto s (SJoin (S k))
          end
      end
  | _ => Ok s
  end.

Definition next_call (s : pool) (i : nat) (th : thread) : res pool :=
  match calls th with
  | [] => Ok s
  | c :: cs =>
      Ok (put_thread s i (mk_thread cs
        match c with
        | Run t => RLock t
        | Wait t => TLock t
        | Destroy t => DLock t
        | Stop => if tp_run s =? 0 then SJoin 0 else SLock
        end))
  end.

(** Thread [i] moves; [choice] decides whom a signal wakes. *)
Definition step (s : pool) (i choice : nat) : res pool :=
  match threads s !! i with
  | None => Ok s
  | Some th =>
      match at_pc th with
      | Idle => next_call s i th
      | RLock _ | RBusy _ | RUnlock _ | RPoolLock _ | RAppend _ | RSignal | RPoolUnlock => run_task s i choice th
      | DLock _ | DTest _ | DWaiting _ | DUnlock _ | DFree _ => destroy_task s i th
      | TLock _ | TTest _ | TWaiting _ | TAgain _ => wait_task s i th
      | SLock | SStop | SWake | SUnlock | SJoin _ => destroy_task_processor s i th
      | _ => gp_task_thread s i th
      end
  end.
(** A wait that ends without a signal. *)
Definition spurious (s : pool) (i : nat) : pool :=
  match threads s !! i with
  | Some th =>
      match at_pc th with
      | WWaiting => put_thread s i (wake_worker th)
      | DWaiting t | TWaiting t => put_thread s i (wake_task t th)
      | _ => s
      end
  | None => s
  end.

Inductive move := Move (i choice : nat) | Spurious (i : nat).
Definition exec (s : pool) (m : move) : res pool :=
  match m with Move i choice => step s i choice | Spurious i => Ok (spurious s i) end.
Fixpoint run (s : pool) (sched : list move) : res pool :=
  match sched with [] => Ok s | m :: sched => let* s := exec s m in run s sched end.

(** A pool of [n] workers over an empty list, tasks [ts], clients with the
    given calls. *)
Definition init_task_processor (n : nat) (ts : list Z) (progs : list (list call)) : pool :=
  let blank := fun t => (t, mk_node 0 0) in
  mk_pool (gp_list_init_offset (mk_mem (list_to_map (blank <$> (tp :: ts))) ∅) tp 0)
    (list_to_map ((fun t => (t, init_task)) <$> ts)) None 1
    (replicate n (mk_thread [] WLock) ++ ((fun cs => mk_thread cs Idle) <$> progs)) [] [].
End Pool.
