(* ===== verification/PoolInv.v ===== *)
(** * gp_threadpool.c: every task runs once, and is not freed before

    A task travels from the calls its client has still to make ([fut]) over
    the client's hands ([tok]) to the list, from there to a worker ([tok]
    again), and ends in [retired]; [task_busy] counts the middle part.  The
    invariant says that the tasks are distributed so, who holds which mutex,
    that whatever a thread refers to is allocated, and that some worker is
    awake when the list is not empty. *)

From S2P Require Import Prelude GpList Pool.
Local Open Scope Z_scope.

(** ** Where tasks are *)
Definition runs (cs : list call) : list Z := omap (fun c => match c with Run t => Some t | _ => None end) cs.
Definition mentions (cs : list call) : list Z :=
  omap (fun c => match c with Run t | Wait t | Destroy t => Some t | Stop => None end) cs.
(** Nothing is done with a task after [destroy_task]. *)
Fixpoint ordered (cs : list call) : Prop :=
  match cs with
  | [] => True
  | Destroy t :: cs => t ∉ mentions cs /\ ordered cs
  | _ :: cs => ordered cs
  end.

Definition tok (th : thread) : list Z :=
  match at_pc th with
  | WTakeUnlock t | WUnlock t | WCall t | WDoneLock t | WDone t | RUnlock t | RPoolLock t | RAppend t => [t]
  | _ => []
  end.
Definition fut (th : thread) : list Z :=
  match at_pc th with RLock t | RBusy t => [t] | _ => [] end ++ runs (calls th).
Definition past (th : thread) : list Z :=
  match at_pc th with WDoneLock t | WDone t => [t] | _ => [] end.

Definition holds_pool (th : thread) : bool :=
  match at_pc th with
  | WFirst | WTakeLock _ | WTake _ | WTakeUnlock _ | WUnlock _ | WEmpty | WExit | RAppend _ | RSignal | RPoolUnlock
  | SStop | SWake | SUnlock => true
  | _ => false
  end.
Definition holds_task (th : thread) : option Z :=
  match at_pc th with
  | WTake t | WTakeUnlock t | WDone t | WWake t | WDoneUnlock t | RBusy t | RUnlock t | DTest t | DUnlock t | TTest t | TAgain t => Some t
  | _ => None
  end.
Definition at_task (p : pc) : option Z :=
  match p with
  | WTakeLock t | WTake t | WTakeUnlock t | WUnlock t | WCall t | WDoneLock t | WDone t | WWake t | WDoneUnlock t
  | RLock t | RBusy t | RUnlock t | RPoolLock t | RAppend t | DLock t | DTest t | DWaiting t | DUnlock t | DFree t
  | TLock t | TTest t | TWaiting t | TAgain t => Some t
  | _ => None
  end.
Definition refs (th : thread) : list Z := option_list (at_task (at_pc th)) ++ mentions (calls th).
Definition is_worker (th : thread) : bool :=
  match at_pc th with
  | WLock | WFirst | WTakeLock _ | WTake _ | WTakeUnlock _ | WUnlock _ | WCall _ | WDoneLock _ | WDone _ | WWake _
  | WDoneUnlock _ | WEmpty | WWaiting | WExit | WFinished => true
  | _ => false
  end.
(** A client's tasks; a worker owns none. *)
Definition owned (th : thread) : list Z := if is_worker th then mentions (calls th) else refs th.
Definition destroying (th : thread) : option Z :=
  match at_pc th with DLock t | DTest t | DWaiting t | DUnlock t | DFree t => Some t | _ => None end.
(** It has seen that nobody uses the task any more. *)
Definition seen_idle (th : thread) : option Z := match at_pc th with DUnlock t | DFree t => Some t | _ => None end.
Definition leaving (th : thread) : option Z := match at_pc th with WWake t | WDoneUnlock t => Some t | _ => None end.
Definition ordered_thread (th : thread) : Prop :=
  ordered (calls th) /\ forall t, destroying th = Some t -> t ∉ mentions (calls th).
(** A worker that will look at the list again, or a client about to signal. *)
Definition attentive (th : thread) : bool :=
  match at_pc th with WWaiting | WExit | WFinished => false | RSignal => true | _ => is_worker th end.
Definition exiting (th : thread) : bool := match at_pc th with WExit | WFinished => true | _ => false end.
(** What the list must be for the thread that holds it. *)
Definition expects (th : thread) (q : list Z) : Prop :=
  match at_pc th with WTakeLock t | WTake t => head q = Some t | WEmpty => q = [] | _ => True end.

Definition toks (s : pool) : list Z := mjoin (tok <$> threads s).
Definition futs (s : pool) : list Z := mjoin (fut <$> threads s).
Definition pasts (s : pool) : list Z := mjoin (past <$> threads s).

(** ** The invariant *)
Section Invariant.
Context (tp : Z) (all : list Z).

Record linv (m : mem) (q : list Z) : Prop := {
  li_rep : exists idl, rep m (mk_lists (<[tp := (0, q)]> ∅) idl) /\ forall t, t ∈ all -> t ∉ q -> t ∈ idl;
  li_null : 0 ∉ all;
}.
Record pinv (q : list Z) (s : pool) : Prop := {
  pi_list : linv (memory s) q;
  pi_tokens : q ++ toks s ++ futs s ++ retired s ≡ₚ all;
  pi_called : called s ≡ₚ retired s ++ pasts s;
  pi_busy : forall t k, tasks s !! t = Some k -> task_busy k = if decide (t ∈ q ++ toks s) then 1 else 0;
  pi_pool : forall i th, threads s !! i = Some th -> holds_pool th = true <-> tp_mtx s = Some i;
  pi_pool_thread : forall i, tp_mtx s = Some i -> is_Some (threads s !! i);
  pi_task : forall i th t k, threads s !! i = Some th -> tasks s !! t = Some k -> holds_task th = Some t <-> task_mtx k = Some i;
  pi_task_thread : forall i t k, tasks s !! t = Some k -> task_mtx k = Some i -> is_Some (threads s !! i);
  pi_alive : forall i th t, threads s !! i = Some th -> t ∈ refs th -> is_Some (tasks s !! t);
  pi_queue_alive : forall t, t ∈ q -> is_Some (tasks s !! t);
  pi_own : forall i j thi thj t, threads s !! i = Some thi -> threads s !! j = Some thj -> t ∈ owned thi -> t ∈ owned thj -> i = j;
  pi_order : forall i th, threads s !! i = Some th -> ordered_thread th;
  pi_idle : forall i j thi thj t, threads s !! i = Some thi -> threads s !! j = Some thj -> seen_idle thi = Some t ->
    t ∉ q ++ toks s /\ leaving thj <> Some t;
  pi_expects : forall i th, threads s !! i = Some th -> expects th q;
  pi_attentive : q <> [] -> tp_run s <> 0 -> exists i th, threads s !! i = Some th /\ attentive th = true;
  pi_exiting : forall i th, threads s !! i = Some th -> exiting th = true -> tp_run s = 0;
  pi_worker : exists i th, threads s !! i = Some th /\ is_worker th = true;
}.
End Invariant.

(** ** Replacing threads *)
Lemma elem_of_toks s t : t ∈ toks s <-> exists i th, threads s !! i = Some th /\ t ∈ tok th.
Proof.
  unfold toks. rewrite elem_of_join_lookup. split.
  - intros (i&c&Hi&Ht). rewrite list_lookup_fmap in Hi. destruct (threads s !! i) as [th|] eqn:E; [|done]. injection Hi as <-. eauto.
  - intros (i&th&Hi&Ht). exists i, (tok th). rewrite list_lookup_fmap, Hi. done.
Qed.
(** The lists of one thread among those of all. *)
Lemma join_thread (f : thread -> list Z) ths i th : ths !! i = Some th ->
  exists rest, mjoin (f <$> ths) ≡ₚ f th ++ rest /\ (forall th', mjoin (f <$> <[i := th']> ths) ≡ₚ f th' ++ rest).
Proof.
  intros Hi. destruct (join_insert_perm (f <$> ths) i (f th)) as (rest&H1&H2); [by rewrite list_lookup_fmap, Hi|].
  exists rest. split; [done|]. intros th'. by rewrite list_fmap_insert.
Qed.

(** A wait that ends. *)
Inductive woken : thread -> thread -> Prop :=
  | woken_same th : woken th th
  | woken_worker cs : woken (mk_thread cs WWaiting) (mk_thread cs WLock)
  | woken_destroy cs t : woken (mk_thread cs (DWaiting t)) (mk_thread cs (DLock t))
  | woken_wait cs t : woken (mk_thread cs (TWaiting t)) (mk_thread cs (TLock t)).
Lemma woken_equal th th' : woken th th' ->
  tok th' = tok th /\ fut th' = fut th /\ past th' = past th /\ holds_pool th' = holds_pool th /\ holds_task th' = holds_task th /\
  refs th' = refs th /\ owned th' = owned th /\ destroying th' = destroying th /\ calls th' = calls th /\
  seen_idle th' = seen_idle th /\ leaving th' = leaving th /\ exiting th' = exiting th /\ is_worker th' = is_worker th.
Proof. by intros []. Qed.
Lemma woken_expects th th' q : woken th th' -> expects th q -> expects th' q.
Proof. by intros []. Qed.
Lemma woken_attentive th th' : woken th th' -> attentive th = true -> attentive th' = true.
Proof. by intros []. Qed.
Lemma wake_task_woken t th : woken th (wake_task t th).
Proof.
  destruct th as [cs p]. unfold wake_task. cbn. destruct p; try apply woken_same; (destruct (decide _) as [->|]; constructor).
Qed.
Lemma wake_worker_woken th : woken th (wake_worker th).
Proof. destruct th as [cs p]. unfold wake_worker. cbn. destruct p; constructor. Qed.

Lemma fmap_woken {A} (f : thread -> A) ths ths' :
  (forall th th', woken th th' -> f th' = f th) -> Forall2 woken ths ths' -> f <$> ths' = f <$> ths.
Proof. intros Hf. induction 1 as [|th th' ths ths' Hw _ IH]; [done|]. by rewrite !fmap_cons, IH, (Hf th th'). Qed.
Lemma woken_back ths ths' i th' : Forall2 woken ths ths' -> ths' !! i = Some th' -> exists th, ths !! i = Some th /\ woken th th'.
Proof. intros Hf Hi. by apply (Forall2_lookup_r _ _ _ _ _ Hf). Qed.
Lemma woken_forth ths ths' i th : Forall2 woken ths ths' -> ths !! i = Some th -> exists th', ths' !! i = Some th' /\ woken th th'.
Proof. intros Hf Hi. by apply (Forall2_lookup_l _ _ _ _ _ Hf). Qed.

Lemma pinv_woken tp all q s ths' :
  Forall2 woken (threads s) ths' -> pinv tp all q s -> pinv tp all q (set_threads s ths').
Proof.
  intros Hf [P1 P2 P3 P4 P5 P6 P7 P8 P9 P10 P11 P12 P13 P14 P15 P16 P17].
  assert (Ht : toks (set_threads s ths') = toks s).
  { unfold toks. cbn. f_equal. apply fmap_woken; [|done]. intros th th' Hw. by destruct (woken_equal _ _ Hw). }
  assert (Hfu : futs (set_threads s ths') = futs s).
  { unfold futs. cbn. f_equal. apply fmap_woken; [|done]. intros th th' Hw. by destruct (woken_equal _ _ Hw) as (_&?&_). }
  assert (Hpa : pasts (set_threads s ths') = pasts s).
  { unfold pasts. cbn. f_equal. apply fmap_woken; [|done]. intros th th' Hw. by destruct (woken_equal _ _ Hw) as (_&_&?&_). }
  assert (Hbk : forall i th', threads (set_threads s ths') !! i = Some th' -> exists th, threads s !! i = Some th /\ woken th th').
  { intros i th' Hi. by eapply woken_back. }
  assert (Hfo : forall i th, threads s !! i = Some th -> exists th', threads (set_threads s ths') !! i = Some th' /\ woken th th').
  { intros i th Hi. by eapply woken_forth. }
  constructor; rewrite ?Ht, ?Hfu, ?Hpa; try done.
  - intros i th' (th&Hi&Hw)%Hbk. destruct (woken_equal _ _ Hw) as (_&_&_&->&_). by apply P5.
  - intros i [th Hi]%P6. destruct (Hfo i th Hi) as (th'&Hi'&_). by eexists.
  - intros i th' t k (th&Hi&Hw)%Hbk. destruct (woken_equal _ _ Hw) as (_&_&_&_&->&_). by apply P7.
  - intros i t k Hk Hm. destruct (P8 i t k Hk Hm) as [th Hi]. destruct (Hfo i th Hi) as (th'&Hi'&_). by eexists.
  - intros i th' t (th&Hi&Hw)%Hbk. destruct (woken_equal _ _ Hw) as (_&_&_&_&_&->&_). by apply (P9 i).
  - intros i j thi' thj' t (thi&Hi&Hwi)%Hbk (thj&Hj&Hwj)%Hbk. destruct (woken_equal _ _ Hwi) as (_&_&_&_&_&_&->&_).
    destruct (woken_equal _ _ Hwj) as (_&_&_&_&_&_&->&_). by apply (P11 i j thi thj t).
  - intros i th' (th&Hi&Hw)%Hbk. destruct (woken_equal _ _ Hw) as (_&_&_&_&_&_&_&Hd&Hc&_). unfold ordered_thread. rewrite Hd, Hc. by apply (P12 i).
  - intros i j thi' thj' t (thi&Hi&Hwi)%Hbk (thj&Hj&Hwj)%Hbk. destruct (woken_equal _ _ Hwi) as (_&_&_&_&_&_&_&_&_&->&_).
    destruct (woken_equal _ _ Hwj) as (_&_&_&_&_&_&_&_&_&_&->&_). by apply (P13 i j).
  - intros i th' (th&Hi&Hw)%Hbk. eapply woken_expects; [done|by eapply P14].
  - intros Hq Hr. destruct (P15 Hq Hr) as (i&th&Hi&Ha). destruct (Hfo i th Hi) as (th'&Hi'&Hw). exists i, th'. split; [done|]. by eapply woken_attentive.
  - intros i th' (th&Hi&Hw)%Hbk. destruct (woken_equal _ _ Hw) as (_&_&_&_&_&_&_&_&_&_&_&->&_). by apply (P16 i).
  - destruct P17 as (i&th&Hi&Hwk). destruct (Hfo i th Hi) as (th'&Hi'&Hw). exists i, th'. split; [done|].
    by destruct (woken_equal _ _ Hw) as (_&_&_&_&_&_&_&_&_&_&_&_&->).
Qed.

(** ** One thread moves *)
Inductive pool_step (i : nat) (th th' : thread) (o o' : option nat) : Prop :=
  | ps_same : o' = o -> holds_pool th' = holds_pool th -> pool_step i th th' o o'
  | ps_lock : o = None -> o' = Some i -> holds_pool th = false -> holds_pool th' = true -> pool_step i th th' o o'
  | ps_unlock : o' = None -> holds_pool th = true -> holds_pool th' = false -> pool_step i th th' o o'.
Inductive task_step (i : nat) (th th' : thread) (K K' : gmap Z gp_task) : Prop :=
  | ts_same : K' = K -> holds_task th' = holds_task th -> task_step i th th' K K'
  | ts_lock t k : K !! t = Some k -> task_mtx k = None -> holds_task th = None -> holds_task th' = Some t ->
      K' = <[t := set_task_mtx k (Some i)]> K -> task_step i th th' K K'
  | ts_unlock t k : K !! t = Some k -> holds_task th = Some t -> holds_task th' = None ->
      K' = <[t := set_task_mtx k None]> K -> task_step i th th' K K'
  | ts_field t k k' : K !! t = Some k -> task_mtx k' = task_mtx k -> holds_task th' = holds_task th ->
      K' = <[t := k']> K -> task_step i th th' K K'.
Lemma task_step_dom i th th' K K' t : task_step i th th' K K' -> is_Some (K' !! t) <-> is_Some (K !! t).
Proof.
  intros [->|? ? ? ? ? ? ->|? ? ? ? ? ->|? ? ? ? ? ? ->]; [done|..]; match goal with |- is_Some (<[?t' := _]> _ !! _) <-> _ => destruct (decide (t = t')) as [->|] end;
    rewrite ?lookup_insert_eq, ?lookup_insert_ne by done; naive_solver.
Qed.

Section Move.
Context (tp : Z) (all : list Z) (Hall : NoDup all).

(** What a step of thread [i] from [th] to [th'] has to provide. *)
Record moves (q q' : list Z) (s s' : pool) (i : nat) (th th' : thread) : Prop := {
  mv_threads : threads s' = <[i := th']> (threads s);
  mv_list : linv tp all (memory s') q';
  mv_tokens : q' ++ tok th' ++ fut th' ++ retired s' ≡ₚ q ++ tok th ++ fut th ++ retired s;
  mv_called : called s' ++ retired s ++ past th ≡ₚ called s ++ retired s' ++ past th';
  mv_busy : forall t k k', tasks s !! t = Some k -> tasks s' !! t = Some k' ->
    (task_busy k' = task_busy k /\ (t ∈ q' ++ tok th' <-> t ∈ q ++ tok th)) \/
    (t ∈ q' ++ tok th' /\ task_busy k' = 1) \/ (t ∈ tok th /\ t ∉ q' ++ tok th' /\ task_busy k' = 0);
  mv_pool : pool_step i th th' (tp_mtx s) (tp_mtx s');
  mv_task : task_step i th th' (tasks s) (tasks s');
  mv_refs : forall t, t ∈ refs th' -> t ∈ refs th ++ q;
  mv_queue : forall t, t ∈ q' -> t ∈ refs th ++ q;
  mv_own : forall t, t ∈ owned th' -> t ∈ owned th;
  mv_order : ordered_thread th';
  mv_new : forall t, t ∈ q' ++ tok th' -> t ∈ q ++ tok th \/ (at_pc th = RBusy t /\ seen_idle th' = None);
  mv_leaving : forall t, leaving th' = Some t -> leaving th = Some t \/ t ∈ tok th;
  mv_idle : forall t, seen_idle th' = Some t -> seen_idle th = Some t \/
    (t ∉ q ++ toks s /\ forall j thj, threads s !! j = Some thj -> leaving thj <> Some t);
  mv_others : q' = q \/ holds_pool th = true;
  mv_expects : expects th' q';
  mv_attentive : q' <> [] -> tp_run s' <> 0 -> exists j thj, threads s' !! j = Some thj /\ attentive thj = true;
  mv_exiting : exiting th' = true -> tp_run s' = 0;
  mv_run : tp_run s = 0 -> tp_run s' = 0;
  mv_worker : is_worker th' = is_worker th;
}.

Context (q q' : list Z) (s s' : pool) (i : nat) (th th' : thread).
Context (H : pinv tp all q s) (Hi : threads s !! i = Some th) (M : moves q q' s s' i th th').

Lemma moved_lookup j thj : threads s' !! j = Some thj -> (j = i /\ thj = th') \/ (j <> i /\ threads s !! j = Some thj).
Proof using Hi M. rewrite (mv_threads _ _ _ _ _ _ _ M). intros [(->&<-&_)|[? ?]]%list_lookup_insert_Some; auto. Qed.
Lemma moved_self : threads s' !! i = Some th'.
Proof using Hi M. rewrite (mv_threads _ _ _ _ _ _ _ M). apply list_lookup_insert_eq. by eapply lookup_lt_Some. Qed.
Lemma moved_other j : j <> i -> threads s' !! j = threads s !! j.
Proof using Hi M. intros Hj. rewrite (mv_threads _ _ _ _ _ _ _ M). by rewrite list_lookup_insert_ne. Qed.

Lemma moved_tokens :
  q' ++ toks s' ++ futs s' ++ retired s' ≡ₚ all /\ called s' ≡ₚ retired s' ++ pasts s' /\
  exists rest, toks s ≡ₚ tok th ++ rest /\ toks s' ≡ₚ tok th' ++ rest.
Proof using H M Hi.
  destruct (join_thread tok _ _ _ Hi) as (r1&A1&B1). destruct (join_thread fut _ _ _ Hi) as (r2&A2&B2).
  destruct (join_thread past _ _ _ Hi) as (r3&A3&B3). unfold toks, futs, pasts. rewrite (mv_threads _ _ _ _ _ _ _ M).
  pose proof (pi_tokens _ _ _ _ H) as HT. pose proof (pi_called _ _ _ _ H) as HC. unfold toks, futs, pasts in *.
  rewrite A1, A2 in HT. rewrite A3 in HC. rewrite B1, B2, B3. split; [|split; [|by exists r1]].
  - rewrite <-HT. pose proof (mv_tokens _ _ _ _ _ _ _ M) as HM.
    transitivity ((q' ++ tok th' ++ fut th' ++ retired s') ++ r1 ++ r2); [solve_Permutation|]. rewrite HM. solve_Permutation.
  - pose proof (mv_called _ _ _ _ _ _ _ M) as HM. rewrite HC in HM.
    apply (Permutation_app_inv_r (retired s ++ past th)).
    transitivity ((called s' ++ retired s ++ past th)); [done|]. rewrite HM. solve_Permutation.
Qed.

(** A task is in one place only. *)
Lemma token_elsewhere t rest : toks s ≡ₚ tok th ++ rest -> t ∈ tok th -> t ∉ q /\ t ∉ rest.
Proof using H Hall.
  intros Hr Ht. assert (Hn : NoDup (q ++ toks s ++ futs s ++ retired s)) by (by rewrite (pi_tokens _ _ _ _ H)).
  rewrite Hr in Hn. split; intros Hin.
  - apply NoDup_app in Hn as (_&Hn&_). apply (Hn t Hin). rewrite !elem_of_app. auto.
  - apply NoDup_app in Hn as (_&_&Hn). rewrite <-app_assoc in Hn. apply NoDup_app in Hn as (_&Hn&_). apply (Hn t Ht). rewrite !elem_of_app. auto.
Qed.
Lemma moved_busy t k : tasks s' !! t = Some k -> task_busy k = if decide (t ∈ q' ++ toks s') then 1 else 0.
Proof using H Hi M Hall.
  intros Hk. destruct moved_tokens as (_&_&rest&R1&R2).
  destruct (proj1 (task_step_dom _ _ _ _ _ t (mv_task _ _ _ _ _ _ _ M))) as [k0 Hk0]; [by eexists|].
  pose proof (pi_busy _ _ _ _ H t k0 Hk0) as Hb.
  assert (E : forall l : list Z, t ∈ l ++ toks s <-> t ∈ l ++ tok th \/ t ∈ rest).
  { intros l. rewrite !elem_of_app, R1, elem_of_app. tauto. }
  assert (E' : t ∈ q' ++ toks s' <-> t ∈ q' ++ tok th' \/ t ∈ rest).
  { rewrite !elem_of_app, R2, elem_of_app. tauto. }
  destruct (mv_busy _ _ _ _ _ _ _ M t k0 k Hk0 Hk) as [[-> Hiff]|[[Hin ->]|(Hin&Hnin&->)]].
  - rewrite Hb. rewrite (decide_ext (t ∈ q ++ toks s) (t ∈ q' ++ toks s')); [done|]. rewrite E, E'. tauto.
  - rewrite decide_True; [done|]. rewrite E'. auto.
  - rewrite decide_False; [done|]. rewrite E'. destruct (token_elsewhere t rest R1 Hin). tauto.
Qed.

Lemma moved_pool j thj : threads s' !! j = Some thj -> holds_pool thj = true <-> tp_mtx s' = Some j.
Proof using H Hi M.
  pose proof (pi_pool _ _ _ _ H i th Hi) as Hp.
  intros [[-> ->]|[Hne Hj]]%moved_lookup.
  - destruct (mv_pool _ _ _ _ _ _ _ M) as [-> ->|H0 -> H1 H2| -> H1 H2]; [done|tauto|]. rewrite H2. split; discriminate.
  - pose proof (pi_pool _ _ _ _ H j thj Hj) as Hpj. destruct (mv_pool _ _ _ _ _ _ _ M) as [-> _|H0 -> H1 H2| -> H1 H2]; [done| |].
    + rewrite Hpj, H0. split; [discriminate|intros [=]; done].
    + apply Hp in H1. rewrite H1 in Hpj. rewrite Hpj. split; [intros [=]; done|discriminate].
Qed.
Lemma moved_pool_thread j : tp_mtx s' = Some j -> is_Some (threads s' !! j).
Proof using H Hi M.
  intros Hj. destruct (decide (j = i)) as [->|Hne]; [rewrite moved_self; by eexists|]. rewrite moved_other by done.
  revert Hj. destruct (mv_pool _ _ _ _ _ _ _ M) as [-> _|_ -> _ _| -> _ _]; [|intros [=]; done|discriminate].
  apply (pi_pool_thread _ _ _ _ H).
Qed.

Lemma moved_task j thj t k : threads s' !! j = Some thj -> tasks s' !! t = Some k -> holds_task thj = Some t <-> task_mtx k = Some j.
Proof using H Hi M.
  intros Hj. pose proof (pi_task _ _ _ _ H) as Hp. pose proof (Hp i th) as Hpi. destruct (moved_lookup _ _ Hj) as [[-> ->]|[Hne Hjo]].
  - destruct (mv_task _ _ _ _ _ _ _ M) as [-> ->|t' k' Hk Hm H1 H2 ->|t' k' Hk H1 H2 ->|t' k0 k' Hk Hm -> ->]; [by apply Hpi|..];
      intros [[-> <-]|[Hn Hk']]%lookup_insert_Some.
    + cbn. rewrite H2. tauto.
    + rewrite <-(Hpi t k Hi Hk'), H1, H2. split; [intros [=]; done|discriminate].
    + cbn. rewrite H2. split; discriminate.
    + rewrite <-(Hpi t k Hi Hk'), H1, H2. split; [discriminate|intros [=]; done].
    + rewrite Hm. by apply Hpi.
    + by apply Hpi.
  - destruct (mv_task _ _ _ _ _ _ _ M) as [-> _|t' k' Hk Hm H1 H2 ->|t' k' Hk H1 H2 ->|t' k0 k' Hk Hm _ ->]; [by apply Hp|..];
      intros [[-> <-]|[Hn Hk']]%lookup_insert_Some; try (by apply Hp).
    + rewrite (Hp j thj t k' Hjo Hk), Hm. cbn. split; [discriminate|intros [=]; done].
    + rewrite (Hp j thj t k' Hjo Hk). apply (Hpi t k' Hi Hk) in H1. rewrite H1. cbn. split; [intros [=]; done|discriminate].
    + rewrite Hm. by apply Hp.
Qed.
Lemma moved_task_thread j t k : tasks s' !! t = Some k -> task_mtx k = Some j -> is_Some (threads s' !! j).
Proof using H Hi M.
  destruct (decide (j = i)) as [->|Hne]; [rewrite moved_self; by eexists|]. rewrite moved_other by done.
  pose proof (pi_task_thread _ _ _ _ H j) as Hp.
  destruct (mv_task _ _ _ _ _ _ _ M) as [-> _|t' k' Hk Hm H1 H2 ->|t' k' Hk H1 H2 ->|t' k0 k' Hk Hm _ ->]; [apply Hp|..];
    intros [[-> <-]|[Hn Hk']]%lookup_insert_Some; try (by apply (Hp t)); cbn.
  - intros [=]; done.
  - discriminate.
  - rewrite Hm. by apply (Hp t).
Qed.

Lemma moved_alive t : t ∈ refs th ++ q -> is_Some (tasks s' !! t).
Proof using H Hi M.
  intros Ht. apply (task_step_dom _ _ _ _ _ t (mv_task _ _ _ _ _ _ _ M)).
  apply elem_of_app in Ht as [Ht|Ht]; [by apply (pi_alive _ _ _ _ H i th t)|by apply (pi_queue_alive _ _ _ _ H)].
Qed.
Lemma seen_idle_owned thj t : seen_idle thj = Some t -> t ∈ owned thj.
Proof.
  destruct thj as [cs p]. unfold seen_idle, owned, is_worker, refs. cbn. destruct p; try done; intros [= ->]; by left.
Qed.
Lemma moved_idle j j' thj thj' t : threads s' !! j = Some thj -> threads s' !! j' = Some thj' -> seen_idle thj = Some t ->
  t ∉ q' ++ toks s' /\ leaving thj' <> Some t.
Proof using H Hi M Hall.
  intros Hj Hj' Hs. destruct moved_tokens as (_&_&rest&R1&R2).
  assert (Hold : (t ∉ q ++ toks s /\ forall j thj, threads s !! j = Some thj -> leaving thj <> Some t) /\
    (j <> i -> t ∈ owned th -> False)).
  { destruct (moved_lookup _ _ Hj) as [[-> ->]|[Hne Hjo]].
    - split; [|done]. destruct (mv_idle _ _ _ _ _ _ _ M t Hs) as [Ho|Ho]; [|done].
      split; [by apply (pi_idle _ _ _ _ H i i th th t)|]. intros k thk Hk. by apply (pi_idle _ _ _ _ H i k th thk t).
    - split.
      + split; [by apply (pi_idle _ _ _ _ H j j thj thj t)|]. intros k thk Hk. by apply (pi_idle _ _ _ _ H j k thj thk t).
      + intros _ Ho. apply Hne. apply (pi_own _ _ _ _ H j i thj th t); [done|done|by apply seen_idle_owned|done]. }
  destruct Hold as [[Hq Hl] Hown]. split.
  - rewrite elem_of_app, R2, elem_of_app. intros Hin. assert (Hc : t ∈ q' ++ tok th' \/ t ∈ rest) by (rewrite elem_of_app; tauto).
    rewrite elem_of_app, R1, elem_of_app in Hq. destruct Hc as [Hc|Hc]; [|tauto].
    destruct (mv_new _ _ _ _ _ _ _ M t Hc) as [Ho|[Hr Hsi]]; [rewrite elem_of_app in Ho; tauto|].
    destruct (decide (j = i)) as [->|Hne].
    + rewrite moved_self in Hj. injection Hj as <-. congruence.
    + apply (Hown Hne). unfold owned, is_worker, refs. rewrite Hr. by left.
  - destruct (moved_lookup _ _ Hj') as [[-> ->]|[_ Hjo]]; [|by eapply Hl]. intros Hlv.
    destruct (mv_leaving _ _ _ _ _ _ _ M t Hlv) as [Ho|Ho]; [by apply (Hl i th Hi)|].
    apply Hq. rewrite elem_of_app, R1, elem_of_app. tauto.
Qed.
Lemma expects_unlocked thj l : holds_pool thj = false -> expects thj l.
Proof. destruct thj as [cs p]. unfold holds_pool, expects. cbn. by destruct p. Qed.

Lemma move_ok : pinv tp all q' s'.
Proof using H Hi M Hall.
  destruct moved_tokens as (T1&T2&_). constructor; try done.
  - apply (mv_list _ _ _ _ _ _ _ M).
  - apply moved_busy.
  - apply moved_pool.
  - apply moved_pool_thread.
  - intros j thj t k. apply moved_task.
  - intros j t k. apply moved_task_thread.
  - intros j thj t [[-> ->]|[Hne Hj]]%moved_lookup Ht.
    + apply moved_alive. by apply (mv_refs _ _ _ _ _ _ _ M).
    + apply (task_step_dom _ _ _ _ _ t (mv_task _ _ _ _ _ _ _ M)). by apply (pi_alive _ _ _ _ H j thj t).
  - intros t Ht. apply moved_alive. by apply (mv_queue _ _ _ _ _ _ _ M).
  - intros j k thj thk t [[-> ->]|[Hne Hj]]%moved_lookup [[-> ->]|[Hne' Hk]]%moved_lookup Hoj Hok; [done|..].
    + apply (mv_own _ _ _ _ _ _ _ M) in Hoj. by apply (pi_own _ _ _ _ H i k th thk t).
    + apply (mv_own _ _ _ _ _ _ _ M) in Hok. by apply (pi_own _ _ _ _ H j i thj th t).
    + by apply (pi_own _ _ _ _ H j k thj thk t).
  - intros j thj [[-> ->]|[Hne Hj]]%moved_lookup; [apply (mv_order _ _ _ _ _ _ _ M)|by apply (pi_order _ _ _ _ H j)].
  - intros j k thj thk t. apply moved_idle.
  - intros j thj [[-> ->]|[Hne Hj]]%moved_lookup; [apply (mv_expects _ _ _ _ _ _ _ M)|].
    pose proof (pi_expects _ _ _ _ H j thj Hj) as He. destruct (mv_others _ _ _ _ _ _ _ M) as [->|Hp]; [done|].
    apply expects_unlocked. destruct (holds_pool thj) eqn:E; [|done]. exfalso. apply Hne.
    apply (pi_pool _ _ _ _ H i th Hi) in Hp. apply (pi_pool _ _ _ _ H j thj Hj) in E. congruence.
  - apply (mv_attentive _ _ _ _ _ _ _ M).
  - intros j thj [[-> ->]|[Hne Hj]]%moved_lookup He; [by apply (mv_exiting _ _ _ _ _ _ _ M)|].
    apply (mv_run _ _ _ _ _ _ _ M). by apply (pi_exiting _ _ _ _ H j thj).
  - destruct (pi_worker _ _ _ _ H) as (j&thj&Hj&Hw). destruct (decide (j = i)) as [->|Hne].
    + exists i, th'. rewrite moved_self. split; [done|]. rewrite (mv_worker _ _ _ _ _ _ _ M). congruence.
    + exists j, thj. by rewrite moved_other.
Qed.
End Move.

(** ** The steps *)
(** Moves that leave the task where it is. *)
Record similar (th th' : thread) : Prop := {
  si_tok : tok th' = tok th;
  si_fut : fut th' = fut th;
  si_past : past th' = past th;
  si_refs : forall t, t ∈ refs th' -> t ∈ refs th;
  si_owned : forall t, t ∈ owned th' -> t ∈ owned th;
  si_calls : calls th' = calls th;
  si_destroying : destroying th' = None \/ destroying th' = destroying th;
  si_seen : seen_idle th' = None \/ seen_idle th' = seen_idle th;
  si_leaving : leaving th' = None \/ leaving th' = leaving th;
  si_attentive : attentive th = true -> attentive th' = true;
  si_exiting : exiting th' = true -> exiting th = true;
  si_worker : is_worker th' = is_worker th;
}.
Lemma keep_attentive tp all q s ths i th th' :
  pinv tp all q s -> threads s !! i = Some th -> ths = <[i := th']> (threads s) -> (attentive th = true -> attentive th' = true) ->
  q <> [] -> tp_run s <> 0 -> exists j thj, ths !! j = Some thj /\ attentive thj = true.
Proof.
  intros H Hi -> Ha Hq Hr. destruct (pi_attentive _ _ _ _ H Hq Hr) as (j&thj&Hj&Hat). destruct (decide (j = i)) as [->|Hne].
  - exists i, th'. rewrite list_lookup_insert_eq by (by eapply lookup_lt_Some). split; [done|]. apply Ha. congruence.
  - exists j, thj. by rewrite list_lookup_insert_ne.
Qed.

Section Steps.
Context (tp : Z) (all : list Z) (Hall : NoDup all).
Implicit Types (s : pool) (th : thread) (q : list Z).

Lemma similar_moves q s s' i th th' :
  pinv tp all q s -> threads s !! i = Some th -> similar th th' -> expects th' q ->
  threads s' = <[i := th']> (threads s) -> memory s' = memory s -> retired s' = retired s -> called s' = called s -> tp_run s' = tp_run s ->
  (forall t k k', tasks s !! t = Some k -> tasks s' !! t = Some k' -> task_busy k' = task_busy k) ->
  pool_step i th th' (tp_mtx s) (tp_mtx s') -> task_step i th th' (tasks s) (tasks s') -> moves tp all q q s s' i th th'.
Proof.
  intros H Hi [S1 S2 S3 S4 S5 S6 S7 S8 S9 S10 S11 S12] He Et Em Er Ec En Hb Hp Hk. pose proof (pi_order _ _ _ _ H i th Hi) as [Ho Hd].
  constructor; try done; rewrite ?Em, ?Er, ?Ec, ?En, ?S1, ?S2, ?S3; try done.
  - apply (pi_list _ _ _ _ H).
  - intros t k k' Hk1 Hk2. left. split; [by eapply Hb|done].
  - intros t Ht. apply elem_of_app. left. auto.
  - intros t Ht. apply elem_of_app. by right.
  - split; [by rewrite S6|]. intros t. rewrite S6. destruct S7 as [-> | ->]; [done|apply Hd].
  - intros t Ht. by left.
  - intros t. destruct S9 as [-> | ->]; [done|by left].
  - intros t. destruct S8 as [-> | ->]; [done|by left].
  - by left.
  - by eapply keep_attentive.
  - intros ?%S11. by apply (pi_exiting _ _ _ _ H i th).
Qed.

(** Only the program counter changes. *)
Lemma goto_ok q s i th th' :
  pinv tp all q s -> threads s !! i = Some th -> similar th th' -> expects th' q ->
  holds_pool th' = holds_pool th -> holds_task th' = holds_task th -> pinv tp all q (put_thread s i th').
Proof.
  intros H Hi Hs He Hp Hk. eapply move_ok; [exact Hall|exact H|exact Hi|]. eapply similar_moves; try done; cbn.
  - intros t k k' ? ?. congruence.
  - by apply ps_same.
  - by apply ts_same.
Qed.
Lemma lock_pool_ok q s i th p :
  let th' := mk_thread (calls th) p in
  pinv tp all q s -> threads s !! i = Some th -> similar th th' -> expects th' q ->
  holds_pool th = false -> holds_pool th' = true -> holds_task th' = holds_task th ->
  exists s', lock_pool s i th p = Ok s' /\ pinv tp all q s'.
Proof.
  intros th' H Hi Hs He H1 H2 Hk. unfold lock_pool. destruct (tp_mtx s) eqn:E; [by exists s|]. eexists. split; [done|].
  eapply move_ok; [exact Hall|exact H|exact Hi|]. eapply similar_moves; try done; cbn.
  - intros t k k' ? ?. congruence.
  - by apply ps_lock.
  - by apply ts_same.
Qed.
Lemma unlock_pool_ok q s i th p :
  let th' := mk_thread (calls th) p in
  pinv tp all q s -> threads s !! i = Some th -> similar th th' -> expects th' q ->
  holds_pool th = true -> holds_pool th' = false -> holds_task th' = holds_task th ->
  exists s', unlock_pool s i th p = Ok s' /\ pinv tp all q s'.
Proof.
  intros th' H Hi Hs He H1 H2 Hk. eexists. split; [done|].
  eapply move_ok; [exact Hall|exact H|exact Hi|]. eapply similar_moves; try done; cbn.
  - intros t k k' ? ?. congruence.
  - by apply ps_unlock.
  - by apply ts_same.
Qed.
Lemma lock_task_ok q s i th t p :
  let th' := mk_thread (calls th) p in
  pinv tp all q s -> threads s !! i = Some th -> similar th th' -> expects th' q -> t ∈ refs th ->
  holds_task th = None -> holds_task th' = Some t -> holds_pool th' = holds_pool th ->
  exists s', lock_task s i th t p = Ok s' /\ pinv tp all q s'.
Proof.
  intros th' H Hi Hs He Ht H1 H2 Hp. unfold lock_task, get_task. destruct (pi_alive _ _ _ _ H i th t Hi Ht) as [k Hk]. rewrite Hk.
  cbn [of_option res_bind]. destruct (task_mtx k) eqn:E; [by exists s|]. eexists. split; [done|].
  eapply move_ok; [exact Hall|exact H|exact Hi|]. eapply similar_moves; try done; cbn.
  - intros u k1 k2 Hk1 [[-> <-]|[_ ?]]%lookup_insert_Some; [cbn|]; congruence.
  - by apply ps_same.
  - by eapply ts_lock.
Qed.
Lemma unlock_task_ok q s i th t p :
  let th' := mk_thread (calls th) p in
  pinv tp all q s -> threads s !! i = Some th -> similar th th' -> expects th' q -> t ∈ refs th ->
  holds_task th = Some t -> holds_task th' = None -> holds_pool th' = holds_pool th ->
  exists s', unlock_task s i th t p = Ok s' /\ pinv tp all q s'.
Proof.
  intros th' H Hi Hs He Ht H1 H2 Hp. unfold unlock_task, get_task. destruct (pi_alive _ _ _ _ H i th t Hi Ht) as [k Hk]. rewrite Hk.
  cbn [of_option res_bind]. eexists. split; [done|].
  eapply move_ok; [exact Hall|exact H|exact Hi|]. eapply similar_moves; try done; cbn.
  - intros u k1 k2 Hk1 [[-> <-]|[_ ?]]%lookup_insert_Some; [cbn|]; congruence.
  - by apply ps_same.
  - by eapply ts_unlock.
Qed.
End Steps.
