(* ===== verification/PoolSafe.v ===== *)
(** * gp_threadpool.c: the steps keep the invariant; the properties *)

From S2P Require Import Prelude GpList Pool PoolInv.
Local Open Scope Z_scope.

Ltac pc_cbn := cbn [tok fut past refs owned is_worker holds_pool holds_task destroying seen_idle leaving attentive exiting expects
  at_pc calls at_task option_list app omap list_omap mentions runs threads memory tasks tp_mtx tp_run called retired
  put_thread set_threads set_memory set_tasks put_task set_tp_mtx set_tp_run log_call log_retired].
(** [similar] between two given program counters. *)
Ltac sim := constructor; unfold owned, refs, tok, fut, past, destroying, seen_idle, leaving, attentive, exiting, is_worker;
  cbn; solve [done | auto | set_solver].

Section Steps.
Context (tp : Z) (all : list Z) (Hall : NoDup all).
Implicit Types (s : pool) (q : list Z) (cs : list call).
Notation th cs p := (mk_thread cs p).

Lemma first_step q s i cs :
  pinv tp all q s -> threads s !! i = Some (th cs WFirst) ->
  exists s', gp_task_thread tp s i (th cs WFirst) = Ok s' /\ pinv tp all q s'.
Proof.
  intros H Hi. destruct (pi_list _ _ _ _ H) as [(idl&Hrep&Hidl) Hnull]. cbn.
  rewrite (first_ok _ _ Hrep tp 0 q) by (cbn; by rewrite lookup_insert_eq). cbn [res_bind]. eexists. split; [done|].
  destruct q as [|t q]; cbn.
  { eapply goto_ok; [exact Hall|exact H|exact Hi|sim|done|done|done]. }
  rewrite Z.sub_0_r. destruct (Z.eqb_spec t 0) as [->|Hne].
  { exfalso. destruct (rep_dll _ _ Hrep tp 0 (0 :: q)) as (_&_&Hn); [cbn; by rewrite lookup_insert_eq|]. by apply (Hn 0); [left|]. }
  eapply move_ok; [exact Hall|exact H|exact Hi|]. pose proof (pi_order _ _ _ _ H i _ Hi) as [Ho Hd].
  constructor; try done; try (by left); cbn.
  - exact (pi_list _ _ _ _ H).
  - intros u k k' ? ?. left. split; [congruence|done].
  - by apply ps_same.
  - by apply ts_same.
  - intros u. unfold refs. cbn. set_solver.
  - set_solver.
  - by eapply keep_attentive.
Qed.

Lemma token_nodup q s : pinv tp all q s -> NoDup (q ++ toks s ++ futs s ++ retired s).
Proof. intros H. by rewrite (pi_tokens _ _ _ _ H). Qed.
Lemma tok_in q s i thi t : pinv tp all q s -> threads s !! i = Some thi -> t ∈ tok thi -> t ∈ toks s /\ t ∉ q /\ t ∈ all.
Proof.
  intros H Hi Ht. assert (Hin : t ∈ toks s) by (apply elem_of_toks; eauto). split; [done|].
  split; [|rewrite <-(pi_tokens _ _ _ _ H), !elem_of_app; auto]. intros Hq. pose proof (token_nodup q s H) as Hn.
  apply NoDup_app in Hn as (_&Hn&_). apply (Hn t Hq). rewrite elem_of_app. by left.
Qed.
Lemma fut_in q s i thi t : pinv tp all q s -> threads s !! i = Some thi -> t ∈ fut thi -> t ∉ q ++ toks s.
Proof.
  intros H Hi Ht Hin. pose proof (token_nodup q s H) as Hn. rewrite app_assoc in Hn. apply NoDup_app in Hn as (_&Hn&_).
  apply (Hn t Hin). rewrite elem_of_app. left. unfold futs. apply elem_of_join_lookup. exists i, (fut thi).
  by rewrite list_lookup_fmap, Hi.
Qed.

Lemma take_step q s i cs t :
  pinv tp all q s -> threads s !! i = Some (th cs (WTake t)) ->
  exists s' q', gp_task_thread tp s i (th cs (WTake t)) = Ok s' /\ pinv tp all q' s'.
Proof.
  intros H Hi. pose proof (pi_expects _ _ _ _ H i _ Hi) as He. cbn in He. destruct q as [|t' q]; [done|]. injection He as ->.
  destruct (pi_list _ _ _ _ H) as [(idl&Hrep&Hidl) Hnull].
  destruct (unlink_node_ok _ _ Hrep tp 0 [] t q) as (m&Hm&Hrep'); [cbn; by rewrite lookup_insert_eq|].
  destruct (pi_queue_alive _ _ _ _ H t) as [k Hk]; [by left|].
  assert (Ho : offsets (memory s) !! tp = Some 0) by (destruct (rep_dll _ _ Hrep tp 0 (t :: q)) as (_&?&_); [cbn; by rewrite lookup_insert_eq|done]).
  cbn. unfold gp_list_remove. pose proof (NODE_ok _ _ _ t Ho) as HN. rewrite Z.sub_0_r in HN. rewrite HN. cbn [res_bind]. rewrite Hm. cbn [res_bind].
  unfold get_task. cbn. rewrite Hk. cbn [of_option res_bind]. eexists _, q. split; [done|].
  eapply move_ok; [exact Hall|exact H|exact Hi|]. pose proof (pi_order _ _ _ _ H i _ Hi) as [Hor Hd].
  assert (Hnq : t ∉ q) by (pose proof (token_nodup _ _ H) as Hn; cbn in Hn; apply NoDup_cons in Hn as [Hn _]; rewrite elem_of_app in Hn; tauto).
  constructor; try done; try (by left); cbn.
  - split; [|done]. eexists. cbn in Hrep'. unfold put, release in Hrep'. cbn in Hrep'. rewrite insert_insert_eq in Hrep'. split; [exact Hrep'|].
    intros u Hu Huq. destruct (decide (u = t)) as [->|Hut]; [set_solver|]. assert (u ∈ idl) by (apply Hidl; set_solver). set_solver.
  - rewrite <-Permutation_middle. done.
  - intros u k1 k2 Hk1 [[-> <-]|[Hne Hk2]]%lookup_insert_Some; left; (split; [cbn; congruence|set_solver]).
  - by apply ps_same.
  - eapply (ts_field _ _ _ _ _ t k (set_tmr k (Some i))); done.
  - intros u. unfold refs. cbn. set_solver.
  - intros u. unfold refs. cbn. set_solver.
  - set_solver.
  - by right.
  - intros Hq Hr. eapply keep_attentive; [exact H|exact Hi|done|done|done|exact Hr].
Qed.

Lemma call_step q s i cs t :
  pinv tp all q s -> threads s !! i = Some (th cs (WCall t)) ->
  exists s', gp_task_thread tp s i (th cs (WCall t)) = Ok s' /\ pinv tp all q s'.
Proof.
  intros H Hi. cbn. unfold get_task. destruct (pi_alive _ _ _ _ H i _ t Hi) as [k Hk]; [by left|]. rewrite Hk.
  cbn [of_option res_bind]. eexists. split; [done|]. eapply move_ok; [exact Hall|exact H|exact Hi|].
  pose proof (pi_order _ _ _ _ H i _ Hi) as [Hor Hd]. constructor; try done; try (by left); cbn.
  - exact (pi_list _ _ _ _ H).
  - rewrite app_nil_r. solve_Permutation.
  - intros u k1 k2 ? ?. left. split; [congruence|done].
  - by apply ps_same.
  - by apply ts_same.
  - intros u. unfold refs. cbn. set_solver.
  - set_solver.
  - by eapply keep_attentive.
Qed.

Lemma done_step q s i cs t :
  pinv tp all q s -> threads s !! i = Some (th cs (WDone t)) ->
  exists s', gp_task_thread tp s i (th cs (WDone t)) = Ok s' /\ pinv tp all q s'.
Proof.
  intros H Hi. cbn. unfold get_task. destruct (pi_alive _ _ _ _ H i _ t Hi) as [k Hk]; [by left|]. rewrite Hk.
  cbn [of_option res_bind]. eexists. split; [done|]. eapply move_ok; [exact Hall|exact H|exact Hi|].
  pose proof (pi_order _ _ _ _ H i _ Hi) as [Hor Hd]. destruct (tok_in q s i _ t H Hi) as (Ht&Hq&_); [by left|].
  assert (Hb : task_busy k = 1) by (rewrite (pi_busy _ _ _ _ H t k Hk); apply decide_True; rewrite elem_of_app; by right).
  constructor; try done; try (by left); cbn.
  - exact (pi_list _ _ _ _ H).
  - solve_Permutation.
  - rewrite app_nil_r. solve_Permutation.
  - intros u k1 k2 Hk1 [[-> <-]|[Hne Hk2]]%lookup_insert_Some; [right; right; rewrite Hb; set_solver|left; split; [congruence|set_solver]].
  - by apply ps_same.
  - eapply (ts_field _ _ _ _ _ t k (set_tmr (set_busy k (u32 (task_busy k - 1))) None)); done.
  - intros u. unfold refs. cbn. set_solver.
  - set_solver.
  - intros u Hu. left. set_solver.
  - intros u [= ->]. right. by left.
  - by eapply keep_attentive.
Qed.

Lemma wake_step q s i cs t :
  pinv tp all q s -> threads s !! i = Some (th cs (WWake t)) ->
  exists s', gp_task_thread tp s i (th cs (WWake t)) = Ok s' /\ pinv tp all q s'.
Proof.
  intros H Hi. cbn. unfold get_task. destruct (pi_alive _ _ _ _ H i _ t Hi) as [k Hk]; [by left|]. rewrite Hk.
  cbn [of_option res_bind]. eexists. split; [done|]. destruct (task_busy k =? 0).
  - apply (goto_ok tp all Hall q _ i (th cs (WWake t))); [eapply pinv_woken; [|exact H]| |sim|done|done|done].
    + apply Forall2_fmap_r, Forall_Forall2_diag, Forall_true. intros x. apply wake_task_woken.
    + cbn. by rewrite list_lookup_fmap, Hi.
  - eapply goto_ok; [exact Hall|exact H|exact Hi|sim|done|done|done].
Qed.

Lemma empty_step q s i cs :
  pinv tp all q s -> threads s !! i = Some (th cs WEmpty) ->
  exists s', gp_task_thread tp s i (th cs WEmpty) = Ok s' /\ pinv tp all q s'.
Proof.
  intros H Hi. pose proof (pi_expects _ _ _ _ H i _ Hi) as Hq. cbn in Hq. subst q. pose proof (pi_order _ _ _ _ H i _ Hi) as [Hor Hd].
  cbn. destruct (Z.eqb_spec (tp_run s) 0) as [Hr|Hr]; (eexists; split; [done|]); (eapply move_ok; [exact Hall|exact H|exact Hi|]);
    constructor; try done; try (by left); cbn; try exact (pi_list _ _ _ _ H).
  - intros u k1 k2 ? ?. left. split; [congruence|done].
  - by apply ps_same.
  - by apply ts_same.
  - intros u. set_solver.
  - intros u. set_solver.
  - intros u k1 k2 ? ?. left. split; [congruence|done].
  - by apply ps_unlock.
  - by apply ts_same.
  - intros u. set_solver.
  - intros u. set_solver.
Qed.

Lemma busy_step q s i cs t :
  pinv tp all q s -> threads s !! i = Some (th cs (RBusy t)) ->
  exists s', run_task tp s i 0 (th cs (RBusy t)) = Ok s' /\ pinv tp all q s'.
Proof.
  intros H Hi. cbn. unfold get_task. destruct (pi_alive _ _ _ _ H i _ t Hi) as [k Hk]; [by left|]. rewrite Hk.
  cbn [of_option res_bind]. eexists. split; [done|]. eapply move_ok; [exact Hall|exact H|exact Hi|].
  pose proof (pi_order _ _ _ _ H i _ Hi) as [Hor Hd].
  assert (Ht : t ∉ q ++ toks s) by (apply (fut_in q s i (th cs (RBusy t)) t H Hi); by left).
  assert (Hb : task_busy k = 0) by (rewrite (pi_busy _ _ _ _ H t k Hk); by apply decide_False).
  constructor; try done; try (by left); cbn.
  - exact (pi_list _ _ _ _ H).
  - intros u k1 k2 Hk1 [[-> <-]|[Hne Hk2]]%lookup_insert_Some; [right; left; rewrite Hb; set_solver|left; split; [congruence|set_solver]].
  - by apply ps_same.
  - eapply (ts_field _ _ _ _ _ t k (set_busy k (u32 (task_busy k + 1)))); done.
  - intros u. unfold refs. cbn. set_solver.
  - set_solver.
  - intros u. rewrite elem_of_app. intros [Hu|Hu%list_elem_of_singleton]; [left; set_solver|right; by rewrite Hu].
  - by eapply keep_attentive.
Qed.

Lemma append_step q s i cs t :
  pinv tp all q s -> threads s !! i = Some (th cs (RAppend t)) ->
  exists s', run_task tp s i 0 (th cs (RAppend t)) = Ok s' /\ pinv tp all (q ++ [t]) s'.
Proof.
  intros H Hi. destruct (pi_list _ _ _ _ H) as [(idl&Hrep&Hidl) Hnull].
  destruct (tok_in q s i _ t H Hi) as (Ht&Hq&Hta); [by left|]. pose proof (pi_order _ _ _ _ H i _ Hi) as [Hor Hd].
  assert (Hnz : t - 0 <> 0) by (intros Hz; apply Hnull; by replace 0 with t by lia).
  destruct (append_ok _ _ Hrep tp 0 q t) as (m&Hm&Hrep'); [cbn; by rewrite lookup_insert_eq|by apply Hidl|done|].
  rewrite Z.sub_0_r in Hm. cbn. rewrite Hm. cbn [res_bind]. eexists. split; [done|].
  eapply move_ok; [exact Hall|exact H|exact Hi|]. constructor; try done; try (by left); cbn.
  - split; [|done]. eexists. unfold put, grab in Hrep'. cbn in Hrep'. rewrite insert_insert_eq in Hrep'. split; [exact Hrep'|].
    intros u Hu Huq. rewrite elem_of_app, list_elem_of_singleton in Huq. assert (u ∈ idl) by (apply Hidl; tauto). set_solver.
  - rewrite <-app_assoc. done.
  - intros u k1 k2 ? ?. left. split; [congruence|]. rewrite app_nil_r. done.
  - by apply ps_same.
  - by apply ts_same.
  - intros u. unfold refs. cbn. set_solver.
  - intros u. unfold refs. cbn. set_solver.
  - set_solver.
  - intros u. rewrite app_nil_r. auto.
  - by right.
  - intros _ _. exists i, (th cs RSignal). split; [|done]. apply list_lookup_insert_eq. by eapply lookup_lt_Some.
Qed.

Lemma woken_insert ths i a b : ths !! i = Some a -> woken a b -> Forall2 woken ths (<[i := b]> ths).
Proof.
  intros Hi Hw. rewrite <-(list_insert_id ths i a) at 1 by done. apply Forall2_insert; [|done].
  apply Forall_Forall2_diag, Forall_true. intros x. constructor.
Qed.
(** The signal: a worker that waits is woken, or none waits. *)
Lemma signalled_step q s i cs :
  pinv tp all q s -> threads s !! i = Some (th cs RSignal) ->
  (q <> [] -> tp_run s <> 0 -> exists j thj, j <> i /\ threads s !! j = Some thj /\ attentive thj = true) ->
  pinv tp all q (put_thread s i (th cs RPoolUnlock)).
Proof.
  intros H Hi Ha. eapply move_ok; [exact Hall|exact H|exact Hi|]. pose proof (pi_order _ _ _ _ H i _ Hi) as [Hor Hd].
  constructor; try done; try (by left); cbn.
  - exact (pi_list _ _ _ _ H).
  - intros u k1 k2 ? ?. left. split; [congruence|done].
  - by apply ps_same.
  - by apply ts_same.
  - intros u. unfold refs. cbn. set_solver.
  - set_solver.
  - intros Hq Hr. destruct (Ha Hq Hr) as (j&thj&Hne&Hj&Hat). exists j, thj. by rewrite list_lookup_insert_ne.
Qed.
Lemma signal_step q s i choice cs :
  pinv tp all q s -> threads s !! i = Some (th cs RSignal) ->
  exists s', run_task tp s i choice (th cs RSignal) = Ok s' /\ pinv tp all q s'.
Proof.
  intros H Hi. cbn. destruct (existsb _ (threads s)) eqn:E.
  - destruct (threads s !! choice) as [[cs' p]|] eqn:Ec; [|by exists s]. destruct p; try (by exists s). eexists. split; [done|].
    assert (Hne : choice <> i) by (intros ->; congruence).
    apply signalled_step; [|cbn; by rewrite list_lookup_insert_ne|].
    + apply pinv_woken; [|exact H]. eapply woken_insert; [exact Ec|constructor].
    + intros _ _. exists choice, (th cs' WLock). split; [done|]. split; [|done]. apply list_lookup_insert_eq. by eapply lookup_lt_Some.
  - eexists. split; [done|]. apply signalled_step; [done|done|]. intros _ Hr.
    destruct (pi_worker _ _ _ _ H) as (j&thj&Hj&Hw). exists j, thj. split; [intros ->; rewrite Hi in Hj; injection Hj as <-; done|]. split; [done|].
    assert (Hnw : at_pc thj <> WWaiting).
    { intros Hp. assert (Hex : existsb (fun th => bool_decide (at_pc th = WWaiting)) (threads s) = true); [|congruence].
      apply existsb_exists. exists thj. split; [apply list_elem_of_In, (list_elem_of_lookup_2 _ _ _ Hj)|by apply bool_decide_eq_true]. }
    assert (Hnx : exiting thj = false) by (destruct (exiting thj) eqn:Ex; [|done]; by apply (pi_exiting _ _ _ _ H j thj) in Ex).
    destruct thj as [cs' p]. unfold attentive, exiting, is_worker in *. cbn in *. by destruct p.
Qed.

(** The task is seen to be idle: nobody else will touch it. *)
Lemma test_step q s i cs t :
  pinv tp all q s -> threads s !! i = Some (th cs (DTest t)) ->
  exists s', destroy_task s i (th cs (DTest t)) = Ok s' /\ pinv tp all q s'.
Proof.
  intros H Hi. cbn. unfold get_task. destruct (pi_alive _ _ _ _ H i _ t Hi) as [k Hk]; [by left|]. rewrite Hk.
  cbn [of_option res_bind]. destruct (Z.eqb_spec (task_busy k) 0) as [Hb|Hb].
  2: { apply (unlock_task_ok tp all Hall q s i (th cs (DTest t)) t (DWaiting t)); try done; [sim|by left]. }
  eexists. split; [done|]. eapply move_ok; [exact Hall|exact H|exact Hi|]. pose proof (pi_order _ _ _ _ H i _ Hi) as [Hor Hd].
  assert (Hm : task_mtx k = Some i) by (by apply (pi_task _ _ _ _ H i (th cs (DTest t)) t k)).
  constructor; try done; try (by left); cbn.
  - exact (pi_list _ _ _ _ H).
  - intros u k1 k2 ? ?. left. split; [congruence|done].
  - by apply ps_same.
  - by apply ts_same.
  - intros u. unfold refs. cbn. set_solver.
  - set_solver.
  - intros u [= <-]. right. split.
    + intros Hin. rewrite (pi_busy _ _ _ _ H t k Hk), decide_True in Hb by done. done.
    + intros j thj Hj Hl. assert (Hh : holds_task thj = Some t).
      { destruct thj as [cs' p]. unfold leaving, holds_task in *. cbn in *. by destruct p. }
      apply (pi_task _ _ _ _ H j thj t k Hj Hk) in Hh. assert (j = i) as -> by congruence. rewrite Hi in Hj. by injection Hj as <-.
  - by eapply keep_attentive.
Qed.
Lemma wtest_step q s i cs t :
  pinv tp all q s -> threads s !! i = Some (th cs (TTest t)) ->
  exists s', wait_task s i (th cs (TTest t)) = Ok s' /\ pinv tp all q s'.
Proof.
  intros H Hi. cbn. unfold get_task. destruct (pi_alive _ _ _ _ H i _ t Hi) as [k Hk]; [by left|]. rewrite Hk.
  cbn [of_option res_bind]. destruct (task_busy k =? 0).
  - eexists. split; [done|]. eapply goto_ok; [exact Hall|exact H|exact Hi|sim|done|done|done].
  - apply (unlock_task_ok tp all Hall q s i (th cs (TTest t)) t (TWaiting t)); try done; [sim|by left].
Qed.

(** Freeing a task that nobody refers to. *)
Lemma free_task_ok q s t :
  pinv tp all q s -> t ∉ q -> (forall j thj, threads s !! j = Some thj -> t ∉ refs thj) ->
  pinv tp all q (set_tasks s (delete t (tasks s))).
Proof.
  intros [P1 P2 P3 P4 P5 P6 P7 P8 P9 P10 P11 P12 P13 P14 P15 P16 P17] Hq Hr. constructor; try done; cbn.
  - intros u k [_ Hk]%lookup_delete_Some. by apply P4.
  - intros i thi u k Hi [_ Hk]%lookup_delete_Some. by apply P7.
  - intros i u k [_ Hk]%lookup_delete_Some. by apply (P8 i u).
  - intros i thi u Hi Hu. rewrite lookup_delete_ne; [by apply (P9 i thi)|]. intros <-. by apply (Hr i thi).
  - intros u Hu. rewrite lookup_delete_ne; [by apply P10|]. by intros <-.
Qed.
Lemma worker_refers q thj t : is_worker thj = true -> at_task (at_pc thj) = Some t -> expects thj q ->
  t ∈ tok thj \/ leaving thj = Some t \/ t ∈ q.
Proof.
  destruct thj as [cs p]. unfold is_worker, tok, leaving, expects. cbn. destruct p; try done; intros _ [= ->]; intros He;
    try (by left; left); try (by right; left); right; right; destruct q; try done; injection He as ->; by left.
Qed.
Lemma free_step q s i cs t :
  pinv tp all q s -> threads s !! i = Some (th cs (DFree t)) ->
  exists s', destroy_task s i (th cs (DFree t)) = Ok s' /\ pinv tp all q s'.
Proof.
  intros H Hi. cbn. unfold get_task. destruct (pi_alive _ _ _ _ H i _ t Hi) as [k Hk]; [by left|]. rewrite Hk.
  cbn [of_option res_bind]. eexists. split; [done|].
  assert (Hgone : t ∉ q ++ toks s /\ forall j thj, threads s !! j = Some thj -> leaving thj <> Some t).
  { split; [by apply (pi_idle _ _ _ _ H i i _ _ t Hi Hi)|]. intros j thj Hj. by apply (pi_idle _ _ _ _ H i j _ _ t Hi Hj). }
  destruct Hgone as [Hnt Hnl]. rewrite elem_of_app in Hnt. destruct (pi_order _ _ _ _ H i _ Hi) as [_ Hd].
  change (pinv tp all q (set_tasks (put_thread s i (th cs Idle)) (delete t (tasks (put_thread s i (th cs Idle)))))).
  apply free_task_ok; [eapply goto_ok; [exact Hall|exact H|exact Hi|sim|done|done|done]|tauto|].
  intros j thj [(->&<-&_)|[Hne Hj]]%list_lookup_insert_Some; [unfold refs; cbn; by apply Hd|]. intros Hin.
  assert (Hown : t ∈ owned thj -> False).
  { intros Ho. apply Hne. symmetry. apply (pi_own _ _ _ _ H j i thj _ t Hj Hi Ho). by left. }
  unfold owned in Hown. destruct (is_worker thj) eqn:Ew; [|done]. unfold refs in Hin. apply elem_of_app in Hin as [Hin|Hin]; [|done].
  destruct (at_task (at_pc thj)) as [u|] eqn:Ea; [|by apply elem_of_nil in Hin]. apply list_elem_of_singleton in Hin as <-.
  destruct (worker_refers q thj t Ew Ea (pi_expects _ _ _ _ H j thj Hj)) as [Ht|[Ht|Ht]]; [|by eapply Hnl|tauto].
  destruct (tok_in q s j thj t H Hj Ht). tauto.
Qed.

(** *** Stopping, and the next call *)
Lemma stop_step q s i cs :
  pinv tp all q s -> threads s !! i = Some (th cs SStop) ->
  exists s', destroy_task_processor s i (th cs SStop) = Ok s' /\ pinv tp all q s'.
Proof.
  intros H Hi. eexists. split; [done|]. eapply move_ok; [exact Hall|exact H|exact Hi|].
  pose proof (pi_order _ _ _ _ H i _ Hi) as [Hor Hd]. constructor; try done; try (by left); cbn.
  - exact (pi_list _ _ _ _ H).
  - intros u k1 k2 ? ?. left. split; [congruence|done].
  - by apply ps_same.
  - by apply ts_same.
  - intros u. unfold refs. cbn. set_solver.
  - set_solver.
Qed.
Lemma join_step q s i cs k :
  pinv tp all q s -> threads s !! i = Some (th cs (SJoin k)) ->
  exists s', destroy_task_processor s i (th cs (SJoin k)) = Ok s' /\ pinv tp all q s'.
Proof.
  intros H Hi. cbn.
  assert (Hg : forall p, p = Idle \/ p = SJoin (S k) -> exists s', Ok (put_thread s i (th cs p)) = Ok s' /\ pinv tp all q s').
  { intros p Hp. eexists. split; [done|]. eapply goto_ok; [exact Hall|exact H|exact Hi|destruct Hp as [-> | ->]; sim|by destruct Hp as [-> | ->]..]. }
  destruct (threads s !! k) as [[cs' p]|]; [|by apply Hg; left]. destruct p; try (by exists s); by apply Hg; right.
Qed.
Lemma next_call_ok q s i cs :
  pinv tp all q s -> threads s !! i = Some (th cs Idle) ->
  exists s', next_call s i (th cs Idle) = Ok s' /\ pinv tp all q s'.
Proof.
  intros H Hi. unfold next_call. cbn. destruct cs as [|c cs]; [by exists s|]. generalize (tp_run s =? 0). intros b. eexists. split; [done|].
  eapply move_ok; [exact Hall|exact H|exact Hi|]. pose proof (pi_order _ _ _ _ H i _ Hi) as [Hor Hd]. cbn in Hor.
  constructor; try done; try (by left); cbn.
  - exact (pi_list _ _ _ _ H).
  - by destruct c, b.
  - by destruct c, b.
  - intros u k1 k2 ? ?. left. split; [congruence|]. by destruct c, b.
  - apply ps_same; [done|]. by destruct c, b.
  - apply ts_same; [done|]. by destruct c, b.
  - intros u. unfold refs. destruct c, b; cbn; set_solver.
  - set_solver.
  - intros u. unfold owned, refs. destruct c, b; cbn; set_solver.
  - unfold ordered_thread. destruct c, b; cbn in *; (split; [tauto|]); try done; intros u [= <-]; tauto.
  - intros u Hu. left. by destruct c, b.
  - intros u. by destruct c, b.
  - intros u. by destruct c, b.
  - by destruct c, b.
  - eapply keep_attentive; [exact H|exact Hi|done|]. by destruct c, b.
  - by destruct c, b.
  - by destruct c, b.
Qed.

Lemma same_queue q (r : res pool) :
  (exists s', r = Ok s' /\ pinv tp all q s') -> exists s' q', r = Ok s' /\ pinv tp all q' s'.
Proof. intros (s'&?&?). by exists s', q. Qed.
Lemma worker_step_ok q s i cs p :
  pinv tp all q s -> threads s !! i = Some (th cs p) -> is_worker (th cs p) = true ->
  exists s' q', gp_task_thread tp s i (th cs p) = Ok s' /\ pinv tp all q' s'.
Proof.
  intros H Hi Hw. pose proof (pi_expects _ _ _ _ H i _ Hi) as He.
  destruct p; try done; try (by exists s, q); cbn in He.
  - by apply (same_queue q), (lock_pool_ok tp all Hall q s i (th cs WLock)); try sim.
  - by apply (same_queue q), first_step.
  - apply (same_queue q), (lock_task_ok tp all Hall q s i (th cs (WTakeLock t)) t (WTake t)); try done; [sim|by left].
  - by eapply take_step.
  - apply (same_queue q), (unlock_task_ok tp all Hall q s i (th cs (WTakeUnlock t)) t (WUnlock t)); try done; [sim|by left].
  - by apply (same_queue q), (unlock_pool_ok tp all Hall q s i (th cs (WUnlock t))); try sim.
  - by apply (same_queue q), call_step.
  - apply (same_queue q), (lock_task_ok tp all Hall q s i (th cs (WDoneLock t)) t (WDone t)); try done; [sim|by left].
  - by apply (same_queue q), done_step.
  - by apply (same_queue q), wake_step.
  - apply (same_queue q), (unlock_task_ok tp all Hall q s i (th cs (WDoneUnlock t)) t WLock); try done; [sim|by left].
  - by apply (same_queue q), empty_step.
  - by apply (same_queue q), (unlock_pool_ok tp all Hall q s i (th cs WExit)); try sim.
Qed.
Lemma run_step_ok q s i choice cs p :
  pinv tp all q s -> threads s !! i = Some (th cs p) ->
  match p with RLock _ | RBusy _ | RUnlock _ | RPoolLock _ | RAppend _ | RSignal | RPoolUnlock => True | _ => False end ->
  exists s' q', run_task tp s i choice (th cs p) = Ok s' /\ pinv tp all q' s'.
Proof.
  intros H Hi Hp. destruct p; try done.
  - apply (same_queue q), (lock_task_ok tp all Hall q s i (th cs (RLock t)) t (RBusy t)); try done; [sim|by left].
  - by apply (same_queue q), busy_step.
  - apply (same_queue q), (unlock_task_ok tp all Hall q s i (th cs (RUnlock t)) t (RPoolLock t)); try done; [sim|by left].
  - by apply (same_queue q), (lock_pool_ok tp all Hall q s i (th cs (RPoolLock t))); try sim.
  - destruct (append_step q s i cs t H Hi) as (s'&?&?). by exists s', (q ++ [t]).
  - by apply (same_queue q), signal_step.
  - by apply (same_queue q), (unlock_pool_ok tp all Hall q s i (th cs RPoolUnlock)); try sim.
Qed.
Lemma client_step_ok q s i choice cs p :
  pinv tp all q s -> threads s !! i = Some (th cs p) -> is_worker (th cs p) = false ->
  exists s' q', step tp s i choice = Ok s' /\ pinv tp all q' s'.
Proof.
  intros H Hi Hw. unfold step. rewrite Hi. cbn [at_pc].
  destruct p; try done; try (by apply (run_step_ok q)); apply (same_queue q); try (by exists s).
  - by apply next_call_ok.
  - apply (lock_task_ok tp all Hall q s i (th cs (DLock t)) t (DTest t)); try done; [sim|by left].
  - by apply test_step.
  - apply (unlock_task_ok tp all Hall q s i (th cs (DUnlock t)) t (DFree t)); try done; [sim|by left].
  - by apply free_step.
  - apply (lock_task_ok tp all Hall q s i (th cs (TLock t)) t (TTest t)); try done; [sim|by left].
  - by apply wtest_step.
  - cbn. unfold lock_task, get_task. destruct (pi_alive _ _ _ _ H i _ t Hi) as [k Hk]; [by left|]. rewrite Hk. cbn [of_option res_bind].
    assert (Hm : task_mtx k = Some i) by (by apply (pi_task _ _ _ _ H i (th cs (TAgain t)) t k)). rewrite Hm. by exists s.
  - by apply (lock_pool_ok tp all Hall q s i (th cs SLock)); try sim.
  - by apply stop_step.
  - cbn. eexists. split; [done|]. apply (goto_ok tp all Hall q _ i (th cs SWake)); [eapply pinv_woken; [|exact H]| |sim|done|done|done].
    + apply Forall2_fmap_r, Forall_Forall2_diag, Forall_true. intros x. apply wake_worker_woken.
    + cbn. by rewrite list_lookup_fmap, Hi.
  - by apply (unlock_pool_ok tp all Hall q s i (th cs SUnlock)); try sim.
  - by apply join_step.
Qed.

Lemma pool_step_ok q s i choice : pinv tp all q s -> exists s' q', step tp s i choice = Ok s' /\ pinv tp all q' s'.
Proof.
  intros H. destruct (threads s !! i) as [[cs p]|] eqn:Hi; [|exists s, q; split; [by unfold step; rewrite Hi|done]].
  destruct (is_worker (th cs p)) eqn:Hw; [|by eapply client_step_ok]. unfold step. rewrite Hi. cbn [at_pc].
  destruct (worker_step_ok q s i cs p H Hi Hw) as (s'&q'&E&H'). exists s', q'. split; [|done]. rewrite <-E. by destruct p.
Qed.
Lemma pool_exec_ok q s m : pinv tp all q s -> exists s' q', exec tp s m = Ok s' /\ pinv tp all q' s'.
Proof.
  intros H. destruct m as [i choice|i]; [by eapply pool_step_ok|]. eexists _, q. split; [done|]. unfold spurious.
  destruct (threads s !! i) as [[cs p]|] eqn:Hi; [|done].
  destruct p; try done; (apply pinv_woken; [|exact H]); (eapply woken_insert; [exact Hi|]).
  - apply wake_worker_woken.
  - apply wake_task_woken.
  - apply wake_task_woken.
Qed.
Lemma pool_run_ok q s sched : pinv tp all q s -> exists s' q', run tp s sched = Ok s' /\ pinv tp all q' s'.
Proof.
  revert q s. induction sched as [|m sched IH]; intros q s H; [by exists s, q|]. cbn [run].
  destruct (pool_exec_ok q s m H) as (s1&q1&->&H1). cbn [res_bind]. by eapply IH.
Qed.
End Steps.

(** ** The initial pool *)
Record wf_pool (tp : Z) (n : nat) (ts : list Z) (progs : list (list call)) : Prop := {
  wf_workers : (0 < n)%nat;
  wf_addresses : NoDup (tp :: ts) /\ 0 ∉ tp :: ts;
  wf_mentions : forall cs t, cs ∈ progs -> t ∈ mentions cs -> t ∈ ts;
  wf_once : NoDup (runs (mjoin progs));
  wf_owners : forall i j ci cj t, progs !! i = Some ci -> progs !! j = Some cj -> t ∈ mentions ci -> t ∈ mentions cj -> i = j;
  wf_ordered : forall cs, cs ∈ progs -> ordered cs;
}.
Lemma runs_mentions cs t : t ∈ runs cs -> t ∈ mentions cs.
Proof. unfold runs, mentions. rewrite !list_elem_of_omap. intros (c&Hc&Ht). exists c. split; [done|]. by destruct c. Qed.
Lemma runs_join progs t : t ∈ runs (mjoin progs) <-> exists cs, cs ∈ progs /\ t ∈ runs cs.
Proof.
  unfold runs. rewrite list_elem_of_omap. setoid_rewrite list_elem_of_omap. setoid_rewrite list_elem_of_join.
  split; [intros (c&(cs&?&?)&?); eauto 6|intros (cs&?&c&?&?); eauto 6].
Qed.

Section Init.
Context (tp : Z) (n : nat) (ts : list Z) (progs : list (list call)) (W : wf_pool tp n ts progs).
Notation s0 := (init_task_processor tp n ts progs).
Lemma init_thread i th : threads s0 !! i = Some th ->
  th = mk_thread [] WLock \/ exists cs j, progs !! j = Some cs /\ i = (n + j)%nat /\ th = mk_thread cs Idle.
Proof.
  cbn. intros [Hi|[Hl Hi]]%lookup_app_Some.
  - apply lookup_replicate in Hi as [-> _]. by left.
  - rewrite length_replicate in *. rewrite list_lookup_fmap in Hi. destruct (progs !! (i - n)%nat) as [cs|] eqn:E; [|done]. injection Hi as <-.
    right. exists cs, (i - n)%nat. split; [done|]. split; [lia|done].
Qed.
Lemma init_tasks t : tasks s0 !! t = if decide (t ∈ ts) then Some init_task else None.
Proof.
  cbn. destruct (decide (t ∈ ts)) as [Ht|Ht].
  - apply elem_of_list_to_map_1; [|by apply list_elem_of_fmap; exists t]. rewrite <-list_fmap_compose. change (NoDup ((fun t : Z => t) <$> ts)).
    rewrite list_fmap_id. destruct (wf_addresses _ _ _ _ W) as [Hn _]. by apply NoDup_cons in Hn as [_ ?].
  - apply not_elem_of_list_to_map_1. rewrite <-list_fmap_compose. change (t ∉ (fun t : Z => t) <$> ts). by rewrite list_fmap_id.
Qed.
Lemma init_lists : rep (memory s0) (mk_lists (<[tp := (0, [])]> ∅) (list_to_set ts)).
Proof. destruct (wf_addresses _ _ _ _ W). by apply (blank_rep tp ts). Qed.
Lemma init_empty (f : thread -> list Z) :
  (forall cs, f (mk_thread cs Idle) = []) -> f (mk_thread [] WLock) = [] -> mjoin (f <$> threads s0) = [].
Proof.
  intros H1 H2. apply join_nil. intros i c. rewrite list_lookup_fmap. destruct (threads s0 !! i) as [th|] eqn:E; [|done]. intros [= <-].
  destruct (init_thread i th E) as [->|(cs&j&_&_&->)]; auto.
Qed.
Lemma init_futs : futs s0 = runs (mjoin progs).
Proof.
  unfold futs. cbn. rewrite fmap_app, join_app.
  assert (Hr : mjoin (fut <$> replicate n (mk_thread [] WLock)) = []).
  { apply join_nil. intros i c Hi. rewrite list_lookup_fmap in Hi. destruct (replicate n _ !! i) as [th|] eqn:E; [|done].
    apply lookup_replicate in E as [-> _]. by injection Hi as <-. }
  rewrite Hr. cbn [app]. clear. induction progs as [|cs ps IH]; [done|]. rewrite !fmap_cons. cbn [mjoin list_join]. unfold runs in *. rewrite omap_app.
  f_equal. exact IH.
Qed.
Lemma init_owned i th t : threads s0 !! i = Some th -> t ∈ refs th \/ t ∈ owned th ->
  exists cs j, progs !! j = Some cs /\ i = (n + j)%nat /\ t ∈ mentions cs.
Proof.
  intros Hi Ht. destruct (init_thread i th Hi) as [->|(cs&j&Hj&->&->)].
  - unfold owned, refs in Ht. cbn in Ht. destruct Ht as [Ht|Ht]; by apply elem_of_nil in Ht.
  - exists cs, j. unfold owned, refs in Ht. cbn in Ht. split; [done|]. split; [done|]. by destruct Ht.
Qed.
Lemma init_pinv : pinv tp (runs (mjoin progs)) [] s0.
Proof.
  assert (Hall : forall t, t ∈ runs (mjoin progs) -> t ∈ ts).
  { intros t (cs&Hcs&Ht)%runs_join. by eapply wf_mentions, runs_mentions. }
  assert (Htok : toks s0 = []) by by apply init_empty. assert (Hpast : pasts s0 = []) by by apply init_empty.
  destruct (wf_addresses _ _ _ _ W) as [_ H0]. rewrite not_elem_of_cons in H0. constructor; rewrite ?Htok, ?Hpast; try done.
  - split; [|intros Hz%Hall; by destruct H0]. eexists. split; [apply init_lists|]. intros t Ht _. by apply elem_of_list_to_set, Hall.
  - cbn [app]. rewrite init_futs. cbn. by rewrite app_nil_r.
  - intros t k. rewrite init_tasks. destruct (decide (t ∈ ts)); [|done]. by intros [= <-].
  - intros i th Hi. destruct (init_thread i th Hi) as [->|(cs&j&_&_&->)]; done.
  - intros i th t k Hi. rewrite init_tasks. destruct (decide (t ∈ ts)); [|done]. intros [= <-].
    destruct (init_thread i th Hi) as [->|(cs&j&_&_&->)]; done.
  - intros i t k. rewrite init_tasks. destruct (decide (t ∈ ts)); [|done]. by intros [= <-].
  - intros i th t Hi Ht. destruct (init_owned i th t Hi) as (cs&j&Hj&_&Hm); [by left|]. rewrite init_tasks, decide_True; [done|].
    apply (wf_mentions _ _ _ _ W cs t); [by eapply list_elem_of_lookup_2|done].
  - intros t Ht. by apply elem_of_nil in Ht.
  - intros i j thi thj t Hi Hj Hti Htj. destruct (init_owned i thi t Hi) as (ci&i'&Hci&->&Hmi); [by right|].
    destruct (init_owned j thj t Hj) as (cj&j'&Hcj&->&Hmj); [by right|]. f_equal. by apply (wf_owners _ _ _ _ W i' j' ci cj t).
  - intros i th Hi. destruct (init_thread i th Hi) as [->|(cs&j&Hj&_&->)]; split; try done.
    apply (wf_ordered _ _ _ _ W). by eapply list_elem_of_lookup_2.
  - intros i j thi thj t Hi. destruct (init_thread i thi Hi) as [->|(cs&k&_&_&->)]; done.
  - intros i th Hi. destruct (init_thread i th Hi) as [->|(cs&k&_&_&->)]; done.
  - intros i th Hi. destruct (init_thread i th Hi) as [->|(cs&k&_&_&->)]; done.
  - exists 0%nat, (mk_thread [] WLock). split; [|done]. cbn. apply lookup_app_l_Some, lookup_replicate. split; [done|apply (wf_workers _ _ _ _ W)].
Qed.
End Init.

(** ** Threads that are left alone *)
Definition kept (s s' : pool) (j : nat) : Prop :=
  forall i th, i <> j -> threads s !! i = Some th -> exists th', threads s' !! i = Some th' /\ woken th th'.
Lemma kept_same s j : kept s s j.
Proof. intros i th _ Hi. exists th. split; [done|constructor]. Qed.
Lemma kept_insert s s1 s' j th0 : kept s s1 j -> threads s' = <[j := th0]> (threads s1) -> kept s s' j.
Proof. intros Hk Ht i th Hij Hi. destruct (Hk i th Hij Hi) as (th'&?&?). exists th'. by rewrite Ht, list_lookup_insert_ne. Qed.
Lemma kept_woken s s1 j : Forall2 woken (threads s) (threads s1) -> kept s s1 j.
Proof. intros Hf i th _ Hi. by eapply woken_forth. Qed.

(** Through the cases of a step, down to its result. *)
Ltac step_cases :=
  cbn; unfold lock_pool, unlock_pool, lock_task, unlock_task, get_task, next_call; cbn;
  repeat match goal with
  | |- context [of_option ?o] => destruct o; cbn; [|discriminate]
  | |- context [res_bind ?r _] => destruct r; cbn; [|discriminate..]
  | |- context [if ?b then _ else _] => destruct b; cbn
  | |- context [match ?o with Some _ => _ | None => _ end] => destruct o as [?|] eqn:?; cbn
  | |- context [match ?x with mk_thread _ _ => _ end] => destruct x; cbn
  | |- context [match ?x with [] => _ | _ :: _ => _ end] => destruct x; cbn
  | |- context [match ?p with WLock => _ | _ => _ end] => is_var p; destruct p; cbn
  end.
Lemma step_kept tp s j choice s' : step tp s j choice = Ok s' -> kept s s' j.
Proof.
  unfold step. destruct (threads s !! j) as [[cs p]|] eqn:Hj; [|intros [= <-]; apply kept_same].
  destruct p; step_cases; intros [= <-];
    solve [apply kept_same | eapply kept_insert; [apply kept_same|reflexivity]
      | eapply kept_insert; [|reflexivity]; apply kept_woken; cbn; eapply woken_insert; [eassumption|constructor]
      | eapply kept_insert; [|reflexivity]; apply kept_woken; cbn;
        apply Forall2_fmap_r, Forall_Forall2_diag, Forall_true; intros x; solve [apply wake_task_woken|apply wake_worker_woken]].
Qed.
Lemma exec_kept tp s m j s' : exec tp s m = Ok s' -> (forall choice, m <> Move j choice) ->
  forall th, threads s !! j = Some th -> exists th', threads s' !! j = Some th' /\ woken th th'.
Proof.
  destruct m as [i choice|i]; cbn.
  - intros Hs Hm th Hj. apply (step_kept tp s i choice s' Hs j th); [|done]. intros ->. by apply (Hm choice).
  - intros [= <-] _ th Hj. unfold spurious. destruct (threads s !! i) as [[cs p]|] eqn:Hi; [|by apply (kept_same s (S j) j th); [lia|]].
    assert (Hw : forall th', woken (mk_thread cs p) th' -> exists th2, threads (put_thread s i th') !! j = Some th2 /\ woken th th2).
    { intros th' Hw. eapply woken_forth; [|exact Hj]. by eapply woken_insert. }
    assert (Hsame : exists th', threads s !! j = Some th' /\ woken th th') by (exists th; split; [done|constructor]).
    destruct p; try exact Hsame; apply Hw; [apply wake_worker_woken|apply wake_task_woken..].
Qed.

(** ** [wait_task] *)
Definition waiting (t : Z) (p : pc) : bool :=
  match p with TLock t' | TTest t' | TWaiting t' | TAgain t' => bool_decide (t' = t) | _ => false end.
Lemma woken_waiting t cs p th : woken (mk_thread cs p) th -> waiting t p = true -> exists p', th = mk_thread cs p' /\ waiting t p' = true.
Proof. intros Hw Hp. inversion Hw; subst; eauto. Qed.
Lemma waiting_step tp all q s i choice s' cs p t :
  pinv tp all q s -> threads s !! i = Some (mk_thread cs p) -> waiting t p = true -> step tp s i choice = Ok s' ->
  exists p', threads s' !! i = Some (mk_thread cs p') /\ waiting t p' = true.
Proof.
  intros H Hi Hp. unfold step. rewrite Hi. cbn. assert (Hl : (i < length (threads s))%nat) by (by eapply lookup_lt_Some).
  destruct p as [| | | | | | | | | | | | | | | | | | | | | | | | | | | |u|u|u|u| | | | |k]; try done; apply bool_decide_eq_true in Hp as ->.
  1-3: step_cases; intros [= <-]; first [by exists (TLock t); cbn; rewrite bool_decide_true|by exists (TTest t); cbn; rewrite bool_decide_true|by exists (TWaiting t); cbn; rewrite bool_decide_true|idtac];
    eexists; cbn; rewrite list_lookup_insert_eq by done; (split; [done|]); by apply bool_decide_eq_true.
  cbn. unfold lock_task, get_task. destruct (pi_alive _ _ _ _ H i _ t Hi) as [k Hk]; [by left|]. rewrite Hk. cbn [of_option res_bind].
  assert (Hm : task_mtx k = Some i) by (by apply (pi_task _ _ _ _ H i (mk_thread cs (TAgain t)) t k)). rewrite Hm. intros [= <-].
  exists (TAgain t). split; [done|]. by apply bool_decide_eq_true.
Qed.
Lemma waiting_run tp all (Hall : NoDup all) sched q s i cs p t :
  pinv tp all q s -> threads s !! i = Some (mk_thread cs p) -> waiting t p = true ->
  exists s' p', run tp s sched = Ok s' /\ threads s' !! i = Some (mk_thread cs p') /\ waiting t p' = true.
Proof.
  revert q s p. induction sched as [|m sched IH]; intros q s p H Hi Hp; [by exists s, p|]. cbn [run].
  destruct (pool_exec_ok tp all Hall q s m H) as (s1&q1&E&H1). rewrite E. cbn [res_bind].
  assert (Hn : exists p1, threads s1 !! i = Some (mk_thread cs p1) /\ waiting t p1 = true).
  { assert (Hm : (exists choice, m = Move i choice) \/ forall choice, m <> Move i choice).
    { destruct m as [j c|j]; [|by right]. destruct (decide (j = i)) as [->|]; [left; by exists c|right; congruence]. }
    destruct Hm as [[choice ->]|Hne]; [by apply (waiting_step tp all q s i choice s1 cs p t)|].
    destruct (exec_kept tp s m i s1 E Hne (mk_thread cs p) Hi) as (th'&Hi'&Hw).
    destruct (woken_waiting t cs p th' Hw Hp) as (p'&->&Hp'). eauto. }
  destruct Hn as (p1&Hi1&Hp1). by eapply IH.
Qed.

(** ** Progress *)
(** The thread's next step takes it further. *)
Definition can_move (tp : Z) (s : pool) (i : nat) : Prop :=
  exists choice s', step tp s i choice = Ok s' /\ at_pc <$> threads s' !! i <> at_pc <$> threads s !! i.
Definition blocking (p : pc) : bool :=
  match p with
  | WLock | WTakeLock _ | WDoneLock _ | WWaiting | WFinished | Idle | RLock _ | RPoolLock _ | DLock _ | DWaiting _
  | TLock _ | TWaiting _ | TAgain _ | SLock | SJoin _ => true
  | _ => false
  end.
Lemma signal_moves tp s i cs :
  threads s !! i = Some (mk_thread cs RSignal) -> can_move tp s i.
Proof.
  intros Hi. assert (Hl : (i < length (threads s))%nat) by (by eapply lookup_lt_Some).
  destruct (existsb (fun th => bool_decide (at_pc th = WWaiting)) (threads s)) eqn:E.
  - pose proof E as E'. apply existsb_exists in E' as ([cs' p]&Hin&Hp%bool_decide_eq_true). cbn in Hp. subst p.
    apply list_elem_of_In, list_elem_of_lookup in Hin as [c Hc]. exists c. unfold step. rewrite Hi. cbn. rewrite E, Hc. eexists. split; [done|].
    cbn. rewrite list_lookup_insert_eq by (by rewrite length_insert). done.
  - exists 0%nat. unfold step. rewrite Hi. cbn. rewrite E. eexists. split; [done|]. cbn. rewrite list_lookup_insert_eq by done. done.
Qed.
Lemma nonblocking_moves tp all (Hall : NoDup all) q s i cs p :
  pinv tp all q s -> threads s !! i = Some (mk_thread cs p) -> blocking p = false -> can_move tp s i.
Proof.
  intros H Hi Hp. destruct (decide (p = RSignal)) as [->|Hne]; [by eapply signal_moves|].
  destruct (pool_step_ok tp all Hall q s i 0 H) as (s'&_&E&_). exists 0%nat, s'. split; [done|].
  assert (Hl : (i < length (threads s))%nat) by (by eapply lookup_lt_Some). rewrite Hi. cbn [fmap option_fmap option_map at_pc].
  revert E. unfold step. rewrite Hi. destruct p; try done; step_cases; intros [= <-];
    cbn; rewrite list_lookup_insert_eq by (by rewrite ?length_fmap); done.
Qed.
(** Whoever holds a task's mutex can move on, except in [wait_task]. *)
Lemma task_holder_moves tp all (Hall : NoDup all) q s i th t :
  pinv tp all q s -> threads s !! i = Some th -> holds_task th = Some t -> (forall u, at_pc th <> TAgain u) ->
  at_pc th <> Idle /\ can_move tp s i.
Proof.
  intros H Hi Ht Hn. destruct th as [cs p]. unfold holds_task in Ht. cbn in *. split; [by intros ->|].
  eapply nonblocking_moves; [exact Hall|exact H|exact Hi|]. destruct p; try done. by destruct (Hn t0).
Qed.

Section Progress.
Context (tp : Z) (all : list Z) (Hall : NoDup all) (q : list Z) (s : pool) (H : pinv tp all q s).
Context (Hwait : forall i th u, threads s !! i = Some th -> at_pc th <> TAgain u).
Definition some_moves : Prop := exists i th, threads s !! i = Some th /\ at_pc th <> Idle /\ can_move tp s i.

Lemma lock_task_moves i cs p t p' :
  threads s !! i = Some (mk_thread cs p) -> p <> p' -> p <> Idle -> t ∈ refs (mk_thread cs p) ->
  (forall c, step tp s i c = lock_task s i (mk_thread cs p) t p') -> some_moves.
Proof using H Hall Hwait.
  intros Hi Hne Hid Ht Hs. destruct (pi_alive _ _ _ _ H i _ t Hi Ht) as [k Hk].
  assert (Hl : (i < length (threads s))%nat) by (by eapply lookup_lt_Some). destruct (task_mtx k) as [j|] eqn:E.
  - destruct (pi_task_thread _ _ _ _ H j t k Hk E) as [thj Hj]. pose proof (proj2 (pi_task _ _ _ _ H j thj t k Hj Hk) E) as Hh.
    destruct (task_holder_moves tp all Hall q s j thj t H Hj Hh) as [Hnid Hm]; [intros u; by apply (Hwait j)|]. by exists j, thj.
  - exists i, (mk_thread cs p). split; [done|]. split; [done|]. exists 0%nat. rewrite Hs. unfold lock_task, get_task. rewrite Hk.
    cbn [of_option res_bind]. rewrite E. eexists. split; [done|]. cbn. rewrite list_lookup_insert_eq by done. rewrite Hi. cbn. congruence.
Qed.
Lemma pool_holder_moves i th : threads s !! i = Some th -> holds_pool th = true -> some_moves.
Proof using H Hall Hwait.
  intros Hi Hh. destruct th as [cs p]. destruct (blocking p) eqn:Eb.
  - destruct p; try done. apply (lock_task_moves i cs (WTakeLock t) t (WTake t)); try done; [by left|].
    intros c. unfold step. by rewrite Hi.
  - exists i, (mk_thread cs p). split; [done|]. split; [by cbn; intros ->|]. by eapply nonblocking_moves.
Qed.
Lemma lock_pool_moves i cs p p' :
  threads s !! i = Some (mk_thread cs p) -> p <> p' -> p <> Idle -> (forall c, step tp s i c = lock_pool s i (mk_thread cs p) p') -> some_moves.
Proof using H Hall Hwait.
  intros Hi Hne Hid Hs. destruct (tp_mtx s) as [j|] eqn:E.
  - destruct (pi_pool_thread _ _ _ _ H j E) as [thj Hj]. apply (pool_holder_moves j thj Hj). by apply (pi_pool _ _ _ _ H j thj Hj).
  - exists i, (mk_thread cs p). split; [done|]. split; [done|]. exists 0%nat. rewrite Hs. unfold lock_pool. rewrite E.
    eexists. split; [done|]. cbn. rewrite list_lookup_insert_eq by (by eapply lookup_lt_Some). rewrite Hi. cbn. congruence.
Qed.
(** A thread that carries a task: the worker that took it or the client that
    hands it over. *)
Lemma carrier_moves i th t : threads s !! i = Some th -> t ∈ tok th -> some_moves.
Proof using H Hall Hwait.
  intros Hi Ht. destruct th as [cs p]. destruct (blocking p) eqn:Eb.
  - unfold tok in Ht. destruct p; try done; cbn in Ht; try by apply elem_of_nil in Ht.
    + apply (lock_task_moves i cs (WDoneLock t0) t0 (WDone t0)); try done; [by left|]. intros c. unfold step. by rewrite Hi.
    + apply (lock_pool_moves i cs (RPoolLock t0) (RAppend t0)); try done. intros c. unfold step. by rewrite Hi.
  - exists i, (mk_thread cs p). split; [done|]. split; [by cbn; intros ->|]. by eapply nonblocking_moves.
Qed.
Lemma attentive_moves i th : threads s !! i = Some th -> attentive th = true -> some_moves.
Proof using H Hall Hwait.
  intros Hi Ha. destruct th as [cs p]. destruct (blocking p) eqn:Eb.
  - destruct p; try done.
    + apply (lock_pool_moves i cs WLock WFirst); try done. intros c. unfold step. by rewrite Hi.
    + apply (pool_holder_moves i _ Hi). done.
    + apply (lock_task_moves i cs (WDoneLock t) t (WDone t)); try done; [by left|]. intros c. unfold step. by rewrite Hi.
  - exists i, (mk_thread cs p). split; [done|]. split; [by cbn; intros ->|]. by eapply nonblocking_moves.
Qed.
End Progress.

(** ** Properties *)
Lemma tok_refs th t : t ∈ tok th -> t ∈ refs th.
Proof. destruct th as [cs p]. unfold tok, refs. destruct p; cbn; set_solver. Qed.
Lemma fut_refs th t : t ∈ fut th -> t ∈ refs th.
Proof.
  destruct th as [cs p]. unfold fut, refs. pose proof (runs_mentions cs t) as Hr. rewrite !elem_of_app. intros [Ht|Ht]; [left|right; auto].
  destruct p; cbn in *; set_solver.
Qed.
Lemma pasts_nodup s : NoDup (toks s) -> NoDup (pasts s).
Proof.
  assert (Hs : forall ths : list thread, mjoin (past <$> ths) `sublist_of` mjoin (tok <$> ths)).
  { induction ths as [|[cs p] ths IH]; [done|]. rewrite !fmap_cons. cbn [mjoin list_join].
    apply sublist_app; [|exact IH]. destruct p; cbn; try done; by apply sublist_nil_l. }
  intros Hn. eapply sublist_NoDup; [exact Hn|apply Hs].
Qed.
(** C21.  Whatever the interleaving of the workers and of clients that run a
    task at most once and do nothing with it after [destroy_task], no freed
    task is used and the list is never corrupted; each callback is called at
    most once, only for tasks that were run; and a task that was run and is
    destroyed has been called exactly once before it was freed. *)
Theorem pool_runs_tasks_once (tp : Z) (n : nat) (ts : list Z) (progs : list (list call)) (sched : list move) :
  wf_pool tp n ts progs ->
  exists s, run tp (init_task_processor tp n ts progs) sched = Ok s /\ NoDup (called s) /\
    (forall t, t ∈ called s -> t ∈ runs (mjoin progs)) /\
    (forall t, t ∈ runs (mjoin progs) -> tasks s !! t = None -> t ∈ called s).
Proof.
  intros W. pose proof (wf_once _ _ _ _ W) as Hall.
  destruct (pool_run_ok tp _ Hall [] _ sched (init_pinv tp n ts progs W)) as (s&q&->&H). exists s. split; [done|].
  pose proof (token_nodup tp _ Hall q s H) as Hn. destruct H as [P1 P2 P3 P4 P5 P6 P7 P8 P9 P10 P11 P12 P13 P14 P15 P16 P17].
  assert (Hpt : forall t, t ∈ pasts s -> t ∈ toks s).
  { intros t (i&c&Hi&Ht)%elem_of_join_lookup. rewrite list_lookup_fmap in Hi. destruct (threads s !! i) as [[cs p]|] eqn:E; [|done].
    injection Hi as <-. apply elem_of_toks. exists i, (mk_thread cs p). split; [done|]. destruct p; first [exact Ht|by apply elem_of_nil in Ht]. }
  split_and!.
  - rewrite P3. apply NoDup_app in Hn as (_&_&Hn). apply NoDup_app in Hn as (Hnt&Htk&Hn). apply NoDup_app in Hn as (_&_&Hret).
    apply NoDup_app. split; [done|]. split; [intros t Hr Hp; apply (Htk t (Hpt t Hp)); rewrite elem_of_app; auto|]. by eapply pasts_nodup.
  - intros t. rewrite P3, <-P2, !elem_of_app. intros [Ht|Ht%Hpt]; auto.
  - intros t Ht Hfree. rewrite <-P2, !elem_of_app in Ht. rewrite P3. apply elem_of_app. left.
    assert (Hnone : ~ is_Some (tasks s !! t)) by (rewrite Hfree; by intros []). destruct Ht as [Ht|[Ht|[Ht|Ht]]]; [exfalso..|done].
    + by apply Hnone, P10.
    + apply elem_of_toks in Ht as (i&th&Hi&Ht). apply Hnone, (P9 i th t Hi), tok_refs, Ht.
    + apply elem_of_join_lookup in Ht as (i&c&Hi&Ht). rewrite list_lookup_fmap in Hi. destruct (threads s !! i) as [th|] eqn:E; [|done].
      injection Hi as <-. apply Hnone, (P9 i th t E), fut_refs, Ht.
Qed.

(** In [wait_task], about to lock the mutex a second time. *)
Definition relocks (th : thread) : bool := match at_pc th with TAgain _ => true | _ => false end.
(** C22.  No wakeup is lost and the locks cannot deadlock in a pool that is not
    stopped, unless a client hangs in [wait_task], where it locks a mutex that
    it holds: as long as a task is busy, that is from when [run_task] accepts
    it until its callback has returned, be it on the list or with a worker, a
    worker or a client within a call can take its next step. *)
Theorem pool_makes_progress (tp : Z) (n : nat) (ts : list Z) (progs : list (list call)) (sched : list move) (s : pool) (t : Z) (k : gp_task) :
  wf_pool tp n ts progs -> run tp (init_task_processor tp n ts progs) sched = Ok s ->
  tasks s !! t = Some k -> task_busy k <> 0 -> tp_run s <> 0 -> Forall (fun th => relocks th = false) (threads s) ->
  exists i th, threads s !! i = Some th /\ at_pc th <> Idle /\ can_move tp s i.
Proof.
  intros W Hrun Hk Hb Hr Hnw. pose proof (wf_once _ _ _ _ W) as Hall.
  destruct (pool_run_ok tp _ Hall [] _ sched (init_pinv tp n ts progs W)) as (s'&q&E&H). rewrite Hrun in E. injection E as <-.
  assert (Hwait : forall j thj u, threads s !! j = Some thj -> at_pc thj <> TAgain u).
  { intros j thj u Hj Hp. assert (Hn : relocks thj = false) by (exact (proj1 (Forall_lookup _ _) Hnw j thj Hj)).
    unfold relocks in Hn. by rewrite Hp in Hn. }
  destruct (decide (q = [])) as [->|Hq].
  - rewrite (pi_busy _ _ _ _ H t k Hk) in Hb. destruct (decide (t ∈ [] ++ toks s)) as [Ht|]; [|done]. cbn [app] in Ht.
    apply elem_of_toks in Ht as (i&th&Hi&Ht). by apply (carrier_moves tp _ Hall [] s H Hwait i th t).
  - destruct (pi_attentive _ _ _ _ H Hq Hr) as (i&th&Hi&Ha). by apply (attentive_moves tp _ Hall q s H Hwait i th).
Qed.

(** [wait_task] never returns: whatever happens afterwards, a client
    that has begun it makes none of its further calls. *)
Theorem wait_task_never_returns (tp : Z) (n : nat) (ts : list Z) (progs : list (list call)) (sched more : list move) (s : pool)
    (i : nat) (cs : list call) (p : pc) (t : Z) :
  wf_pool tp n ts progs -> run tp (init_task_processor tp n ts progs) sched = Ok s ->
  threads s !! i = Some (mk_thread cs p) -> waiting t p = true ->
  exists s' p', run tp s more = Ok s' /\ threads s' !! i = Some (mk_thread cs p') /\ waiting t p' = true.
Proof.
  intros W Hrun Hi Hp. pose proof (wf_once _ _ _ _ W) as Hall.
  destruct (pool_run_ok tp _ Hall [] _ sched (init_pinv tp n ts progs W)) as (s'&q&E&H). rewrite Hrun in E. injection E as <-.
  by eapply waiting_run.
Qed.

(** Two workers and two clients, one of which waits. *)
Definition demo_calls : list (list call) := [[Run 8; Destroy 8]; [Run 16; Wait 16; Destroy 16]].
Definition round : list move := [Move 0 0; Move 1 0; Move 2 0; Move 3 0; Move 2 1; Move 3 1].
Lemma demo_pool_wf : wf_pool 1000 2 [8; 16] demo_calls.
Proof.
  constructor.
  - lia.
  - split; apply (bool_decide_unpack _); vm_compute; exact I.
  - intros cs t Hcs Ht. unfold demo_calls in Hcs. rewrite !elem_of_cons in Hcs.
    destruct Hcs as [->|[->|Hcs]]; [..|by apply elem_of_nil in Hcs]; cbn in Ht; set_solver.
  - apply (bool_decide_unpack _); vm_compute; exact I.
  - intros [|[|i]] [|[|j]] ci cj t; cbn; intros Hi Hj Hti Htj; simplify_eq; try done; cbn in Hti, Htj; set_solver.
  - intros cs Hcs. unfold demo_calls in Hcs. rewrite !elem_of_cons in Hcs.
    destruct Hcs as [->|[->|Hcs]]; [..|by apply elem_of_nil in Hcs]; cbn; set_solver.
Qed.
Notation demo_state k := (run 1000 (init_task_processor 1000 2 [8; 16] demo_calls) k).
(** The callbacks are called; then the second client hangs and keeps its
    task. *)
Example demo_pool_run :
  match demo_state (mjoin (replicate 40 round)) with
  | Ok s => called s = [8; 16] /\ tasks s !! 8 = None /\ tasks s !! 16 <> None /\
      (at_pc <$> threads s) = [WWaiting; WWaiting; Idle; TAgain 16]
  | _ => False
  end.
Proof. vm_compute. split_and!; first [reflexivity|discriminate]. Qed.
Lemma pool_runs_tasks_once_witness : exists s, demo_state (mjoin (replicate 40 round)) = Ok s /\ NoDup (called s) /\ 8 ∈ called s.
Proof.
  destruct (pool_runs_tasks_once 1000 2 [8; 16] demo_calls (mjoin (replicate 40 round)) demo_pool_wf) as (s&E&Hn&_&Hf).
  exists s. split; [exact E|]. split; [exact Hn|]. apply Hf; [apply (bool_decide_unpack _); vm_compute; exact I|].
  assert (Hc : match demo_state (mjoin (replicate 40 round)) with Ok s => tasks s !! 8 | _ => Some init_task end = None) by (vm_compute; reflexivity).
  rewrite E in Hc. exact Hc.
Defined.
(** A worker has taken the task, the list is empty. *)
Notation demo_taken := (replicate 8 (Move 2 0) ++ replicate 6 (Move 0 0)).
Lemma pool_makes_progress_witness : exists s, demo_state demo_taken = Ok s /\ gp_list_first (memory s) 1000 = Ok 0 /\
  exists i th, threads s !! i = Some th /\ at_pc th <> Idle /\ can_move 1000 s i.
Proof.
  destruct (demo_state demo_taken) as [s| |] eqn:E; [|vm_compute in E; discriminate..]. exists s. split; [reflexivity|].
  assert (Hc : match demo_state demo_taken with
    | Ok s => bool_decide (gp_list_first (memory s) 1000 = Ok 0) && (bool_decide (task_busy <$> tasks s !! 8 = Some 1) && (negb (tp_run s =? 0) && forallb (fun th => negb (relocks th)) (threads s)))
    | _ => false end = true) by (vm_compute; reflexivity).
  rewrite E in Hc. apply andb_true_iff in Hc as [Hf%bool_decide_eq_true [Hb%bool_decide_eq_true [Hr%negb_true_iff%Z.eqb_neq Ha]%andb_true_iff]%andb_true_iff].
  split; [exact Hf|]. destruct (tasks s !! 8) as [k|] eqn:Hk; [|discriminate Hb]. injection Hb as Hb.
  apply (pool_makes_progress 1000 2 [8; 16] demo_calls demo_taken s 8 k demo_pool_wf E Hk); [rewrite Hb; discriminate|exact Hr|].
  apply Forall_forall. intros th Hth. rewrite forallb_forall in Ha. apply negb_true_iff, Ha. by apply list_elem_of_In.
Defined.
Lemma wait_task_never_returns_witness : exists s p, demo_state (mjoin (replicate 40 round)) = Ok s /\
  threads s !! 3%nat = Some (mk_thread [Destroy 16] p) /\
  exists s' p', run 1000 s (mjoin (replicate 40 round)) = Ok s' /\ threads s' !! 3%nat = Some (mk_thread [Destroy 16] p') /\ waiting 16 p' = true.
Proof.
  destruct (demo_state (mjoin (replicate 40 round))) as [s| |] eqn:E; [|vm_compute in E; discriminate..].
  assert (Hc : match demo_state (mjoin (replicate 40 round)) with Ok s => threads s !! 3%nat | _ => None end = Some (mk_thread [Destroy 16] (TAgain 16)))
    by (vm_compute; reflexivity).
  rewrite E in Hc. exists s, (TAgain 16). split; [reflexivity|]. split; [exact Hc|].
  apply (wait_task_never_returns 1000 2 [8; 16] demo_calls (mjoin (replicate 40 round)) (mjoin (replicate 40 round)) s 3 [Destroy 16] (TAgain 16) 16
    demo_pool_wf E Hc). reflexivity.
Defined.
