(* ===== verification/PoolStop.v ===== *)
(** * gp_threadpool.c: the end of the pool

    [destroy_task_processor] stops the workers, waits for them and then frees
    what they used.  When it comes to that, every worker has left, all tasks
    that were handed over before have been called, and no thread will use the
    processor again; and nothing keeps it from coming to that.  The clients
    must not run tasks or stop the pool while it is being stopped. *)

From S2P Require Import Prelude GpList Pool PoolInv PoolSafe.
Local Open Scope Z_scope.

(** ** Threads that leave the processor alone *)
Definition harmless (cs : list call) : bool := forallb (fun c => match c with Wait _ | Destroy _ => true | Run _ | Stop => false end) cs.
Definition quiet_pc (p : pc) : bool :=
  match p with
  | Idle | DLock _ | DTest _ | DWaiting _ | DUnlock _ | DFree _ | TLock _ | TTest _ | TWaiting _ | TAgain _ => true
  | _ => false
  end.
Definition quiet (th : thread) : bool := quiet_pc (at_pc th) && harmless (calls th).
Definition stopping_pc (p : pc) : bool := match p with SLock | SStop | SWake | SUnlock | SJoin _ => true | _ => false end.
Definition stopping (th : thread) : bool := stopping_pc (at_pc th) && harmless (calls th).
(** After [tp_run = 0], after the workers were woken. *)
Definition stopped_pc (p : pc) : bool := match p with SWake | SUnlock | SJoin _ => true | _ => quiet_pc p end.
Definition woke_pc (p : pc) : bool := match p with SUnlock | SJoin _ => true | _ => quiet_pc p end.

Lemma woken_keeps th th' : woken th th' ->
  quiet th' = quiet th /\ stopping th' = stopping th /\ calls th' = calls th /\ (at_pc th = WFinished -> at_pc th' = WFinished) /\
  (at_pc th' = WWaiting -> at_pc th = WWaiting) /\ (stopping th = true -> th' = th).
Proof. intros []; split_and!; try done. Qed.
Lemma woken_quiet_pc th th' : woken th th' -> quiet_pc (at_pc th') = quiet_pc (at_pc th) /\ stopped_pc (at_pc th') = stopped_pc (at_pc th) /\
  woke_pc (at_pc th') = woke_pc (at_pc th) /\ (forall k, at_pc th' = SJoin k -> at_pc th = SJoin k).
Proof. intros []; split_and!; try done. Qed.

(** ** One thread's steps *)
Section One.
Context (tp : Z).
Record worker_moved (s s' : pool) (p p' : pc) : Prop := {
  wm_worker : is_worker (mk_thread [] p') = true;
  wm_finished : p = WFinished -> p' = WFinished;
  wm_exiting : exiting (mk_thread [] p') = true -> exiting (mk_thread [] p) = true \/ p = WEmpty;
  wm_waits : p' = WWaiting -> p = WWaiting \/ tp_run s <> 0;
  wm_memory : memory s' = memory s \/ exists t, p = WTake t;
  wm_run : tp_run s' = tp_run s;
}.
Lemma worker_moves s j choice cs p s' :
  threads s !! j = Some (mk_thread cs p) -> is_worker (mk_thread cs p) = true -> step tp s j choice = Ok s' ->
  exists p', threads s' !! j = Some (mk_thread cs p') /\ worker_moved s s' p p'.
Proof.
  intros Hj Hw. assert (Hl : (j < length (threads s))%nat) by (by eapply lookup_lt_Some). unfold step. rewrite Hj. cbn [at_pc].
  destruct p; try done; cbn [gp_task_thread at_pc]; try destruct (Z.eqb_spec (tp_run s) 0) as [Hrun|Hrun]; step_cases; intros [= <-];
    (eexists; split; [first [exact Hj|cbn; rewrite list_lookup_insert_eq by (by rewrite ?length_fmap); reflexivity]|]);
    constructor; cbn; try done; eauto.
Qed.
(** Of a quiet client, and of the one that stops the pool. *)
Record client_moved (s s' : pool) (cs : list call) (p : pc) (cs' : list call) (p' : pc) : Prop := {
  cm_calls : cs' = cs \/ p = Idle /\ exists c, cs = c :: cs';
  cm_quiet : quiet (mk_thread cs p) = true -> quiet (mk_thread cs' p') = true;
  cm_stopping : stopping_pc p = true -> stopping_pc p' = true \/ p' = Idle;
  cm_join : forall k, p' = SJoin k -> p = SJoin k \/ k = 0%nat \/ exists k0, p = SJoin k0 /\ k = S k0 /\
    exists th, threads s !! k0 = Some th /\ (is_worker th = true -> at_pc th = WFinished);
  cm_joined : stopping_pc p = true -> p' = Idle -> exists k, p = SJoin k /\ threads s !! k = None;
  cm_stopped : stopped_pc p' = true -> stopped_pc p = true \/ p = SStop /\ tp_run s' = 0;
  cm_woke : woke_pc p' = true -> woke_pc p = true \/ p = SWake;
  cm_memory : memory s' = memory s;
  cm_run : tp_run s' = tp_run s \/ tp_run s' = 0;
}.
Lemma quiet_moves s j choice cs p s' :
  threads s !! j = Some (mk_thread cs p) -> quiet_pc p || stopping_pc p = true -> step tp s j choice = Ok s' ->
  exists cs' p', threads s' !! j = Some (mk_thread cs' p') /\ client_moved s s' cs p cs' p'.
Proof.
  intros Hj Hw. assert (Hl : (j < length (threads s))%nat) by (by eapply lookup_lt_Some). unfold step. rewrite Hj. cbn [at_pc].
  destruct p; try done; step_cases; intros [= <-];
    (eexists _, _; split; [first [exact Hj|cbn; rewrite list_lookup_insert_eq by (by rewrite ?length_fmap); reflexivity]|]);
    constructor; cbn; try done; eauto;
    try (intros [Hc Hcs]%andb_true_iff; by destruct c); try (intros k; destruct c; try done; intros [= <-]; auto; fail); try (intros k [= <-]; auto; fail);
    (intros k1 [= <-]; right; right; eexists; split; [done|]; split; [done|]; eexists; split; [eassumption|done]).
Qed.

(** *** Workers have no calls to make *)
Definition plain_workers (s : pool) : Prop := forall j th, threads s !! j = Some th -> is_worker th = true -> calls th = [].
Lemma client_stays s j choice cs p s' th' :
  threads s !! j = Some (mk_thread cs p) -> is_worker (mk_thread cs p) = false -> step tp s j choice = Ok s' -> threads s' !! j = Some th' ->
  is_worker th' = false.
Proof.
  intros Hj Hw. assert (Hl : (j < length (threads s))%nat) by (by eapply lookup_lt_Some). unfold step. rewrite Hj. cbn [at_pc].
  destruct p; try done; step_cases; intros [= <-]; try (rewrite Hj; by intros [= <-]);
    cbn; rewrite ?list_lookup_insert_eq by (by rewrite ?length_insert, ?length_fmap); try (by intros [= <-]).
  all: intros [= <-]; by destruct c.
Qed.
Lemma woken_worker_calls th th' : woken th th' -> is_worker th' = is_worker th /\ calls th' = calls th.
Proof. by intros []. Qed.
Lemma step_length s j choice s' : step tp s j choice = Ok s' -> length (threads s') = length (threads s).
Proof.
  unfold step. destruct (threads s !! j) as [[cs p]|] eqn:Hj; [|by intros [= <-]].
  destruct p; step_cases; intros [= <-]; cbn; by rewrite ?length_insert, ?length_fmap, ?length_insert.
Qed.
Lemma spurious_woken s j : Forall2 woken (threads s) (threads (spurious s j)).
Proof.
  assert (Hrefl : Forall2 woken (threads s) (threads s)) by (apply Forall_Forall2_diag, Forall_true; intros; constructor).
  unfold spurious. destruct (threads s !! j) as [[cs p]|] eqn:Hj; [|done].
  destruct p; try done; (eapply woken_insert; [exact Hj|]); [apply wake_worker_woken|apply wake_task_woken..].
Qed.
(** What a move does to the other threads, and to the one that moves. *)
Lemma exec_thread s m s' j th' : exec tp s m = Ok s' -> threads s' !! j = Some th' -> exists th, threads s !! j = Some th /\
  (woken th th' \/ exists choice, m = Move j choice /\ step tp s j choice = Ok s').
Proof.
  destruct m as [i choice|i]; cbn.
  - intros Hs Hj'. destruct (lookup_lt_is_Some_2 (threads s) j) as [th Hj]; [rewrite <-(step_length _ _ _ _ Hs); by eapply lookup_lt_Some|].
    exists th. split; [done|]. destruct (decide (i = j)) as [->|Hne]; [right; by exists choice|left].
    destruct (step_kept tp s i choice s' Hs j th) as (th2&Hj2&Hw); [done|done|]. congruence.
  - intros [= <-] Hj'. destruct (woken_back _ _ j th' (spurious_woken s i) Hj') as (th&Hj&Hw). exists th. split; [done|by left].
Qed.
Lemma plain_exec s m s' : plain_workers s -> exec tp s m = Ok s' -> plain_workers s'.
Proof.
  intros Hp He j th' Hj' Hw'. destruct (exec_thread s m s' j th' He Hj') as ([cs p]&Hj&[Hw|(choice&->&Hs)]).
  - destruct (woken_worker_calls _ _ Hw) as [Hw1 ->]. apply (Hp j _ Hj). congruence.
  - destruct (is_worker (mk_thread cs p)) eqn:Ew; [|rewrite (client_stays s j choice cs p s' th' Hj Ew Hs Hj') in Hw'; done].
    destruct (worker_moves s j choice cs p s' Hj Ew Hs) as (p'&Hj2&_). rewrite Hj2 in Hj'. injection Hj' as <-. by apply (Hp j _ Hj).
Qed.
Lemma plain_run sched s s' : plain_workers s -> run tp s sched = Ok s' -> plain_workers s'.
Proof.
  revert s. induction sched as [|m sched IH]; intros s Hp; cbn [run]; [by intros [= <-]|].
  intros (s1&H1&H)%res_bind_ok. apply (IH s1); [by eapply plain_exec|done].
Qed.
End One.

(** ** While the pool is stopped *)
Section Stop.
Context (tp : Z) (all : list Z) (Hall : NoDup all) (i : nat).
(** Thread [i] is in [destroy_task_processor], or has returned from it. *)
Record stop_inv (s : pool) : Prop := {
  si_others : forall j th, j <> i -> threads s !! j = Some th -> is_worker th = true \/ quiet th = true;
  si_self : exists th, threads s !! i = Some th /\ (stopping th = true \/ quiet th = true);
  si_exit : forall j th, threads s !! j = Some th -> exiting th = true -> gp_list_first (memory s) tp = Ok 0;
  si_join : forall th k j thj, threads s !! i = Some th -> at_pc th = SJoin k -> (j < k)%nat -> threads s !! j = Some thj ->
    is_worker thj = true -> at_pc thj = WFinished;
  si_done : forall th j thj, threads s !! i = Some th -> quiet_pc (at_pc th) = true -> threads s !! j = Some thj ->
    is_worker thj = true -> at_pc thj = WFinished;
  si_run : forall th, threads s !! i = Some th -> stopped_pc (at_pc th) = true -> tp_run s = 0;
  si_awake : forall th j thj, threads s !! i = Some th -> woke_pc (at_pc th) = true -> threads s !! j = Some thj -> at_pc thj <> WWaiting;
}.
Lemma not_worker th : stopping th = true \/ quiet th = true -> is_worker th = false /\ quiet_pc (at_pc th) || stopping_pc (at_pc th) = true.
Proof. destruct th as [cs p]. unfold stopping, quiet. cbn. destruct p; cbn; try done; intros [[]|[]]; done. Qed.
Lemma list_first q s : pinv tp all q s -> gp_list_first (memory s) tp = Ok (default 0 (head q)) /\ (default 0 (head q) = 0 <-> q = []).
Proof.
  intros H. destruct (pi_list _ _ _ _ H) as [(idl&Hrep&_) H0]. rewrite (first_ok _ _ Hrep tp 0 q) by (cbn; by rewrite lookup_insert_eq).
  assert (Hq : forall t, t ∈ q -> t <> 0).
  { intros t Ht ->. apply H0. rewrite <-(pi_tokens _ _ _ _ H). apply elem_of_app. by left. }
  destruct q as [|t q]; [done|]. split; [cbn; f_equal; lia|]. split; [|done]. intros E. exfalso. apply (Hq t); [by left|exact E].
Qed.

(** The other threads. *)
Lemma exec_other s m s' j th' : stop_inv s -> exec tp s m = Ok s' -> j <> i -> threads s' !! j = Some th' ->
  exists th, threads s !! j = Some th /\ (is_worker th' = true \/ quiet th' = true) /\
    (is_worker th' = true -> is_worker th = true /\ (at_pc th = WFinished -> at_pc th' = WFinished)) /\
    (exiting th' = true -> exiting th = true \/ at_pc th = WEmpty) /\ (at_pc th' = WWaiting -> at_pc th = WWaiting \/ tp_run s <> 0).
Proof.
  intros I He Hji Hj'. destruct (exec_thread tp s m s' j th' He Hj') as ([cs p]&Hj&Hor). exists (mk_thread cs p). split; [done|].
  pose proof (si_others _ I j _ Hji Hj) as Hk. destruct Hor as [Hw|(choice&->&Hs)].
  - destruct (woken_keeps _ _ Hw) as (Hq&_&_&Hfin&Hwait&_). destruct (woken_worker_calls _ _ Hw) as [Hwk _].
    destruct (woken_equal _ _ Hw) as (_&_&_&_&_&_&_&_&_&_&_&Hex&_). rewrite Hq, Hwk, Hex. split_and!; auto.
  - destruct (is_worker (mk_thread cs p)) eqn:Ew.
    + destruct (worker_moves tp s j choice cs p s' Hj Ew Hs) as (p'&Hj2&[W1 W2 W3 W4 _ _]). rewrite Hj2 in Hj'. injection Hj' as <-.
      split_and!; [by left|auto|exact W3|exact W4].
    + destruct Hk as [|Hq]; [done|]. destruct (not_worker (mk_thread cs p) (or_intror Hq)) as [_ Hpc].
      destruct (quiet_moves tp s j choice cs p s' Hj Hpc Hs) as (cs'&p'&Hj2&C). rewrite Hj2 in Hj'. injection Hj' as <-.
      pose proof (cm_quiet _ _ _ _ _ _ C Hq) as Hq'. destruct (not_worker _ (or_intror Hq')) as [Hw' _]. split_and!; [by right|by rewrite Hw'| |].
      * intros Hx. destruct p'; done.
      * intros Hx. cbn in Hx. subst. done.
Qed.
(** Thread [i]. *)
Record self_moved (s s' : pool) (p p' : pc) : Prop := {
  sm_join : forall k, p' = SJoin k -> p = SJoin k \/ k = 0%nat \/ exists k0, p = SJoin k0 /\ k = S k0 /\
    exists th, threads s !! k0 = Some th /\ (is_worker th = true -> at_pc th = WFinished);
  sm_joined : quiet_pc p' = true -> quiet_pc p = true \/ exists k, p = SJoin k /\ threads s !! k = None;
  sm_stopped : stopped_pc p' = true -> stopped_pc p = true \/ tp_run s' = 0;
  sm_woke : woke_pc p' = true -> woke_pc p = true \/ forall j thj, threads s' !! j = Some thj -> at_pc thj <> WWaiting;
}.
Lemma wake_step_wakes s j choice cs s' : threads s !! j = Some (mk_thread cs SWake) -> step tp s j choice = Ok s' ->
  forall l th, threads s' !! l = Some th -> at_pc th <> WWaiting.
Proof.
  intros Hj. unfold step. rewrite Hj. cbn. intros [= <-] l th. cbn. rewrite list_lookup_insert_Some. intros [(<-&<-&_)|[_ Hl]]; [done|].
  rewrite list_lookup_fmap in Hl. destruct (threads s !! l) as [[cs' p']|]; [|done]. injection Hl as <-. by destruct p'.
Qed.
Lemma exec_self s m s' th' : stop_inv s -> exec tp s m = Ok s' -> threads s' !! i = Some th' ->
  exists th, threads s !! i = Some th /\ (stopping th' = true \/ quiet th' = true) /\ self_moved s s' (at_pc th) (at_pc th').
Proof.
  intros I He Hi'. destruct (exec_thread tp s m s' i th' He Hi') as ([cs p]&Hi&Hor). exists (mk_thread cs p). split; [done|].
  destruct (si_self _ I) as (th0&Hi0&Hk). rewrite Hi in Hi0. injection Hi0 as <-. destruct Hor as [Hw|(choice&->&Hs)].
  - destruct (woken_keeps _ _ Hw) as (Hq&Hst&_). destruct (woken_quiet_pc _ _ Hw) as (Q1&Q2&Q3&Q4). rewrite Hq, Hst. split; [done|].
    constructor; rewrite ?Q1, ?Q2, ?Q3; auto.
  - destruct (not_worker _ Hk) as [_ Hpc]. destruct (quiet_moves tp s i choice cs p s' Hi Hpc Hs) as (cs'&p'&Hi2&C).
    rewrite Hi2 in Hi'. injection Hi' as <-. split.
    + destruct Hk as [Hk|Hk]; [|right; by apply C]. apply andb_true_iff in Hk as [Hp Hc]. cbn in Hp, Hc.
      assert (Hcs : cs' = cs) by (destruct (cm_calls _ _ _ _ _ _ C) as [?|[-> _]]; done). subst cs'.
      unfold stopping, quiet. cbn. rewrite Hc. destruct (cm_stopping _ _ _ _ _ _ C Hp) as [-> | ->]; auto.
    + constructor; cbn.
      * apply C.
      * intros Hq. cbn in Hpc. apply orb_true_iff in Hpc as [?|Hst]; [by left|right]. apply (cm_joined _ _ _ _ _ _ C Hst).
        destruct (cm_stopping _ _ _ _ _ _ C Hst) as [Hst'|]; [by destruct p'|done].
      * intros Hp. destruct (cm_stopped _ _ _ _ _ _ C Hp) as [?|[_ ?]]; auto.
      * intros Hp. destruct (cm_woke _ _ _ _ _ _ C Hp) as [?| ->]; [by left|right]. by eapply wake_step_wakes.
Qed.
(** The list and the flag. *)
Lemma exec_globals q s m s' : pinv tp all q s -> stop_inv s -> exec tp s m = Ok s' ->
  (gp_list_first (memory s) tp = Ok 0 -> memory s' = memory s) /\ (tp_run s = 0 -> tp_run s' = 0).
Proof.
  intros H I He. destruct m as [j choice|j]; cbn in He.
  2: { injection He as <-. unfold spurious. destruct (threads s !! j) as [[cs p]|]; [|done]. by destruct p. }
  destruct (threads s !! j) as [[cs p]|] eqn:Hj; [|unfold step in He; rewrite Hj in He; by injection He as <-].
  destruct (is_worker (mk_thread cs p)) eqn:Ew.
  - destruct (worker_moves tp s j choice cs p s' Hj Ew He) as (p'&_&[_ _ _ _ Hm Hr]). split; [|by rewrite Hr].
    intros Hf. destruct Hm as [?|[t ->]]; [done|exfalso]. pose proof (pi_expects _ _ _ _ H j _ Hj) as Hx. cbn in Hx.
    destruct (list_first q s H) as [Hf' Hq]. rewrite Hf' in Hf. injection Hf as Hf. apply Hq in Hf as ->. done.
  - assert (Hpc : quiet_pc p || stopping_pc p = true).
    { destruct (decide (j = i)) as [->|Hne].
      - destruct (si_self _ I) as (th0&Hi0&Hk). rewrite Hj in Hi0. injection Hi0 as <-. apply (not_worker _ Hk).
      - destruct (si_others _ I j _ Hne Hj) as [?|Hq]; [congruence|]. apply (not_worker _ (or_intror Hq)). }
    destruct (quiet_moves tp s j choice cs p s' Hj Hpc He) as (cs'&p'&_&C). split; [intros _; apply C|].
    destruct (cm_run _ _ _ _ _ _ C) as [-> | ->]; auto.
Qed.
Lemma empty_first q s j th : pinv tp all q s -> threads s !! j = Some th -> at_pc th = WEmpty -> gp_list_first (memory s) tp = Ok 0.
Proof.
  intros H Hj Hp. pose proof (pi_expects _ _ _ _ H j th Hj) as Hx. unfold expects in Hx. rewrite Hp in Hx. subst q.
  by destruct (list_first [] s H) as [-> _].
Qed.
Lemma stop_exec q s m s' : pinv tp all q s -> stop_inv s -> exec tp s m = Ok s' -> stop_inv s'.
Proof.
  intros H I He. destruct (exec_globals q s m s' H I He) as [Gm Gr].
  assert (Hself : exists th', threads s' !! i = Some th').
  { destruct (si_self _ I) as (th&Hi&_). destruct m as [j choice|j]; cbn in He.
    - apply lookup_lt_is_Some_2. rewrite (step_length tp s j choice s' He). by eapply lookup_lt_Some.
    - injection He as <-. destruct (woken_forth _ _ i th (spurious_woken s j) Hi) as (th'&?&_). by exists th'. }
  destruct Hself as [th' Hi']. destruct (exec_self s m s' th' I He Hi') as (th&Hi&Hk&[M1 M2 M3 M4]).
  pose proof (proj1 (not_worker _ Hk)) as Hnw.
  assert (Hfin : forall j thj', (forall thj, threads s !! j = Some thj -> is_worker thj = true -> at_pc thj = WFinished) ->
    threads s' !! j = Some thj' -> is_worker thj' = true -> at_pc thj' = WFinished).
  { intros j thj' Hf Hj' Hw'. destruct (decide (j = i)) as [->|Hne]; [congruence|].
    destruct (exec_other s m s' j thj' I He Hne Hj') as (thj&Hj&_&A&_). destruct (A Hw') as [Hw B]. apply B, (Hf thj Hj Hw). }
  assert (Hsame : forall th0, threads s' !! i = Some th0 -> th0 = th') by congruence.
  constructor.
  - intros j thj' Hne Hj'. by destruct (exec_other s m s' j thj' I He Hne Hj') as (thj&_&?&_).
  - by exists th'.
  - intros j thj' Hj' Hx. assert (Hf : gp_list_first (memory s) tp = Ok 0); [|by rewrite Gm].
    destruct (decide (j = i)) as [->|Hne]; [rewrite (Hsame _ Hj') in Hx; by destruct th' as [cs []]|].
    destruct (exec_other s m s' j thj' I He Hne Hj') as (thj&Hj&_&_&B&_). destruct (B Hx) as [Hx'|Hp]; [by apply (si_exit _ I j thj)|by eapply empty_first].
  - intros th0 k j thj' ->%Hsame Hp Hlt Hj' Hw'. apply (Hfin j thj'); [|done|done]. intros thj Hj Hw.
    destruct (M1 k Hp) as [Hp0|[->|(k0&Hp0&->&thk&Hk0&Hfk)]]; [by apply (si_join _ I th k j thj)|lia|].
    destruct (decide (j = k0)) as [->|]; [rewrite Hj in Hk0; injection Hk0 as <-; auto|]. apply (si_join _ I th k0 j thj); (done || lia).
  - intros th0 j thj' ->%Hsame Hp Hj' Hw'. apply (Hfin j thj'); [|done|done]. intros thj Hj Hw.
    destruct (M2 Hp) as [Hp0|(k&Hp0&Hk0)]; [by apply (si_done _ I th j thj)|]. apply (si_join _ I th k j thj); try done.
    apply lookup_lt_Some in Hj. apply lookup_ge_None in Hk0. lia.
  - intros th0 ->%Hsame Hp. destruct (M3 Hp) as [Hp0|?]; [|done]. by apply Gr, (si_run _ I th).
  - intros th0 j thj' ->%Hsame Hp Hj' Hx. destruct (M4 Hp) as [Hp0|Hall']; [|by apply (Hall' j thj')].
    destruct (decide (j = i)) as [->|Hne]; [rewrite (Hsame _ Hj') in Hx; by destruct th' as [cs []]|].
    destruct (exec_other s m s' j thj' I He Hne Hj') as (thj&Hj&_&_&_&B). destruct (B Hx) as [Hx'|Hr]; [by apply (si_awake _ I th j thj Hi Hp0 Hj)|].
    apply Hr, (si_run _ I th Hi). by destruct (at_pc th).
Qed.
Lemma stop_run q s sched s' : pinv tp all q s -> stop_inv s -> run tp s sched = Ok s' -> stop_inv s' /\ exists q', pinv tp all q' s'.
Proof.
  revert q s. induction sched as [|m sched IH]; intros q s H I; cbn [run]; [intros [= <-]; eauto|].
  intros (s1&H1&Hr)%res_bind_ok. destruct (pool_exec_ok tp all Hall q s m H) as (s2&q2&E&H2). rewrite H1 in E. injection E as <-.
  apply (IH q2 s1 H2); [exact (stop_exec q s m s1 H I H1)|done].
Qed.
(** [destroy_task_processor] is called: nobody has stopped the pool and the
    others leave it alone. *)
Lemma stop_begins q s cs : pinv tp all q s -> threads s !! i = Some (mk_thread cs SLock) -> harmless cs = true -> tp_run s <> 0 ->
  (forall j th, j <> i -> threads s !! j = Some th -> is_worker th = true \/ quiet th = true) -> stop_inv s.
Proof.
  intros H Hi Hc Hr Ho. constructor; try done.
  - exists (mk_thread cs SLock). split; [done|]. left. done.
  - intros j th Hj Hx. by destruct Hr; apply (pi_exiting _ _ _ _ H j th).
  - intros th k j thj Hi2. rewrite Hi in Hi2. by injection Hi2 as <-.
  - intros th j thj Hi2. rewrite Hi in Hi2. by injection Hi2 as <-.
  - intros th Hi2. rewrite Hi in Hi2. by injection Hi2 as <-.
  - intros th j thj Hi2. rewrite Hi in Hi2. by injection Hi2 as <-.
Qed.
End Stop.

(** ** Properties *)
(** Threads that use the processor: its mutex, its list, its condition
    variable, [tp_run]. *)
Definition uses_processor (p : pc) : bool := match p with WFinished => false | _ => negb (quiet_pc p) end.
Lemma quiet_empty th : quiet th = true -> tok th = [] /\ fut th = [] /\ past th = [].
Proof.
  destruct th as [cs p]. unfold quiet. cbn. intros [Hp Hc]%andb_true_iff.
  assert (Hr : runs cs = []). { induction cs as [|c cs IH]; [done|]. cbn in Hc. apply andb_true_iff in Hc as [Hc Hcs]. destruct c; try done; by apply IH. }
  split; [by destruct p|]. split; [|by destruct p]. destruct p; try done; exact Hr.
Qed.
Lemma join_empty (f : thread -> list Z) s : (forall j th, threads s !! j = Some th -> f th = []) -> mjoin (f <$> threads s) = [].
Proof.
  intros Hf. apply join_nil_2. apply Forall_forall. intros l (th&->&Hth)%list_elem_of_fmap. apply list_elem_of_lookup in Hth as [j Hj]. by apply (Hf j).
Qed.
Lemma init_plain tp n ts progs : wf_pool tp n ts progs -> plain_workers (init_task_processor tp n ts progs).
Proof. intros W j th Hj Hw. destruct (init_thread tp n ts progs j th Hj) as [->|(cs&k&_&_&->)]; done. Qed.

Lemma quiet_exec tp s m s' j th th' : exec tp s m = Ok s' -> threads s !! j = Some th -> quiet th = true -> threads s' !! j = Some th' -> quiet th' = true.
Proof.
  intros He Hj Hq Hj'. destruct (exec_thread tp s m s' j th' He Hj') as ([cs p]&Hj0&Hor). rewrite Hj in Hj0. injection Hj0 as ->.
  destruct Hor as [Hw|(choice&->&Hs)]; [by destruct (woken_keeps _ _ Hw) as [-> _]|].
  destruct (quiet_moves tp s j choice cs p s' Hj) as (cs'&p'&Hj2&C); [apply andb_true_iff in Hq as [Hq _]; cbn in Hq; by rewrite Hq|done|].
  rewrite Hj2 in Hj'. injection Hj' as <-. by apply C.
Qed.
Lemma pool_run_app tp s a b s2 : run tp s (a ++ b) = Ok s2 <-> exists s1, run tp s a = Ok s1 /\ run tp s1 b = Ok s2.
Proof.
  revert s. induction a as [|m a IH]; intros s; cbn [run app]; [split; [eauto|by intros (?&[= <-]&?)]|].
  rewrite res_bind_ok. setoid_rewrite IH. setoid_rewrite res_bind_ok. naive_solver.
Qed.
Lemma quiet_run tp s sched s' j th th' : run tp s sched = Ok s' -> threads s !! j = Some th -> quiet th = true -> threads s' !! j = Some th' -> quiet th' = true.
Proof.
  revert s th. induction sched as [|m sched IH]; intros s th Hr Hj Hq Hj'; cbn [run] in Hr; [injection Hr as <-; congruence|].
  apply res_bind_ok in Hr as (s1&H1&Hr). assert (Hl : (j < length (threads s1))%nat).
  { apply lookup_lt_Some in Hj. destruct m as [k c|k]; cbn in H1; [by rewrite (step_length _ _ _ _ _ H1)|].
    injection H1 as <-. by rewrite <-(Forall2_length _ _ _ (spurious_woken s k)). }
  apply lookup_lt_is_Some_2 in Hl as [th1 Hj1]. apply (IH s1 th1 Hr Hj1); [|done]. by apply (quiet_exec tp s m s1 j th th1).
Qed.
(** Once thread [i] is quiet. *)
Lemma done_unused tp i s th : stop_inv tp i s -> threads s !! i = Some th -> quiet th = true ->
  forall j thj, threads s !! j = Some thj -> at_pc thj = WFinished /\ is_worker thj = true \/ quiet thj = true.
Proof.
  intros I Hi Hq j thj Hj. destruct (decide (j = i)) as [->|Hne]; [right; congruence|].
  destruct (si_others _ _ _ I j thj Hne Hj) as [Hw|?]; [left|by right]. split; [|done].
  apply (si_done _ _ _ I th j thj Hi); [by apply andb_true_iff in Hq as [? _]|done|done].
Qed.
Lemma unused th : at_pc th = WFinished /\ is_worker th = true \/ quiet th = true -> uses_processor (at_pc th) = false /\ holds_pool th = false.
Proof. destruct th as [cs p]. unfold quiet. cbn. intros [[-> _]|[Hp _]%andb_true_iff]; [done|]. cbn in *. by destruct p. Qed.

(** The pool is asked to stop in [s1], which its clients have brought about;
    they have handed over all their tasks. *)
Record stop_asked (tp : Z) (n : nat) (ts : list Z) (progs : list (list call)) (i : nat) (s1 : pool) : Prop := {
  sa_run : exists sched, run tp (init_task_processor tp n ts progs) sched = Ok s1;
  sa_self : exists cs, threads s1 !! i = Some (mk_thread cs SLock) /\ harmless cs = true;
  sa_first : tp_run s1 <> 0;
  sa_others : forall j th, j <> i -> threads s1 !! j = Some th -> is_worker th = true \/ quiet th = true;
}.
Lemma stop_asked_inv tp n ts progs i s1 sched s2 : wf_pool tp n ts progs -> stop_asked tp n ts progs i s1 -> run tp s1 sched = Ok s2 ->
  stop_inv tp i s2 /\ plain_workers s2 /\ exists q, pinv tp (runs (mjoin progs)) q s2.
Proof.
  intros W [[sched1 Hr1] (cs&Hi&Hc) Hf Ho] Hr2. pose proof (wf_once _ _ _ _ W) as Hall.
  destruct (pool_run_ok tp _ Hall [] _ sched1 (init_pinv tp n ts progs W)) as (s1'&q&E&H). rewrite Hr1 in E. injection E as <-.
  destruct (stop_run tp _ Hall i q s1 sched s2 H) as [I Hq]; [by eapply stop_begins|done|]. split; [done|]. split; [|done].
  eapply plain_run; [|exact Hr2]. eapply plain_run; [|exact Hr1]. by apply init_plain.
Qed.

(** C23.  When [destroy_task_processor] has joined the workers, under every
    interleaving, each has left; the list is empty and the mutex free; every
    task that was handed over has been called, once; and no thread uses the
    processor, then or at any later time, so that destroying and freeing it
    is safe. *)
Theorem stopped_pool_is_done (tp : Z) (n : nat) (ts : list Z) (progs : list (list call)) (i : nat) (s1 s2 : pool) (sched : list move) (th : thread) :
  wf_pool tp n ts progs -> stop_asked tp n ts progs i s1 -> run tp s1 sched = Ok s2 ->
  threads s2 !! i = Some th -> at_pc th = Idle ->
  (forall j thj, threads s2 !! j = Some thj -> uses_processor (at_pc thj) = false) /\
  tp_mtx s2 = None /\ gp_list_first (memory s2) tp = Ok 0 /\ Permutation (called s2) (runs (mjoin progs)) /\
  (forall later s3 j thj, run tp s2 later = Ok s3 -> threads s3 !! j = Some thj -> uses_processor (at_pc thj) = false).
Proof.
  intros W A Hr Hi Hp.
  destruct (stop_asked_inv tp n ts progs i s1 sched s2 W A Hr) as (I&Hpl&q&H).
  assert (Hq : quiet th = true).
  { destruct (si_self _ _ _ I) as (th0&Hi0&[Hk|Hk]); rewrite Hi in Hi0; injection Hi0 as <-; [|done]. unfold stopping in Hk. by rewrite Hp in Hk. }
  pose proof (done_unused tp i s2 th I Hi Hq) as Hd.
  assert (Hclear : forall j thj, threads s2 !! j = Some thj -> tok thj = [] /\ fut thj = [] /\ past thj = []).
  { intros j thj Hj. destruct (Hd j thj Hj) as [[Hf Hw]|Hqj]; [|by apply quiet_empty]. pose proof (Hpl j thj Hj Hw) as Hc.
    destruct thj as [cs p]. cbn in Hf, Hc. by subst. }
  assert (Hf0 : gp_list_first (memory s2) tp = Ok 0).
  { destruct (pi_worker _ _ _ _ H) as (j&thj&Hj&Hw). apply (si_exit _ _ _ I j thj Hj). destruct (Hd j thj Hj) as [[Hf _]|Hqj].
    - unfold exiting. by rewrite Hf.
    - destruct (not_worker thj (or_intror Hqj)) as [Hnw _]. congruence. }
  assert (Hq0 : q = []) by (destruct (list_first tp _ q s2 H) as [E1 E2]; apply E2; congruence).
  split; [intros j thj Hj; by apply unused, (Hd j)|]. split; [|split; [done|split]].
  - destruct (tp_mtx s2) as [j|] eqn:E; [exfalso|done]. destruct (pi_pool_thread _ _ _ _ H j E) as [thj Hj].
    destruct (unused thj (Hd j thj Hj)) as [_ Hh]. rewrite (proj2 (pi_pool _ _ _ _ H j thj Hj) E) in Hh. done.
  - rewrite (pi_called _ _ _ _ H), <-(pi_tokens _ _ _ _ H), Hq0. unfold toks, futs, pasts.
    rewrite !join_empty by (intros j thj Hj; by apply (Hclear j thj)). by rewrite app_nil_r.
  - intros later s3 j thj Hr3 Hj. assert (Hr13 : run tp s1 (sched ++ later) = Ok s3) by (apply pool_run_app; eauto).
    destruct (stop_asked_inv tp n ts progs i s1 _ s3 W A Hr13) as (I3&_&_). destruct (si_self _ _ _ I3) as (th3&Hi3&_).
    assert (Hq3 : quiet th3 = true) by (by apply (quiet_run tp s2 later s3 i th th3)).
    apply (proj1 (unused thj (done_unused tp i s3 th3 I3 Hi3 Hq3 j thj Hj))).
Qed.

(** C40.  Nothing keeps the pool from stopping: as long as a thread is in
    [destroy_task_processor] some thread within a call or a worker can take
    its next step, unless a client hangs in [wait_task]; no worker is left
    asleep. *)
Theorem stopping_pool_progresses (tp : Z) (n : nat) (ts : list Z) (progs : list (list call)) (i : nat) (s1 s2 : pool) (sched : list move) (th : thread) :
  wf_pool tp n ts progs -> stop_asked tp n ts progs i s1 -> run tp s1 sched = Ok s2 ->
  threads s2 !! i = Some th -> stopping_pc (at_pc th) = true -> Forall (fun th => relocks th = false) (threads s2) ->
  exists j thj, threads s2 !! j = Some thj /\ at_pc thj <> Idle /\ can_move tp s2 j.
Proof.
  intros W A Hr Hi Hp Hnw. pose proof (wf_once _ _ _ _ W) as Hall.
  destruct (stop_asked_inv tp n ts progs i s1 sched s2 W A Hr) as (I&_&q&H).
  assert (Hwait : forall j thj u, threads s2 !! j = Some thj -> at_pc thj <> TAgain u).
  { intros j thj u Hj Hpj. assert (Hn : relocks thj = false) by (exact (proj1 (Forall_lookup _ _) Hnw j thj Hj)). unfold relocks in Hn. by rewrite Hpj in Hn. }
  assert (Hl : (i < length (threads s2))%nat) by (by eapply lookup_lt_Some). destruct th as [cs p]. cbn in Hp.
  assert (Hme : can_move tp s2 i -> exists j thj, threads s2 !! j = Some thj /\ at_pc thj <> Idle /\ can_move tp s2 j).
  { intros Hm. exists i, (mk_thread cs p). split; [done|]. split; [by cbn; intros ->|done]. }
  destruct (blocking p) eqn:Eb; [|apply Hme; by eapply nonblocking_moves]. destruct p as [| | | | | | | | | | | | | | | | | | | | | | | | | | | | | | | | | | | |k]; try done.
  - destruct (tp_mtx s2) as [j|] eqn:E.
    + destruct (pi_pool_thread _ _ _ _ H j E) as [thj Hj]. eapply (pool_holder_moves tp _ Hall q s2 H Hwait j thj Hj). by apply (pi_pool _ _ _ _ H j thj Hj).
    + apply Hme. exists 0%nat. unfold step. rewrite Hi. cbn. unfold lock_pool. rewrite E. eexists. split; [done|]. cbn. by rewrite list_lookup_insert_eq.
  - assert (Hgo : forall p', p' <> SJoin k -> destroy_task_processor s2 i (mk_thread cs (SJoin k)) = Ok (put_thread s2 i (mk_thread cs p')) -> can_move tp s2 i).
    { intros p' Hne Hs. exists 0%nat. unfold step. rewrite Hi. eexists. split; [exact Hs|]. cbn. rewrite list_lookup_insert_eq by done. cbn. congruence. }
    assert (Hsk : SJoin (S k) <> SJoin k) by (injection 1; lia).
    destruct (threads s2 !! k) as [[csk pk]|] eqn:Hk; [|apply Hme, (Hgo Idle); [done|]; cbn; by rewrite Hk].
    destruct (is_worker (mk_thread csk pk) && negb (bool_decide (pk = WFinished))) eqn:Ew.
    + apply andb_true_iff in Ew as [Ew Hnf%negb_true_iff%bool_decide_eq_false].
      pose proof (si_awake _ _ _ I _ k _ Hi eq_refl Hk) as Haw. cbn in Haw. destruct (decide (pk = WExit)) as [->|].
      * exists k, (mk_thread csk WExit). split; [done|]. split; [done|]. by eapply nonblocking_moves.
      * eapply (attentive_moves tp _ Hall q s2 H Hwait k _ Hk). by destruct pk.
    + apply Hme, (Hgo (SJoin (S k)) Hsk). cbn. rewrite Hk. by destruct pk.
Qed.

(** *** A pool of two workers and two clients, the second of which stops it *)
Definition stop_calls : list (list call) := [[Run 8; Destroy 8]; [Run 16; Destroy 16; Stop]].
Lemma stop_pool_wf : wf_pool 1000 2 [8; 16] stop_calls.
Proof.
  constructor; try (cbn; lia).
  - split; [apply (bool_decide_unpack _); vm_compute; exact I|]. set_solver.
  - intros cs t Hcs. cbn. repeat (apply elem_of_cons in Hcs as [->|Hcs]; [cbn; set_solver|]). by apply elem_of_nil in Hcs.
  - apply (bool_decide_unpack _). vm_compute. exact I.
  - intros [|[|i]] [|[|j]] ci cj t Hi Hj; cbn in Hi, Hj; try done; injection Hi as <-; injection Hj as <-; cbn; set_solver.
  - intros cs Hcs. repeat (apply elem_of_cons in Hcs as [->|Hcs]; [cbn; set_solver|]). by apply elem_of_nil in Hcs.
Qed.
Definition stop_round : list move := [Move 0 0; Move 1 0; Move 2 0; Move 2 1; Move 0 0; Move 1 0; Move 3 1].
Definition stop_state (k : nat) : res pool := run 1000 (init_task_processor 1000 2 [8; 16] stop_calls) (mjoin (replicate k stop_round)).
Definition asked (i : nat) (s : pool) : bool :=
  match threads s !! i with
  | Some (mk_thread cs SLock) =>
      harmless cs && negb (tp_run s =? 0) &&
      forallb (fun j => bool_decide (j = i) || match threads s !! j with Some th => is_worker th || quiet th | None => true end) (seq 0 (length (threads s)))
  | _ => false
  end.
Lemma asked_stop k i s : stop_state k = Ok s -> asked i s = true -> stop_asked 1000 2 [8; 16] stop_calls i s.
Proof.
  intros Hs Ha. unfold asked in Ha. destruct (threads s !! i) as [[cs p]|] eqn:Hi; [|done]. destruct p; try done.
  apply andb_true_iff in Ha as [[Hc Hr%negb_true_iff%Z.eqb_neq]%andb_true_iff Ho]. constructor; [by eexists|by exists cs|done|].
  intros j th Hne Hj. rewrite forallb_forall in Ho. specialize (Ho j). rewrite Hj, bool_decide_false in Ho by done.
  apply orb_true_iff, Ho. apply list_elem_of_In, elem_of_seq. apply lookup_lt_Some in Hj. lia.
Qed.
Lemma demo_stop (m : nat) (check : pool -> thread -> bool) :
  match stop_state 21 with
  | Ok s1 => asked 3 s1 && match run 1000 s1 (mjoin (replicate m stop_round)) with
      | Ok s2 => match threads s2 !! 3%nat with Some th => check s2 th | None => false end
      | _ => false end
  | _ => false end = true ->
  exists s1 s2 th, stop_asked 1000 2 [8; 16] stop_calls 3 s1 /\ run 1000 s1 (mjoin (replicate m stop_round)) = Ok s2 /\
    threads s2 !! 3%nat = Some th /\ check s2 th = true.
Proof.
  destruct (stop_state 21) as [s1| |] eqn:E1; [|done..]. intros [Ha Hc]%andb_true_iff. exists s1.
  destruct (run 1000 s1 _) as [s2| |] eqn:E2; [|done..]. destruct (threads s2 !! 3%nat) as [th|] eqn:E3; [|done]. exists s2, th.
  split; [exact (asked_stop 21 3 s1 E1 Ha)|]. split; [reflexivity|]. split; [exact E3|exact Hc].
Qed.
Lemma stopped_pool_is_done_witness : exists s1 s2 th,
  stop_asked 1000 2 [8; 16] stop_calls 3 s1 /\ run 1000 s1 (mjoin (replicate 12 stop_round)) = Ok s2 /\ threads s2 !! 3%nat = Some th /\
  at_pc th = Idle /\ tp_mtx s2 = None /\ Permutation (called s2) [8; 16].
Proof.
  destruct (demo_stop 12 (fun _ th => bool_decide (at_pc th = Idle))) as (s1&s2&th&Ha&Hr&Hi&Hp%bool_decide_eq_true); [vm_compute; reflexivity|].
  destruct (stopped_pool_is_done 1000 2 [8; 16] stop_calls 3 s1 s2 _ th stop_pool_wf Ha Hr Hi Hp) as (_&Hm&_&Hc&_).
  exists s1, s2, th. split; [exact Ha|]. split; [exact Hr|]. split; [exact Hi|]. split; [exact Hp|]. split; [exact Hm|exact Hc].
Defined.
Lemma stopping_pool_progresses_witness : exists s1 s2 th,
  stop_asked 1000 2 [8; 16] stop_calls 3 s1 /\ run 1000 s1 (mjoin (replicate 5 stop_round)) = Ok s2 /\ threads s2 !! 3%nat = Some th /\
  exists j thj, threads s2 !! j = Some thj /\ at_pc thj <> Idle /\ can_move 1000 s2 j.
Proof.
  destruct (demo_stop 5 (fun s th => stopping_pc (at_pc th) && forallb (fun th => negb (relocks th)) (threads s))) as (s1&s2&th&Ha&Hr&Hi&Hc);
    [vm_compute; reflexivity|].
  apply andb_true_iff in Hc as [Hp Hn]. exists s1, s2, th. split; [exact Ha|]. split; [exact Hr|]. split; [exact Hi|].
  apply (stopping_pool_progresses 1000 2 [8; 16] stop_calls 3 s1 s2 _ th stop_pool_wf Ha Hr Hi Hp).
  apply Forall_forall. intros thj Hj. rewrite forallb_forall in Hn. apply negb_true_iff, Hn. by apply list_elem_of_In.
Defined.
