(* ===== verification/Thread.v ===== *)
(** * gp_thread.c: a managed thread

    A [gp_thread_manager] starts a thread that waits until it is told to run
    its function or to stop, and lets clients wait for its end.  As in Pool.v
    every call of the pthreads library and every access to the manager is a
    step of its own, the steps interleave arbitrarily, and a wait can end
    spuriously.  Locking, unlocking or waking through an object that has been
    destroyed, or a manager that has been freed, is undefined. *)

From S2P Require Import Prelude.
Local Open Scope Z_scope.

(** ** The manager, its thread and its clients *)
Inductive who := Thr | Client (i : nat).
#[export] Instance who_eq_dec : EqDecision who.
Proof. solve_decision. Defined.

(** [gp_tmr_fn]: whether it is not NULL; [mtx_ok], [cv_ok]: initialised and
    not destroyed. *)
Record gp_thread_manager := mk_tmr {
  init : Z;
  done_flag : Z;
  start : Z;
  stop : Z;
  gp_tmr_fn : bool;
  mtx_ok : bool;
  cv_ok : bool;
}.
#[export] Instance manager_eq_dec : EqDecision gp_thread_manager.
Proof. solve_decision. Defined.
Definition set_init (m : gp_thread_manager) (z : Z) : gp_thread_manager :=
  mk_tmr z (done_flag m) (start m) (stop m) (gp_tmr_fn m) (mtx_ok m) (cv_ok m).
Definition set_done (m : gp_thread_manager) (z : Z) : gp_thread_manager :=
  mk_tmr (init m) z (start m) (stop m) (gp_tmr_fn m) (mtx_ok m) (cv_ok m).
Definition set_start (m : gp_thread_manager) (z : Z) : gp_thread_manager :=
  mk_tmr (init m) (done_flag m) z (stop m) (gp_tmr_fn m) (mtx_ok m) (cv_ok m).
Definition set_stop (m : gp_thread_manager) (z : Z) : gp_thread_manager :=
  mk_tmr (init m) (done_flag m) (start m) z (gp_tmr_fn m) (mtx_ok m) (cv_ok m).
Definition destroy_gp_mtx (m : gp_thread_manager) : gp_thread_manager :=
  mk_tmr (init m) (done_flag m) (start m) (stop m) (gp_tmr_fn m) false (cv_ok m).
Definition destroy_gp_cv (m : gp_thread_manager) : gp_thread_manager :=
  mk_tmr (init m) (done_flag m) (start m) (stop m) (gp_tmr_fn m) (mtx_ok m) false.

(** The thread; [GNone]: there is none. *)
Inductive gpc :=
  | GLock | GTest | GWaiting | GUnlock (start : Z) | GDecide (start : Z) | GRunning
  | GDoneLock | GDone | GWake | GDoneUnlock | GExit | GNone.
#[export] Instance gpc_eq_dec : EqDecision gpc.
Proof. solve_decision. Defined.

(** [gp_tmr_run], [gp_tmr_wait], [gp_tmr_finish], [destroy_gp_thr_manager]. *)
Inductive call := Run | Wait | Finish | Destroy.
#[export] Instance call_eq_dec : EqDecision call.
Proof. solve_decision. Defined.
(** [c]: the call that the steps belong to, [Wait], [Finish] or [Destroy]. *)
Inductive cpc :=
  | Idle
  | RLock | RStart | RWake | RUnlock
  | JInit (c : call) | JLock (c : call) | JStop (c : call) | JWake (c : call) | JTest (c : call) | JWaiting (c : call)
  | JRelock (c : call) | JUnlock (c : call)
  | FCv (c : call) | FMtx (c : call) | FClear (c : call) | FFree.
#[export] Instance cpc_eq_dec : EqDecision cpc.
Proof. solve_decision. Defined.
Record client := mk_client { calls : list call; at_pc : cpc }.
#[export] Instance client_eq_dec : EqDecision client.
Proof. solve_decision. Defined.

(** [manager = None]: freed.  [holder]: who holds the mutex.  [called] and
    [returned] count the calls of the function. *)
Record world := mk_world {
  manager : option gp_thread_manager;
  holder : option who;
  thr : gpc;
  clients : list client;
  called : nat;
  returned : nat;
}.
#[export] Instance world_eq_dec : EqDecision world.
Proof. solve_decision. Defined.

(** ** Setting up *)
(** The manager, whether a thread runs, and the result.  [junk]: what the
    memory held; [created]: whether [pthread_create] succeeds. *)
Definition init_gp_thr (created : bool) : Z := if created then 0 else 1.
Definition init_gp_thr_manager (junk : Z) (fn created : bool) : gp_thread_manager * bool * Z :=
  let m := mk_tmr junk 0 0 0 fn true true in
  if negb fn then (set_done (set_init m 1) 1, false, -1)
  else
    let rv := if negb (init_gp_thr created =? 0) then 1 else 0 in
    if negb (rv =? 0) then (destroy_gp_mtx (destroy_gp_cv (set_done m 1)), false, rv)
    else (set_init m 1, true, 0).
(** [create_gp_thr_manager] hands the manager out whatever the result. *)
Definition create_gp_thr_manager (junk : Z) (fn created : bool) (progs : list (list call)) : world :=
  let '(m, running, _) := init_gp_thr_manager junk fn created in
  mk_world (Some m) None (if running then GLock else GNone) ((fun cs => mk_client cs Idle) <$> progs) 0 0.

(** ** Steps *)
Definition get (w : world) : res gp_thread_manager := of_option (manager w).
Definition put (w : world) (m : gp_thread_manager) : world :=
  mk_world (Some m) (holder w) (thr w) (clients w) (called w) (returned w).
Definition set_holder (w : world) (h : option who) : world :=
  mk_world (manager w) h (thr w) (clients w) (called w) (returned w).
Definition set_thr (w : world) (p : gpc) : world :=
  mk_world (manager w) (holder w) p (clients w) (called w) (returned w).
Definition set_clients (w : world) (l : list client) : world :=
  mk_world (manager w) (holder w) (thr w) l (called w) (returned w).
Definition log_call (w : world) : world :=
  mk_world (manager w) (holder w) (thr w) (clients w) (S (called w)) (returned w).
Definition log_return (w : world) : world :=
  mk_world (manager w) (holder w) (thr w) (clients w) (called w) (S (returned w)).

(** [gp_mtx_lock]: [None] while somebody else holds it. *)
Definition gp_mtx_lock (w : world) (x : who) : res (option world) :=
  let* m := get w in
  if mtx_ok m then Ok (match holder w with None => Some (set_holder w (Some x)) | Some _ => None end) else Ub.
Definition gp_mtx_unlock (w : world) : res world :=
  let* m := get w in if mtx_ok m then Ok (set_holder w None) else Ub.
(** [gp_cv_wake] *)
Definition wake_client (k : client) : client :=
  match at_pc k with JWaiting c => mk_client (calls k) (JRelock c) | _ => k end.
Definition wake_thr (p : gpc) : gpc := match p with GWaiting => GLock | _ => p end.
Definition gp_cv_wake (w : world) : res world :=
  let* m := get w in
  if cv_ok m then Ok (set_clients (set_thr w (wake_thr (thr w))) (wake_client <$> clients w)) else Ub.
(** [gp_cv_wait] up to the point where it waits: the mutex is released. *)
Definition gp_cv_wait (w : world) : res world :=
  let* m := get w in if mtx_ok m && cv_ok m then Ok (set_holder w None) else Ub.

Definition gp_tmr_wrap (w : world) : res world :=
  match thr w with
  | GLock => let* o := gp_mtx_lock w Thr in Ok (match o with Some w => set_thr w GTest | None => w end)
  | GTest =>
      let* m := get w in
      if (start m =? 0) && (stop m =? 0) then let* w := gp_cv_wait w in Ok (set_thr w GWaiting)
      else Ok (set_thr w (GUnlock (start m)))
  | GUnlock s => let* w := gp_mtx_unlock w in Ok (set_thr w (GDecide s))
  | GDecide s =>
      let* m := get w in
      Ok (if negb (s =? 0) && gp_tmr_fn m then set_thr (log_call w) GRunning else set_thr w GDoneLock)
  | GRunning => Ok (set_thr (log_return w) GDoneLock)
  | GDoneLock => let* o := gp_mtx_lock w Thr in Ok (match o with Some w => set_thr w GDone | None => w end)
  | GDone => let* m := get w in Ok (set_thr (put w (set_done m 1)) GWake)
  | GWake => let* w := gp_cv_wake w in Ok (set_thr w GDoneUnlock)
  | GDoneUnlock => let* w := gp_mtx_unlock w in Ok (set_thr w GExit)
  | GWaiting | GExit | GNone => Ok w
  end.

Definition put_client (w : world) (i : nat) (k : client) : world := set_clients w (<[i := k]> (clients w)).
(** Client [i] goes on at [p]. *)
Definition goto (w : world) (i : nat) (k : client) (p : cpc) : res world := Ok (put_client w i (mk_client (calls k) p)).
Definition lock_step (w : world) (i : nat) (k : client) (p : cpc) : res world :=
  let* o := gp_mtx_lock w (Client i) in match o with Some w => goto w i k p | None => Ok w end.

Definition gp_thr_manager_run (w : world) (i : nat) (k : client) : res world :=
  match at_pc k with
  | RLock => lock_step w i k RStart
  | RStart => let* m := get w in goto (put w (set_start m 1)) i k RWake
  | RWake => let* w := gp_cv_wake w in goto w i k RUnlock
  | RUnlock => let* w := gp_mtx_unlock w in goto w i k Idle
  | _ => Ok w
  end.
(** [gp_thr_manager_wait], the first part of [gp_thr_manager_finish] as well. *)
Definition gp_thr_manager_wait (w : world) (i : nat) (k : client) : res world :=
  match at_pc k with
  | JInit c =>
      let* m := get w in
      goto w i k (if init m =? 0 then match c with Destroy => FFree | _ => Idle end else JLock c)
  | JLock c => lock_step w i k (JStop c)
  | JStop c => let* m := get w in goto (put w (set_stop m 1)) i k (JWake c)
  | JWake c => let* w := gp_cv_wake w in goto w i k (JTest c)
  | JTest c =>
      let* m := get w in
      if done_flag m =? 0 then let* w := gp_cv_wait w in goto w i k (JWaiting c) else goto w i k (JUnlock c)
  | JRelock c => lock_step w i k (JTest c)
  | JUnlock c => let* w := gp_mtx_unlock w in goto w i k (match c with Finish | Destroy => FCv c | _ => Idle end)
  | _ => Ok w
  end.
Definition gp_thr_manager_finish (w : world) (i : nat) (k : client) : res world :=
  match at_pc k with
  | FCv c => let* m := get w in goto (put w (destroy_gp_cv m)) i k (FMtx c)
  | FMtx c => let* m := get w in goto (put w (destroy_gp_mtx m)) i k (FClear c)
  | FClear c =>
      let* m := get w in goto (put w (set_init m 0)) i k (match c with Destroy => FFree | _ => Idle end)
  | _ => Ok w
  end.
(** [free(gp_tmr)] *)
Definition destroy_gp_thr_manager (w : world) (i : nat) (k : client) : res world :=
  match at_pc k with
  | FFree =>
      let* _ := get w in
      goto (mk_world None (holder w) (thr w) (clients w) (called w) (returned w)) i k Idle
  | _ => Ok w
  end.
Definition next_call (w : world) (i : nat) (k : client) : res world :=
  match calls k with
  | [] => Ok w
  | c :: cs => Ok (put_client w i (mk_client cs (match c with Run => RLock | _ => JInit c end)))
  end.
Definition client_step (w : world) (i : nat) : res world :=
  match clients w !! i with
  | None => Ok w
  | Some k =>
      match at_pc k with
      | Idle => next_call w i k
      | RLock | RStart | RWake | RUnlock => gp_thr_manager_run w i k
      | FCv _ | FMtx _ | FClear _ => gp_thr_manager_finish w i k
      | FFree => destroy_gp_thr_manager w i k
      | _ => gp_thr_manager_wait w i k
      end
  end.
Definition step (w : world) (x : who) : res world :=
  match x with Thr => gp_tmr_wrap w | Client i => client_step w i end.
(** A wait that ends without having been woken. *)
Definition spurious (w : world) (x : who) : world :=
  match x with
  | Thr => set_thr w (wake_thr (thr w))
  | Client i => match clients w !! i with Some k => put_client w i (wake_client k) | None => w end
  end.
Inductive move := Move (x : who) | Spurious (x : who).
Definition exec (w : world) (m : move) : res world :=
  match m with Move x => step w x | Spurious x => Ok (spurious w x) end.
Fixpoint run (w : world) (sched : list move) : res world :=
  match sched with [] => Ok w | m :: sched => let* w := exec w m in run w sched end.
