(* ===== verification/ThreadInv.v ===== *)
(** * gp_thread.c: the function runs once, and nothing is destroyed too early

    The invariant of a manager, its thread and its clients, that every step
    keeps it, and what follows for the calls of the function, for the end of
    [gp_tmr_finish] and for progress. *)

From S2P Require Import Prelude Thread.
Local Open Scope Z_scope.

(** ** What the clients may do *)
Definition ends (c : call) : bool := match c with Finish | Destroy => true | _ => false end.
(** Nothing comes after [Destroy], and no [Run] after [Finish]. *)
Fixpoint prog_ok (cs : list call) : Prop :=
  match cs with
  | [] => True
  | Destroy :: cs => cs = []
  | Finish :: cs => Run ∉ cs /\ prog_ok cs
  | _ :: cs => prog_ok cs
  end.
(** A manager that is finished has one client. *)
Definition progs_ok (progs : list (list call)) : Prop :=
  Forall prog_ok progs /\ (length progs = 1%nat \/ Forall (fun cs => existsb ends cs = false) progs).

(** ** Threads by what they hold *)
Definition holds_thr (p : gpc) : bool :=
  match p with GTest | GUnlock _ | GDone | GWake | GDoneUnlock => true | _ => false end.
Definition holds_client (p : cpc) : bool :=
  match p with RStart | RWake | RUnlock | JStop _ | JWake _ | JTest _ | JUnlock _ => true | _ => false end.
(** It has set [done], has woken the clients, is gone. *)
Definition is_done (p : gpc) : bool := match p with GWake | GDoneUnlock | GExit | GNone => true | _ => false end.
Definition has_woken (p : gpc) : bool := match p with GDoneUnlock | GExit | GNone => true | _ => false end.
Definition over (p : gpc) : bool := match p with GExit | GNone => true | _ => false end.
(** The call a client is in, if it is to be followed by no other. *)
Definition cur (p : cpc) : list call :=
  match p with
  | JInit c | JLock c | JStop c | JWake c | JTest c | JWaiting c | JRelock c | JUnlock c | FCv c | FMtx c | FClear c => [c]
  | FFree => [Destroy]
  | _ => []
  end.
Definition rest (k : client) : list call := cur (at_pc k) ++ calls k.
(** It has set [stop]. *)
Definition has_stopped (p : cpc) : bool :=
  match p with JWake _ | JTest _ | JWaiting _ | JRelock _ => true | _ => false end.
Definition waits (p : cpc) : bool := match p with JWaiting _ => true | _ => false end.
Definition will_wake (p : cpc) : bool := match p with RWake | JWake _ => true | _ => false end.
(** About to destroy the objects. *)
Definition seen_done (p : cpc) : bool := match p with JUnlock c => ends c | FCv _ => true | _ => false end.
Definition destroying (p : cpc) : bool := match p with FMtx _ | FClear _ | FFree => true | _ => false end.

(** ** The invariant *)
Record client_inv (om : option gp_thread_manager) (h : option who) (g : gpc) (i : nat) (k : client) : Prop := {
  ci_prog : prog_ok (rest k);
  ci_cur : Run ∉ cur (at_pc k);
  ci_ends : forall c, at_pc k = FCv c \/ at_pc k = FMtx c \/ at_pc k = FClear c -> ends c = true;
  ci_holds : holds_client (at_pc k) = true <-> h = Some (Client i);
  ci_stopped : forall m, om = Some m -> has_stopped (at_pc k) = true -> stop m <> 0;
  ci_waits : waits (at_pc k) = true -> has_woken g = false;
  ci_seen : seen_done (at_pc k) = true \/ destroying (at_pc k) = true -> over g = true;
}.
(** The calls of the function, by where the thread is. *)
Definition counts (g : gpc) (called returned : nat) : Prop :=
  match g with
  | GLock | GTest | GWaiting | GUnlock _ | GDecide _ | GNone => called = 0%nat /\ returned = 0%nat
  | GRunning => called = 1%nat /\ returned = 0%nat
  | _ => called = returned /\ (returned <= 1)%nat
  end.
Record thr_inv (om : option gp_thread_manager) (h : option who) (g : gpc) (called returned : nat) : Prop := {
  ti_holds : holds_thr g = true <-> h = Some Thr;
  ti_done : forall m, om = Some m -> is_done g = negb (done_flag m =? 0);
  ti_counts : counts g called returned;
  ti_start : forall m, om = Some m -> (called = 1%nat \/ (exists s, (g = GUnlock s \/ g = GDecide s) /\ s <> 0)) -> start m <> 0;
}.
(** What is still there. *)
Inductive stage (om : option gp_thread_manager) (g : gpc) (ks : list client) : Prop :=
  | stage_live m : om = Some m -> mtx_ok m = true -> cv_ok m = true -> init m <> 0 ->
      (forall k, k ∈ ks -> destroying (at_pc k) = false) -> stage om g ks
  | stage_cv m cs c : om = Some m -> mtx_ok m = true -> init m <> 0 -> over g = true ->
      ks = [mk_client cs (FMtx c)] -> stage om g ks
  | stage_mtx m cs c : om = Some m -> over g = true -> ks = [mk_client cs (FClear c)] -> stage om g ks
  | stage_clear m k : om = Some m -> init m = 0 -> over g = true -> ks = [k] -> Run ∉ calls k ->
      (at_pc k = Idle \/ at_pc k = FFree \/ exists c, at_pc k = JInit c) -> stage om g ks
  | stage_freed : om = None -> over g = true -> ks = [mk_client [] Idle] -> stage om g ks.
Record inv (w : world) : Prop := {
  in_stage : stage (manager w) (thr w) (clients w);
  in_clients : forall i k, clients w !! i = Some k -> client_inv (manager w) (holder w) (thr w) i k;
  in_thr : thr_inv (manager w) (holder w) (thr w) (called w) (returned w);
  in_wake : forall m, manager w = Some m -> thr w = GWaiting ->
    (start m = 0 /\ stop m = 0) \/ exists k, k ∈ clients w /\ will_wake (at_pc k) = true;
  in_solo : length (clients w) = 1%nat \/ forall k, k ∈ clients w -> existsb ends (rest k) = false;
  in_holder : forall i, holder w = Some (Client i) -> (i < length (clients w))%nat;
}.

(** ** Replacing one thread *)
Definition mgr_le (om om' : option gp_thread_manager) : Prop :=
  forall m', om' = Some m' -> exists m, om = Some m /\ (stop m <> 0 -> stop m' <> 0) /\ (start m <> 0 -> start m' <> 0) /\
    done_flag m' = done_flag m.
Lemma mgr_le_refl om : mgr_le om om.
Proof. intros m Hm. by exists m. Qed.

Lemma client_move w i k om' h' k' :
  inv w -> clients w !! i = Some k -> mgr_le (manager w) om' ->
  (forall y, y <> Client i -> h' = Some y <-> holder w = Some y) ->
  stage om' (thr w) (<[i := k']> (clients w)) -> client_inv om' h' (thr w) i k' ->
  (forall m', om' = Some m' -> thr w = GWaiting ->
     start m' = 0 /\ stop m' = 0 \/ exists k, k ∈ <[i := k']> (clients w) /\ will_wake (at_pc k) = true) ->
  (existsb ends (rest k) = false -> existsb ends (rest k') = false) ->
  inv (mk_world om' h' (thr w) (<[i := k']> (clients w)) (called w) (returned w)).
Proof.
  intros [St Cl Th Wk So Ho] Hi Hm Hh Hst Hk Hw He. pose proof (lookup_lt_Some _ _ _ Hi) as Hlt. split; cbn.
  - exact Hst.
  - intros j kj [(->&<-&_)|[Hne Hj]]%list_lookup_insert_Some; [exact Hk|]. destruct (Cl j kj Hj) as [C1 C2 C3 C4 C5 C6 C7].
    split; try done.
    + rewrite C4. symmetry. apply Hh. congruence.
    + intros m' Hm' Hs. destruct (Hm m' Hm') as (m&E&Hstop&_). apply Hstop. by apply (C5 m).
  - destruct Th as [T1 T2 T3 T4]. split; try done.
    + rewrite T1. symmetry. by apply Hh.
    + intros m' Hm'. destruct (Hm m' Hm') as (m&E&_&_&->). by apply T2.
    + intros m' Hm' Hc. destruct (Hm m' Hm') as (m&E&_&Hs&_). apply Hs. by apply (T4 m).
  - exact Hw.
  - rewrite length_insert. destruct So as [So|So]; [by left|right]. intros kj Hj.
    apply list_elem_of_lookup in Hj as [j [(->&<-&_)|[_ Hj]]%list_lookup_insert_Some];
      [apply He, So; by eapply list_elem_of_lookup_2|apply So; by eapply list_elem_of_lookup_2].
  - intros j Hj. rewrite length_insert. destruct (decide (j = i)) as [->|Hne]; [done|]. apply Ho. apply Hh; [congruence|done].
Qed.

Lemma thr_move w om' h' g' c' r' :
  inv w -> over (thr w) = false ->
  (forall m', om' = Some m' -> exists m, manager w = Some m /\ (stop m <> 0 -> stop m' <> 0)) ->
  (forall y, y <> Thr -> h' = Some y <-> holder w = Some y) ->
  stage om' g' (clients w) -> thr_inv om' h' g' c' r' ->
  (has_woken g' = true -> has_woken (thr w) = true \/ forall k, k ∈ clients w -> waits (at_pc k) = false) ->
  (forall m', om' = Some m' -> g' = GWaiting -> start m' = 0 /\ stop m' = 0) ->
  inv (mk_world om' h' g' (clients w) c' r').
Proof.
  intros [St Cl Th Wk So Ho] Hov Hm Hh Hst Ht Hwk Hw. split; cbn; try done.
  - intros j kj Hj. destruct (Cl j kj Hj) as [C1 C2 C3 C4 C5 C6 C7]. split; try done.
    + rewrite C4. symmetry. by apply Hh.
    + intros m' Hm' Hs. destruct (Hm m' Hm') as (m&E&Hstop). apply Hstop. by apply (C5 m).
    + intros Hs. destruct (has_woken g') eqn:Eg; [|done]. destruct (Hwk eq_refl) as [Hx|Hx]; [by rewrite C6 in Hx|].
      rewrite Hx in Hs; [done|]. by eapply list_elem_of_lookup_2.
    + intros Hs. rewrite C7 in Hov by done. done.
  - intros m' Hm' Hg. left. by apply Hw.
  - intros j Hj. apply Ho. by apply Hh.
Qed.

(** ** A thread that is at work finds everything in place *)
Definition live (w : world) (m : gp_thread_manager) : Prop :=
  manager w = Some m /\ mtx_ok m = true /\ cv_ok m = true /\ init m <> 0 /\ forall k, k ∈ clients w -> destroying (at_pc k) = false.
Lemma thr_live w : inv w -> over (thr w) = false -> exists m, live w m.
Proof. intros [St _ _ _ _ _] Ho. destruct St as [m ? ? ? ? ?|? ? ? ? ? ? Hx|? ? ? ? Hx|? ? ? ? Hx|? Hx]; [by exists m|congruence..]. Qed.
Definition at_work (p : cpc) : bool :=
  match p with Idle | JInit _ | FMtx _ | FClear _ | FFree => false | _ => true end.
Lemma client_live w i k : inv w -> clients w !! i = Some k -> at_work (at_pc k) = true -> exists m, live w m.
Proof.
  intros [St _ _ _ _ _] Hi Hw. assert (Hin : k ∈ clients w) by (by eapply list_elem_of_lookup_2).
  destruct St as [m ? ? ? ? ?|? ? ? ? ? ? ? Hk|? ? ? ? ? Hk|? k' ? ? ? Hk ? Hp|? ? Hk]; [by exists m|..];
    rewrite Hk, list_elem_of_singleton in Hin; subst k; try done.
  by destruct Hp as [Hp|[Hp|(c&Hp)]]; rewrite Hp in Hw.
Qed.
Lemma live_stage w i k' m m' g : live w m -> mtx_ok m' = true -> cv_ok m' = true -> init m' <> 0 -> destroying (at_pc k') = false ->
  stage (Some m') g (<[i := k']> (clients w)).
Proof.
  intros (_&_&_&_&Hd) H1 H2 H3 H4. apply (stage_live _ _ _ m'); try done. intros k Hk.
  apply list_elem_of_lookup in Hk as [j [(->&<-&_)|[_ Hj]]%list_lookup_insert_Some]; [done|]. apply Hd. by eapply list_elem_of_lookup_2.
Qed.

(** *** Waking *)
Lemma wake_client_facts k : calls (wake_client k) = calls k /\ cur (at_pc (wake_client k)) = cur (at_pc k) /\
  holds_client (at_pc (wake_client k)) = holds_client (at_pc k) /\ has_stopped (at_pc (wake_client k)) = has_stopped (at_pc k) /\
  seen_done (at_pc (wake_client k)) = seen_done (at_pc k) /\ destroying (at_pc (wake_client k)) = destroying (at_pc k) /\
  waits (at_pc (wake_client k)) = false /\ will_wake (at_pc (wake_client k)) = will_wake (at_pc k) /\
  (waits (at_pc k) = false -> wake_client k = k).
Proof. destruct k as [cs p]. by destruct p. Qed.
Lemma woken_inv om h g i k g' : client_inv om h g i k -> has_woken g' = has_woken g -> over g' = over g -> client_inv om h g' i (wake_client k).
Proof.
  intros [C1 C2 C3 C4 C5 C6 C7] Hg1 Hg2. destruct (wake_client_facts k) as (F1&F2&F3&F4&F5&F6&F7&F8&F9).
  assert (Hr : rest (wake_client k) = rest k) by (unfold rest; by rewrite F1, F2).
  split; rewrite ?Hr, ?F2, ?F3, ?F4, ?F5, ?F6, ?F7, ?Hg2; try done.
  intros c Hc. apply C3. destruct k as [cs p]. destruct p; cbn in *; try done; naive_solver.
Qed.
Lemma wake_thr_inv om h g c r : thr_inv om h g c r -> thr_inv om h (wake_thr g) c r.
Proof. intros [T1 T2 T3 T4]. destruct g; try (by split). split; try done. intros m Hm [|(s&[|]&_)]; [apply (T4 m); auto|done..]. Qed.
Lemma wake_inv w m : inv w -> live w m -> inv (set_clients (set_thr w (wake_thr (thr w))) (wake_client <$> clients w)).
Proof.
  intros [St Cl Th Wk So Ho] (Hm&L1&L2&L3&Hd).
  assert (Hin : forall k, k ∈ wake_client <$> clients w -> exists k0, k0 ∈ clients w /\ k = wake_client k0).
  { intros k (k0&->&Hk0)%list_elem_of_fmap. by exists k0. }
  split; cbn.
  - apply (stage_live _ _ _ m); try done. intros k (k0&Hk0&->)%Hin. destruct (wake_client_facts k0) as (_&_&_&_&_&->&_). by apply Hd.
  - intros i k Hk. rewrite list_lookup_fmap in Hk. destruct (clients w !! i) as [k0|] eqn:E; [|done]. injection Hk as <-.
    eapply woken_inv; [by apply Cl|by destruct (thr w)..].
  - by apply wake_thr_inv.
  - intros m' _ Hg. by destruct (thr w).
  - rewrite length_fmap. destruct So as [So|So]; [by left|right]. intros k (k0&Hk0&->)%Hin.
    destruct (wake_client_facts k0) as (F1&F2&_). unfold rest in *. rewrite F1, F2. by apply So.
  - intros i Hi. rewrite length_fmap. by apply Ho.
Qed.

(** ** Every step *)
Lemma live_step w m g m' : live w m -> mtx_ok m' = true -> cv_ok m' = true -> init m' <> 0 -> stage (Some m') g (clients w).
Proof. intros (_&_&_&_&Hd) H1 H2 H3. by apply (stage_live _ _ _ m'). Qed.
Lemma taken h x : h = None -> forall y : who, y <> x -> Some x = Some y <-> h = Some y.
Proof. intros -> y Hne. split; [by intros [= ->]|done]. Qed.
Lemma released h x : h = Some x -> forall y : who, y <> x -> None = Some y <-> h = Some y.
Proof. intros -> y Hne. split; [done|by intros [= ->]]. Qed.
Lemma kept (h : option who) (x : who) : forall y : who, y <> x -> h = Some y <-> h = Some y.
Proof. done. Qed.
Lemma thr_goto w m m' h' g' c' r' :
  inv w -> over (thr w) = false -> live w m -> mtx_ok m' = true -> cv_ok m' = true -> init m' <> 0 -> (stop m <> 0 -> stop m' <> 0) ->
  (forall y, y <> Thr -> h' = Some y <-> holder w = Some y) -> thr_inv (Some m') h' g' c' r' ->
  (has_woken g' = true -> has_woken (thr w) = true \/ forall k, k ∈ clients w -> waits (at_pc k) = false) ->
  (g' = GWaiting -> start m' = 0 /\ stop m' = 0) -> inv (mk_world (Some m') h' g' (clients w) c' r').
Proof.
  intros H Hov HL H1 H2 H3 Hs Hh Ht Hw Hg. apply (thr_move w); try done.
  - intros m0 [= <-]. exists m. split; [apply HL|done].
  - by eapply live_step.
  - intros m0 [= <-]. done.
Qed.

Ltac thr_keeps T4 :=
  split; cbn; try done; [by intros ? [= <-]|intros ? [= <-] [?|(?&[|]&_)]; [apply T4; by left|done..]].
Lemma woken_goto m h l c r :
  inv (mk_world (Some m) h GWake l c r) -> live (mk_world (Some m) h GWake l c r) m -> thr_inv (Some m) h GDoneUnlock c r ->
  (forall k, k ∈ l -> waits (at_pc k) = false) -> inv (mk_world (Some m) h GDoneUnlock l c r).
Proof.
  intros H HL Ht Hl. pose proof HL as (_&L1&L2&L3&_). apply (thr_goto _ m m _ _ _ _ H); try done. intros _. by right.
Qed.
Lemma thr_step_ok w : inv w -> exists w', gp_tmr_wrap w = Ok w' /\ inv w'.
Proof.
  intros H. unfold gp_tmr_wrap. destruct (over (thr w)) eqn:Hov; [destruct (thr w); try done; by exists w|].
  destruct (thr_live w H Hov) as (m&HL). pose proof HL as (Hm&L1&L2&L3&Hd).
  destruct (in_thr w H) as [T1 T2 T3 T4]. specialize (T2 m Hm). specialize (T4 m Hm).
  assert (Hget : get w = Ok m) by (unfold get; by rewrite Hm). unfold gp_mtx_lock, gp_mtx_unlock, gp_cv_wait, gp_cv_wake. rewrite Hget. cbn [res_bind].
  destruct (thr w) eqn:Eg; try done; rewrite ?L1, ?L2; cbn [andb res_bind].
  - destruct (holder w) eqn:Eh; [by exists w|]. eexists. split; [done|]. unfold set_thr, set_holder. cbn. rewrite Hm.
    apply (thr_goto w m); rewrite ?Eg; try done; [by apply taken|]. thr_keeps T4.
  - destruct ((start m =? 0) && (stop m =? 0)) eqn:Es; eexists; (split; [done|]); unfold set_thr, set_holder; cbn; rewrite Hm;
      apply (thr_goto w m); rewrite ?Eg; try done.
    + apply released. by apply T1.
    + thr_keeps T4.
    + intros _. apply andb_true_iff in Es as [?%Z.eqb_eq ?%Z.eqb_eq]. done.
    + split; cbn; try done; [by intros m' [= <-]|]. intros m' [= <-] [Hc|(s&[[= <-]|]&Hs)]; [apply T4; by left|done|done].
  - by exists w.
  - eexists. split; [done|]. unfold set_thr, set_holder. cbn. rewrite Hm. apply (thr_goto w m); rewrite ?Eg; try done.
    + apply released. by apply T1.
    + split; cbn; try done; [by intros m' [= <-]|]. intros m' [= <-] [Hc|(s&[|[= <-]]&Hs)]; [apply T4; by left|done|apply T4; right; eauto].
  - destruct (negb (start =? 0) && gp_tmr_fn m) eqn:Es; eexists; (split; [done|]); unfold set_thr, log_call; cbn; rewrite Hm;
      apply (thr_goto w m); rewrite ?Eg; try done; cbn in T3; destruct T3 as [Hc Hr]; rewrite ?Hc, ?Hr.
    + split; cbn; try done; [by intros m' [= <-]|]. intros m' [= <-] _. apply T4. right. exists start. split; [by right|].
      apply andb_true_iff in Es as [Es _]. apply negb_true_iff in Es. by apply Z.eqb_neq.
    + split; cbn; try done; [by intros m' [= <-]|lia|]. intros m' [= <-] [Hc'|(s&[|]&_)]; done.
  - eexists. split; [done|]. unfold set_thr, log_return. cbn. rewrite Hm. cbn in T3. destruct T3 as [Hc Hr].
    apply (thr_goto w m); rewrite ?Eg; try done. rewrite Hc, Hr. split; cbn; try done; [by intros m' [= <-]|].
    intros m' [= <-] _. apply T4. by left.
  - destruct (holder w) eqn:Eh; [by exists w|]. eexists. split; [done|]. unfold set_thr, set_holder. cbn. rewrite Hm.
    apply (thr_goto w m); rewrite ?Eg; try done; [by apply taken|]. thr_keeps T4.
  - eexists. split; [done|]. unfold set_thr, put. cbn. apply (thr_goto w m); rewrite ?Eg; try done.
    thr_keeps T4.
  - pose proof (wake_inv w m H HL) as Hwk. rewrite Eg in Hwk. eexists. split; [done|]. revert Hwk.
    unfold set_thr, set_clients. cbn [manager holder thr clients called returned wake_thr]. rewrite Hm. intros Hwk.
    apply (woken_goto m _ _ _ _ Hwk); try done; [split_and!; try done|thr_keeps T4|];
      intros k (k0&->&Hk0)%list_elem_of_fmap; [|apply wake_client_facts].
    cbn. destruct (wake_client_facts k0) as (_&_&_&_&_&->&_). by apply Hd.
  - eexists. split; [done|]. unfold set_thr, set_holder. cbn. rewrite Hm. apply (thr_goto w m); rewrite ?Eg; try done.
    + apply released. by apply T1.
    + thr_keeps T4.
    + by left.
Qed.

(** *** A client *)
Lemma client_goto w i k m m' h' k' :
  inv w -> clients w !! i = Some k -> live w m -> live (put w m') m' -> (stop m <> 0 -> stop m' <> 0) -> (start m <> 0 -> start m' <> 0) ->
  done_flag m' = done_flag m -> (forall y, y <> Client i -> h' = Some y <-> holder w = Some y) ->
  client_inv (Some m') h' (thr w) i k' -> destroying (at_pc k') = false ->
  (existsb ends (rest k) = false -> existsb ends (rest k') = false) ->
  (thr w = GWaiting -> will_wake (at_pc k') = true \/ m' = m /\ will_wake (at_pc k) = false) ->
  inv (mk_world (Some m') h' (thr w) (<[i := k']> (clients w)) (called w) (returned w)).
Proof.
  intros H Hi HL (_&L1&L2&L3&_) Hs Ht Hd Hh Hk Hde Hr Hw. pose proof (lookup_lt_Some _ _ _ Hi) as Hlt. pose proof HL as (Hm&_).
  apply (client_move w i k); try done; [|by eapply live_stage|].
  - intros m0 [= <-]. by exists m.
  - intros m0 [= <-] Hg. destruct (Hw Hg) as [Hx|[-> Hx]].
    + right. exists k'. split; [|done]. eapply list_elem_of_lookup_2. by apply list_lookup_insert_eq.
    + destruct (in_wake w H m Hm Hg) as [?|(k0&[j Hj]%list_elem_of_lookup&Hk0)]; [by left|right].
      exists k0. split; [|done]. apply (list_elem_of_lookup_2 _ j). rewrite list_lookup_insert_ne; [done|].
      intros ->. simplify_eq. congruence.
Qed.
Lemma solo w i k : inv w -> clients w !! i = Some k -> existsb ends (rest k) = true -> i = 0%nat /\ clients w = [k].
Proof.
  intros H Hi He. destruct (in_solo w H) as [Hl|Hn].
  - destruct (clients w) as [|k0 [|]] eqn:E; try done. destruct i as [|i]; [by injection Hi as ->|done].
  - rewrite Hn in He; [done|]. by eapply list_elem_of_lookup_2.
Qed.
Lemma over_not_waiting g : over g = true -> g <> GWaiting.
Proof. by destruct g. Qed.
Lemma done_over w m i : inv w -> live w m -> done_flag m <> 0 -> holder w = Some (Client i) -> over (thr w) = true.
Proof.
  intros H HL Hd Hh. destruct (in_thr w H) as [T1 T2 _ _]. specialize (T2 m ltac:(apply HL)).
  rewrite (proj2 (Z.eqb_neq _ _) Hd) in T2. destruct (thr w); cbn in *; try done; by destruct T1 as [T1 _]; rewrite T1 in Hh.
Qed.
Lemma not_done w m : inv w -> live w m -> done_flag m = 0 -> has_woken (thr w) = false.
Proof.
  intros H HL Hd. destruct (in_thr w H) as [_ T2 _ _]. specialize (T2 m ltac:(apply HL)). rewrite Hd in T2. by destruct (thr w).
Qed.
Lemma live_put w m m' : live w m -> mtx_ok m' = mtx_ok m -> cv_ok m' = cv_ok m -> init m' = init m -> live (put w m') m'.
Proof. intros (H1&H2&H3&H4&H5) E1 E2 E3. unfold live. by rewrite E1, E2, E3. Qed.

(** [lock_step]: the client goes on holding the mutex, or stays where it is. *)
Lemma lock_step_ok w i k p : inv w -> clients w !! i = Some k -> at_work (at_pc k) = true -> cur p = cur (at_pc k) ->
  has_stopped p = has_stopped (at_pc k) -> holds_client p = true -> (forall c, at_pc k <> FCv c) -> seen_done p = false -> waits p = false ->
  destroying p = false -> will_wake (at_pc k) = false -> (forall c, p <> FCv c) -> exists w', lock_step w i k p = Ok w' /\ inv w'.
Proof.
  intros H Hi Hw Hc Hs Hh Hnf Hd Hwt Hde Hww Hnp. destruct (client_live w i k H Hi Hw) as (m&HL). pose proof HL as (Hm&L1&L2&L3&_).
  unfold lock_step, gp_mtx_lock, get. rewrite Hm. cbn. rewrite L1. cbn. destruct (holder w) eqn:Eh; [by exists w|].
  eexists. split; [done|]. unfold put_client, set_clients, set_holder. cbn. rewrite Hm.
  destruct (in_clients w H i k Hi) as [C1 C2 C3 C4 C5 C6 C7].
  apply (client_goto w i k m); try done; try (by eapply live_put); [by apply taken| |cbn; unfold rest; cbn; by rewrite Hc|by right].
  split; cbn; unfold rest; cbn; rewrite ?Hc, ?Hs, ?Hh, ?Hwt; try done.
  - intros c [?|[Hx|Hx]]; [by edestruct Hnp|by rewrite Hx in Hde..].
  - intros m' [= <-]. by apply C5.
  - rewrite Hd, Hde. by intros [|].
Qed.
(** The client's own invariant when it goes on from a place where it is at work. *)
Lemma client_next om om' h h' g i k k' : client_inv om h g i k -> prog_ok (rest k') -> Run ∉ cur (at_pc k') -> 
  (holds_client (at_pc k') = true <-> h' = Some (Client i)) -> (forall m, om' = Some m -> has_stopped (at_pc k') = true -> stop m <> 0) ->
  (waits (at_pc k') = true -> has_woken g = false) -> (seen_done (at_pc k') = true -> over g = true) -> destroying (at_pc k') = false ->
  (forall c, at_pc k' = FCv c -> ends c = true) -> client_inv om' h' g i k'.
Proof.
  intros [C1 C2 C3 C4 C5 C6 C7] H1 H2 H3 H4 H5 H6 H7 H8. split; try done.
  - intros c [?|[Hx|Hx]]; [by apply H8|by rewrite Hx in H7..].
  - rewrite H7. intros [?|]; [by apply H6|done].
Qed.
Lemma wake_step_ok w m i k p : inv w -> clients w !! i = Some k -> live w m -> holder w = Some (Client i) -> cur p = cur (at_pc k) ->
  will_wake (at_pc k) = true -> has_stopped p = has_stopped (at_pc k) -> holds_client p = true -> waits p = false -> seen_done p = false ->
  destroying p = false -> (forall c, p <> FCv c) -> exists w', (let* w := gp_cv_wake w in goto w i k p) = Ok w' /\ inv w'.
Proof.
  intros H Hi HL Hh Hc Hw Hs Hho Hwt Hsd Hde Hnp. pose proof HL as (Hm&L1&L2&L3&Hd). unfold gp_cv_wake, get. rewrite Hm. cbn. rewrite L2. cbn.
  eexists. split; [done|]. pose proof (wake_inv w m H HL) as Hk.
  assert (Hi' : (wake_client <$> clients w) !! i = Some k).
  { rewrite list_lookup_fmap, Hi. cbn. f_equal. apply wake_client_facts. by destruct (at_pc k). }
  destruct (in_clients _ Hk i k Hi') as [C1 C2 C3 C4 C5 C6 C7]. unfold put_client, set_clients, set_thr in *. cbn in *. rewrite Hm in *.
  apply (client_goto _ i k m m (holder w) _ Hk Hi'); try done; cbn.
  - split_and!; try done. cbn. intros k0 (k1&->&Hk1)%list_elem_of_fmap. destruct (wake_client_facts k1) as (_&_&_&_&_&->&_). by apply Hd.
  - split_and!; try done. cbn. intros k0 (k1&->&Hk1)%list_elem_of_fmap. destruct (wake_client_facts k1) as (_&_&_&_&_&->&_). by apply Hd.
  - apply (client_next _ _ _ _ _ _ _ _ (in_clients _ Hk i k Hi')); cbn; unfold rest in *; cbn; rewrite ?Hc, ?Hs, ?Hho, ?Hwt, ?Hsd; try done.
    intros c Hx. by edestruct Hnp.
  - unfold rest. cbn. by rewrite Hc.
  - intros Hg. by destruct (thr w).
Qed.
Lemma run_call_inv w i k : inv w -> clients w !! i = Some k -> at_work (at_pc k) = true -> cur (at_pc k) = [] ->
  exists w', gp_thr_manager_run w i k = Ok w' /\ inv w'.
Proof.
  intros H Hi Hw Hc. destruct (client_live w i k H Hi Hw) as (m&HL). pose proof HL as (Hm&L1&L2&L3&_).
  pose proof (in_clients w H i k Hi) as Ck. pose proof Ck as [C1 C2 C3 C4 C5 C6 C7].
  unfold gp_thr_manager_run, gp_mtx_unlock, get. rewrite Hm. cbn [of_option res_bind]. rewrite ?L1.
  destruct k as [cs p]; destruct p; try done; cbn [at_pc] in *.
  - by apply lock_step_ok.
  - eexists. split; [done|]. unfold put_client, put, set_clients. cbn.
    apply (client_goto w i (mk_client cs RStart) m (set_start m 1)); try done; [by apply (live_put w m)| |by left].
    apply (client_next _ _ _ _ _ _ _ _ Ck); cbn; try done.
  - apply (wake_step_ok w m); try done. by apply C4.
  - eexists. split; [done|]. unfold put_client, set_clients, set_holder. cbn. rewrite Hm.
    apply (client_goto w i (mk_client cs RUnlock) m m); try done; [by apply (live_put w m)|apply released; by apply C4| |by right].
    apply (client_next _ _ _ _ _ _ _ _ Ck); cbn; try done.
Qed.
(** [JInit] and what follows the end of the waiting are apart. *)
Definition joins (p : cpc) : bool :=
  match p with JLock _ | JStop _ | JWake _ | JTest _ | JWaiting _ | JRelock _ | JUnlock _ => true | _ => false end.
Lemma test_step_ok w m i cs c : inv w -> clients w !! i = Some (mk_client cs (JTest c)) -> live w m ->
  exists w', gp_thr_manager_wait w i (mk_client cs (JTest c)) = Ok w' /\ inv w'.
Proof.
  intros H Hi HL. pose proof HL as (Hm&L1&L2&L3&_). pose proof (in_clients w H i _ Hi) as Ck. pose proof Ck as [C1 C2 C3 C4 C5 C6 C7].
  assert (Hh : holder w = Some (Client i)) by by apply C4.
  unfold gp_thr_manager_wait, gp_cv_wait, get. cbn [at_pc]. rewrite Hm. cbn [of_option res_bind]. rewrite L1, L2. cbn [andb res_bind].
  destruct (Z.eqb_spec (done_flag m) 0) as [Hd|Hd]; (eexists; split; [done|]); unfold put_client, set_clients, set_holder; cbn; rewrite Hm.
  - apply (client_goto w i (mk_client cs (JTest c)) m m); try done; [by apply (live_put w m)|by apply released| |by right].
    apply (client_next _ _ _ _ _ _ _ _ Ck); cbn; try done; [by intros m' [= <-] _; apply C5|].
    intros _. by eapply not_done.
  - apply (client_goto w i (mk_client cs (JTest c)) m m); try done; [by apply (live_put w m)| |by right].
    apply (client_next _ _ _ _ _ _ _ _ Ck); cbn; try done.
    intros _. by eapply done_over.
Qed.
Lemma prog_ok_rest c cs : prog_ok (c :: cs) -> prog_ok cs.
Proof. destruct c; cbn; try done; [by intros [_ ?]|by intros ->]. Qed.
Lemma join_step_ok w i k : inv w -> clients w !! i = Some k -> joins (at_pc k) = true ->
  exists w', gp_thr_manager_wait w i k = Ok w' /\ inv w'.
Proof.
  intros H Hi Hw. assert (Ha : at_work (at_pc k) = true) by by destruct (at_pc k).
  destruct (client_live w i k H Hi Ha) as (m&HL). pose proof HL as (Hm&L1&L2&L3&_).
  pose proof (in_clients w H i k Hi) as Ck. pose proof Ck as [C1 C2 C3 C4 C5 C6 C7].
  destruct k as [cs p]; destruct p; try done; [..|by eapply test_step_ok| | |];
    unfold gp_thr_manager_wait, gp_mtx_unlock, get; cbn [at_pc] in *; rewrite ?Hm; cbn [of_option res_bind]; rewrite ?L1.
  - by apply lock_step_ok.
  - eexists. split; [done|]. unfold put_client, put, set_clients. cbn.
    apply (client_goto w i (mk_client cs (JStop c)) m (set_stop m 1)); try done; [by apply (live_put w m)| |by left].
    apply (client_next _ _ _ _ _ _ _ _ Ck); cbn; try done. by intros m' [= <-].
  - apply (wake_step_ok w m); try done. by apply C4.
  - by exists w.
  - by apply lock_step_ok.
  - eexists. split; [done|]. unfold put_client, set_clients, set_holder. cbn. rewrite Hm.
    assert (Hov : ends c = true -> over (thr w) = true) by (intros Hc; apply C7; by left).
    apply (client_goto w i (mk_client cs (JUnlock c)) m m); try done;
      [by apply (live_put w m)|apply released; by apply C4| |by destruct c|by destruct c|by right].
    apply (client_next _ _ _ _ _ _ _ _ Ck); destruct c; try done; try apply (prog_ok_rest _ _ C1); try (intros _; by apply Hov);
      first [apply not_elem_of_nil|by intros ? [= <-]].
Qed.

(** What is left of the calls of a client that goes idle. *)
Lemma prog_no_run c cs : ends c = true -> prog_ok (c :: cs) -> Run ∉ cs.
Proof. destruct c; cbn; try done; [by intros _ [? _]|intros _ ->; apply not_elem_of_nil]. Qed.
Lemma idle_step_ok w i k : inv w -> clients w !! i = Some k -> at_pc k = Idle -> exists w', next_call w i k = Ok w' /\ inv w'.
Proof.
  intros H Hi Hp. pose proof (in_clients w H i k Hi) as [C1 C2 C3 C4 C5 C6 C7]. destruct k as [cs p]. cbn in Hp. subst p.
  unfold next_call. cbn [calls]. destruct cs as [|c cs]; [by exists w|]. eexists. split; [done|].
  set (p := match c with Run => RLock | _ => JInit c end). assert (Hr : rest (mk_client cs p) = c :: cs \/ c = Run /\ rest (mk_client cs p) = cs)
    by (destruct c; auto).
  apply (client_move w i (mk_client (c :: cs) Idle)); try done.
  - apply mgr_le_refl.
  - destruct (in_stage w H) as [m ? ? ? ? Hd|m cs' c' ? ? ? ? Hk|m cs' c' ? ? Hk|m k' ? ? ? Hk Hn _|? ? Hk];
      [|rewrite Hk in Hi; destruct i as [|i]; [|done]; cbn in Hi; simplify_eq..].
    + apply (stage_live _ _ _ m); try done. intros k' [j [(->&<-&_)|[_ Hj]]%list_lookup_insert_Some]%list_elem_of_lookup;
        [by destruct c|eapply Hd; by eapply list_elem_of_lookup_2].
    + cbn in Hn. apply not_elem_of_cons in Hn as [Hc Hn]. rewrite Hk. eapply (stage_clear _ _ _ m); try done. right. right. exists c. by destruct c.
  - split; try (by destruct c); try (by rewrite <-C4; destruct c).
    + destruct c; cbn; set_solver.
    + intros c' [Hx|[Hx|Hx]]; by destruct c.
  - intros m Hm Hg. destruct (in_wake w H m Hm Hg) as [?|(k0&[j Hj]%list_elem_of_lookup&Hk0)]; [by left|right].
    exists k0. split; [|done]. apply (list_elem_of_lookup_2 _ j). rewrite list_lookup_insert_ne; [done|]. intros ->. by simplify_eq.
  - destruct Hr as [->|[-> ->]]; done.
Qed.

(** *** Asking for the end *)
Lemma over_client w i k k' om' : inv w -> clients w !! i = Some k -> clients w = [k] -> over (thr w) = true ->
  holds_client (at_pc k') = holds_client (at_pc k) -> prog_ok (rest k') -> Run ∉ cur (at_pc k') -> has_stopped (at_pc k') = false ->
  waits (at_pc k') = false -> (forall c, at_pc k' = FCv c \/ at_pc k' = FMtx c \/ at_pc k' = FClear c -> ends c = true) ->
  mgr_le (manager w) om' -> (existsb ends (rest k) = false -> existsb ends (rest k') = false) -> stage om' (thr w) [k'] ->
  inv (mk_world om' (holder w) (thr w) (<[i := k']> (clients w)) (called w) (returned w)).
Proof.
  intros H Hi Hk Hov Hh H1 H2 H3 H4 H5 Hm He Hst. pose proof (in_clients w H i k Hi) as [C1 C2 C3 C4 C5 C6 C7].
  apply (client_move w i k); try done.
  - rewrite Hk in Hi |- *. by destruct i as [|i].
  - split; try done; rewrite ?Hh, ?H3, ?H4; try done.
  - intros m' _ Hg. by rewrite Hg in Hov.
Qed.
Lemma init_step_ok w i k c : inv w -> clients w !! i = Some k -> at_pc k = JInit c -> exists w', gp_thr_manager_wait w i k = Ok w' /\ inv w'.
Proof.
  intros H Hi Hp. pose proof (in_clients w H i k Hi) as Ck. pose proof Ck as [C1 C2 C3 C4 C5 C6 C7].
  assert (Hin : k ∈ clients w) by (by eapply list_elem_of_lookup_2). destruct k as [cs p]. cbn in Hp. subst p.
  unfold gp_thr_manager_wait, get. cbn [at_pc].
  destruct (in_stage w H) as [m Hm ? ? Hini Hd|? ? ? ? ? ? ? Hk|? ? ? ? ? Hk|m k' Hm Hini Hov Hk Hn Hp|? ? Hk];
    [|rewrite Hk, list_elem_of_singleton in Hin..]; try done; rewrite Hm; cbn [of_option res_bind].
  - rewrite (proj2 (Z.eqb_neq _ _) Hini). eexists. split; [done|]. unfold put_client, set_clients. rewrite Hm.
    assert (HL : live w m) by by split_and!.
    apply (client_goto w i (mk_client cs (JInit c)) m m); try done; [|by right].
    apply (client_next _ _ _ _ _ _ _ _ Ck); cbn; try done.
  - subst k'. rewrite Hini. eexists. split; [done|]. unfold put_client, set_clients.
    apply (over_client w i _ _ _ H Hi Hk Hov); cbn; try done; try (by destruct c).
    + destruct c; try apply (prog_ok_rest _ _ C1). exact C1.
    + destruct c; cbn; set_solver.
    + by intros c' [Hx|[Hx|Hx]]; destruct c.
    + apply mgr_le_refl.
    + eapply (stage_clear _ _ _ m); try done. destruct c; cbn; auto.
Qed.
(** *** Destroying the objects and the manager *)
Lemma finish_step_ok w i k : inv w -> clients w !! i = Some k -> (forall c, at_pc k <> JInit c) -> joins (at_pc k) = false ->
  cur (at_pc k) <> [] -> at_pc k <> FFree -> exists w', gp_thr_manager_finish w i k = Ok w' /\ inv w'.
Proof.
  intros H Hi Hnj Hj Hc Hnf. pose proof (in_clients w H i k Hi) as Ck. pose proof Ck as [C1 C2 C3 C4 C5 C6 C7].
  assert (Hin : k ∈ clients w) by (by eapply list_elem_of_lookup_2). destruct k as [cs p].
  assert (Hx : exists c, p = FCv c \/ p = FMtx c \/ p = FClear c) by (destruct p; try done; eauto; by edestruct Hnj).
  destruct Hx as (c&Hx). pose proof (C3 c Hx) as He.
  assert (Hr : rest (mk_client cs p) = c :: cs) by (unfold rest; cbn; by destruct Hx as [->|[->| ->]]).
  destruct (solo w i _ H Hi) as [-> Hk]; [rewrite Hr; cbn; by rewrite He|].
  assert (Hov : over (thr w) = true) by (apply C7; cbn; destruct Hx as [->|[->| ->]]; auto).
  unfold gp_thr_manager_finish, get. cbn [at_pc] in *. rewrite Hr in C1.
  destruct Hx as [->|[->| ->]].
  - destruct (client_live w 0 _ H Hi eq_refl) as (m&Hm&L1&L2&L3&_). rewrite Hm. cbn. eexists. split; [done|].
    apply (over_client w 0 _ _ _ H Hi Hk Hov); cbn; try done.
    + by intros c' [?|[[= <-]|?]].
    + intros m' [= <-]. by exists m.
    + by eapply (stage_cv _ _ _ (destroy_gp_cv m)).
  - destruct (in_stage w H) as [m ? ? ? ? Hd|m ? ? Hm L1 L3 ? Hk'|? ? ? ? ? Hk'|? ? ? ? ? Hk' ? Hp|? ? Hk'];
      [by specialize (Hd _ Hin)|..]; rewrite Hk in Hk'; simplify_eq; [|by destruct Hp as [|[|[]]]].
    rewrite Hm. cbn. eexists. split; [done|]. apply (over_client w 0 _ _ _ H Hi Hk Hov); cbn; try done.
    + by intros c' [?|[?|[= <-]]].
    + intros m' [= <-]. by exists m.
    + by eapply (stage_mtx _ _ _ (destroy_gp_mtx m)).
  - destruct (in_stage w H) as [m ? ? ? ? Hd|? ? ? ? ? ? ? Hk'|m cs2 c2 Hm ? Hk'|? ? ? ? ? Hk' ? Hp|? ? Hk'];
      [by specialize (Hd _ Hin)|..]; rewrite Hk in Hk'; simplify_eq; [|by destruct Hp as [|[|[]]]].
    rewrite Hm. cbn. eexists. split; [done|]. apply (over_client w 0 _ _ _ H Hi Hk Hov); try (by destruct c2); cbn.
    + by destruct c2; try done; destruct C1.
    + destruct c2; cbn; set_solver.
    + by intros c' [Hx|[Hx|Hx]]; destruct c2.
    + intros m' [= <-]. by exists m.
    + eapply (stage_clear _ _ _ (set_init m 0)); try done; [by eapply prog_no_run|]. destruct c2; cbn; auto.
Qed.
Lemma free_step_ok w i k : inv w -> clients w !! i = Some k -> at_pc k = FFree -> exists w', destroy_gp_thr_manager w i k = Ok w' /\ inv w'.
Proof.
  intros H Hi Hp. pose proof (in_clients w H i k Hi) as [C1 C2 C3 C4 C5 C6 C7].
  assert (Hin : k ∈ clients w) by (by eapply list_elem_of_lookup_2). destruct k as [cs p]. cbn in Hp. subst p.
  destruct (solo w i _ H Hi eq_refl) as [-> Hk]. assert (Hov : over (thr w) = true) by (apply C7; by right).
  cbn in C1. subst cs. unfold destroy_gp_thr_manager, get. cbn [at_pc].
  destruct (in_stage w H) as [m ? ? ? ? Hd|? ? ? ? ? ? ? Hk'|? ? ? ? ? Hk'|m k' Hm ? ? Hk' ? Hp|? ? Hk'];
    [by specialize (Hd _ Hin)|..]; rewrite Hk in Hk'; simplify_eq.
  rewrite Hm. cbn. eexists. split; [done|]. apply (over_client w 0 _ _ _ H Hi Hk Hov); cbn; try done.
  - by intros c' [?|[?|?]].
  - by apply stage_freed.
Qed.

(** *** Every move *)
Lemma client_step_inv w i : inv w -> exists w', client_step w i = Ok w' /\ inv w'.
Proof.
  intros H. unfold client_step. destruct (clients w !! i) as [k|] eqn:Hi; [|by exists w].
  destruct (at_pc k) eqn:Ep;
    first [by apply idle_step_ok|apply run_call_inv; [done..| |]; by rewrite Ep|by eapply init_step_ok
          |apply join_step_ok; [done..|]; by rewrite Ep|by apply free_step_ok|idtac];
    apply finish_step_ok; try done; rewrite Ep; done.
Qed.
Lemma wake_thr_facts g : over (wake_thr g) = over g /\ has_woken (wake_thr g) = has_woken g /\ wake_thr g <> GWaiting.
Proof. by destruct g. Qed.
Lemma spurious_ok w x : inv w -> inv (spurious w x).
Proof.
  intros H. destruct x as [|i]; unfold spurious.
  - destruct (over (thr w)) eqn:Ho; [by destruct w as [? ? [] ? ? ?]|]. destruct (thr_live w H Ho) as (m&HL).
    pose proof HL as (Hm&L1&L2&L3&_). unfold set_thr. rewrite Hm. destruct (wake_thr_facts (thr w)) as (_&F2&F3).
    apply (thr_goto w m); try done.
    + rewrite <-Hm. apply wake_thr_inv, (in_thr w H).
    + rewrite F2. by left.
  - destruct (clients w !! i) as [k|] eqn:Hi; [|done]. destruct (at_work (at_pc k)) eqn:Ha.
    2: { replace (wake_client k) with k; [|symmetry; apply wake_client_facts; by destruct (at_pc k)].
         unfold put_client. rewrite list_insert_id by done. by destruct w. }
    destruct (client_live w i k H Hi Ha) as (m&HL). pose proof HL as (Hm&L1&L2&L3&_).
    destruct (wake_client_facts k) as (F1&F2&F3&F4&F5&F6&F7&F8&_). unfold put_client, set_clients. rewrite Hm.
    apply (client_goto w i k m m); try done; [by apply (live_put w m)|..].
    + rewrite <-Hm. apply (woken_inv _ _ (thr w)); try done. by apply (in_clients w H).
    + rewrite F6. apply HL. by eapply list_elem_of_lookup_2.
    + unfold rest. by rewrite F1, F2.
    + intros _. rewrite F8. destruct (will_wake (at_pc k)); auto.
Qed.
Lemma thread_run_inv w sched : inv w -> exists w', run w sched = Ok w' /\ inv w'.
Proof.
  revert w. induction sched as [|mv sched IH]; intros w H; [by exists w|].
  assert (Hx : exists w', exec w mv = Ok w' /\ inv w').
  { destruct mv as [[|i]|x]; [by apply thr_step_ok|by apply client_step_inv|eexists; split; [done|by apply spurious_ok]]. }
  destruct Hx as (w'&E&Hw'). destruct (IH w' Hw') as (w2&E2&Hw2). exists w2. split; [|done]. cbn. by rewrite E.
Qed.
Lemma created_ok junk progs : progs_ok progs -> inv (create_gp_thr_manager junk true true progs).
Proof.
  intros [Hp Hs]. rewrite Forall_forall in Hp. split; cbn; try done.
  - apply (stage_live _ _ _ (mk_tmr 1 0 0 0 true true true)); try done. by intros k (cs&->&_)%list_elem_of_fmap.
  - intros i k Hk. rewrite list_lookup_fmap in Hk. destruct (progs !! i) as [cs|] eqn:E; [|done]. injection Hk as <-.
    split; cbn; try done; [apply Hp; by eapply list_elem_of_lookup_2|apply not_elem_of_nil|by intros c [?|[?|?]]|by intros [?|?]].
  - split; cbn; try done; [by intros m [= <-]|]. intros m _ [?|(s&[?|?]&_)]; done.
  - rewrite length_fmap. destruct Hs as [?|Hs]; [by left|right]. rewrite Forall_forall in Hs. intros k (cs&->&Hcs)%list_elem_of_fmap.
    by apply Hs.
Qed.

(** ** The function is called once, before anything is destroyed *)
Definition gone (w : world) : Prop := manager w = None \/ exists m, manager w = Some m /\ (mtx_ok m = false \/ cv_ok m = false \/ init m = 0).
Lemma gone_over w : inv w -> gone w -> over (thr w) = true.
Proof.
  intros H Hg. destruct (over (thr w)) eqn:Ho; [done|]. destruct (thr_live w H Ho) as (m&Hm&L1&L2&L3&_).
  destruct Hg as [Hg|(m'&Hm'&Hf)]; [congruence|]. rewrite Hm in Hm'. injection Hm' as <-. destruct Hf as [?|[?|?]]; congruence.
Qed.
Lemma counts_bound g c r : counts g c r -> (c <= 1)%nat /\ (r <= c)%nat /\ (over g = true -> c = r).
Proof. destruct g; cbn; intros [? ?]; lia || (split_and!; [lia..|try done; lia]). Qed.

(** C31. A managed thread whose creation succeeded, used by any clients whose calls are in
    a legal order ([gp_tmr_run] and [gp_tmr_wait] by several, [gp_tmr_finish] and
    [destroy_gp_thr_manager] by a single one): under every interleaving and with spurious
    wakeups no step touches a destroyed mutex or condition variable or the freed manager;
    the function is called at most once, and only after a run was asked for; and once an
    object is destroyed or the manager freed, the thread has nothing left to do and the
    call of the function, if there was one, has returned. *)
Theorem managed_thread_is_safe junk progs sched : progs_ok progs ->
  exists w, run (create_gp_thr_manager junk true true progs) sched = Ok w /\
    (called w <= 1)%nat /\ (returned w <= called w)%nat /\
    (forall m, manager w = Some m -> called w = 1%nat -> start m <> 0) /\
    (gone w -> over (thr w) = true /\ called w = returned w).
Proof.
  intros Hp. destruct (thread_run_inv _ sched (created_ok junk progs Hp)) as (w&E&Hw). exists w. split; [done|].
  destruct (in_thr w Hw) as [_ _ T3 T4]. destruct (counts_bound _ _ _ T3) as (?&?&Hcr). split_and!; try done.
  - intros m Hm Hc. apply (T4 m Hm). by left.
  - intros Hg. pose proof (gone_over w Hw Hg). auto.
Qed.
Lemma managed_thread_is_safe_witness :
  exists w, run (create_gp_thr_manager 7 true true [[Run; Wait; Finish; Destroy]])
      ((fun x => Move x) <$> (replicate 12 (Client 0) ++ replicate 11 Thr ++ replicate 20 (Client 0))) = Ok w /\
    (called w <= 1)%nat /\ (returned w <= called w)%nat /\
    (forall m, manager w = Some m -> called w = 1%nat -> start m <> 0) /\
    (gone w -> over (thr w) = true /\ called w = returned w).
Proof.
  apply (managed_thread_is_safe 7 [[Run; Wait; Finish; Destroy]]
    ((fun x => Move x) <$> (replicate 12 (Client 0) ++ replicate 11 Thr ++ replicate 20 (Client 0)))).
  split; [|by left]. apply Forall_singleton. cbn. split; [set_solver|done].
Defined.
(** All of it happens on that schedule. *)
Example managed_thread_scenario :
  option_map (fun w => (manager w, thr w, called w, returned w))
    (match run (create_gp_thr_manager 7 true true [[Run; Wait; Finish; Destroy]])
      ((fun x => Move x) <$> (replicate 12 (Client 0) ++ replicate 11 Thr ++ replicate 30 (Client 0))) with Ok w => Some w | _ => None end)
  = Some (None, GExit, 1%nat, 1%nat).
Proof. vm_compute. reflexivity. Qed.

(** ** Somebody can always go on *)
Definition finished (k : client) : bool := match at_pc k with Idle => bool_decide (calls k = []) | _ => false end.
Lemma thr_can w w' : (holder w = None \/ holds_thr (thr w) = true) -> thr w <> GWaiting -> over (thr w) = false ->
  gp_tmr_wrap w = Ok w' -> thr w' <> thr w.
Proof.
  intros Hh Hw Ho. unfold gp_tmr_wrap, gp_mtx_lock, gp_mtx_unlock, gp_cv_wait, gp_cv_wake, get.
  destruct (thr w) eqn:Eg; try done; destruct (manager w) as [m|]; cbn; try done; try (destruct (mtx_ok m); cbn; try done);
    try (destruct Hh as [Hh|Hh]; [|done]; rewrite Hh); repeat case_match; cbn; intros; simplify_eq/=; done.
Qed.
Lemma put_moves w w0 i k k' : clients w !! i = Some k -> length (clients w0) = length (clients w) -> at_pc k' <> at_pc k ->
  put_client w0 i k' <> w.
Proof.
  intros Hi Hl Hp <-. cbn in *. rewrite length_insert in Hl. assert (Hlt : (i < length (clients w0))%nat).
  { apply lookup_lt_Some in Hi. by rewrite length_insert in Hi. }
  rewrite list_lookup_insert_eq in Hi by done. by injection Hi as <-.
Qed.
Lemma client_can w w' i k : inv w -> clients w !! i = Some k -> (holder w = None \/ holds_client (at_pc k) = true) -> waits (at_pc k) = false ->
  finished k = false -> client_step w i = Ok w' -> w' <> w.
Proof.
  intros H Hi Hh Hw Hf. destruct (in_clients w H i k Hi) as [C1 C2 _ _ _ _ _]. unfold client_step. rewrite Hi.
  unfold gp_thr_manager_run, gp_thr_manager_wait, gp_thr_manager_finish, destroy_gp_thr_manager, next_call, lock_step, goto,
    gp_mtx_lock, gp_mtx_unlock, gp_cv_wait, gp_cv_wake, get.
  destruct k as [cs p]; destruct p; cbn [at_pc finished waits holds_client calls] in *; try done;
    destruct (manager w) as [m|] eqn:Em; cbn; try done;
    try (destruct (mtx_ok m); cbn; try done); try (destruct Hh as [Hh|Hh]; [|done]; rewrite Hh; cbn);
    repeat case_match; cbn; intros; simplify_eq/=; try done.
  all: apply (put_moves _ _ _ _ _ Hi); [cbn; by rewrite ?length_fmap|done].
Qed.
Lemma thr_moves w : inv w -> (holder w = None \/ holds_thr (thr w) = true) -> thr w <> GWaiting -> over (thr w) = false ->
  exists x w', step w x = Ok w' /\ w' <> w.
Proof.
  intros H Hh Hg Ho. destruct (thr_step_ok w H) as (w'&E&_). exists Thr, w'. split; [done|]. intros ->. by apply (thr_can w w).
Qed.
Lemma client_moves w i k : inv w -> clients w !! i = Some k -> (holder w = None \/ holds_client (at_pc k) = true) ->
  waits (at_pc k) = false -> finished k = false -> exists x w', step w x = Ok w' /\ w' <> w.
Proof.
  intros H Hi Hh Hw Hf. destruct (client_step_inv w i H) as (w'&E&_). exists (Client i), w'. split; [done|]. by eapply client_can.
Qed.
Lemma progress w : inv w -> (exists k, k ∈ clients w /\ finished k = false) -> exists x w', step w x = Ok w' /\ w' <> w.
Proof.
  intros H (k&[i Hi]%list_elem_of_lookup&Hf). destruct (holder w) as [[|j]|] eqn:Eh.
  - assert (Hh : holds_thr (thr w) = true) by by apply (in_thr w H). apply thr_moves; auto; by destruct (thr w).
  - destruct (lookup_lt_is_Some_2 _ _ (in_holder w H j Eh)) as [kj Hj].
    assert (Hh : holds_client (at_pc kj) = true) by by apply (in_clients w H j kj Hj).
    apply (client_moves w j kj); auto; unfold finished; by destruct (at_pc kj).
  - destruct (waits (at_pc k)) eqn:Ew; [|by eapply client_moves; auto].
    destruct (in_clients w H i k Hi) as [_ _ _ _ C5 C6 _]. specialize (C6 Ew).
    assert (Ho : over (thr w) = false) by by destruct (thr w). destruct (thr_live w H Ho) as (m&Hm&_).
    destruct (decide (thr w = GWaiting)) as [Eg|Hg]; [|by apply thr_moves; auto]. exfalso.
    destruct (in_wake w H m Hm Eg) as [[_ Hs]|(k0&[j Hj]%list_elem_of_lookup&Hk0)].
    + apply (C5 m Hm); [|done]. by destruct (at_pc k).
    + destruct (in_clients w H j k0 Hj) as [_ _ _ C4 _ _ _]. rewrite Eh in C4. by destruct (at_pc k0); destruct C4 as [C4 _]; try done; by discriminate C4.
Qed.

(** C32. No wake is lost: whatever has happened, as long as a client has not come back from
    the calls it makes there is a thread whose next step is not blocked - [gp_tmr_wait]
    and [gp_tmr_finish] do not wait for a thread that waits for them. *)
Theorem managed_thread_makes_progress junk progs sched : progs_ok progs ->
  exists w, run (create_gp_thr_manager junk true true progs) sched = Ok w /\
    ((exists k, k ∈ clients w /\ finished k = false) -> exists x w', step w x = Ok w' /\ w' <> w).
Proof.
  intros Hp. destruct (thread_run_inv _ sched (created_ok junk progs Hp)) as (w&E&Hw). exists w. split; [done|]. by apply progress.
Qed.
Lemma managed_thread_makes_progress_witness :
  exists w, run (create_gp_thr_manager 7 true true [[Run; Wait]; [Wait]]) [Move (Client 1); Move (Client 1); Move Thr] = Ok w /\
    ((exists k, k ∈ clients w /\ finished k = false) -> exists x w', step w x = Ok w' /\ w' <> w).
Proof.
  apply (managed_thread_makes_progress 7 [[Run; Wait]; [Wait]] [Move (Client 1); Move (Client 1); Move Thr]).
  split; [by repeat constructor|right; by repeat constructor].
Defined.

(** ** A thread that could not be created *)
(** When [pthread_create] fails, [init_gp_thr_manager] destroys the mutex and the
    condition variable and leaves [init] as the memory held it.  A caller that does not look
    at the result - [create_gp_thr_manager] returns none, the pool's threads are asked to
    finish whether or not they started - and then finishes the manager locks the destroyed
    mutex, unless the memory happened to be zero. *)
Theorem failed_creation_is_used_after_destroy junk (cs : list call) :
  init_gp_thr_manager junk true false = (mk_tmr junk 1 0 0 true false false, false, 1) /\
  run (create_gp_thr_manager junk true false [Finish :: cs]) (replicate 3 (Move (Client 0))) =
    if junk =? 0
    then run (create_gp_thr_manager junk true false [cs]) [Move (Client 0)]
    else Ub.
Proof. split; [done|]. cbn. destruct (Z.eqb_spec junk 0) as [->|]; [done|]. by cbn. Qed.

(** ** A client that first runs it *)
Definition asked (g : gpc) (c : nat) : Prop :=
  match g with
  | GLock | GTest | GWaiting => True
  | GUnlock s | GDecide s => s <> 0
  | GNone => False
  | _ => c = 1%nat
  end.
(** [Run] is still to come: the thread waits, whatever happens. *)
Inductive run_first (w : world) : Prop :=
  | rf_before m cs p : manager w = Some m -> gp_tmr_fn m = true -> start m = 0 -> stop m = 0 -> clients w = [mk_client cs p] ->
      (p = Idle /\ (exists cs', cs = Run :: cs') \/ p = RLock \/ p = RStart) ->
      (thr w = GLock \/ thr w = GTest \/ thr w = GWaiting) -> run_first w
  | rf_after : (forall m, manager w = Some m -> gp_tmr_fn m = true /\ start m <> 0) -> asked (thr w) (called w) -> run_first w.
Lemma run_first_thr w w' : inv w -> run_first w -> gp_tmr_wrap w = Ok w' -> run_first w'.
Proof.
  intros H Hr. destruct (in_thr w H) as [_ _ T3 _]. unfold gp_tmr_wrap, gp_mtx_lock, gp_mtx_unlock, gp_cv_wait, gp_cv_wake, get.
  destruct Hr as [m cs p Hm Hf Hs Ht Hc Hp Hg|Hm Ha].
  - rewrite Hm. cbn. rewrite Hs, Ht. cbn. destruct Hg as [Hg|[Hg|Hg]]; rewrite Hg; repeat case_match; intros; simplify_eq/=;
      eapply rf_before; eauto.
  - destruct (thr w) eqn:Eg; try done; try (intros [= <-]; apply rf_after; cbn; rewrite ?Eg; by auto);
      destruct (manager w) as [m|] eqn:Em; try done; destruct (Hm m eq_refl) as [Hf Hs]; cbn; rewrite ?Hf, ?(proj2 (Z.eqb_neq _ _) Hs); cbn in *;
      rewrite ?(proj2 (Z.eqb_neq _ _) Ha); repeat case_match; intros; simplify_eq/=; apply rf_after; cbn; rewrite ?Em, ?Eg; try done;
      try (intros ? [= <-]; done).
    all: try lia.
Qed.
Lemma client_step_frame w w' i : client_step w i = Ok w' -> called w' = called w /\ (thr w' = thr w \/ thr w' = wake_thr (thr w)) /\
  forall m', manager w' = Some m' -> exists m, manager w = Some m /\ gp_tmr_fn m' = gp_tmr_fn m /\ (start m' = start m \/ start m' = 1).
Proof.
  unfold client_step. destruct (clients w !! i) as [[cs p]|]; [|intros [= <-]; split_and!; eauto].
  unfold gp_thr_manager_run, gp_thr_manager_wait, gp_thr_manager_finish, destroy_gp_thr_manager, next_call, lock_step, goto,
    gp_mtx_lock, gp_mtx_unlock, gp_cv_wait, gp_cv_wake, get.
  destruct p; cbn; destruct (manager w) as [m|] eqn:Em; cbn; try done; try (destruct (mtx_ok m); cbn; try done);
    repeat case_match; cbn; intros; simplify_eq/=; split_and!; eauto; intros; simplify_eq/=; eauto.
Qed.
Lemma run_first_client w w' i : run_first w -> client_step w i = Ok w' -> run_first w'.
Proof.
  intros Hr E. destruct (client_step_frame _ _ _ E) as (Fc&Ft&Fm). destruct Hr as [m cs p Hm Hf Hs Ht Hc Hp Hg|Hm Ha].
  - unfold client_step in E. rewrite Hc in E. destruct i as [|i]; [|injection E as <-; by eapply rf_before]. cbn in E.
    unfold gp_thr_manager_run, next_call, lock_step, goto, gp_mtx_lock, get in E.
    destruct Hp as [(->&cs'&->)|[-> | ->]]; cbn in E; rewrite ?Hm in E; cbn in E; repeat case_match; simplify_eq/=;
      try (eapply rf_before; cbn; rewrite ?Hc; cbn; eauto; fail).
    apply rf_after; cbn; [by intros m' [= <-]|by destruct Hg as [->|[-> | ->]]].
  - apply rf_after.
    + intros m' Hm'. destruct (Fm m' Hm') as (m&Em&->&Hs). destruct (Hm m Em) as [? ?]. split; [done|]. by destruct Hs as [->| ->].
    + rewrite Fc. destruct Ft as [->| ->]; [done|]. by destruct (thr w).
Qed.
Lemma run_first_spurious w x : run_first w -> run_first (spurious w x).
Proof.
  intros [m cs p Hm Hf Hs Ht Hc Hp Hg|Hm Ha].
  - destruct x as [|i]; cbn; [eapply rf_before; eauto; cbn; destruct Hg as [->|[-> | ->]]; cbn; auto|].
    rewrite Hc. destruct i as [|i]; cbn; [|by eapply rf_before]. eapply rf_before; cbn; eauto. rewrite Hc. cbn. unfold wake_client. cbn.
    by destruct Hp as [(->&_)|[-> | ->]].
  - apply rf_after; destruct x as [|i]; cbn; try done; try (by destruct (clients w !! i)). by destruct (thr w).
Qed.
Lemma run_first_run w w' sched : inv w -> run_first w -> run w sched = Ok w' -> run_first w'.
Proof.
  revert w. induction sched as [|mv sched IH]; intros w H Hr; cbn; [by intros [= <-]|].
  destruct mv as [[|i]|x]; cbn.
  - destruct (thr_step_ok w H) as (w1&E&H1). rewrite E. cbn. apply IH; [done|]. eapply (run_first_thr w); eassumption.
  - destruct (client_step_inv w i H) as (w1&E&H1). rewrite E. cbn. apply IH; [done|]. eapply (run_first_client w); eassumption.
  - apply IH; [by apply spurious_ok|by apply run_first_spurious].
Qed.
Lemma over_called g c r : counts g c r -> asked g c -> over g = true -> c = 1%nat /\ r = 1%nat.
Proof. destruct g; cbn; try done. lia. Qed.

(** A client that runs the thread before it waits for it, finishes or destroys it: when
    the thread is over - and so whenever the manager has been finished - its function has
    been called exactly once and has returned, however early the thread or the client was. *)
Theorem run_thread_calls_once junk cs sched : prog_ok cs ->
  exists w, run (create_gp_thr_manager junk true true [Run :: cs]) sched = Ok w /\
    (over (thr w) = true \/ gone w -> called w = 1%nat /\ returned w = 1%nat).
Proof.
  intros Hp. assert (Hps : progs_ok [Run :: cs]) by (split; [by repeat constructor|by left]).
  pose proof (created_ok junk _ Hps) as H0. destruct (thread_run_inv _ sched H0) as (w&E&Hw). exists w. split; [done|].
  assert (Hr : run_first w).
  { eapply run_first_run; [exact H0| |exact E]. apply (rf_before _ (mk_tmr 1 0 0 0 true true true) (Run :: cs) Idle); eauto. }
  intros Hg. assert (Ho : over (thr w) = true) by (destruct Hg as [?|?]; [done|by apply gone_over]).
  destruct (in_thr w Hw) as [_ _ T3 _]. apply (over_called (thr w)); try done.
  destruct Hr as [m cs' p _ _ _ _ _ _ Hgp|_ Ha]; [|done]. by destruct Hgp as [Hx|[Hx|Hx]]; rewrite Hx in Ho.
Qed.
Lemma run_thread_calls_once_witness :
  exists w, run (create_gp_thr_manager 7 true true [[Run; Destroy]])
      ((fun x => Move x) <$> (replicate 12 (Client 0) ++ replicate 11 Thr ++ replicate 30 (Client 0))) = Ok w /\
    (over (thr w) = true \/ gone w -> called w = 1%nat /\ returned w = 1%nat).
Proof.
  apply (run_thread_calls_once 7 [Destroy] ((fun x => Move x) <$> (replicate 12 (Client 0) ++ replicate 11 Thr ++ replicate 30 (Client 0)))).
  done.
Defined.
