(* ===== verification/Atomic.v ===== *)
(** * gp_atomic: the reference counter of connections

    The inline assembly of gp.h as operations on a 64-bit counter.  The
    operations that test the counter do so by reading it again after the
    locked instruction: two steps of one thread, between which others can
    come. *)

From S2P Require Import Prelude.
Local Open Scope Z_scope.

(** ** The operations *)
Record gp_atomic := mk_atomic { counter : Z }.
Definition x86_64_atomic64_init (v : gp_atomic) : gp_atomic := mk_atomic 0.
Definition x86_64_atomic64_get (v : gp_atomic) : Z := counter v.
Definition x86_64_atomic64_set (v : gp_atomic) (i : Z) : gp_atomic := mk_atomic (s64 i).
Definition x86_64_atomic64_add (v : gp_atomic) (i : Z) : gp_atomic := mk_atomic (s64 (counter v + i)).
Definition x86_64_atomic64_inc (v : gp_atomic) : gp_atomic := x86_64_atomic64_add v 1.
Definition x86_64_atomic64_dec (v : gp_atomic) : gp_atomic := x86_64_atomic64_add v (-1).
(** What each returns when no other thread comes in between. *)
Definition x86_64_atomic64_inc_and_test (v : gp_atomic) : gp_atomic * bool :=
  let v := x86_64_atomic64_inc v in (v, counter v =? 0).
Definition x86_64_atomic64_dec_and_test (v : gp_atomic) : gp_atomic * bool :=
  let v := x86_64_atomic64_dec v in (v, counter v =? 0).
Definition x86_64_atomic64_add_and_test (v : gp_atomic) (i : Z) : gp_atomic * bool :=
  let v := x86_64_atomic64_add v i in (v, counter v =? 0).

(** ** [gp_atomic_dec_and_test] by several threads *)
Module Shared.
(** Before the [lock; decq], before the read of the counter, after it. *)
Inductive thread := Ready | Decremented | Tested (zero : bool).
#[export] Instance thread_eq_dec : EqDecision thread.
Proof. solve_decision. Defined.
Record state := mk_state { shared : gp_atomic; threads : list thread }.
(** [n] owners, one reference each. *)
Definition owners (n : nat) : state :=
  mk_state (x86_64_atomic64_set (mk_atomic 0) (Z.of_nat n)) (replicate n Ready).
Definition step (s : state) (i : nat) : state :=
  match threads s !! i with
  | Some Ready => mk_state (x86_64_atomic64_dec (shared s)) (<[i := Decremented]> (threads s))
  | Some Decremented => mk_state (shared s) (<[i := Tested (x86_64_atomic64_get (shared s) =? 0)]> (threads s))
  | _ => s
  end.
Definition run (s : state) (sched : list nat) : state := foldl step s sched.
Definition is_ready (t : thread) : bool := match t with Ready => true | _ => false end.
Definition saw_zero (t : thread) : bool := match t with Tested b => b | _ => false end.
Definition tested (t : thread) : bool := match t with Tested _ => true | _ => false end.
Definition count (f : thread -> bool) (l : list thread) : nat := length (filter (fun t => f t = true) l).
End Shared.
Import Shared.
Arguments count : simpl never.

(** *** Counting threads *)
Lemma count_app f l k : count f (l ++ k) = (count f l + count f k)%nat.
Proof. unfold count. by rewrite filter_app, length_app. Qed.
Lemma count_cons f t l : count f (t :: l) = ((if f t then 1 else 0) + count f l)%nat.
Proof. unfold count. rewrite filter_cons. destruct (f t); by case_decide. Qed.
Lemma count_insert f l i t u : l !! i = Some t ->
  (count f (<[i := u]> l) + (if f t then 1 else 0) = count f l + (if f u then 1 else 0))%nat.
Proof.
  intros H. rewrite insert_take_drop by (by eapply lookup_lt_Some). rewrite <-(take_drop_middle l i t H) at 3.
  rewrite !count_app, !count_cons. lia.
Qed.
Lemma count_replicate f n t : count f (replicate n t) = (if f t then n else 0)%nat.
Proof. induction n as [|n IH]; [by destruct (f t)|]. cbn [replicate]. rewrite count_cons, IH. by destruct (f t). Qed.
Lemma count_pos f l : (0 < count f l)%nat <-> exists t, t ∈ l /\ f t = true.
Proof.
  unfold count. split.
  - destruct (filter _ l) as [|t k] eqn:E; cbn; [lia|]. intros _. exists t.
    assert (H : t ∈ filter (fun t => f t = true) l) by (rewrite E; constructor). apply list_elem_of_filter in H. tauto.
  - intros (t&Ht&Hf). destruct (filter (fun t => f t = true) l) as [|u k] eqn:E; cbn; [|lia].
    assert (H : t ∈ filter (fun t => f t = true) l) by by apply list_elem_of_filter. rewrite E in H. by apply not_elem_of_nil in H.
Qed.

(** *** The counter is the number of threads that have not decremented *)
Definition fits (n : nat) : Prop := Z.of_nat n < 9223372036854775808.
Record inv (s : state) : Prop := {
  in_counter : counter (shared s) = Z.of_nat (count is_ready (threads s));
  in_fits : fits (length (threads s));
  in_last : threads s <> [] -> count is_ready (threads s) = 0%nat -> exists t, t ∈ threads s /\ (t = Decremented \/ saw_zero t = true);
}.
Lemma count_le f l : (count f l <= length l)%nat.
Proof. apply length_filter. Qed.
Lemma owners_inv n : fits n -> inv (owners n).
Proof.
  intros Hn. unfold fits in Hn. split; cbn.
  - rewrite count_replicate. cbn. by rewrite s64_small by lia.
  - by rewrite length_replicate.
  - rewrite count_replicate. cbn. by destruct n.
Qed.
Lemma step_inv s i : inv s -> inv (step s i).
Proof.
  intros [H1 H2 H3]. unfold step. destruct (threads s !! i) as [[| |]|] eqn:E; try by split.
  - pose proof (count_insert is_ready _ _ _ Decremented E) as Hc. pose proof (count_le is_ready (threads s)) as Hl. cbn in Hc.
    unfold fits in *. split; cbn.
    + rewrite H1, s64_small by lia. lia.
    + by rewrite length_insert.
    + intros _ _. exists Decremented. split; [|by left]. eapply list_elem_of_lookup_2. apply list_lookup_insert_eq. by eapply lookup_lt_Some.
  - set (b := x86_64_atomic64_get (shared s) =? 0).
    pose proof (count_insert is_ready _ _ _ (Tested b) E) as Hc. cbn in Hc. unfold fits in *. split; cbn.
    + lia.
    + by rewrite length_insert.
    + intros _ H0. exists (Tested b). split; [eapply list_elem_of_lookup_2, list_lookup_insert_eq; by eapply lookup_lt_Some|].
      right. unfold b, x86_64_atomic64_get. rewrite H1. cbn. apply Z.eqb_eq. lia.
Qed.
Lemma run_keeps_inv s sched : inv s -> inv (run s sched).
Proof. revert s. induction sched as [|i sched IH]; intros s H; [done|]. apply IH, step_inv, H. Qed.
Lemma run_length s sched : length (threads (run s sched)) = length (threads s).
Proof.
  revert s. induction sched as [|i sched IH]; intros s; [done|]. cbn. fold (run (step s i) sched). rewrite IH. unfold step.
  by destruct (threads s !! i) as [[| |]|]; cbn; rewrite ?length_insert.
Qed.

(** Undisturbed, the two steps are the operation. *)
Lemma step_step_dec_and_test s i : threads s !! i = Some Ready ->
  step (step s i) i = mk_state (x86_64_atomic64_dec_and_test (shared s)).1 (<[i := Tested (x86_64_atomic64_dec_and_test (shared s)).2]> (threads s)).
Proof.
  intros H. pose proof (lookup_lt_Some _ _ _ H) as Hl. unfold step at 2. rewrite H. unfold step. cbn [threads shared].
  rewrite list_lookup_insert_eq by done. by rewrite list_insert_insert_eq.
Qed.
(** *** Every thread, one after another *)
Lemma run_app s a b : run s (a ++ b) = run (run s a) b.
Proof. apply foldl_app. Qed.
(** All decrement first, or all that have done so read the counter. *)
Lemma run_decrements l k n : fits (length l + n + length k) ->
  run (mk_state (mk_atomic (Z.of_nat (n + length k))) (l ++ replicate n Ready ++ k)) (seq (length l) n) =
  mk_state (mk_atomic (Z.of_nat (length k))) (l ++ replicate n Decremented ++ k).
Proof.
  unfold fits. revert l. induction n as [|n IH]; intros l Hn; [done|]. cbn [seq replicate app].
  change (run ?s (length l :: ?q)) with (run (step s (length l)) q). unfold step. cbn [threads shared].
  rewrite lookup_app_r, Nat.sub_diag by done. cbn [lookup list_lookup]. rewrite insert_app_r_alt, Nat.sub_diag by done. cbn [insert list_insert].
  unfold x86_64_atomic64_dec, x86_64_atomic64_add. cbn [counter]. rewrite s64_small by lia.
  replace (Z.of_nat (S n + length k) + -1) with (Z.of_nat (n + length k)) by lia.
  specialize (IH (l ++ [Decremented])). rewrite length_app, <-!app_assoc in IH. cbn [length app] in IH.
  replace (length l + 1)%nat with (S (length l)) in IH by lia. rewrite IH by lia. done.
Qed.
Lemma run_tests l k n c :
  run (mk_state c (l ++ replicate n Decremented ++ k)) (seq (length l) n) = mk_state c (l ++ replicate n (Tested (counter c =? 0)) ++ k).
Proof.
  revert l. induction n as [|n IH]; intros l; [done|]. cbn [seq replicate app].
  change (run ?s (length l :: ?q)) with (run (step s (length l)) q). unfold step, x86_64_atomic64_get. cbn [threads shared].
  rewrite lookup_app_r, Nat.sub_diag by done. cbn [lookup list_lookup]. rewrite insert_app_r_alt, Nat.sub_diag by done. cbn [insert list_insert].
  specialize (IH (l ++ [Tested (counter c =? 0)])). rewrite length_app, <-!app_assoc in IH. cbn [length app] in IH.
  replace (length l + 1)%nat with (S (length l)) in IH by lia. by rewrite IH.
Qed.

(** *** One thread after the other *)
Definition in_turn (n : nat) : list nat := mjoin ((fun i => [i; i]) <$> seq 0 n).
Lemma run_in_turn l n : fits (S (length l + n)) ->
  run (mk_state (mk_atomic (Z.of_nat (S n))) (l ++ replicate (S n) Ready)) (mjoin ((fun i => [i; i]) <$> seq (length l) (S n))) =
  mk_state (mk_atomic 0) (l ++ replicate n (Tested false) ++ [Tested true]).
Proof.
  unfold fits. revert l. induction n as [|n IH]; intros l Hn.
  - cbn [seq fmap list_fmap mjoin list_join app]. change (replicate 1 Ready) with [Ready].
    pose proof (run_decrements l [] 1) as H1. pose proof (run_tests l [] 1 (mk_atomic 0)) as H2. unfold fits in H1. cbn [seq replicate app length] in *. change (1 + 0)%nat with 1%nat in H1.
    change [length l; length l] with ([length l] ++ [length l]). rewrite run_app, H1 by lia. exact H2.
  - change (seq (length l) (S (S n))) with (length l :: seq (S (length l)) (S n)). rewrite fmap_cons.
    change (mjoin (([?a; ?a]) :: ?q)) with ([a] ++ [a] ++ mjoin q). rewrite !run_app.
    pose proof (run_decrements l (replicate (S n) Ready) 1) as H1.
    pose proof (run_tests l (replicate (S n) Ready) 1 (mk_atomic (Z.of_nat (S n)))) as H2. unfold fits in H1.
    rewrite length_replicate in H1. cbn [seq] in H1, H2. change (replicate (S (S n)) Ready) with (replicate 1 Ready ++ replicate (S n) Ready).
    change (1 + S n)%nat with (S (S n)) in H1. rewrite H1 by lia. rewrite H2. cbn [counter]. rewrite (proj2 (Z.eqb_neq _ _)) by lia.
    specialize (IH (l ++ [Tested false])). rewrite length_app, <-!app_assoc in IH. cbn [length app] in IH.
    replace (length l + 1)%nat with (S (length l)) in IH by lia. change (replicate (S n) (Tested false)) with ([Tested false] ++ replicate n (Tested false)). rewrite <-app_assoc. cbn [app]. rewrite <-IH by lia. done.
Qed.

(** C33. [gp_atomic_dec_and_test] by the [n] owners of an object, each in a thread of its own:
    whatever the order of their steps at least one of them is told that the count has
    reached zero, and when they come one after the other it is the last one alone.  But
    the count is read again after the locked decrement: there is an order in which every
    owner is told so, and [conn_ref_dec] destroys and frees the connection [n] times. *)
Theorem dec_and_test_may_free_twice (n : nat) : fits n -> n <> 0%nat ->
  (forall sched, Forall (fun t => tested t = true) (threads (run (owners n) sched)) ->
     exists t, t ∈ threads (run (owners n) sched) /\ saw_zero t = true) /\
  threads (run (owners n) (in_turn n)) = replicate (pred n) (Tested false) ++ [Tested true] /\
  threads (run (owners n) (seq 0 n ++ seq 0 n)) = replicate n (Tested true).
Proof.
  intros Hf Hn. assert (Ho : owners n = mk_state (mk_atomic (Z.of_nat n)) (replicate n Ready)).
  { unfold owners, x86_64_atomic64_set. rewrite s64_small by (unfold fits in Hf; lia). done. }
  split_and!.
  - intros sched Hall. pose proof (run_keeps_inv _ sched (owners_inv n Hf)) as [_ _ H3].
    destruct H3 as (t&Ht&[->|Hz]).
    + intros E. pose proof (run_length (owners n) sched) as Hl. rewrite E in Hl. cbn in Hl. rewrite length_replicate in Hl. congruence.
    + destruct (count is_ready (threads (run (owners n) sched))) eqn:E; [done|]. exfalso.
      destruct (proj1 (count_pos is_ready (threads (run (owners n) sched)))) as (t&Ht&Hr); [rewrite E; lia|]. rewrite Forall_forall in Hall. specialize (Hall t Ht). by destruct t.
    + rewrite Forall_forall in Hall. by specialize (Hall _ Ht).
    + by exists t.
  - destruct n as [|n]; [done|]. rewrite Ho. unfold in_turn. pose proof (run_in_turn [] n) as H. cbn [length app] in H.
    unfold fits in *. by rewrite H.
  - rewrite Ho, run_app. pose proof (run_decrements [] [] n) as H1. pose proof (run_tests [] [] n (mk_atomic 0)) as H2.
    cbn [length app] in H1, H2. rewrite !app_nil_r, !Nat.add_0_r in H1. change (Z.of_nat 0) with 0 in H1. unfold fits in *. rewrite H1 by lia. rewrite !app_nil_r in H2. by rewrite H2.
Qed.
Lemma dec_and_test_may_free_twice_witness :
  (forall sched, Forall (fun t => tested t = true) (threads (run (owners 2) sched)) ->
     exists t, t ∈ threads (run (owners 2) sched) /\ saw_zero t = true) /\
  threads (run (owners 2) (in_turn 2)) = [Tested false; Tested true] /\
  threads (run (owners 2) (seq 0 2 ++ seq 0 2)) = [Tested true; Tested true].
Proof. apply (dec_and_test_may_free_twice 2); [reflexivity|discriminate]. Defined.
