(* ===== verification/SockAddr.v ===== *)
(** * gp_sock_address.c, gp_socketop.c and gp_system.c: names of sockets and of the process

    A [gp_sock_address] is a union of the three [sockaddr] structures, a
    [struct sockaddr *] points to some object in memory: both are lists of
    bytes here, with the structures' layout on x86-64.  An access outside the
    object, and a string function on an array without a NUL, are [Ub].  The
    conversions of [<arpa/inet.h>] are parameters. *)

From S2P Require Import Prelude CStr.
Local Open Scope Z_scope.

Definition AF_UNIX : Z := 1.
Definition AF_INET : Z := 2.
Definition AF_INET6 : Z := 10.
(** [enum address_type] *)
Inductive address_type := IP | IPV6 | DOMAIN.
#[export] Instance address_type_eq_dec : EqDecision address_type.
Proof. solve_decision. Defined.
(** [sizeof] of [struct sockaddr], [sockaddr_in], [sockaddr_in6], [sockaddr_un],
    [gp_sock_address]; where [sun_path] lies. *)
Definition sizeof_sockaddr : Z := 16.
Definition sizeof_in : Z := 16.
Definition sizeof_in6 : Z := 28.
Definition sizeof_un : Z := 110.
Definition sizeof_address : Z := 112.
Definition sun_path_off : Z := 2.
Definition sun_path_size : Z := 108.

(** ** What the sources use of <string.h> *)
(** [strcpy] to a member of [size] bytes at [off]. *)
Definition strcpy_at (m : list Z) (off size : Z) (s : cstr) : res (list Z) :=
  if zlen s <? size then of_option (mem_write m off (s ++ [0])) else Ub.
(** [strncpy(dst, src, n)] writes [n] bytes. *)
Definition strncpy (dst : list Z) (src : cstr) (n : Z) : res (list Z) :=
  of_option (mem_write dst 0 (take (Z.to_nat n) (src ++ calloc n))).
Definition memcpy_at (m : list Z) (off : Z) (src : list Z) (soff n : Z) : res (list Z) :=
  let* bs := of_option (mem_read src soff n) in of_option (mem_write m off bs).
Definition bzero (m : list Z) (n : Z) : res (list Z) := of_option (mem_write m 0 (calloc n)).

Definition sa_family (m : list Z) : res Z := let* b := of_option (mem_read m 0 2) in Ok (le_val b).

Section Inet.
(** [inet_pton]: the address in network byte order, [None]: not an address.
    [inet_ntop]: its text. *)
Context (pton4 pton6 : cstr -> option (list Z)) (ntop4 ntop6 : list Z -> cstr).

(** [inet_ntop] into [address] of which [len] bytes may be used. *)
Definition inet_ntop (text address : list Z) (len : Z) : res (list Z) :=
  if zlen text <? len then of_option (mem_write address 0 (text ++ [0])) else Ok address.

Definition get_gp_sock_address (m address : list Z) (len : Z) : res (list Z) :=
  let* f := sa_family m in
  if f =? AF_INET then
    let* a := of_option (mem_read m 4 4) in inet_ntop (ntop4 a) address (u32 len)
  else if f =? AF_INET6 then
    let* a := of_option (mem_read m 8 16) in inet_ntop (ntop6 a) address (u32 len)
  else if f =? AF_UNIX then
    (* [int] against [size_t] *)
    let len := if sun_path_size <? u64 len then sun_path_size else u64 len in
    let* p := of_option (mem_read m sun_path_off sun_path_size) in strncpy address (c_string p) len
  else Ok address.

Definition sock_len (f : Z) : Z :=
  if f =? AF_INET then sizeof_in else if f =? AF_INET6 then sizeof_in6 else if f =? AF_UNIX then sizeof_un else 0.
Definition get_gp_sock_len_by_sockaddr (addr : list Z) : res Z := let* f := sa_family addr in Ok (sock_len f).
(** [name]: what [getsockname] would write. *)
Definition get_gp_sock_len_by_fd (junk : nat -> Z) (name : list Z) : res Z :=
  let* addr := of_option (mem_write (malloc junk sizeof_sockaddr) 0 (take (Z.to_nat sizeof_sockaddr) name)) in
  get_gp_sock_len_by_sockaddr addr.
Definition get_gp_sock_len (m : list Z) : res Z :=
  let* f := sa_family m in
  if f =? AF_INET then Ok sizeof_in
  else if f =? AF_INET6 then Ok sizeof_in6
  else if f =? AF_UNIX then let* s := str_at m sun_path_off in Ok (sun_path_off + zlen s)
  else Ok 0.

(** The address is stored when [inet_pton] accepts the text. *)
Definition put_addr (m : list Z) (off : Z) (a : option (list Z)) : res (list Z) :=
  match a with Some a => of_option (mem_write m off a) | None => Ok m end.
Definition put_header (m : list Z) (f port : Z) : res (list Z) :=
  of_option (mem_write m 0 (le_bytes 2 f ++ be_bytes 2 port)).
Definition init_gp_sock_address (m : list Z) (address : cstr) (port : Z) (type : address_type) : res (list Z) :=
  match type with
  | IPV6 => let* m := bzero m sizeof_in6 in let* m := put_header m AF_INET6 port in put_addr m 8 (pton6 address)
  | IP => let* m := bzero m sizeof_in in let* m := put_header m AF_INET port in put_addr m 4 (pton4 address)
  | DOMAIN =>
      let* m := bzero m sizeof_un in
      let* m := of_option (mem_write m 0 (le_bytes 2 AF_UNIX)) in strcpy_at m sun_path_off sun_path_size address
  end.
Definition create_gp_sock_address (address : cstr) (port : Z) (type : address_type) : res (list Z) :=
  init_gp_sock_address (calloc sizeof_address) address port type.

Definition init_gp_sock_address_by_sockaddr (m addr : list Z) : res (list Z) :=
  let* f := sa_family addr in
  if f =? AF_INET then memcpy_at m 0 addr 0 sizeof_in
  else if f =? AF_INET6 then memcpy_at m 0 addr 0 sizeof_in6
  else if f =? AF_UNIX then
    let* m := of_option (mem_write m 0 (le_bytes 2 AF_UNIX)) in
    let* s := str_at addr sun_path_off in memcpy_at m sun_path_off addr sun_path_off (zlen s)
  else Ok m.
(** [None]: NULL. *)
Definition create_sockaddr (addr : list Z) : res (option (list Z)) :=
  let* f := sa_family addr in
  Ok (if f =? AF_INET then Some (calloc sizeof_in)
      else if f =? AF_INET6 then Some (calloc sizeof_in6)
      else if f =? AF_UNIX then Some (calloc sizeof_un) else None).

(** *** gp_socketop.c *)
(** [get_local_address] and [get_peer_address] differ in the system call.
    The kernel writes no more of [name] than [len] and stores its length in
    [len]. *)
Definition get_peer_address (junk : nat -> Z) (name a : list Z) (len : Z) : res (list Z * Z) :=
  let* serv := of_option (mem_write (malloc junk sizeof_in) 0 (take (Z.to_nat len) name)) in
  let len := zlen name in
  let* b := of_option (mem_read serv 4 4) in
  let* a := inet_ntop (ntop4 b) a (u32 len) in
  let* p := of_option (mem_read serv 2 2) in Ok (a, be_val p).
Definition get_local_address := get_peer_address.
Definition get_domain_peer_address (junk : nat -> Z) (name a : list Z) : res (list Z) :=
  let* serv := of_option (mem_write (malloc junk sizeof_un) 0 (take (Z.to_nat sizeof_un) name)) in
  let* s := str_at serv sun_path_off in of_option (mem_write a 0 (s ++ [0])).
Definition get_domain_local_address := get_domain_peer_address.
End Inet.

(** *** gp_system.c *)
(** [strrchr]: the text up to and with the last [c], and what follows. *)
Fixpoint split_last (c : Z) (s : cstr) : option (cstr * cstr) :=
  match s with
  | [] => None
  | x :: s =>
      match split_last c s with
      | Some (a, b) => Some (x :: a, b)
      | None => if x =? c then Some ([x], s) else None
      end
  end.
Definition slash : Z := 47.
(** [link]: what /proc/self/exe points to, [None] when [readlink] fails.  The
    name, if one was stored, and the result. *)
Definition get_process_name (link : option cstr) : res (option cstr * Z) :=
  match link with
  | None => Ok (None, u64 (-1))
  | Some l =>
      let* process_dir := of_option (mem_write (calloc 4096) 0 (take 4096 l)) in
      if zlen (take 4096 l) <=? 0 then Ok (None, u64 (-1))
      else
        let* s := str_at process_dir 0 in
        match split_last slash s with
        | None => Ok (None, u64 (-1))
        | Some (dir, name) =>
            (* [process_name_len] is the length of the directory *)
            let process_name_len := zlen dir in
            let* p := strcpy_at (calloc process_name_len) 0 process_name_len name in
            let* n := str_at p 0 in Ok (Some n, process_name_len)
        end
  end.

(** ** Memory in pieces *)
Lemma mem_read_head {A} (b c : list A) n : n = zlen b -> mem_read (b ++ c) 0 n = Some b.
Proof. by apply (mem_read_app []). Qed.
Lemma sa_family_app f rest : 0 <= f < 65536 -> sa_family (le_bytes 2 f ++ rest) = Ok f.
Proof.
  intros H. unfold sa_family. rewrite mem_read_head by done. cbn [of_option res_bind].
  rewrite le_val_le_bytes. change (256 ^ Z.of_nat 2) with 65536. by rewrite Z.mod_small.
Qed.
Lemma calloc_split n k : 0 <= k <= n -> calloc n = calloc k ++ calloc (n - k).
Proof. intros. unfold calloc. rewrite <-replicate_add. f_equal. lia. Qed.
Lemma length_calloc n : length (calloc n) = Z.to_nat n.
Proof. apply length_replicate. Qed.
Lemma c_string_zeros s n : is_cstr s -> c_string (s ++ calloc n) = s.
Proof.
  intros Hs. unfold calloc. destruct (Z.to_nat n) as [|k]; [|by apply (c_string_app s (replicate k 0))].
  rewrite app_nil_r. induction Hs as [|c s Hc Hs IH]; [done|]. cbn. destruct (Z.eqb_spec c 0); [lia|]. by rewrite IH.
Qed.
Lemma str_at_app a s b off : off = zlen a -> is_cstr s -> str_at (a ++ s ++ 0 :: b) off = Ok s.
Proof.
  intros -> Hs. unfold str_at, zlen. rewrite Nat2Z.id, drop_app_length, c_string_app by done.
  rewrite (proj2 (Z.ltb_lt _ _)); [done|]. rewrite !length_app. cbn. lia.
Qed.
Lemma str_at_head s b : is_cstr s -> str_at (s ++ 0 :: b) 0 = Ok s.
Proof. by apply (str_at_app []). Qed.
(** Writing over zeroed memory. *)
Lemma write_zeros a n bs off : off = zlen a -> zlen bs <= n -> mem_write (a ++ calloc n) off bs = Some (a ++ bs ++ calloc (n - zlen bs)).
Proof.
  intros -> Hn. pose proof (zlen_nonneg bs). rewrite (calloc_split n (zlen bs)) by lia.
  apply mem_write_app; [done|]. rewrite length_calloc. unfold zlen. lia.
Qed.
Lemma bzero_zeros n k : 0 <= k <= n -> bzero (calloc n) k = Ok (calloc n).
Proof.
  intros H. unfold bzero. rewrite (calloc_split n k) by lia.
  change (calloc k ++ calloc (n - k)) with ([] ++ calloc k ++ calloc (n - k)) at 1. by rewrite mem_write_app.
Qed.

(** ** What an address holds *)
Section Roundtrip.
Context (pton4 pton6 : cstr -> option (list Z)) (ntop4 ntop6 : list Z -> cstr).
(** [a]: the network address, or the path, that [address] names. *)
Definition names (type : address_type) (address : cstr) (a : list Z) : Prop :=
  match type with
  | IP => pton4 address = Some a /\ ntop4 a = address /\ length a = 4%nat
  | IPV6 => pton6 address = Some a /\ ntop6 a = address /\ length a = 16%nat
  | DOMAIN => a = address /\ zlen a < sun_path_size
  end /\ is_cstr address.
(** The bytes of the address, which the zeros of the union follow. *)
Definition encoded (type : address_type) (a : list Z) (port : Z) : list Z :=
  match type with
  | IP => le_bytes 2 AF_INET ++ be_bytes 2 port ++ a
  | IPV6 => le_bytes 2 AF_INET6 ++ be_bytes 2 port ++ calloc 4 ++ a
  | DOMAIN => le_bytes 2 AF_UNIX ++ a
  end.
Definition layout (type : address_type) (a : list Z) (port : Z) : list Z :=
  encoded type a port ++ calloc (sizeof_address - zlen (encoded type a port)).
(** [sizeof] the structure, for a path only what it takes. *)
Definition address_len (type : address_type) (a : list Z) : Z :=
  match type with IP => sizeof_in | IPV6 => sizeof_in6 | DOMAIN => sun_path_off + zlen a end.

Lemma zlen_encoded type address a port : names type address a ->
  zlen (encoded type a port) = match type with IP => 8 | IPV6 => 24 | DOMAIN => 2 + zlen a end.
Proof.
  intros [H _]. destruct type; unfold encoded; rewrite !zlen_app; [| |done]; destruct H as (_&_&H); unfold zlen in *; rewrite H;
    rewrite length_be_bytes; done.
Qed.
Lemma create_layout type address a port : names type address a ->
  create_gp_sock_address pton4 pton6 address port type = Ok (layout type a port).
Proof.
  intros Hn. unfold create_gp_sock_address, init_gp_sock_address, layout. rewrite (zlen_encoded _ _ _ _ Hn). destruct Hn as [H _].
  destruct type; rewrite bzero_zeros by (unfold sizeof_in, sizeof_in6, sizeof_un, sizeof_address; lia); cbn [res_bind];
    unfold put_header, put_addr, strcpy_at.
  - destruct H as (->&_&Hl). change (calloc sizeof_address) with ([] ++ calloc sizeof_address); rewrite write_zeros by done. cbn [of_option res_bind app].
    change (sizeof_address - zlen (le_bytes 2 AF_INET ++ be_bytes 2 port)) with 108.
    rewrite write_zeros by (unfold zlen; rewrite ?length_app, ?length_be_bytes, ?Hl; cbn; lia).
    cbn [of_option]. f_equal. unfold encoded. rewrite <-!app_assoc. do 3 f_equal. f_equal. unfold zlen. by rewrite Hl.
  - destruct H as (->&_&Hl). change (calloc sizeof_address) with ([] ++ calloc sizeof_address); rewrite write_zeros by done. cbn [of_option res_bind app].
    change (sizeof_address - zlen (le_bytes 2 AF_INET6 ++ be_bytes 2 port)) with 108. rewrite (calloc_split 108 4) by lia.
    rewrite (app_assoc _ (calloc 4)), write_zeros by (unfold zlen; rewrite ?length_app, ?length_be_bytes, ?length_calloc, ?Hl; cbn; lia).
    cbn [of_option]. f_equal. unfold encoded. rewrite <-!app_assoc. do 4 f_equal. f_equal. unfold zlen. by rewrite Hl.
  - destruct H as [-> Hl]. change (calloc sizeof_address) with ([] ++ calloc sizeof_address); rewrite write_zeros by done. cbn [of_option res_bind app].
    rewrite (proj2 (Z.ltb_lt _ _)) by done. change (sizeof_address - zlen (le_bytes 2 AF_UNIX)) with 110.
    assert (Hs : zlen (address ++ [0]) = zlen address + 1) by by rewrite zlen_app. unfold sun_path_size in Hl.
    rewrite write_zeros by (rewrite ?Hs; done || lia). cbn [of_option]. f_equal. unfold encoded. rewrite <-!app_assoc. do 2 f_equal.
    rewrite Hs. unfold calloc, sizeof_address. pose proof (zlen_nonneg address).
    replace (Z.to_nat (112 - (2 + zlen address))) with (S (Z.to_nat (110 - (zlen address + 1)))) by lia. done.
Qed.

Definition family (type : address_type) : Z := match type with IP => AF_INET | IPV6 => AF_INET6 | DOMAIN => AF_UNIX end.
Lemma layout_family type a port : sa_family (layout type a port) = Ok (family type).
Proof. unfold layout, encoded. destruct type; rewrite <-?app_assoc; by apply sa_family_app. Qed.
Lemma inet_ntop_fits text out len : is_cstr text -> zlen text < len <= zlen out ->
  exists tail, inet_ntop text out len = Ok (text ++ 0 :: tail).
Proof.
  intros Ht Hl. unfold inet_ntop. rewrite (proj2 (Z.ltb_lt _ _)) by lia.
  rewrite mem_write_some by (rewrite ?zlen_app; change (zlen [0]) with 1; lia). eexists. cbn [of_option]. by rewrite <-!app_assoc.
Qed.
Lemma layout_path a port : is_cstr a -> zlen a < sun_path_size ->
  exists p, mem_read (layout DOMAIN a port) sun_path_off sun_path_size = Some p /\ c_string p = a.
Proof.
  intros Ha Hl. unfold sun_path_size in Hl. pose proof (zlen_nonneg a). exists (a ++ calloc (sun_path_size - zlen a)). split; [|by apply c_string_zeros].
  unfold layout, encoded. rewrite zlen_app. change (zlen (le_bytes 2 AF_UNIX)) with 2.
  rewrite (calloc_split (sizeof_address - (2 + zlen a)) (sun_path_size - zlen a)) by (unfold sizeof_address, sun_path_size; lia).
  rewrite <-app_assoc, (app_assoc a). apply mem_read_app; [done|]. rewrite zlen_app, zlen_calloc; unfold sun_path_size; lia.
Qed.
Lemma layout_text type address a port out len : names type address a -> zlen address < len <= zlen out -> len < 2147483648 ->
  exists tail, get_gp_sock_address ntop4 ntop6 (layout type a port) out len = Ok (address ++ 0 :: tail).
Proof.
  intros [Hn Ha] Hl H31. unfold get_gp_sock_address. rewrite layout_family. cbn [res_bind]. pose proof (zlen_nonneg address).
  destruct type; cbn [family]; cbv beta iota delta [Z.eqb Pos.eqb AF_INET AF_INET6 AF_UNIX].
  - destruct Hn as (_&Ht&H4). unfold layout, encoded. rewrite <-!app_assoc, (app_assoc (le_bytes 2 AF_INET)).
    rewrite mem_read_app by (unfold zlen; rewrite ?length_app, ?length_be_bytes, ?H4; done). cbn [of_option res_bind].
    rewrite Ht, u32_small by lia. by apply inet_ntop_fits.
  - destruct Hn as (_&Ht&H16). unfold layout, encoded. rewrite <-!app_assoc, (app_assoc (le_bytes 2 AF_INET6)), (app_assoc (_ ++ be_bytes 2 port)).
    rewrite mem_read_app by (unfold zlen; rewrite ?length_app, ?length_be_bytes, ?H16; done). cbn [of_option res_bind].
    rewrite Ht, u32_small by lia. by apply inet_ntop_fits.
  - destruct Hn as [-> Hs]. destruct (layout_path address port Ha Hs) as (p&->&Hp). cbn [of_option res_bind]. rewrite Hp, u64_small by lia.
    unfold strncpy, sun_path_size in *. set (n := if 108 <? len then 108 else len). 
    assert (Hn : zlen address < n <= zlen out) by (unfold n; destruct (Z.ltb_spec 108 len); lia).
    rewrite take_app_ge by (unfold zlen in *; lia). unfold calloc. rewrite take_replicate.
    rewrite mem_write_some by (rewrite ?zlen_app; unfold zlen in *; rewrite ?length_replicate; lia).
    exists (replicate (Z.to_nat n - length address - 1) 0 ++ drop (Z.to_nat n) out). cbn [of_option]. change (Z.to_nat 0) with 0%nat. cbn [take app].
    unfold zlen in *. replace ((Z.to_nat n - length address) `min` Z.to_nat n)%nat with (S (Z.to_nat n - length address - 1)) by lia.
    replace (0 + length _)%nat with (Z.to_nat n) by (rewrite length_app, length_replicate; lia). by rewrite <-app_assoc.
Qed.
Lemma layout_len type address a port : names type address a -> get_gp_sock_len (layout type a port) = Ok (address_len type a).
Proof.
  intros [Hn Ha]. unfold get_gp_sock_len. rewrite layout_family. destruct type; try done. destruct Hn as [-> Hl]. cbn [res_bind family].
  cbv beta iota delta [Z.eqb Pos.eqb AF_INET AF_INET6 AF_UNIX]. unfold layout, encoded, sun_path_size in *. pose proof (zlen_nonneg address).
  rewrite zlen_app. change (zlen (le_bytes 2 AF_UNIX)) with 2. unfold calloc, sizeof_address.
  replace (Z.to_nat (112 - (2 + zlen address))) with (S (Z.to_nat (109 - zlen address))) by lia. cbn [replicate].
  rewrite <-app_assoc, str_at_app by done. done.
Qed.

(** *** Copies *)
Lemma memcpy_zeros enc n k : zlen enc <= k <= n -> memcpy_at (calloc n) 0 (enc ++ calloc (n - zlen enc)) 0 k = Ok (enc ++ calloc (n - zlen enc)).
Proof.
  intros H. pose proof (zlen_nonneg enc). unfold memcpy_at. rewrite (calloc_split (n - zlen enc) (k - zlen enc)) by lia. rewrite app_assoc.
  assert (Hk : zlen (enc ++ calloc (k - zlen enc)) = k) by (rewrite zlen_app, zlen_calloc; lia).
  rewrite mem_read_head by done. cbn [of_option res_bind]. change (calloc n) with ([] ++ calloc n). rewrite write_zeros by (done || lia).
  rewrite Hk. cbn [of_option app]. do 3 f_equal. lia.
Qed.
Lemma copy_layout type address a port : names type address a ->
  init_gp_sock_address_by_sockaddr (calloc sizeof_address) (layout type a port) = Ok (layout type a port).
Proof.
  intros Hn. pose proof (zlen_encoded type address a port Hn) as He. pose proof (layout_len type address a port Hn) as Hl.
  unfold init_gp_sock_address_by_sockaddr, get_gp_sock_len in *. rewrite layout_family in *. cbn [res_bind] in *. destruct Hn as [Hn Ha].
  destruct type; cbn [family] in *; cbv beta iota delta [Z.eqb Pos.eqb AF_INET AF_INET6 AF_UNIX] in *.
  - apply memcpy_zeros. rewrite He. done.
  - apply memcpy_zeros. rewrite He. done.
  - destruct Hn as [-> Hs]. unfold sun_path_size in Hs. pose proof (zlen_nonneg address).
    assert (Hstr : str_at (layout DOMAIN address port) sun_path_off = Ok address).
    { unfold layout. rewrite He. unfold sizeof_address, calloc.
      replace (Z.to_nat (112 - (2 + zlen address))) with (S (Z.to_nat (109 - zlen address))) by lia. cbn [replicate encoded].
      rewrite <-app_assoc. by apply str_at_app. }
    rewrite Hstr. change (calloc sizeof_address) with ([] ++ calloc sizeof_address). rewrite write_zeros by done. cbn [of_option res_bind app].
    unfold memcpy_at, layout at 1. unfold encoded at 1. rewrite <-app_assoc, mem_read_app by done. cbn [of_option res_bind].
    change (sizeof_address - zlen (le_bytes 2 1)) with 110. rewrite write_zeros by (done || lia). cbn [of_option]. f_equal.
    unfold layout. rewrite He. unfold encoded. rewrite <-app_assoc. do 3 f_equal. unfold sizeof_address. lia.
Qed.

(** C34. The name of a socket comes back: an address made of a text of any of the three types
    (a path shorter than [sun_path]) gives the text back in any buffer it fits into, has
    the length that the kernel expects of it, and a connection's copy of it is the same. *)
Theorem sock_address_roundtrip (type : address_type) (address : cstr) (a : list Z) (port : Z) (out : list Z) (len : Z) :
  names type address a -> zlen address < len <= zlen out -> len < 2147483648 ->
  exists m out', create_gp_sock_address pton4 pton6 address port type = Ok m /\
    get_gp_sock_address ntop4 ntop6 m out len = Ok out' /\ str_at out' 0 = Ok address /\
    get_gp_sock_len m = Ok (address_len type a) /\
    init_gp_sock_address_by_sockaddr (calloc sizeof_address) m = Ok m.
Proof.
  intros Hn Hl H31. exists (layout type a port). destruct (layout_text type address a port out len Hn Hl H31) as (tail&E).
  exists (address ++ 0 :: tail). split_and!; [by apply (create_layout type address a)|done| | |by apply (copy_layout type address)].
  - apply (str_at_app [] address tail); [done|apply Hn].
  - by apply (layout_len type address).
Qed.

(** A path that does not fit. *)
Lemma long_path_overflows address port : sun_path_size <= zlen address -> create_gp_sock_address pton4 pton6 address port DOMAIN = Ub.
Proof.
  intros H. unfold create_gp_sock_address, init_gp_sock_address. rewrite bzero_zeros by done. cbn [res_bind].
  change (calloc sizeof_address) with ([] ++ calloc sizeof_address). rewrite write_zeros by done. cbn [of_option res_bind app].
  unfold strcpy_at. by rewrite (proj2 (Z.ltb_ge _ _)) by done.
Qed.
(** A path that fills the buffer it is read into has no terminator there. *)
Lemma path_unterminated address port out : is_cstr address -> zlen address < sun_path_size -> zlen out <= zlen address ->
  exists out', get_gp_sock_address ntop4 ntop6 (layout DOMAIN address port) out (zlen out) = Ok out' /\ str_at out' 0 = Ub.
Proof.
  intros Ha Hl Ho. pose proof (zlen_nonneg out). unfold get_gp_sock_address. rewrite layout_family. cbn [res_bind family].
  cbv beta iota delta [Z.eqb Pos.eqb AF_INET AF_INET6 AF_UNIX]. destruct (layout_path address port Ha Hl) as (p&->&Hp). cbn [of_option res_bind].
  rewrite Hp, u64_small by (unfold sun_path_size in *; lia). rewrite (proj2 (Z.ltb_ge _ _)) by lia. unfold strncpy.
  rewrite take_app_le by (unfold zlen in *; lia). assert (Hz : zlen (take (Z.to_nat (zlen out)) address) = zlen out)
    by (unfold zlen in *; rewrite length_take; lia).
  rewrite mem_write_some by lia. eexists. split; [done|]. change (Z.to_nat 0) with 0%nat. cbn [take app].
  rewrite drop_ge by (unfold zlen in *; lia). rewrite app_nil_r. unfold str_at. change (Z.to_nat 0) with 0%nat. cbn [drop].
  set (t := take _ address) in *. assert (Ht : is_cstr t) by by apply Forall_take.
  pose proof (c_string_zeros t 0 Ht) as Hc. change (calloc 0) with (@nil Z) in Hc. rewrite app_nil_r in Hc. rewrite take_0, drop_0. cbn [app]. rewrite Hc.
  by rewrite (proj2 (Z.ltb_ge _ _)) by lia.
Qed.
End Roundtrip.

Lemma sock_address_roundtrip_witness :
  exists m out', create_gp_sock_address (fun _ => None) (fun _ => None) (lit "/tmp/app.socket") 65535 DOMAIN = Ok m /\
    get_gp_sock_address (fun _ => []) (fun _ => []) m (calloc 40) 40 = Ok out' /\ str_at out' 0 = Ok (lit "/tmp/app.socket") /\
    get_gp_sock_len m = Ok 17 /\
    init_gp_sock_address_by_sockaddr (calloc sizeof_address) m = Ok m.
Proof.
  apply (sock_address_roundtrip (fun _ => None) (fun _ => None) (fun _ => []) (fun _ => []) DOMAIN (lit "/tmp/app.socket") (lit "/tmp/app.socket") 65535 (calloc 40) 40).
  - split; [split; [reflexivity|vm_compute; reflexivity]|]. apply (bool_decide_unpack _). vm_compute. exact I.
  - split; vm_compute; [reflexivity|discriminate].
  - reflexivity.
Defined.

(** ** The name of the process *)
Lemma split_last_none c s : c ∉ s -> split_last c s = None.
Proof.
  induction s as [|x s IH]; [done|]. intros [Hx Hs]%not_elem_of_cons. cbn. rewrite IH by done. by rewrite (proj2 (Z.eqb_neq x c)).
Qed.
Lemma split_last_app c dir name : c ∉ name -> split_last c (dir ++ c :: name) = Some (dir ++ [c], name).
Proof.
  intros Hn. induction dir as [|x dir IH]; cbn; [by rewrite split_last_none, Z.eqb_refl|]. by rewrite IH.
Qed.
Lemma str_at_zeros s n : is_cstr s -> zlen s < n -> str_at (s ++ calloc (n - zlen s)) 0 = Ok s.
Proof.
  intros Hs Hn. pose proof (zlen_nonneg s). unfold str_at. rewrite drop_0, c_string_zeros by done.
  by rewrite (proj2 (Z.ltb_lt _ _)) by (rewrite zlen_app, zlen_calloc; lia).
Qed.

Lemma process_name_eq (dir name : cstr) : is_cstr (dir ++ slash :: name) -> slash ∉ name ->
  zlen (dir ++ slash :: name) < 4096 ->
  get_process_name (Some (dir ++ slash :: name)) =
    if zlen name <=? zlen dir then Ok (Some name, zlen dir + 1) else Ub.
Proof.
  intros Hs Hn Hl. set (l := dir ++ slash :: name) in *. assert (H0 : 0 < zlen l).
  { unfold l. rewrite zlen_app, zlen_cons. pose proof (zlen_nonneg dir). pose proof (zlen_nonneg name). lia. }
  unfold get_process_name. rewrite take_ge by (unfold zlen in Hl; lia).
  change (calloc 4096) with ([] ++ calloc 4096). rewrite write_zeros by (done || lia). cbn [of_option res_bind app].
  rewrite (proj2 (Z.leb_gt _ _)) by lia. rewrite str_at_zeros by done. cbn [res_bind]. unfold l. rewrite split_last_app by done.
  rewrite zlen_app. change (zlen [slash]) with 1. pose proof (zlen_nonneg dir). pose proof (zlen_nonneg name). unfold strcpy_at.
  apply Forall_app in Hs as [_ [_ Hs]%Forall_cons].
  destruct (Z.leb_spec (zlen name) (zlen dir)); [rewrite (proj2 (Z.ltb_lt _ _)) by lia|by rewrite (proj2 (Z.ltb_ge _ _)) by lia].
  assert (Hz : zlen (name ++ [0]) = zlen name + 1) by by rewrite zlen_app.
  change (calloc (zlen dir + 1)) with ([] ++ calloc (zlen dir + 1)). rewrite write_zeros by (done || lia). cbn [of_option res_bind app].
  rewrite <-app_assoc. cbn [app]. by rewrite str_at_head by done.
Qed.
(** For a process whose executable is [dir/name], [get_process_name] gives [name] - but
    into a block that has the size of [dir/]: when the name is not shorter than that the
    copy overflows the heap.  What it returns is the length of the directory, not of the
    name. *)
Theorem process_name_fits_directory (dir name : cstr) : is_cstr (dir ++ slash :: name) -> slash ∉ name ->
  zlen (dir ++ slash :: name) < 4096 ->
  get_process_name (Some (dir ++ slash :: name)) =
    if zlen name <=? zlen dir then Ok (Some name, zlen dir + 1) else Ub.
Proof. apply process_name_eq. Qed.
Lemma process_name_fits_directory_witness :
  get_process_name (Some (lit "/usr/bin" ++ slash :: lit "app")) = Ok (Some (lit "app"), 9) /\
  get_process_name (Some (lit "/bin" ++ slash :: lit "server")) = Ub.
Proof.
  split.
  - apply (process_name_fits_directory (lit "/usr/bin") (lit "app")); apply (bool_decide_unpack _); vm_compute; exact I.
  - apply (process_name_fits_directory (lit "/bin") (lit "server")); apply (bool_decide_unpack _); vm_compute; exact I.
Defined.

(** ** The peer of a connection over a domain socket *)
(** A client that did not bind its socket has a name of two bytes, its family:
    [inet_ntop] is given no room and the text stays as it was. *)
Lemma domain_peer_has_no_text (ntop4 : list Z -> cstr) junk a len : 2 <= len -> (forall b, 2 <= zlen (ntop4 b)) ->
  exists port, get_peer_address ntop4 junk (le_bytes 2 AF_UNIX) a len = Ok (a, port).
Proof.
  intros Hl Hn. unfold get_peer_address. rewrite take_ge by (cbn; lia).
  destruct (mem_write_fits (malloc junk sizeof_in) 0 (le_bytes 2 AF_UNIX)) as (m&E); [done|by rewrite zlen_malloc|].
  pose proof (zlen_mem_write _ _ _ _ E) as Hz. rewrite zlen_malloc in Hz by done. unfold sizeof_in in Hz. rewrite E. cbn [of_option res_bind].
  rewrite mem_read_some by (rewrite ?Hz; done). cbn [of_option res_bind]. unfold inet_ntop. change (u32 (zlen (le_bytes 2 AF_UNIX))) with 2.
  rewrite (proj2 (Z.ltb_ge _ _)) by apply Hn. cbn [res_bind]. rewrite mem_read_some by (rewrite ?Hz; done). by eexists.
Qed.
