(* ===== verification/Server.v ===== *)
(** * gp_acceptor.c, gp_server.c, gp_ipc_server.c: from a listening socket to a connection

    The acceptor, the server around it and the start of the IPC server, over
    the addresses of SockAddr.v and the connections of Conn.v.  The system
    calls are recorded in order; what they return is a parameter.  [None]: the
    process has called [abort]. *)

From Stdlib Require Import String.
From S2P Require Import Prelude CStr Buffer Handler Conn SockAddr.
Local Open Scope Z_scope.

Inductive sys :=
  | SSocket (domain : Z)
  | SReuseAddr (fd : Z)
  | SUnlink (path : cstr)
  | SBind (fd : Z) (addr : list Z) (len : Z)
  | SListen (fd : Z)
  | SClose (fd : Z).

Record gp_acceptor := mk_acceptor {
  accept_handler : gp_handler;
  listenning : Z;
  listen_fd : Z;
  new_connection_set : bool;
}.
(** [next_conn_id] and the callbacks, set or NULL. *)
Record gp_server := mk_server {
  name : list Z;
  next_conn_id : Z;
  acceptor : gp_acceptor;
  server_message_callback : bool;
  server_connection_callback : bool;
  server_write_complete_callback : bool;
}.
Definition server_set_message_callback (s : gp_server) : gp_server :=
  mk_server (name s) (next_conn_id s) (acceptor s) true (server_connection_callback s) (server_write_complete_callback s).
Definition server_set_connection_callback (s : gp_server) : gp_server :=
  mk_server (name s) (next_conn_id s) (acceptor s) (server_message_callback s) true (server_write_complete_callback s).
Definition server_set_write_complete_callback (s : gp_server) : gp_server :=
  mk_server (name s) (next_conn_id s) (acceptor s) (server_message_callback s) (server_connection_callback s) true.
Definition set_new_connection_callback (a : gp_acceptor) : gp_acceptor :=
  mk_acceptor (accept_handler a) (listenning a) (listen_fd a) true.

Section Server.
Context (pton4 pton6 : cstr -> option (list Z)) (ntop4 ntop6 : list Z -> cstr).
Context (junk : nat -> Z) (kernel_write : nat -> Z -> wres) (on_connection : nat -> world -> list api) (in_loop : bool).

(** ** The acceptor *)
(** [sock], [bound]: what [socket] and [bind] return. *)
Definition init_gp_acceptor (sock bound : Z) (m : list Z) : res (list sys * option gp_acceptor) :=
  let* f := sa_family m in
  let h := init_gp_handler sock in
  let* len := get_gp_sock_len m in
  let* address := get_gp_sock_address ntop4 ntop6 m (malloc junk 40) 40 in
  let* unlinked := if f =? AF_UNIX then let* s := str_at address 0 in Ok [SUnlink s] else Ok [] in
  let* addr := of_option (mem_read m 0 len) in
  let evs := [SSocket f; SReuseAddr sock] ++ unlinked ++ [SBind sock addr len] in
  (* both branches print the address *)
  let* _ := str_at address 0 in
  Ok (evs, if bound <? 0 then None else Some (mk_acceptor (set_read_callback h) 0 sock false)).
Definition create_gp_acceptor := init_gp_acceptor.

(** [lid]: the acceptor's handler; [listening]: what [listen] returns. *)
Definition acceptor_listen (lid : nat) (listening : Z) (a : gp_acceptor) (w : world)
    : list sys * option (gp_acceptor * world) :=
  if listening <? 0 then ([SListen (listen_fd a)], None)
  else
    let (ep, h) := enable_reading (epoller w) lid (accept_handler a) in
    ([SListen (listen_fd a)], Some (mk_acceptor h 1 (listen_fd a) (new_connection_set a), set_epoller w ep)).

(** The part of [new_connection_callback] that deals with addresses: the
    local and the peer's, as the connection keeps them.  [sockname]: what
    [getsockname] gives.  A NULL pointer is dereferenced when the family is
    none of the three. *)
Definition connection_addresses (sockname peer_addr : list Z) : res (list Z * list Z) :=
  let* local_addr := create_sockaddr peer_addr in
  let* len := get_gp_sock_len_by_sockaddr peer_addr in
  match local_addr with
  | None => Ub
  | Some l =>
      let* l := of_option (mem_write l 0 (take (Z.to_nat len) sockname)) in
      let* local := init_gp_sock_address_by_sockaddr (calloc sizeof_address) l in
      let* peer := init_gp_sock_address_by_sockaddr (calloc sizeof_address) peer_addr in
      Ok (local, peer)
  end.
(** [run_in_loop_create_conn] prints both. *)
Definition print_address (m : list Z) : res cstr :=
  let* out := get_gp_sock_address ntop4 ntop6 m (calloc 40) 40 in str_at out 0.

(** [connfd], [peer]: what [accept4] returns and the name it has for the
    peer, of which it stores as much as [addrlen] allows. *)
Definition acceptor_read_callback (connfd : Z) (peer sockname : list Z) (c : nat) (a : gp_acceptor) (w : world)
    : res (list sys * world * option (list Z * list Z)) :=
  let* addr := of_option (mem_write (calloc sizeof_sockaddr) 0 (take (Z.to_nat sizeof_un) peer)) in
  if 0 <? connfd then
    if new_connection_set a then
      let* names := connection_addresses sockname addr in
      let* _ := print_address (fst names) in
      let* _ := print_address (snd names) in
      let* w := new_connection_callback junk kernel_write on_connection in_loop c connfd w in
      Ok ([], w, Some names)
    else Ub
  else Ok ([SClose (fd (accept_handler a))], w, None).

(** ** The server *)
Definition init_gp_server (sock bound : Z) (listen_addr : list Z) (server_name : cstr) : res (list sys * option gp_server) :=
  let* n := strcpy_at (calloc 15) 0 15 server_name in
  let* (evs, a) := init_gp_acceptor sock bound listen_addr in
  Ok (evs, match a with
           | None => None
           | Some a => Some (mk_server n 1 (set_new_connection_callback a) false false false)
           end).
Definition create_gp_server := init_gp_server.

(** The task of [start_server] has no connection: [gp_queue_in_loop] counts a
    reference through NULL. *)
Definition conn_ref_inc_ptr (p : option nat) (w : world) : res world :=
  match p with Some c => conn_ref_inc c w | None => Ub end.
Definition run_in_loop_server_start := acceptor_listen.
Definition start_server (lid : nat) (listening : Z) (s : gp_server) (w : world) : res (list sys * option (gp_acceptor * world)) :=
  if in_loop then Ok (run_in_loop_server_start lid listening (acceptor s) w)
  else let* w := conn_ref_inc_ptr None w in Ok ([], None).

(** ** The IPC server *)
Definition init_gp_ipc_server (sock bound : Z) (address : list Z) : res (list sys * option gp_server) :=
  let* (evs, s) := init_gp_server sock bound address (lit "gp_ipc") in
  Ok (evs, (fun s => server_set_connection_callback (server_set_message_callback s)) <$> s).
Definition create_gp_ipc_server := init_gp_ipc_server.
Definition gp_ipc_start_server := start_server.
(** [snprintf(path, 40, "/tmp/%s.socket", process_name)] *)
Definition ipc_path (process_name : cstr) : cstr := take 39 (lit "/tmp/" ++ process_name ++ lit ".socket").
(** Up to the start of the loop.  The name that [get_process_name] did not
    store is NULL, which [%s] must not be given. *)
Definition gp_ipc_start (link : option cstr) (sock bound : Z) (lid : nat) (listening : Z) (w : world)
    : res (list sys * option (gp_acceptor * world)) :=
  let* (process_name, _) := get_process_name link in
  let* process_name := of_option process_name in
  let* address := create_gp_sock_address pton4 pton6 (ipc_path process_name) (u16 (-1)) DOMAIN in
  let* (evs, s) := create_gp_ipc_server sock bound address in
  match s with
  | None => Ok (evs, None)
  | Some s => let* (evs', r) := gp_ipc_start_server lid listening s w in Ok (evs ++ evs', r)
  end.
End Server.

(** ** What the acceptor asks of the kernel *)
Section Theorems.
Context (pton4 pton6 : cstr -> option (list Z)) (ntop4 ntop6 : list Z -> cstr).
Context (junk : nat -> Z) (kernel_write : nat -> Z -> wres) (on_connection : nat -> world -> list api) (in_loop : bool).
Local Notation names := (names pton4 pton6 ntop4 ntop6).

(** The bytes of the name that [bind] is given. *)
Definition bound_name (type : address_type) (a : list Z) (port : Z) : list Z :=
  encoded type a port ++ calloc (address_len type a - zlen (encoded type a port)).
Lemma layout_read type address a port : names type address a ->
  mem_read (layout type a port) 0 (address_len type a) = Some (bound_name type a port).
Proof.
  intros Hn. pose proof (zlen_encoded _ _ _ _ type address a port Hn) as He. unfold layout, bound_name. rewrite He. destruct Hn as [Hn _].
  assert (Hk : zlen (encoded type a port) <= address_len type a <= sizeof_address).
  { rewrite He. destruct type; unfold address_len, sizeof_address, sizeof_in, sizeof_in6, sun_path_off, sun_path_size in *; lia. }
  rewrite <-He. pose proof (zlen_nonneg (encoded type a port)).
  rewrite (calloc_split (sizeof_address - _) (address_len type a - zlen (encoded type a port))) by lia.
  rewrite app_assoc. apply mem_read_head. rewrite zlen_app, zlen_calloc by lia. lia.
Qed.
Definition setup_calls (type : address_type) (address : cstr) (a : list Z) (port sock : Z) : list sys :=
  [SSocket (family type); SReuseAddr sock] ++ (if decide (type = DOMAIN) then [SUnlink address] else []) ++
  [SBind sock (bound_name type a port) (address_len type a)].
Lemma init_acceptor_ok type address a port sock bound : names type address a -> zlen address < 40 ->
  init_gp_acceptor ntop4 ntop6 junk sock bound (layout type a port) =
    Ok (setup_calls type address a port sock,
        if bound <? 0 then None else Some (mk_acceptor (set_read_callback (init_gp_handler sock)) 0 sock false)).
Proof.
  intros Hn Hl. unfold init_gp_acceptor. rewrite layout_family. cbn [res_bind]. rewrite (layout_len _ _ _ _ type address) by done. cbn [res_bind].
  destruct (layout_text _ _ _ _ type address a port (malloc junk 40) 40 Hn) as (tail&->); [rewrite zlen_malloc by done; lia|done|].
  cbn [res_bind]. rewrite (layout_read type address) by done. rewrite str_at_head by apply Hn. unfold setup_calls. by destruct type.
Qed.
Lemma init_acceptor_overflows address port sock bound : names DOMAIN address address -> 40 <= zlen address ->
  init_gp_acceptor ntop4 ntop6 junk sock bound (layout DOMAIN address port) = Ub.
Proof.
  intros Hn Hl. pose proof Hn as [[_ Hs] Ha]. unfold init_gp_acceptor. rewrite layout_family. cbn [res_bind].
  rewrite (layout_len _ _ _ _ DOMAIN address) by done. cbn [res_bind].
  assert (Hz : zlen (malloc junk 40) = 40) by by apply zlen_malloc.
  destruct (path_unterminated ntop4 ntop6 address port (malloc junk 40) Ha Hs) as (out&Ho&Hu); [lia|]. rewrite Hz in Ho. rewrite Ho.
  cbn [res_bind family]. cbv beta iota delta [Z.eqb Pos.eqb AF_UNIX]. by rewrite Hu.
Qed.

(** A server for a text of any of the three types asks the kernel for a socket of the
    family, for the reuse of the address, for the removal of the path (a domain socket
    only) and to bind the socket to the name the text stands for; it aborts exactly when
    [bind] fails.  The path is read back into 40 bytes: one of 40 characters or more,
    which the address itself holds up to 107 of, reaches [unlink] without a terminator. *)
Theorem server_binds_its_address (type : address_type) (address : cstr) (a : list Z) (port sock bound : Z) :
  names type address a -> (type = DOMAIN \/ zlen address < 40) ->
  (let* m := create_gp_sock_address pton4 pton6 address port type in
   create_gp_server ntop4 ntop6 junk sock bound m (lit "server")) =
  if zlen address <? 40 then
    Ok (setup_calls type address a port sock,
        if bound <? 0 then None
        else Some (mk_server (lit "server" ++ calloc 9) 1
                     (mk_acceptor (set_read_callback (init_gp_handler sock)) 0 sock true) false false false))
  else Ub.
Proof.
  intros Hn Ht. rewrite (create_layout _ _ ntop4 ntop6 type address a) by done. cbn [res_bind]. unfold create_gp_server, init_gp_server.
  change (strcpy_at (calloc 15) 0 15 (lit "server")) with (Ok (lit "server" ++ calloc 9)). cbn [res_bind].
  destruct (Z.ltb_spec (zlen address) 40) as [Hl|Hl].
  - rewrite (init_acceptor_ok type address) by done. cbn [res_bind]. by destruct (bound <? 0).
  - destruct Ht as [->|?]; [|lia]. pose proof Hn as [[-> _] _]. by rewrite init_acceptor_overflows.
Qed.

(** ** Accepting *)
(** A peer's name that [struct sockaddr] holds in full. *)
Definition inet_name (peer : list Z) : Prop := exists rest, peer = le_bytes 2 AF_INET ++ rest /\ length rest = 14%nat.
Definition copied (name : list Z) : list Z := name ++ calloc (sizeof_address - zlen name).
Lemma inet_addresses peer sockname : inet_name peer -> inet_name sockname ->
  connection_addresses sockname peer = Ok (copied sockname, copied peer).
Proof.
  intros (r&->&Hr) (q&->&Hq). unfold connection_addresses, create_sockaddr, get_gp_sock_len_by_sockaddr. rewrite sa_family_app by done.
  cbn [res_bind]. cbv beta iota delta [Z.eqb Pos.eqb AF_INET AF_INET6 AF_UNIX sock_len].
  assert (Hc : forall s, length s = 14%nat -> init_gp_sock_address_by_sockaddr (calloc sizeof_address) (le_bytes 2 2 ++ s) = Ok (copied (le_bytes 2 2 ++ s))).
  { intros s Hs. unfold init_gp_sock_address_by_sockaddr. rewrite sa_family_app by done. cbn [res_bind].
    cbv beta iota delta [Z.eqb Pos.eqb AF_INET AF_INET6 AF_UNIX]. unfold memcpy_at.
    assert (Hz : zlen (le_bytes 2 2 ++ s) = 16) by (unfold zlen; by rewrite length_app, Hs).
    rewrite <-(app_nil_r (le_bytes 2 2 ++ s)), mem_read_head by (by rewrite Hz). cbn [of_option res_bind]. rewrite app_nil_r.
    change (calloc sizeof_address) with ([] ++ calloc sizeof_address). rewrite write_zeros by (done || rewrite Hz; done). done. }
  rewrite (take_ge (le_bytes 2 2 ++ q)) by (rewrite length_app, Hq; apply Nat.leb_le; reflexivity).
  change (calloc sizeof_in) with ([] ++ calloc sizeof_in). assert (Hz : zlen (le_bytes 2 2 ++ q) = 16) by (unfold zlen; by rewrite length_app, Hq).
  rewrite write_zeros by (done || rewrite Hz; done). cbn [of_option res_bind app]. rewrite Hz. change (calloc (sizeof_in - 16)) with (@nil Z).
  rewrite app_nil_r, !Hc by done. done.
Qed.

(** The text of an IPv4 address takes at most [INET_ADDRSTRLEN] bytes. *)
Definition ntop_ok : Prop := forall b, is_cstr (ntop4 b) /\ zlen (ntop4 b) < 16.
Lemma print_inet p : ntop_ok -> inet_name p -> exists s, print_address ntop4 ntop6 (copied p) = Ok s.
Proof.
  intros Hok (r&->&Hr). unfold print_address, get_gp_sock_address.
  assert (Hz : zlen (le_bytes 2 AF_INET ++ r) = 16) by (unfold zlen; by rewrite length_app, Hr).
  assert (Hm : zlen (copied (le_bytes 2 AF_INET ++ r)) = 112) by (unfold copied; by rewrite zlen_app, Hz).
  assert (Hf : sa_family (copied (le_bytes 2 AF_INET ++ r)) = Ok AF_INET) by (unfold copied; rewrite <-app_assoc; by apply sa_family_app).
  set (m := copied _) in *. clearbody m. rewrite Hf. cbn [res_bind]. cbv beta iota delta [Z.eqb Pos.eqb AF_INET AF_INET6 AF_UNIX].
  rewrite mem_read_some by (rewrite ?Hm; done). cbn [of_option res_bind]. change (u32 40) with 40.
  edestruct Hok as [Hs Hl]. destruct (inet_ntop_fits _ (calloc 40) 40 Hs) as (tail&->); [split; [apply (Z.lt_trans _ 16); [exact Hl|done]|done]|].
  cbn [res_bind]. rewrite str_at_head by done. by eexists.
Qed.

(** C35. What an acceptor makes of [accept4], for any world of connections.  A peer over
    IPv4: the connection is set up as [new_connection_callback] does and keeps the two
    names the kernel gave.  A failure, a descriptor of 0 included: the listening socket is
    closed.  A peer whose name is longer than a [struct sockaddr] (any over IPv6, a named
    domain socket): the kernel is told that there is room for a [sockaddr_un] and writes
    past the end of the variable. *)
Theorem accept_outcomes (connfd : Z) (peer sockname : list Z) (c : nat) (a : gp_acceptor) (w : world) :
  ntop_ok -> new_connection_set a = true ->
  let accept := acceptor_read_callback ntop4 ntop6 junk kernel_write on_connection in_loop connfd peer sockname c a w in
  (0 < connfd -> inet_name peer -> inet_name sockname ->
     accept = let* w' := new_connection_callback junk kernel_write on_connection in_loop c connfd w in
              Ok ([], w', Some (copied sockname, copied peer))) /\
  (connfd <= 0 -> zlen peer <= sizeof_sockaddr -> accept = Ok ([SClose (fd (accept_handler a))], w, None)) /\
  (sizeof_sockaddr < zlen peer -> accept = Ub).
Proof.
  intros Hok Ha accept. unfold accept, acceptor_read_callback. clear accept. unfold sizeof_sockaddr, sizeof_un in *. split_and!.
  - intros Hc Hp Hs. pose proof Hp as (r&Er&Hr). assert (Hz : zlen peer = 16) by (subst peer; unfold zlen; by rewrite length_app, Hr).
    rewrite take_ge by (unfold zlen in Hz; lia). change (calloc 16) with ([] ++ calloc 16). rewrite write_zeros by (done || lia).
    cbn [of_option res_bind app]. rewrite Hz. change (calloc (16 - 16)) with (@nil Z). rewrite app_nil_r.
    rewrite (proj2 (Z.ltb_lt _ _)), Ha by done. rewrite inet_addresses by done. cbn [res_bind fst snd].
    destruct (print_inet sockname Hok Hs) as (?&->). cbn [res_bind]. destruct (print_inet peer Hok Hp) as (?&->). done.
  - intros Hc Hl. rewrite take_ge by (unfold zlen in Hl; lia). change (calloc 16) with ([] ++ calloc 16). rewrite write_zeros by done.
    cbn [of_option res_bind]. by rewrite (proj2 (Z.ltb_ge _ _)) by done.
  - intros Hl. unfold mem_write. rewrite bool_decide_false; [done|]. rewrite zlen_calloc by done. unfold zlen in *. rewrite length_take. lia.
Qed.

(** ** Starting the IPC server *)
Lemma ipc_path_fits process_name : is_cstr process_name -> is_cstr (ipc_path process_name) /\ zlen (ipc_path process_name) < 40.
Proof.
  intros Hn. unfold ipc_path. split; [|unfold zlen; rewrite length_take; lia]. apply Forall_take, Forall_app. split; [|apply Forall_app; split; [done|]];
    apply (bool_decide_unpack _); vm_compute; exact I.
Qed.
(** [gp_ipc_start] of a process [dir/name], in the thread of its loop: the server binds and
    listens on /tmp/name.socket, cut to 39 characters so that it always fits, and the
    loop watches the listening socket for connections - provided the name is no longer than
    the directory, since [get_process_name] has already overflowed otherwise. *)
Theorem ipc_server_starts (dir pname : cstr) (sock : Z) (lid : nat) (w : world) :
  in_loop = true -> is_cstr (dir ++ slash :: pname) -> slash ∉ pname -> zlen (dir ++ slash :: pname) < 4096 ->
  gp_ipc_start pton4 pton6 ntop4 ntop6 junk in_loop (Some (dir ++ slash :: pname)) sock 0 lid 0 w =
  if zlen pname <=? zlen dir then
    let (ep, h) := enable_reading (epoller w) lid (set_read_callback (init_gp_handler sock)) in
    Ok (setup_calls DOMAIN (ipc_path pname) (ipc_path pname) (u16 (-1)) sock ++ [SListen sock],
        Some (mk_acceptor h 1 sock true, set_epoller w ep))
  else Ub.
Proof.
  intros Hin Hs Hn Hl. unfold gp_ipc_start. rewrite process_name_eq by done. destruct (zlen pname <=? zlen dir); [|done]. cbn [res_bind of_option].
  apply Forall_app in Hs as [_ [_ Hs]%Forall_cons]. destruct (ipc_path_fits pname Hs) as [Hp H40].
  assert (Hnm : names DOMAIN (ipc_path pname) (ipc_path pname)) by (split; [split; [done|unfold sun_path_size; lia]|done]).
  rewrite (create_layout _ _ ntop4 ntop6 DOMAIN (ipc_path pname) (ipc_path pname)) by done. cbn [res_bind].
  unfold create_gp_ipc_server, init_gp_ipc_server, init_gp_server.
  change (strcpy_at (calloc 15) 0 15 (lit "gp_ipc")) with (Ok (lit "gp_ipc" ++ calloc 9)). cbn [res_bind].
  rewrite (init_acceptor_ok DOMAIN (ipc_path pname)) by done. cbn [res_bind Z.ltb Z.compare]. 
  unfold gp_ipc_start_server, start_server, run_in_loop_server_start, acceptor_listen. rewrite Hin. cbn [res_bind Z.ltb Z.compare fmap option_fmap option_map].
  cbn [acceptor set_new_connection_callback accept_handler listen_fd new_connection_set server_set_connection_callback server_set_message_callback].
  by destruct (enable_reading _ _ _).
Qed.
(** A server that is started from another thread never starts. *)
Lemma start_from_elsewhere lid listening s w : start_server false lid listening s w = Ub.
Proof. done. Qed.
End Theorems.

(** ** Witnesses *)
Definition no_pton (_ : cstr) : option (list Z) := None.
Definition some_ntop (_ : list Z) : cstr := lit "127.0.0.1".
Definition idle_world : world := mk_world ∅ ∅ [] false [] (mk_epoller ∅ []) [] 0.
Lemma server_binds_its_address_witness :
  (let* m := create_gp_sock_address no_pton no_pton (lit "/run/app.socket") 0 DOMAIN in
   create_gp_server some_ntop some_ntop (fun _ => 7) 5 0 m (lit "server")) =
  Ok (setup_calls DOMAIN (lit "/run/app.socket") (lit "/run/app.socket") 0 5,
      Some (mk_server (lit "server" ++ calloc 9) 1 (mk_acceptor (set_read_callback (init_gp_handler 5)) 0 5 true) false false false)).
Proof.
  apply (server_binds_its_address no_pton no_pton some_ntop some_ntop (fun _ => 7) DOMAIN (lit "/run/app.socket") (lit "/run/app.socket") 0 5 0).
  - split; [split; vm_compute; reflexivity|]. apply (bool_decide_unpack _). vm_compute. exact I.
  - left. reflexivity.
Defined.
Definition demo_acceptor : gp_acceptor := mk_acceptor (set_read_callback (init_gp_handler 5)) 1 5 true.
Definition demo_name (last : Z) : list Z := le_bytes 2 AF_INET ++ be_bytes 2 8080 ++ [127; 0; 0; last] ++ calloc 8.
Lemma accept_outcomes_witness :
  let accept connfd peer := acceptor_read_callback some_ntop some_ntop (fun _ => 7) (fun _ n => Wrote n) (fun _ _ => []) true
                              connfd peer (demo_name 1) 0 demo_acceptor idle_world in
  accept 6 (demo_name 2) =
    (let* w' := new_connection_callback (fun _ => 7) (fun _ n => Wrote n) (fun _ _ => []) true 0 6 idle_world in
     Ok ([], w', Some (copied (demo_name 1), copied (demo_name 2)))) /\
  accept (-1) [] = Ok ([SClose 5], idle_world, None) /\
  accept 6 (le_bytes 2 AF_INET6 ++ calloc 26) = Ub.
Proof.
  assert (Hok : ntop_ok some_ntop) by (intros b; split; [apply (bool_decide_unpack _); vm_compute; exact I|vm_compute; reflexivity]).
  assert (Hn : forall x, inet_name (demo_name x)) by (intros x; eexists; split; reflexivity).
  pose proof (fun connfd peer => accept_outcomes some_ntop some_ntop (fun _ => 7) (fun _ n => Wrote n) (fun _ _ => []) true
                connfd peer (demo_name 1) 0 demo_acceptor idle_world Hok eq_refl) as H.
  split; [|split].
  - apply (H 6 (demo_name 2)); [lia|apply Hn..].
  - apply (H (-1) []); [lia|vm_compute; discriminate].
  - apply (H 6 (le_bytes 2 AF_INET6 ++ calloc 26)). vm_compute. reflexivity.
Defined.
Lemma ipc_server_starts_witness :
  gp_ipc_start no_pton no_pton some_ntop some_ntop (fun _ => 7) true (Some (lit "/usr/bin" ++ slash :: lit "app")) 5 0 1 0 idle_world =
  (let (ep, h) := enable_reading (mk_epoller ∅ []) 1%nat (set_read_callback (init_gp_handler 5)) in
   Ok (setup_calls DOMAIN (lit "/tmp/app.socket") (lit "/tmp/app.socket") 65535 5 ++ [SListen 5],
       Some (mk_acceptor h 1 5 true, set_epoller idle_world ep))).
Proof.
  apply (ipc_server_starts no_pton no_pton some_ntop some_ntop (fun _ => 7) true (lit "/usr/bin") (lit "app") 5 1 idle_world);
    [reflexivity|apply (bool_decide_unpack _); vm_compute; exact I..].
Defined.
