(* ===== verification/Ssl.v ===== *)
(** * gp_ssl_server.c: connections behind OpenSSL

    The handlers that an SSL server installs on a connection of Conn.v.
    OpenSSL itself is a parameter: each call is given what it returned.  The
    callbacks of a connection's handler and what became of its [SSL *] are the
    state here, by the connection's address; reference counts, buffers and the
    handler's events are the connection's own. *)

From S2P Require Import Prelude Buffer Handler Conn ConnInv.
Local Open Scope Z_scope.

Inductive callback :=
  | connection_read | connection_write | connection_close
  | handshake_callback | ssl_read_callback | ssl_close_callback.
(** [conn_pri]: NULL, in use, freed. *)
Inductive ssl_ptr := SslNull | SslLive | SslFreed.
(** [conn_message]: whether [message_callback] is set. *)
Record ssl_conn := mk_ssl {
  conn_pri : ssl_ptr;
  read_cb : callback;
  write_cb : callback;
  close_cb : callback;
  conn_message : bool;
}.
Record gp_ssl_server := mk_ssl_server {
  base : world;
  ssl : gmap nat ssl_conn;
  server_message : bool;
}.
Definition with_base (s : gp_ssl_server) (w : world) : gp_ssl_server := mk_ssl_server w (ssl s) (server_message s).
Definition get_ssl (c : nat) (s : gp_ssl_server) : res ssl_conn := of_option (ssl s !! c).
Definition put_ssl (c : nat) (x : ssl_conn) (s : gp_ssl_server) : gp_ssl_server :=
  mk_ssl_server (base s) (<[c := x]> (ssl s)) (server_message s).
(** OpenSSL is called with the pointer: it must be in use. *)
Definition use_ssl (c : nat) (s : gp_ssl_server) : res ssl_conn :=
  let* x := get_ssl c s in match conn_pri x with SslLive => Ok x | _ => Ub end.

(** What [new_connection_callback] leaves: the handlers of gp_conn.c and the
    server's message callback, which is not set before the first handshake. *)
Definition accepted_ssl (s : gp_ssl_server) : ssl_conn :=
  mk_ssl SslNull connection_read connection_write connection_close (server_message s).
Definition init_gp_ssl_server (w : world) : gp_ssl_server := mk_ssl_server w ∅ false.

(** [SSL_get_error] *)
Inductive ssl_error := SSL_ERROR_WANT_READ | SSL_ERROR_WANT_WRITE | SSL_ERROR_OTHER.
#[export] Instance ssl_error_eq_dec : EqDecision ssl_error.
Proof. solve_decision. Defined.
(** [SSL_read]: decrypted bytes, or a result that is not positive, with
    whether [errno] is ECONNRESET. *)
Inductive read_result := SslData (data : list Z) | SslNone (n : Z) (reset : bool).

Section Ssl.
Context (junk : nat -> Z) (kernel_write : nat -> Z -> wres) (kernel_read : nat -> Z -> readv_result).
Context (on_connection on_message : nat -> world -> list api) (in_loop : bool).

Definition lift (s : gp_ssl_server) (r : res world) : res gp_ssl_server := let* w := r in Ok (with_base s w).

(** The connection callback of the server. *)
Definition ssl_connection_init (c : nat) (s : gp_ssl_server) : res gp_ssl_server :=
  let* x := get c (base s) in
  if decide (state x = k_connected) then
    let* y := get_ssl c s in
    Ok (put_ssl c (mk_ssl SslLive handshake_callback handshake_callback ssl_close_callback (conn_message y)) s)
  else Ok s.

(** [r], [err]: what [SSL_do_handshake] and [SSL_get_error] return. *)
Definition ssl_handler_handshake (c : nat) (r : Z) (err : ssl_error) (s : gp_ssl_server) : res gp_ssl_server :=
  let* _ := get c (base s) in
  let* y := use_ssl c s in
  if r =? 1 then
    let s := put_ssl c (mk_ssl (conn_pri y) ssl_read_callback (write_cb y) (close_cb y) true) s in
    Ok (mk_ssl_server (base s) (ssl s) true)
  else
    match err with
    | SSL_ERROR_WANT_WRITE =>
        let* w := on_handler enable_writing c (base s) in lift s (on_handler disable_reading c w)
    | SSL_ERROR_WANT_READ =>
        let* w := on_handler enable_reading c (base s) in lift s (on_handler disable_writing c w)
    | SSL_ERROR_OTHER => Ok s
    end.

(** [r]: what [SSL_write] returns, kept in a [size_t].  No handler is given
    this function. *)
Definition ssl_handler_write (c : nat) (r : Z) (s : gp_ssl_server) : res gp_ssl_server :=
  let* x := get c (base s) in
  let* _ := use_ssl c s in
  let* _ := peek (output_buffer x) (readable_bytes (output_buffer x)) in
  let n := u64 r in
  if 0 <? n then
    let b := retrieve (output_buffer x) n in
    let w := put c (set_output x b) (base s) in
    if readable_bytes b =? 0 then
      let* w := on_handler disable_writing c w in
      Ok (with_base s (if decide (state x = k_disconnecting) then emit w (EvShutdown c) else w))
    else Ok (with_base s w)
  else Ok s.

Definition ssl_free (y : ssl_conn) : res ssl_conn :=
  match conn_pri y with
  | SslFreed => Ub
  | SslLive => Ok (mk_ssl SslFreed (read_cb y) (write_cb y) (close_cb y) (conn_message y))
  | SslNull => Ok y
  end.
Definition ssl_handler_close (c : nat) (s : gp_ssl_server) : res gp_ssl_server :=
  let* w := conn_ref_inc c (base s) in
  (* the connection's close callback *)
  let* w := remove_conn in_loop c w in
  let* y := get_ssl c s in
  let* y := ssl_free y in
  let* (w, _) := conn_ref_dec c w in
  Ok (with_base (put_ssl c y s) w).

(** [SSL_read] into the free part of the input buffer; a full buffer is made
    half as large again.  The results of [writable_bytes] and of the product
    are converted to [int]. *)
Definition ssl_read_into (b : gp_buffer) (data : list Z) : res gp_buffer :=
  let writable := s32 (writable_bytes b) in
  let n := zlen data in
  let* m := of_option (mem_write (buffer b) (writer_index b) data) in
  let b := set_bytes b m in
  if n <? writable then Ok (set_writer b (u64 (writer_index b + n)))
  else ensure_writable_bytes junk (set_writer b (len b)) (u64 (s32 (len b / 2))).
Definition ssl_handler_read (c : nat) (r : read_result) (s : gp_ssl_server) : res gp_ssl_server :=
  let* x := get c (base s) in
  let* y := use_ssl c s in
  match r with
  | SslData data =>
      let* b := ssl_read_into (input_buffer x) data in
      let* w := conn_ref_inc c (put c (set_input x b) (base s)) in
      if conn_message y then
        let* w := message_callback junk kernel_write on_message in_loop c w in
        let* (w, _) := conn_ref_dec c w in Ok (with_base s w)
      else Ub
  | SslNone n reset =>
      if (n <? 0) && reset then ssl_handler_close c s else Ok s
  end.

(** [handle_event] with the callbacks of the connection.  [hs], [rd]: what
    OpenSSL answers. *)
Definition call_back (k : callback) (c : nat) (hs : Z * ssl_error) (rd : read_result) (s : gp_ssl_server) : res gp_ssl_server :=
  match k with
  | handshake_callback => ssl_handler_handshake c (fst hs) (snd hs) s
  | ssl_read_callback => ssl_handler_read c rd s
  | ssl_close_callback => ssl_handler_close c s
  | connection_write => lift s (connection_handler_write kernel_write c (base s))
  | connection_close => lift s (connection_handler_close junk kernel_write on_connection in_loop c (base s))
  | connection_read =>
      lift s (connection_handler_read junk kernel_write kernel_read on_connection on_message in_loop c (base s))
  end.
Definition ssl_handle_event (c : nat) (hs : Z * ssl_error) (rd : read_result) (s : gp_ssl_server) : res gp_ssl_server :=
  let* x := get c (base s) in
  let s := with_base s (put c (set_handler x (set_event_handling (handler x) 1)) (base s)) in
  let step (mask : bool) (cb : ssl_conn -> callback) (s : gp_ssl_server) : res gp_ssl_server :=
    if mask then let* y := get_ssl c s in call_back (cb y) c hs rd s else Ok s in
  let* x := get c (base s) in
  let r := revents (handler x) in
  let* s := step (bits r POLLHUP && negb (bits r POLLIN)) close_cb s in
  let* x := get c (base s) in
  let* s := step (bits (revents (handler x)) (Z.lor POLLIN (Z.lor POLLPRI POLLRDHUP))) read_cb s in
  let* x := get c (base s) in
  let* s := step (bits (revents (handler x)) POLLOUT) write_cb s in
  let* x := get c (base s) in
  Ok (with_base s (put c (set_handler x (set_event_handling (handler x) 0)) (base s))).
End Ssl.

(** ** The input buffer *)
Module Input.
(** Bytes that OpenSSL has decrypted, of which [SSL_read] takes what there is
    room for, and the application's [retrieve]. *)
Inductive op := Decrypted (data : list Z) | Consume (n : Z).
Record input_state := mk_input { buf : gp_buffer; delivered : list Z; consumed : list Z }.
Definition step (junk : nat -> Z) (s : input_state) (o : op) : res input_state :=
  match o with
  | Decrypted data =>
      let d := take (Z.to_nat (writable_bytes (buf s))) data in
      let* b := ssl_read_into junk (buf s) d in Ok (mk_input b (delivered s ++ d) (consumed s))
  | Consume n =>
      Ok (mk_input (retrieve (buf s) n) (delivered s) (consumed s ++ take (Z.to_nat n) (contents (buf s))))
  end.
Fixpoint run (junk : nat -> Z) (s : input_state) (ops : list op) : res input_state :=
  match ops with [] => Ok s | o :: ops => let* s := step junk s o in run junk s ops end.
Definition op_ok (o : op) : Prop := match o with Decrypted d => d <> [] /\ Forall is_byte d | Consume n => 0 <= n end.
Definition size (o : op) : Z := match o with Decrypted d => zlen d | Consume _ => 0 end.
Definition total (ops : list op) : Z := foldr (fun o z => size o + z) 0 ops.
End Input.
Import Input.

(** [T]: the bytes received so far. *)
Record room (T : Z) (b : gp_buffer) : Prop := {
  rm_wf : wf b;
  rm_free : 0 < writable_bytes b;
  rm_writer : writer_index b <= k_cheap_prepend + T;
  rm_len : 2 <= len b <= 8200 + 2 * T;
}.
Lemma ensure_writable_len junk b b' n : ensure_writable_bytes junk b n = Ok b' -> len b' = len b \/ len b' = u64 (n + writer_index b).
Proof.
  unfold ensure_writable_bytes, make_space. destruct (_ <? n); [|intros [= <-]; by left].
  destruct (u64 _ <? u64 _); [intros [= <-]; by right|]. destruct (mem_read _ _ _) as [mv|]; [|done]. cbn.
  destruct (mem_write _ _ _) as [m|]; [|done]. intros [= <-]. by left.
Qed.
Lemma ssl_read_into_ok junk T b data : room T b -> data <> [] -> zlen data <= writable_bytes b -> Forall is_byte data ->
  0 <= T -> T + zlen data < 536870912 ->
  exists b', ssl_read_into junk b data = Ok b' /\ room (T + zlen data) b' /\ contents b' = contents b ++ data.
Proof.
  intros [H Hf Hw Hl] Hne Hd Hby HT Hmax. assert (Hpos : 0 < zlen data) by (destruct data; [done|unfold zlen; cbn; lia]).
  pose proof (writable_bytes_wf b H) as Hwb. assert (Hpre : 0 <= writer_index b) by wf_lia.
  unfold ssl_read_into. rewrite s32_small by (unfold k_cheap_prepend in *; lia).
  destruct (mem_write_fits (buffer b) (writer_index b) data) as [m Hm]; [lia|pose proof (wf_len b H); lia|]. rewrite Hm. cbn [of_option res_bind].
  destruct (contents_extend b m data H Hm Hby) as [Hwf Hc].
  change (writer_index (set_bytes b m)) with (writer_index b). change (len (set_bytes b m)) with (len b).
  destruct (Z.ltb_spec (zlen data) (writable_bytes b)) as [Hlt|Hge].
  - rewrite u64_small by (pose proof (wf_max b H); wf_lia). eexists. split; [done|]. split; [|done].
    split; [done|rewrite writable_bytes_wf by done; cbn; lia|cbn; lia|cbn; lia].
  - replace (writer_index b + zlen data) with (len b) in * by lia. set (b1 := set_writer (set_bytes b m) (len b)) in *.
    assert (H2 : 1 <= len b / 2) by (apply Z.div_le_lower_bound; lia).
    assert (Hu : len b / 2 <= len b) by (apply Z.div_le_upper_bound; lia). rewrite s32_small, u64_small by lia.
    destruct (ensure_writable_bytes_wf junk b1 (len b / 2) Hwf) as (b'&E&Hb'&Hc'&Hw'&Hwi&_);
      [lia|change (writer_index b1) with (len b); unfold max_object; lia|].
    rewrite E. eexists. split; [done|]. split; [|congruence]. change (writer_index b1) with (len b) in Hwi.
    split; [done|lia|lia|]. apply ensure_writable_len in E. change (len b1) with (len b) in E. change (writer_index b1) with (len b) in E.
    unfold k_cheap_prepend in *. assert (Hhalf : 2 * (len b / 2) <= len b) by (apply Z.mul_div_le; lia).
    destruct E as [->| ->]; [lia|]. rewrite u64_small by lia. lia.
Qed.
Lemma total_nonneg ops : 0 <= total ops.
Proof. induction ops as [|[d|n] ops IH]; cbn; [lia|pose proof (zlen_nonneg d); fold (total ops); lia|fold (total ops); lia]. Qed.
Lemma input_run junk T ops s : room T (buf s) -> delivered s = consumed s ++ contents (buf s) -> Forall op_ok ops -> 0 <= T -> T + total ops < 536870912 ->
  exists s', run junk s ops = Ok s' /\ (exists T', room T' (buf s')) /\ delivered s' = consumed s' ++ contents (buf s').
Proof.
  revert T s. induction ops as [|o ops IH]; intros T s Hr Hq Hok HT Hmax; [by exists s; eauto|].
  apply Forall_cons in Hok as [Ho Hok]. cbn [run total foldr size] in *. fold (total ops) in Hmax. pose proof (total_nonneg ops) as Hn. destruct o as [d|n]; cbn [step size] in *.
  - destruct Ho as [Hne Hby]. set (d' := take _ d). pose proof (zlen_nonneg d'). pose proof (rm_free _ _ Hr).
    assert (Hd' : zlen d' <= writable_bytes (buf s) /\ zlen d' <= zlen d) by (unfold d', zlen; rewrite length_take; lia).
    assert (Hne' : d' <> []) by (unfold d'; destruct d as [|x d]; [done|]; destruct (Z.to_nat (writable_bytes (buf s))) eqn:E; [lia|done]).
    destruct (ssl_read_into_ok junk T (buf s) d' Hr Hne') as (b&E&Hb&Hc); [lia|by apply Forall_take|done|lia|]. rewrite E. cbn [res_bind].
    apply (IH (T + zlen d')); cbn; [done| |done|lia|lia]. by rewrite Hc, Hq, app_assoc.
  - cbn [res_bind]. destruct Hr as [H1 H2 H3 H4]. destruct (retrieve_wf (buf s) n H1 Ho) as [Hwf Hc].
    pose proof (retrieve_writer (buf s) n H1) as Hwr. assert (Hlen : len (retrieve (buf s) n) = len (buf s)) by (unfold retrieve; by destruct (_ <? _)).
    apply (IH T); cbn; [|by rewrite Hc, <-app_assoc, take_drop, Hq|done|done|lia].
    split; [done| |lia|by rewrite Hlen]. rewrite !writable_bytes_wf in * by done. lia.
Qed.

(** C36. However OpenSSL cuts the stream into reads and whatever the application takes from the
    buffer in between, up to 2^29 bytes in all: every read finds at least one byte of
    room and stays within the allocation, and the bytes delivered are those the application
    took followed by the contents of the buffer, in order and without loss. *)
Theorem ssl_input_is_a_queue (junk : nat -> Z) (ops : list op) : Forall op_ok ops -> total ops < 536870912 ->
  exists s, run junk (mk_input (create_gp_buffer junk) [] []) ops = Ok s /\
    delivered s = consumed s ++ contents (buf s) /\ wf (buf s) /\ 0 < writable_bytes (buf s).
Proof.
  intros Hok Hm. destruct (init_gp_buffer_wf junk) as [Hwf Hc].
  destruct (input_run junk 0 ops (mk_input (create_gp_buffer junk) [] [])) as (s&E&(T&Hr)&Hq); try done.
  exists s. destruct Hr. done.
Qed.
Lemma ssl_input_is_a_queue_witness :
  exists s, run (fun _ => 7) (mk_input (create_gp_buffer (fun _ => 7)) [] []) [Decrypted [1; 2; 3]; Consume 2; Decrypted (replicate 50 9)] = Ok s /\
    delivered s = consumed s ++ contents (buf s) /\ wf (buf s) /\ 0 < writable_bytes (buf s).
Proof.
  apply (ssl_input_is_a_queue (fun _ => 7) [Decrypted [1; 2; 3]; Consume 2; Decrypted (replicate 50 9)]).
  - repeat constructor; try discriminate; try (apply (bool_decide_unpack _); vm_compute; exact I).
  - vm_compute. reflexivity.
Defined.

(** ** The handshake *)
Definition want (w : bool) : ssl_error := if w then SSL_ERROR_WANT_WRITE else SSL_ERROR_WANT_READ.
(** The answers of [SSL_do_handshake] until it succeeds; [true]: it wants to
    write. *)
Fixpoint handshakes (c : nat) (wants : list bool) (s : gp_ssl_server) : res gp_ssl_server :=
  match wants with
  | [] => ssl_handler_handshake c 1 SSL_ERROR_OTHER s
  | w :: wants => let* s := ssl_handler_handshake c (-1) (want w) s in handshakes c wants s
  end.
Definition last_interest (wants : list bool) : Z :=
  match last wants with Some true => kwrite_event | _ => kread_event end.

Lemma disable_reading_fd : on_fd disable_reading (fun e => Z.land e (Z.lnot kread_event)).
Proof. intros ep c h ep' h' Hu%update_fd. done. Qed.
Lemma interest_after (w : bool) e : e = kread_event \/ e = kwrite_event ->
  (if w then Z.land (Z.lor e kwrite_event) (Z.lnot kread_event) else Z.land (Z.lor e kread_event) (Z.lnot kwrite_event)) =
  if w then kwrite_event else kread_event.
Proof. by destruct w; intros [-> | ->]. Qed.
Lemma on_handler_twice f f2 g g2 c w x : on_fd f g -> on_fd f2 g2 -> conns w !! c = Some x ->
  exists w' x', (let* w := on_handler f c w in on_handler f2 c w) = Ok w' /\ conns w' !! c = Some x' /\ state x' = state x /\
    events (handler x') = g2 (g (events (handler x))).
Proof.
  intros Hf Hf2 Hx. destruct (on_handler_ok f g c w x Hf Hx) as (h1&ep1&E1&_&He1). rewrite E1. cbn [res_bind].
  set (w1 := put c (set_handler x h1) (set_epoller w ep1)).
  assert (Hx1 : conns w1 !! c = Some (set_handler x h1)) by apply lookup_insert_eq.
  destruct (on_handler_ok f2 g2 c w1 _ Hf2 Hx1) as (h2&ep2&E2&_&He2). rewrite E2. eexists _, _. split; [done|].
  split; [apply lookup_insert_eq|]. split; [done|]. cbn [handler set_handler] in *. by rewrite He2, He1.
Qed.
Lemma handshake_want c s x y (w : bool) : conns (base s) !! c = Some x -> ssl s !! c = Some y -> conn_pri y = SslLive ->
  events (handler x) = kread_event \/ events (handler x) = kwrite_event ->
  exists s' x', ssl_handler_handshake c (-1) (want w) s = Ok s' /\ conns (base s') !! c = Some x' /\ ssl s' = ssl s /\ state x' = state x /\
    events (handler x') = if w then kwrite_event else kread_event.
Proof.
  intros Hx Hy Hl He. unfold ssl_handler_handshake, get, use_ssl, get_ssl. rewrite Hx, Hy. cbn [of_option res_bind]. rewrite Hl. cbn [Z.eqb res_bind].
  destruct w; cbn [want].
  - destruct (on_handler_twice _ _ _ _ c (base s) x enable_writing_fd disable_reading_fd Hx) as (w'&x'&E&Hx'&Hs&He').
    exists (with_base s w'), x'. destruct (on_handler enable_writing c (base s)); cbn [res_bind] in *; [|done..]. unfold lift. rewrite E. cbn [res_bind].
    split_and!; try done. rewrite He'. by apply (interest_after true).
  - destruct (on_handler_twice _ _ _ _ c (base s) x enable_reading_fd disable_writing_fd Hx) as (w'&x'&E&Hx'&Hs&He').
    exists (with_base s w'), x'. destruct (on_handler enable_reading c (base s)); cbn [res_bind] in *; [|done..]. unfold lift. rewrite E. cbn [res_bind].
    split_and!; try done. rewrite He'. by apply (interest_after false).
Qed.
Lemma handshakes_ok c wants s x y : conns (base s) !! c = Some x -> ssl s !! c = Some y -> conn_pri y = SslLive ->
  events (handler x) = kread_event \/ events (handler x) = kwrite_event ->
  exists s' x', handshakes c wants s = Ok s' /\ conns (base s') !! c = Some x' /\ state x' = state x /\
    ssl s' !! c = Some (mk_ssl SslLive ssl_read_callback (write_cb y) (close_cb y) true) /\ server_message s' = true /\
    events (handler x') = match last wants with Some true => kwrite_event | Some false => kread_event | None => events (handler x) end.
Proof.
  revert s x. induction wants as [|w wants IH]; intros s x Hx Hy Hl He.
  - cbn [handshakes]. unfold ssl_handler_handshake, get, use_ssl, get_ssl. rewrite Hx, Hy. cbn [of_option res_bind]. rewrite Hl. cbn [res_bind].
    change (1 =? 1) with true. cbv iota. eexists _, x. split; [done|]. cbn. rewrite Hl. split_and!; try done. apply lookup_insert_eq.
  - cbn [handshakes]. destruct (handshake_want c s x y w Hx Hy Hl He) as (s1&x1&E&Hx1&Hs1&Hst&He1). rewrite E. cbn [res_bind].
    destruct (IH s1 x1 Hx1) as (s'&x'&E'&Hx'&Hst'&Hy'&Hm&He'); [by rewrite Hs1|done|rewrite He1; destruct w; auto|].
    exists s', x'. split_and!; try done; [congruence|]. rewrite He'. rewrite last_cons. destruct (last wants) as [[]|]; [done..|]. rewrite He1. by destruct w.
Qed.

(** The handshake of a connection that has just been established, whatever OpenSSL asks for on
    the way: once it succeeds the connection reads through [ssl_handler_read] and its
    messages reach [handle_ssl_msg], but the write callback is still the handshake's -
    [ssl_handler_write] is never installed - and the events that the loop watches are those
    of the last request: when that was to write, the connection is never read from. *)
Theorem handshake_ends_in_last_interest (c : nat) (wants : list bool) (s : gp_ssl_server) (x : gp_connection) (y : ssl_conn) :
  conns (base s) !! c = Some x -> state x = k_connected -> events (handler x) = kread_event -> ssl s !! c = Some y ->
  exists s' x', (let* s := ssl_connection_init c s in handshakes c wants s) = Ok s' /\
    ssl s' !! c = Some (mk_ssl SslLive ssl_read_callback handshake_callback ssl_close_callback true) /\
    conns (base s') !! c = Some x' /\ state x' = k_connected /\ events (handler x') = last_interest wants.
Proof.
  intros Hx Hst He Hy. unfold ssl_connection_init, get, get_ssl. rewrite Hx. cbn [of_option res_bind]. rewrite decide_True, Hy by done. cbn [of_option res_bind].
  destruct (handshakes_ok c wants (put_ssl c (mk_ssl SslLive handshake_callback handshake_callback ssl_close_callback (conn_message y)) s) x
    (mk_ssl SslLive handshake_callback handshake_callback ssl_close_callback (conn_message y))) as (s'&x'&E&Hx'&Hst'&Hy'&_&He'); try done.
  - apply lookup_insert_eq.
  - by left.
  - exists s', x'. split_and!; try done; [congruence|]. rewrite He'. unfold last_interest. rewrite He. by destruct (last wants) as [[]|].
Qed.

(** ** A connection, and what goes wrong with it *)
Definition demo_conn (events : Z) : gp_connection :=
  mk_conn 1 k_connected (set_close_callback (set_write_callback (set_read_callback (set_events (init_gp_handler 6) events))))
    (create_gp_buffer (fun _ => 7)) (create_gp_buffer (fun _ => 7)).
Definition demo_server (events : Z) : gp_ssl_server :=
  let w := mk_world {[ 0%nat := demo_conn events ]} {[ 6 := 0%nat ]} [] false [] (mk_epoller ∅ []) [] 0 in
  put_ssl 0 (accepted_ssl (init_gp_ssl_server w)) (init_gp_ssl_server w).
Lemma handshake_ends_in_last_interest_witness :
  exists s' x', (let* s := ssl_connection_init 0 (demo_server kread_event) in handshakes 0 [false; true] s) = Ok s' /\
    ssl s' !! 0%nat = Some (mk_ssl SslLive ssl_read_callback handshake_callback ssl_close_callback true) /\
    conns (base s') !! 0%nat = Some x' /\ state x' = k_connected /\ events (handler x') = kwrite_event.
Proof.
  apply (handshake_ends_in_last_interest 0 [false; true] (demo_server kread_event) (demo_conn kread_event)
    (mk_ssl SslNull connection_read connection_write connection_close false)); try reflexivity; apply lookup_singleton_eq || apply lookup_insert_eq.
Defined.

(** The end of the stream is not noticed: nothing is closed, and the event
    that epoll reported is reported again. *)
Lemma end_of_stream_is_ignored junk kw om il c (reset : bool) s x y : conns (base s) !! c = Some x -> ssl s !! c = Some y -> conn_pri y = SslLive ->
  ssl_handler_read junk kw om il c (SslNone 0 reset) s = Ok s.
Proof.
  intros Hx Hy Hl. unfold ssl_handler_read, get, use_ssl, get_ssl. rewrite Hx, Hy. cbn [of_option res_bind]. rewrite Hl. done.
Qed.
(** A handshake that fails for good neither. *)
Lemma failed_handshake_is_ignored c s x y : conns (base s) !! c = Some x -> ssl s !! c = Some y -> conn_pri y = SslLive ->
  ssl_handler_handshake c (-1) SSL_ERROR_OTHER s = Ok s.
Proof.
  intros Hx Hy Hl. unfold ssl_handler_handshake, get, use_ssl, get_ssl. rewrite Hx, Hy. cbn [of_option res_bind]. rewrite Hl. done.
Qed.
(** What an application sends with [conn_send] is handed to [write] as it is,
    past OpenSSL. *)
Lemma conn_send_is_plaintext junk kw c data w x : conns w !! c = Some x -> state x = k_connected -> is_writing (handler x) = false ->
  readable_bytes (output_buffer x) = 0 -> kw (ticks w) (zlen data) = Wrote (zlen data) ->
  exists w', conn_send junk kw true c data w = Ok w' /\ log w' = log w ++ [EvSend c data] ++ [EvDirect c data (Wrote (zlen data))].
Proof.
  intros Hx Hs Hw Hr Hk. unfold conn_send, conn_send_in_loop, get. rewrite Hx. cbn [of_option res_bind]. rewrite decide_True by done.
  cbv iota. rewrite decide_False by (by rewrite Hs). rewrite Hw, Hr. cbn. rewrite Hk.
  rewrite Z.sub_diag. cbn. eexists. split; [done|]. cbn. by rewrite <-app_assoc.
Qed.
(** A hang-up that is reported while the handler waits to write: the [SSL] is
    freed by the close callback and then used by the write callback. *)
Definition hung_up : gp_ssl_server :=
  put_ssl 0 (mk_ssl SslLive ssl_read_callback handshake_callback ssl_close_callback true)
    (let s := demo_server kwrite_event in
     with_base s (put 0 (set_handler (demo_conn kwrite_event) (put_revents (handler (demo_conn kwrite_event)) (Z.lor POLLHUP POLLOUT))) (base s))).
Example hang_up_uses_freed_ssl :
  ssl_handle_event (fun _ => 7) (fun _ n => Wrote n) (fun _ _ => readv_data []) (fun _ _ => []) (fun _ _ => []) true
    0 (1, SSL_ERROR_OTHER) (SslNone 0 false) hung_up = Ub.
Proof. vm_compute. reflexivity. Qed.
