(* ===== verification/SslServer.v ===== *)
(** * gp_ssl_server.c, gp_ipc_server.c: setting up the SSL server, and the default callbacks

    What [create_gp_ssl_server] and [gp_set_ssl_cert_key] ask of OpenSSL, over
    the server of Server.v.  A context is whatever OpenSSL makes of it; the
    calls that load a key or a certificate give the context they leave, or
    [None] when their result is not positive.  [Exit]: the process has called
    [exit(1)].  The callbacks print the peer of a connection whose message has
    no callback. *)

From Stdlib Require Import String.
From S2P Require Import Prelude CStr Buffer Handler Conn SockAddr Server.
Local Open Scope Z_scope.

(** Memory without a NUL. *)
Lemma c_string_whole m : Forall (fun c => c <> 0) m -> c_string m = m.
Proof. induction 1 as [|c m Hc _ IH]; [done|]. cbn [c_string]. rewrite (proj2 (Z.eqb_neq _ _) Hc). by rewrite IH. Qed.

(** ** OpenSSL's contexts *)
Class SslContext (C : Type) := {
  SSL_CTX_new : option C;
  SSL_CTX_use_PrivateKey_file : C -> cstr -> option C;
  SSL_CTX_use_certificate_file : C -> cstr -> option C;
  SSL_CTX_check_private_key : C -> bool;
}.

(** How a call ends that may end the process. *)
Inductive outcome (A : Type) := Returned (a : A) | Aborted | Exit.
Arguments Returned {A} a.
Arguments Aborted {A}.
Arguments Exit {A}.

Section Setup.
Context `{SslContext C}.
Context (pton4 pton6 : cstr -> option (list Z)) (ntop4 ntop6 : list Z -> cstr) (junk : nat -> Z).

Record gp_ssl_server := mk_ssl { ssl_base : gp_server; ctx : C }.
(** The key first; OpenSSL compares it with the certificate at the end. *)
Definition gp_set_ssl_cert_key (s : gp_ssl_server) (cert key : cstr) : outcome gp_ssl_server :=
  match SSL_CTX_use_PrivateKey_file (ctx s) key with
  | None => Exit
  | Some c =>
      match SSL_CTX_use_certificate_file c cert with
      | None => Exit
      | Some c => if SSL_CTX_check_private_key c then Returned (mk_ssl (ssl_base s) c) else Exit
      end
  end.
(** [name] is not used. *)
Definition init_gp_ssl_server (sock bound : Z) (address : list Z) : res (list sys * outcome gp_ssl_server) :=
  let* (evs, s) := init_gp_server ntop4 ntop6 junk sock bound address (lit "gp_ssl") in
  Ok (evs, match s with
           | None => Aborted
           | Some s =>
               match SSL_CTX_new with
               | None => Exit
               | Some c => Returned (mk_ssl (server_set_connection_callback s) c)
               end
           end).
Definition create_gp_ssl_server := init_gp_ssl_server.
Definition gp_ssl_start_server (in_loop : bool) (lid : nat) (listening : Z) (s : gp_ssl_server) (w : world)
    : res (list sys * option (gp_acceptor * world)) := start_server in_loop lid listening (ssl_base s) w.

(** ** The default callbacks *)
(** [ip] is an array of 20 bytes that nothing has been written to; what is
    printed: the address, the port and the message's name. *)
Definition protobuf_default_callback (name : list Z) (msg_name : cstr) : res (cstr * Z * cstr) :=
  let* (ip, port) := get_peer_address ntop4 junk name (malloc junk 20) 20 in
  let* s := str_at ip 0 in Ok (s, port, msg_name).
Definition ssl_protobuf_default_callback := protobuf_default_callback.

(** A peer over IPv4 is named by its address and port.  Over a domain socket,
    which is what the IPC server listens on, [inet_ntop] is left without room,
    and the array is printed as it was: when it holds no NUL, past its end. *)
Theorem default_callback_outcomes (msg_name : cstr) (a : list Z) (port : Z) (rest : list Z) :
  ntop_ok ntop4 -> length a = 4%nat -> length rest = 8%nat -> 0 <= port < 65536 ->
  protobuf_default_callback (le_bytes 2 AF_INET ++ be_bytes 2 port ++ a ++ rest) msg_name = Ok (ntop4 a, port, msg_name) /\
  ((forall b, 2 <= zlen (ntop4 b)) -> (forall k, u8 (junk k) <> 0) -> protobuf_default_callback (le_bytes 2 AF_UNIX) msg_name = Ub).
Proof.
  intros Hok Ha Hr Hp. assert (H20 : zlen (malloc junk 20) = 20) by by apply zlen_malloc. split.
  - unfold protobuf_default_callback, get_peer_address. set (name := le_bytes 2 AF_INET ++ _).
    assert (Hz : length name = 16%nat) by (unfold name; by rewrite !length_app, length_be_bytes, Ha, Hr).
    rewrite take_ge by (rewrite Hz; cbn; lia).
    assert (Hw : mem_write (malloc junk sizeof_in) 0 name = Some name).
    { pose proof (mem_write_app [] (malloc junk sizeof_in) name [] 0 eq_refl) as E. cbn [app] in E. rewrite !app_nil_r in E. apply E.
      apply Nat2Z.inj. change (zlen (malloc junk sizeof_in) = zlen name). rewrite zlen_malloc by done. unfold zlen. by rewrite Hz. }
    rewrite Hw. cbn [of_option res_bind]. assert (Hb : mem_read name 4 4 = Some a).
    { unfold name. rewrite (app_assoc (le_bytes 2 AF_INET)). apply mem_read_app; unfold zlen; [by rewrite length_app, length_be_bytes|by rewrite Ha]. }
    rewrite Hb. cbn [of_option res_bind]. assert (Hzz : zlen name = 16) by (unfold zlen; by rewrite Hz). rewrite Hzz. change (u32 16) with 16.
    destruct (Hok a) as [Hs Hl]. destruct (inet_ntop_fits (ntop4 a) (malloc junk 20) 16 Hs) as (tail&->); [lia|]. cbn [res_bind].
    assert (Hpt : mem_read name 2 2 = Some (be_bytes 2 port)) by (unfold name; by apply mem_read_app; unfold zlen; rewrite ?length_be_bytes).
    rewrite Hpt. cbn [of_option res_bind]. rewrite str_at_head by done. cbn [res_bind]. rewrite be_val_be_bytes. by rewrite Z.mod_small.
  - intros H2 Hj. unfold protobuf_default_callback.
    destruct (domain_peer_has_no_text ntop4 junk (malloc junk 20) 20) as (p&->); [done|done|]. cbn [res_bind].
    unfold str_at. rewrite drop_0, c_string_whole.
    + cbv zeta. by rewrite H20.
    + unfold malloc. apply Forall_fmap, Forall_true. intros k. apply Hj.
Qed.

(** ** What is asked of the kernel and of OpenSSL *)
(** A server for a text of any of the three types, with its key and its
    certificate: the system calls are those of any server, no message callback
    is set, and the process goes on exactly if the address can be bound and
    OpenSSL accepts the key, the certificate and the pair. *)
Theorem ssl_server_sets_up (type : address_type) (address : cstr) (a : list Z) (port sock bound : Z) (cert key : cstr) :
  names pton4 pton6 ntop4 ntop6 type address a -> zlen address < 40 ->
  (let* m := create_gp_sock_address pton4 pton6 address port type in
   let* (evs, s) := create_gp_ssl_server sock bound m in
   Ok (evs, match s with Returned s => gp_set_ssl_cert_key s cert key | Aborted => Aborted | Exit => Exit end)) =
  Ok (setup_calls type address a port sock,
      if bound <? 0 then Aborted
      else match SSL_CTX_new with
           | None => Exit
           | Some c0 =>
               match SSL_CTX_use_PrivateKey_file c0 key ≫= fun c => SSL_CTX_use_certificate_file c cert with
               | Some c =>
                   if SSL_CTX_check_private_key c then
                     Returned (mk_ssl (mk_server (lit "gp_ssl" ++ calloc 9) 1
                       (mk_acceptor (set_read_callback (init_gp_handler sock)) 0 sock true) false true false) c)
                   else Exit
               | None => Exit
               end
           end).
Proof.
  intros Hn Hl. rewrite (create_layout _ _ ntop4 ntop6 type address a) by done. cbn [res_bind].
  unfold create_gp_ssl_server, init_gp_ssl_server, init_gp_server.
  change (strcpy_at (calloc 15) 0 15 (lit "gp_ssl")) with (Ok (lit "gp_ssl" ++ calloc 9)). cbn [res_bind].
  rewrite (init_acceptor_ok pton4 pton6 ntop4 ntop6 junk type address a port sock bound) by done. cbn [res_bind]. destruct (bound <? 0); [done|]. cbn [res_bind].
  destruct SSL_CTX_new as [c0|]; [|done]. unfold gp_set_ssl_cert_key. cbn [ctx ssl_base].
  destruct (SSL_CTX_use_PrivateKey_file c0 key) as [c|]; [|done]. cbn [mbind option_bind].
  destruct (SSL_CTX_use_certificate_file c cert) as [c'|]; [|done]. by destruct (SSL_CTX_check_private_key c').
Qed.
End Setup.
